(** * AstroInsight: chart serialisation, house placement and insight dispatch

    A shallow embedding of the calculation and AI-dispatch core of the
    AstroInsight server:

    - [src/server/utils/astroLogic.js]: [formatLongitude],
      [getHousePlacement], [formatBirthChartDataAsXML],
      [formatTransitDataAsXML];
    - [src/server/integrations/claude.js]: [calculateCost],
      [logClaudeApiCall], [getClaudeInsight], [SYSTEM_PROMPTS];
    - [src/server/integrations/ephemeris.js]: [calculateBirthChartData];
    - [src/server/actions/astrology.js]: the prompt selection of
      [getAstrologyReport] and of [askAstrologyQuestion],
      [checkUserLimits], [decrementUserCredits], [deleteBirthChart];
    - [src/server/integrations/stripe.js]: [PLAN_DETAILS],
      [getPlanDetailsById], the plan check of
      [createStripeCheckoutSession];
    - [src/server/integrations/geolocation.js]: [geocodeAddress],
      [getTimezone], [logGoogleApiCall];
    - [src/server/jobs/monthlyHoroscope.js]: [getTransitDataForMonth].

    Modelling conventions.  A finite JavaScript number is carried by the
    rational it denotes ([Q]); the doubles are the rationals that
    [is_double] accepts.  The operations that round in IEEE 754 binary64
    arithmetic ([+], [-], [*], [/]) are followed by [rnd], the rounding to
    the nearest double with ties to even; [%], [Math.floor], comparisons,
    negation and [toFixed] are exact on doubles.  No operation of the code
    modelled overflows on finite arguments.  The negative zero is not told
    apart from zero: the code modelled never divides by a variable, and
    prints no sign for a zero.  [NaN], the infinities and a value that is
    not a number are explicit constructors where the source can meet them.
    A text is the sequence of the bytes of its UTF-8 encoding; the length
    and the code units that JavaScript sees are computed from them.  A
    thrown exception is the [Throw] constructor of [completion].  External
    collaborators (the model provider, the ephemeris library, the ledger
    table) are oracles and explicit state.  The theorems on numbers
    quantify over all rationals, the doubles among them; the inputs of the
    examples that turn on rounding are doubles, which [is_double]
    confirms. *)

From Stdlib Require Import ZArith QArith Qpower Qround Qabs Lia Lqa List Bool.
From Stdlib Require Import Sorted.
From Stdlib Require Import Ascii String DecimalString.
From Stdlib Require DecimalZ DecimalPos.
Import ListNotations.

Local Open Scope Z_scope.
Local Open Scope Q_scope.

(* ================================================================== *)
(** * JavaScript arithmetic on doubles *)
(* ================================================================== *)

Module JsNum.

(** [Math.trunc]: rounding toward zero.  [Z.quot] truncates. *)
Definition Qtrunc (x : Q) : Z := Z.quot (Qnum x) (Zpos (Qden x)).

(** The JavaScript remainder [a % b]: the result has the sign of the
    dividend, [a - b * trunc (a / b)].  The remainder of two doubles is a
    double, so nothing is rounded. *)
Definition js_rem (a b : Q) : Q := a - b * inject_Z (Qtrunc (a / b)).

(** [a < b]. *)
Definition Qltb (a b : Q) : bool := negb (Qle_bool b a).

(** ** Rounding to binary64 *)

Definition pow2 (z : Z) : Q := 2 ^ z.

(** The integer part of the binary logarithm of a positive rational. *)
Definition Qlog2 (x : Q) : Z :=
  if Qle_bool 1 x then Z.log2 (Qfloor x)
  else (- Z.log2_up (Qceiling (/ x)))%Z.

(** The exponent of the binade of [x]: [2^e <= |x| < 2^(e+1)], and -1022
    throughout the subnormal range. *)
Definition exponent (x : Q) : Z :=
  if Qle_bool (Qabs x) (pow2 (-1022)) then (-1022)%Z else Qlog2 (Qabs x).

(** The unit in the last place: the spacing of the doubles of the binade
    of [x], which have 53 significant bits. *)
Definition ulp (x : Q) : Q := pow2 (exponent x - 52).

(** The nearest integer, the even one of two that are equally near. *)
Definition round_half_even (q : Q) : Z :=
  let f := Qfloor q in
  match Qcompare (q - inject_Z f) (1 # 2) with
  | Lt => f
  | Gt => (f + 1)%Z
  | Eq => if Z.even f then f else (f + 1)%Z
  end.

(** The double nearest to [x], ties to even (below the overflow
    threshold, which the code modelled does not reach). *)
Definition rnd (x : Q) : Q := inject_Z (round_half_even (x / ulp x)) * ulp x.

(** [x] is a finite double. *)
Definition is_double (x : Q) : bool :=
  Qeq_bool (rnd x) x && Qltb (Qabs x) (pow2 1024).

(** The double that a decimal literal of the source text denotes. *)
Definition double_of_decimal (q : Q) : Q := rnd q.

(** [a + b], [a - b], [a * b] and [a / b] on doubles. *)
Definition fadd (a b : Q) : Q := rnd (a + b).
Definition fsub (a b : Q) : Q := rnd (a - b).
Definition fmul (a b : Q) : Q := rnd (a * b).
Definition fdiv (a b : Q) : Q := rnd (a / b).

(** [(x % 360 + 360) % 360], the normalisation idiom used throughout
    astroLogic.js: the two remainders are exact, the sum is rounded. *)
Definition norm360 (x : Q) : Q := js_rem (fadd (js_rem x 360) 360) 360.

(** ** Notions of exact arithmetic, for the statements *)

(** The mathematical residue of [x] modulo [m] (floor based); this is the
    specification-side notion of "mod". *)
Definition Qmod (x m : Q) : Q := x - m * inject_Z (Qfloor (x / m)).

(** [x] is a whole multiple of [2^t]. *)
Definition grid (t : Z) (x : Q) : Prop :=
  exists k : Z, x == inject_Z k * pow2 t.

End JsNum.

Import JsNum.


(* ================================================================== *)
(** * JavaScript strings and completions *)
(* ================================================================== *)

Module JsStr.

Local Open Scope string_scope.

(** The double quote character, code 34. *)
Definition dq : string := String (ascii_of_nat 34) EmptyString.

(** [String(n)] for an integer [n] (decimal digits, leading minus). *)
Definition string_of_Z (n : Z) : string :=
  DecimalString.NilZero.string_of_int (Z.to_int n).

Fixpoint repeat0 (n : nat) : string :=
  match n with
  | O => ""
  | S k => "0" ++ repeat0 k
  end.

(** [s.padStart(targetLength, '0')], for a text of digits. *)
Definition padStart0 (targetLength : nat) (s : string) : string :=
  repeat0 (targetLength - String.length s) ++ s.

Definition upper_ascii (c : ascii) : ascii :=
  let n := nat_of_ascii c in
  if (andb (Nat.leb 97 n) (Nat.leb n 122)) then ascii_of_nat (n - 32) else c.

(** The capitals of the Latin ligatures U+FB00 to U+FB06, by the third
    byte of their encoding. *)
Definition ligature_capital (b : N) : option string :=
  if N.eqb b 128 then Some "FF"
  else if N.eqb b 129 then Some "FI"
  else if N.eqb b 130 then Some "FL"
  else if N.eqb b 131 then Some "FFI"
  else if N.eqb b 132 then Some "FFL"
  else if N.eqb b 133 then Some "ST"
  else if N.eqb b 134 then Some "ST"
  else None.

(** [s.toUpperCase()].  The ASCII letters are capitalised, and so are
    the characters outside ASCII whose capital is written in ASCII
    letters: the dotless i (U+0131), the long s (U+017F), the sharp s
    (U+00DF) and the ligatures U+FB00 to U+FB06.  The capital of every
    other character outside ASCII holds a character outside ASCII, as
    the character itself does; such a character is left as it is, which
    the code, comparing the result with names written in ASCII only,
    cannot tell apart. *)
Fixpoint toUpperCase (s : string) : string :=
  match s with
  | EmptyString => EmptyString
  | String c r =>
      match r with
      | String c2 r2 =>
          let b := N_of_ascii c in
          let b2 := N_of_ascii c2 in
          if N.eqb b 196 && N.eqb b2 177 then "I" ++ toUpperCase r2
          else if N.eqb b 197 && N.eqb b2 191 then "S" ++ toUpperCase r2
          else if N.eqb b 195 && N.eqb b2 159 then "SS" ++ toUpperCase r2
          else if N.eqb b 239 && N.eqb b2 172 then
            match r2 with
            | String c3 r3 =>
                match ligature_capital (N_of_ascii c3) with
                | Some capital => capital ++ toUpperCase r3
                | None => String (upper_ascii c) (toUpperCase r)
                end
            | EmptyString => String (upper_ascii c) (toUpperCase r)
            end
          else String (upper_ascii c) (toUpperCase r)
      | EmptyString => String (upper_ascii c) EmptyString
      end
  end.

(** [s.length]: the number of UTF-16 code units of the text.  Every
    character counts for one, and a character beyond U+FFFF, whose
    encoding starts with a byte of 240 or more, for two; the bytes from
    128 to 191 continue a character. *)
Fixpoint utf16_length (s : string) : nat :=
  match s with
  | EmptyString => 0
  | String c r =>
      let b := N_of_ascii c in
      ((if N.ltb b 128 || N.leb 192 b then 1 else 0)
       + (if N.leb 240 b then 1 else 0) + utf16_length r)%nat
  end.

(** The value of the byte that continues a character. *)
Definition continuation (s : string) : N * string :=
  match s with
  | String c r => ((N_of_ascii c - 128)%N, r)
  | EmptyString => (0%N, EmptyString)
  end.

(** [s.charCodeAt(0)]: the first UTF-16 code unit of the text, [None]
    ([NaN]) for the empty text.  A character beyond U+FFFF gives the
    first unit of its surrogate pair. *)
Definition charCodeAt0 (s : string) : option nat :=
  match s with
  | EmptyString => None
  | String c r =>
      let b := N_of_ascii c in
      let '(b1, r1) := continuation r in
      let '(b2, r2) := continuation r1 in
      let '(b3, _) := continuation r2 in
      Some (N.to_nat
              (if N.ltb b 192 then b
               else if N.ltb b 224 then (b - 192) * 64 + b1
               else if N.ltb b 240 then (b - 224) * 4096 + b1 * 64 + b2
               else 55296
                    + ((b - 240) * 262144 + b1 * 4096 + b2 * 64 + b3 - 65536)
                      / 1024)%N)
  end.

(** [x.toFixed(f)] for a finite number below 10^21: the sign first, then
    the integer [n] closest to [|x| * 10^f] (the larger one on a tie),
    printed with at least [f + 1] digits and a point before the last
    [f]. *)
Definition toFixed (x : Q) (f : nat) : string :=
  let sgn := if Qle_bool 0 x then "" else "-" in
  let ax := Qabs x in
  let n := Qfloor (ax * inject_Z (10 ^ Z.of_nat f) + (1 # 2)) in
  let m := padStart0 (f + 1) (string_of_Z n) in
  let k := (String.length m - f)%nat in
  match f with
  | O => sgn ++ m
  | _ => sgn ++ substring 0 k m ++ "." ++ substring k f m
  end.

(** Truthiness of a string and of a finite number. *)
Definition truthy_string (s : string) : bool := negb (String.eqb s "").
Definition truthy_number (x : Q) : bool := negb (Qeq_bool x 0).

End JsStr.

Import JsStr.

(** What a JavaScript call completes with: a value or a thrown error. *)
Inductive js_error : Type :=
| TypeError (message : string)
| Error (message : string).

Inductive completion (A : Type) : Type :=
| Return (a : A)
| Throw (e : js_error).

Arguments Return {A} a.
Arguments Throw {A} e.

Definition bind {A B : Type} (c : completion A) (k : A -> completion B)
  : completion B :=
  match c with
  | Return a => k a
  | Throw e => Throw e
  end.

Declare Scope js_scope.
Delimit Scope js_scope with js.
Notation "x <- c ;; k" := (bind c (fun x => k))
  (at level 61, c at next level, right associativity) : js_scope.

(** Reading a property of [undefined]: [o.method(...)] with [o] missing. *)
Definition require {A : Type} (what : string) (o : option A) : completion A :=
  match o with
  | Some a => Return a
  | None => Throw (TypeError what)
  end.

(* ================================================================== *)
(** * src/server/utils/astroLogic.js *)
(* ================================================================== *)

Module AstroLogic.

Local Open Scope string_scope.

Definition ZODIAC_SIGNS : list string :=
  [ "Aries"; "Taurus"; "Gemini"; "Cancer"; "Leo"; "Virgo";
    "Libra"; "Scorpio"; "Sagittarius"; "Capricorn"; "Aquarius"; "Pisces" ].

(** The argument of [formatLongitude] as the guard of its first line sees
    it: not of type number, the number [NaN], an infinity, or a finite
    number. *)
Inductive js_arg : Type :=
| NotNumber
| NaN
| Infinite (negative : bool)
| Num (q : Q).

(** The remainder of an infinity is [NaN], and so is all that is
    computed from it: the sign is [ZODIAC_SIGNS[NaN]], which is
    [undefined], and the three numbers print as [NaN], which
    [padStart(2, '0')] leaves as it is. *)
Definition formatLongitude (totalDegrees : js_arg) : string :=
  match totalDegrees with
  | NotNumber | NaN => "N/A"
  | Infinite _ => "NaN° undefined NaN' NaN" ++ dq
  | Num totalDegrees =>
      let correctedDegrees :=
        js_rem (fadd (js_rem totalDegrees 360) 360) 360 in
      let signIndex := Qfloor (fdiv correctedDegrees 30) in
      let degreesInSign := js_rem correctedDegrees 30 in
      let degrees := Qfloor degreesInSign in
      let minutesDecimal :=
        fmul (fsub degreesInSign (inject_Z degrees)) 60 in
      let minutes := Qfloor minutesDecimal in
      let seconds :=
        Qfloor (fmul (fsub minutesDecimal (inject_Z minutes)) 60) in
      string_of_Z degrees ++ "° "
        ++ nth (Z.to_nat signIndex) ZODIAC_SIGNS "undefined" ++ " "
        ++ padStart0 2 (string_of_Z minutes) ++ "' "
        ++ padStart0 2 (string_of_Z seconds) ++ dq
  end.

(** ** getHousePlacement *)

(** The result of [getHousePlacement]: a house number, [null], or the
    [NaN] that the whole-sign arithmetic yields on a missing ascendant. *)
Inductive placement : Type :=
| House (n : Z)
| NullHouse
| NaNHouse.

(** The body of the [for] loop at index [i]: does the planet fall between
    cusp [i] and the next one. *)
Definition between_cusps (houseCusps : list Q) (planetLon : Q) (i : nat)
  : bool :=
  let cusp1 := norm360 (nth i houseCusps 0) in
  let cusp2 := norm360 (nth ((i + 1) mod 12) houseCusps 0) in
  if Qle_bool cusp1 cusp2 then
    Qle_bool cusp1 planetLon && Qltb planetLon cusp2
  else
    (Qle_bool cusp1 planetLon && Qltb planetLon 360)
    || (Qle_bool 0 planetLon && Qltb planetLon cusp2).

(** [for (let i = ...; i < 12; i++)], with [remaining = 12 - i]. *)
Fixpoint cusp_loop (houseCusps : list Q) (planetLon : Q)
         (remaining i : nat) : placement :=
  match remaining with
  | O => NullHouse
  | S r =>
      if between_cusps houseCusps planetLon i
      then House (Z.of_nat i + 1)
      else cusp_loop houseCusps planetLon r (S i)
  end.

(** A missing argument is [None] ([undefined]). *)
Definition getHousePlacement (planetLongitude : Q)
           (houseCusps : option (list Q)) (ascendantLongitude : option Q)
           (houseSystem : option string) : completion placement :=
  match houseCusps with
  | None => Return NullHouse
  | Some houseCusps =>
      if negb (Nat.eqb (List.length houseCusps) 12) then Return NullHouse
      else
        let planetLon := norm360 planetLongitude in
        (houseSystem <- require "houseSystem.toUpperCase" houseSystem ;;
         if String.eqb (toUpperCase houseSystem) "W" then
           match ascendantLongitude with
           | None => Return NaNHouse
           | Some ascendantLongitude =>
               let ascSignIndex :=
                 Qfloor (fdiv (norm360 ascendantLongitude) 30) in
               let planetSignIndex := Qfloor (fdiv planetLon 30) in
               let house := Z.rem (planetSignIndex - ascSignIndex + 12) 12 in
               Return (House (house + 1))
           end
         else Return (cusp_loop houseCusps planetLon 12 0))%js
  end.

(** [if (housePlacement)]: [null], [NaN] and [0] are falsy. *)
Definition truthy_placement (p : placement) : option Z :=
  match p with
  | House n => if Z.eqb n 0 then None else Some n
  | NullHouse | NaNHouse => None
  end.

(** ** The chart and transit serialisers *)

(** A chart as it reaches the serialiser: the stored chart object with
    [name] and [gender] spread in.  A field that is missing (or [null])
    is [None]; a field that is present has the type the chart builder
    gives it.  [planets] keeps the enumeration order of
    [Object.entries]. *)
Record PlanetData : Type := {
  longitude : option Q;
  latitude : option Q;
  speedLon : option Q;
  isRetrograde : option bool
}.

Record Location : Type := {
  loc_latitude : option Q;
  loc_longitude : option Q;
  timezone : option string
}.

Record Ayanamsa : Type := {
  ayanamsa_name : option string;
  ayanamsa_value : option Q
}.

Record Houses : Type := {
  cusps : option (list Q);
  ascendant : option Q;
  mc : option Q
}.

Record ChartData : Type := {
  name : option string;
  birthDate : option string;
  birthTime : option string;
  location : option Location;
  gender : option string;
  houseSystem : option string;
  ayanamsa : option Ayanamsa;
  planets : option (list (string * PlanetData));
  houses : option Houses
}.

Record TransitData : Type := {
  date : option string;
  transit_planets : option (list (string * PlanetData))
}.

Definition nl : string := String (ascii_of_nat 10) EmptyString.

(** [if (field) xml += open + field + close], for a string field. *)
Definition add_if_string (xml : string) (field : option string)
           (open close : string) : string :=
  match field with
  | Some v => if truthy_string v then xml ++ open ++ v ++ close ++ nl else xml
  | None => xml
  end.

(** [if (field) xml += open + field.toFixed(digits) + close], for a
    number field. *)
Definition add_if_number (xml : string) (field : option Q) (digits : nat)
           (open close : string) : string :=
  match field with
  | Some v =>
      if truthy_number v then xml ++ open ++ toFixed v digits ++ close ++ nl
      else xml
  | None => xml
  end.

(** [if (typeof field === 'number') xml += ...toFixed(6)...]. *)
Definition add_typeof_number (xml : string) (field : option Q)
           (open close : string) : string :=
  match field with
  | Some v => xml ++ open ++ toFixed v 6 ++ close ++ nl
  | None => xml
  end.

Definition string_of_bool (b : bool) : string :=
  if b then "true" else "false".

Definition add_typeof_boolean (xml : string) (field : option bool)
           (open close : string) : string :=
  match field with
  | Some v => xml ++ open ++ string_of_bool v ++ close ++ nl
  | None => xml
  end.

(** One iteration of the [planetary_positions] loop. *)
Definition chart_planet (houses : Houses) (houseSystem : option string)
           (xml : string) (entry : string * PlanetData)
  : completion string :=
  let '(name, data) := entry in
  let xml := xml ++ "    <planet name=" ++ dq ++ name ++ dq ++ ">" ++ nl in
  (lon <- require "data.longitude.toFixed" (longitude data) ;;
   let xml := xml ++ "      <longitude_decimal>" ++ toFixed lon 6
                  ++ "</longitude_decimal>" ++ nl in
   let xml := xml ++ "      <longitude_formatted>" ++ formatLongitude (Num lon)
                  ++ "</longitude_formatted>" ++ nl in
   let xml := add_typeof_number xml (latitude data)
                "      <latitude_decimal>" "</latitude_decimal>" in
   let xml := add_typeof_number xml (speedLon data)
                "      <speed_longitude_per_day>" "</speed_longitude_per_day>" in
   let xml := add_typeof_boolean xml (isRetrograde data)
                "      <is_retrograde>" "</is_retrograde>" in
   housePlacement <- getHousePlacement lon (cusps houses) (ascendant houses)
                       houseSystem ;;
   let xml :=
     match truthy_placement housePlacement with
     | Some n => xml ++ "      <house_placement>" ++ string_of_Z n
                     ++ "</house_placement>" ++ nl
     | None => xml
     end in
   Return (xml ++ "    </planet>" ++ nl))%js.

(** [for (const entry of entries) ...], threading [xml] and stopping at
    the first throw. *)
Fixpoint for_of {A : Type} (body : string -> A -> completion string)
         (entries : list A) (xml : string) : completion string :=
  match entries with
  | [] => Return xml
  | e :: rest => (xml <- body xml e ;; for_of body rest xml)%js
  end.

(** One call of the [forEach] callback over the cusps, at [index]. *)
Definition chart_cusp (xml : string) (item : nat * Q) : completion string :=
  let '(index, cusp) := item in
  let xml := xml ++ "    <house_cusp number=" ++ dq
                 ++ string_of_Z (Z.of_nat index + 1) ++ dq ++ ">" ++ nl in
  let xml := xml ++ "      <longitude_decimal>" ++ toFixed cusp 6
                 ++ "</longitude_decimal>" ++ nl in
  let xml := xml ++ "      <longitude_formatted>" ++ formatLongitude (Num cusp)
                 ++ "</longitude_formatted>" ++ nl in
  Return (xml ++ "    </house_cusp>" ++ nl).

Definition indexed {A : Type} (l : list A) : list (nat * A) :=
  combine (seq 0 (List.length l)) l.

Definition insufficient_chart : string :=
  "<error>Insufficient chart data provided</error>".

(** The [personal_information] element. *)
Definition personal_information (chartData : ChartData) (xml : string)
  : string :=
  let xml := xml ++ "  <personal_information>" ++ nl in
  let xml := add_if_string xml (name chartData) "    <name>" "</name>" in
  let xml := add_if_string xml (birthDate chartData)
               "    <birth_date>" "</birth_date>" in
  let xml := add_if_string xml (birthTime chartData)
               "    <birth_time>" "</birth_time>" in
  let xml :=
    match location chartData with
    | Some loc =>
        match timezone loc with
        | Some tz =>
            if truthy_string tz then
              let xml := xml ++ "    <birth_location_details>" ++ nl in
              let xml := add_if_number xml (loc_latitude loc) 4
                           "      <latitude>" "</latitude>" in
              let xml := add_if_number xml (loc_longitude loc) 4
                           "      <longitude>" "</longitude>" in
              let xml := xml ++ "      <timezone>" ++ tz ++ "</timezone>"
                             ++ nl in
              xml ++ "    </birth_location_details>" ++ nl
            else xml
        | None => xml
        end
    | None => xml
    end in
  let xml := add_if_string xml (gender chartData)
               "    <gender>" "</gender>" in
  xml ++ "  </personal_information>" ++ nl.

(** [chartData.ayanamsa && chartData.ayanamsa.name]: the name and the
    value of a named ayanamsa. *)
Definition named_ayanamsa (chartData : ChartData)
  : option (string * option Q) :=
  match ayanamsa chartData with
  | Some a =>
      match ayanamsa_name a with
      | Some n => if truthy_string n then Some (n, ayanamsa_value a)
                  else None
      | None => None
      end
  | None => None
  end.

(** The [astrological_system] element. *)
Definition astrological_system (chartData : ChartData) (xml : string)
  : completion string :=
  let xml := xml ++ "  <astrological_system>" ++ nl in
  let shownSystem :=
    match houseSystem chartData with
    | Some hs => if truthy_string hs then hs else "Placidus"
    | None => "Placidus"
    end in
  let xml := xml ++ "    <house_system>" ++ shownSystem
                 ++ "</house_system>" ++ nl in
  (xml <-
     match named_ayanamsa chartData with
     | Some (n, value) =>
         let xml := xml ++ "    <calculation_type>Sidereal</calculation_type>"
                        ++ nl in
         let xml := xml ++ "    <ayanamsa_name>" ++ n ++ "</ayanamsa_name>"
                        ++ nl in
         v <- require "chartData.ayanamsa.value.toFixed" value ;;
         Return (xml ++ "    <ayanamsa_value>" ++ toFixed v 6
                     ++ "</ayanamsa_value>" ++ nl)
     | None =>
         Return (xml ++ "    <calculation_type>Tropical</calculation_type>"
                     ++ nl)
     end ;;
   Return (xml ++ "  </astrological_system>" ++ nl))%js.

(** The [planetary_positions] element. *)
Definition planetary_positions (chartData : ChartData)
           (thePlanets : list (string * PlanetData)) (theHouses : Houses)
           (xml : string) : completion string :=
  let xml := xml ++ "  <planetary_positions>" ++ nl in
  (xml <- for_of (chart_planet theHouses (houseSystem chartData))
                 thePlanets xml ;;
   Return (xml ++ "  </planetary_positions>" ++ nl))%js.

(** The [house_cusps] element. *)
Definition house_cusps (theHouses : Houses) (xml : string)
  : completion string :=
  let xml := xml ++ "  <house_cusps>" ++ nl in
  (asc <- require "chartData.houses.ascendant.toFixed"
                  (ascendant theHouses) ;;
   let xml := xml ++ "    <ascendant_longitude_decimal>" ++ toFixed asc 6
                  ++ "</ascendant_longitude_decimal>" ++ nl in
   let xml := xml ++ "    <ascendant_longitude_formatted>"
                  ++ formatLongitude (Num asc)
                  ++ "</ascendant_longitude_formatted>" ++ nl in
   themc <- require "chartData.houses.mc.toFixed" (mc theHouses) ;;
   let xml := xml ++ "    <midheaven_longitude_decimal>" ++ toFixed themc 6
                  ++ "</midheaven_longitude_decimal>" ++ nl in
   let xml := xml ++ "    <midheaven_longitude_formatted>"
                  ++ formatLongitude (Num themc)
                  ++ "</midheaven_longitude_formatted>" ++ nl in
   theCusps <- require "chartData.houses.cusps.forEach" (cusps theHouses) ;;
   xml <- for_of chart_cusp (indexed theCusps) xml ;;
   Return (xml ++ "  </house_cusps>" ++ nl))%js.

Definition formatBirthChartDataAsXML (chartData : option ChartData)
  : completion string :=
  match chartData with
  | None => Return insufficient_chart
  | Some chartData =>
    match planets chartData, houses chartData with
    | None, _ | _, None => Return insufficient_chart
    | Some thePlanets, Some theHouses =>
      let xml := "<birth_chart_details>" ++ nl in
      let xml := personal_information chartData xml in
      (xml <- astrological_system chartData xml ;;
       xml <- planetary_positions chartData thePlanets theHouses xml ;;
       xml <- house_cusps theHouses xml ;;
       Return (xml ++ "</birth_chart_details>"))%js
    end
  end.

(** One iteration of the [transiting_planets] loop. *)
Definition transit_planet (xml : string) (entry : string * PlanetData)
  : completion string :=
  let '(name, data) := entry in
  let xml := xml ++ "    <planet name=" ++ dq ++ name ++ dq ++ ">" ++ nl in
  (lon <- require "data.longitude.toFixed" (longitude data) ;;
   let xml := xml ++ "      <longitude_decimal>" ++ toFixed lon 6
                  ++ "</longitude_decimal>" ++ nl in
   let xml := xml ++ "      <longitude_formatted>" ++ formatLongitude (Num lon)
                  ++ "</longitude_formatted>" ++ nl in
   let xml := add_typeof_number xml (speedLon data)
                "      <speed_longitude_per_day>" "</speed_longitude_per_day>" in
   let xml := add_typeof_boolean xml (isRetrograde data)
                "      <is_retrograde>" "</is_retrograde>" in
   Return (xml ++ "    </planet>" ++ nl))%js.

Definition insufficient_transit : string :=
  "<error>Insufficient transit data provided</error>".

Definition formatTransitDataAsXML (transitData : option TransitData)
  : completion string :=
  match transitData with
  | None => Return insufficient_transit
  | Some transitData =>
    match date transitData, transit_planets transitData with
    | None, _ | _, None => Return insufficient_transit
    | Some theDate, Some thePlanets =>
      if negb (truthy_string theDate) then Return insufficient_transit
      else
        let xml := "<transit_details>" ++ nl in
        let xml := xml ++ "  <transit_date>" ++ theDate ++ "</transit_date>"
                       ++ nl in
        let xml := xml ++ "  <transiting_planets>" ++ nl in
        (xml <- for_of transit_planet thePlanets xml ;;
         let xml := xml ++ "  </transiting_planets>" ++ nl in
         Return (xml ++ "</transit_details>"))%js
    end
  end.

End AstroLogic.


(* ================================================================== *)
(** * Plain JavaScript objects used as lookup tables *)
(* ================================================================== *)

Module JsObject.

Local Open Scope string_scope.

(** The property names every plain object inherits from
    [Object.prototype]. *)
Definition Object_prototype_keys : list string :=
  [ "constructor"; "__defineGetter__"; "__defineSetter__";
    "hasOwnProperty"; "__lookupGetter__"; "__lookupSetter__";
    "isPrototypeOf"; "propertyIsEnumerable"; "toString"; "valueOf";
    "__proto__"; "toLocaleString" ].

(** What [table[key]] evaluates to: the value of an own property, a
    member inherited from [Object.prototype] (a function or object,
    hence truthy), or [undefined]. *)
Inductive property (A : Type) : Type :=
| Own (a : A)
| Inherited (key : string)
| Undefined.

Arguments Own {A} a.
Arguments Inherited {A} key.
Arguments Undefined {A}.

(** The own properties of an object literal, in source order; when a
    computed key occurs twice the later definition wins. *)
Fixpoint own {A : Type} (literal : list (string * A)) (key : string)
  : option A :=
  match literal with
  | [] => None
  | (k, v) :: rest =>
      match own rest key with
      | Some later => Some later
      | None => if String.eqb k key then Some v else None
      end
  end.

Definition get {A : Type} (literal : list (string * A)) (key : string)
  : property A :=
  match own literal key with
  | Some v => Own v
  | None =>
      if existsb (String.eqb key) Object_prototype_keys
      then Inherited key else Undefined
  end.

End JsObject.

(* ================================================================== *)
(** * src/server/integrations/claude.js *)
(* ================================================================== *)

Module Claude.

Local Open Scope string_scope.

(** A JavaScript number that may be [NaN]. *)
Inductive number : Type :=
| Finite (q : Q)
| NotANumber.

(** The source divides only by the constant 1000000, so the quotient by
    zero, which JavaScript gives as an infinity, never arises. *)
Definition num_div (a b : number) : number :=
  match a, b with
  | Finite x, Finite y => if Qeq_bool y 0 then NotANumber else Finite (fdiv x y)
  | _, _ => NotANumber
  end.

Definition num_mul (a b : number) : number :=
  match a, b with
  | Finite x, Finite y => Finite (fmul x y)
  | _, _ => NotANumber
  end.

Definition num_add (a b : number) : number :=
  match a, b with
  | Finite x, Finite y => Finite (fadd x y)
  | _, _ => NotANumber
  end.

Record Message : Type := { role : string; content : string }.

Record Usage : Type := {
  input_tokens : option Q;
  output_tokens : option Q
}.

Record ContentBlock : Type := { text : option string }.

(** What [anthropic.messages.create] resolves with. *)
Record Response : Type := {
  usage : option Usage;
  response_content : list ContentBlock
}.

(** What the [catch] clause receives: [error.message] and
    [error.response?.data]. *)
Record Caught : Type := {
  message : string;
  response_data : option string
}.

Record RequestPayload : Type := {
  payload_model : string;
  max_tokens : Z;
  system : string;
  messages : list Message
}.

(** The [data] object passed to [prisma.apiLog.create].  A field the
    caller left out is [None]. *)
Inductive LoggedResponse : Type :=
| LoggedContent (blocks : list ContentBlock)
| LoggedErrorData (data : option string).

Record ApiLog : Type := {
  userId : option Z;
  apiService : string;
  endpoint : string;
  tokenCountIn : option number;
  tokenCountOut : option number;
  cost : option number;
  isSuccess : bool;
  errorMessage : option string;
  requestData : string * list Message;
  responseData : LoggedResponse
}.

Record InsightResult : Type := {
  result_content : string;
  modelUsed : string;
  result_usage : option Usage;
  result_cost : number
}.

(** What the call does to the outside world, in order. *)
Inductive event : Type :=
| ProviderCall (attempt : nat) (payload : RequestPayload)
| ApiLogCreate (record : ApiLog) (stored : bool)
| Sleep (ms : Z).

Definition MAX_TOKENS : Z := 4000.

Record Pricing : Type := { input : Q; output : Q }.

Section Configured.

(** [process.env.CLAUDE_PREMIUM_MODEL || ...] and
    [process.env.CLAUDE_BASIC_MODEL || ...]. *)
Variables PREMIUM_MODEL BASIC_MODEL : string.

(** Whether [anthropic] is non-null (an API key was configured). *)
Variable anthropic : bool.

(** [anthropic.messages.create], by attempt number. *)
Variable messages_create : nat -> RequestPayload -> Response + Caught.

(** Whether [prisma.apiLog.create] accepts the record. *)
Variable apiLog_create : ApiLog -> bool.

(** [logClaudeApiCall]: one [create]; a database error is caught and
    only logged, so the function always completes normally. *)
Definition logClaudeApiCall (record : ApiLog) (trace : list event)
  : list event :=
  (trace ++ [ApiLogCreate record (apiLog_create record)])%list.

Definition MODEL_PRICING : list (string * Pricing) :=
  [ (PREMIUM_MODEL, {| input := 3; output := 15 |});
    (BASIC_MODEL, {| input := 25 # 100; output := 125 # 100 |}) ].

Definition calculateCost (model : string) (inputTokens outputTokens : number)
  : number :=
  match JsObject.get MODEL_PRICING model with
  | JsObject.Undefined => Finite 0
  | JsObject.Inherited _ => NotANumber
  | JsObject.Own pricing =>
      let inputCost :=
        num_mul (num_div inputTokens (Finite 1000000))
                (Finite (input pricing)) in
      let outputCost :=
        num_mul (num_div outputTokens (Finite 1000000))
                (Finite (output pricing)) in
      num_add inputCost outputCost
  end.

(** [reported || estimate]: a missing or zero count is falsy. *)
Definition or_estimate (reported : option Q) (estimate : number) : number :=
  match reported with
  | Some n => if truthy_number n then Finite n else estimate
  | None => estimate
  end.

(** [messages.map(m => m.content).join('\n')]. *)
Definition inputText (msgs : list Message) : string :=
  String.concat (String (ascii_of_nat 10) EmptyString) (map content msgs).

(** [s.length / 4]: a quarter of the number of UTF-16 code units.  The
    quotient of a length by 4 is a double, so nothing is rounded. *)
Definition length_over_4 (s : string) : number :=
  Finite (inject_Z (Z.of_nat (utf16_length s)) / 4).

(** [response.usage?.input_tokens] and [response.usage?.output_tokens]. *)
Definition reported_input_tokens (response : Response) : option Q :=
  match usage response with
  | Some u => input_tokens u
  | None => None
  end.

Definition reported_output_tokens (response : Response) : option Q :=
  match usage response with
  | Some u => output_tokens u
  | None => None
  end.

(** [response.usage?.input_tokens || (inputText.length / 4)]. *)
Definition promptTokens_of (response : Response) (msgs : list Message)
  : number :=
  or_estimate (reported_input_tokens response)
              (length_over_4 (inputText msgs)).

Definition type_error_length : Caught :=
  {| message := "Cannot read properties of undefined (reading 'length')";
     response_data := None |}.

(** [response.usage?.output_tokens ||
     (response.content[0]?.text.length / 4)]: the right operand is only
    evaluated when the reported count is falsy; it is [NaN] without a
    first block and throws on a first block without [text]. *)
Definition completionTokens_of (response : Response) : number + Caught :=
  let estimate : number + Caught :=
    match response_content response with
    | [] => inl NotANumber
    | block :: _ =>
        match text block with
        | Some t => inl (length_over_4 t)
        | None => inr type_error_length
        end
    end in
  match reported_output_tokens response with
  | Some n => if truthy_number n then inl (Finite n) else estimate
  | None => estimate
  end.

(** [response.content[0]?.text || '']. *)
Definition first_text (response : Response) : string :=
  match response_content response with
  | block :: _ => match text block with Some t => t | None => "" end
  | [] => ""
  end.

Definition failure_message (maxAttempts : nat) (error : Caught) : string :=
  "AI service request failed after " ++ string_of_Z (Z.of_nat maxAttempts)
    ++ " attempts: " ++ message error.

(** The [catch] block's ledger record. *)
Definition failed_record (systemPrompt : string) (msgs : list Message)
           (user : option Z) (modelToUse : string) (error : Caught)
  : ApiLog :=
  {| userId := user; apiService := "Claude"; endpoint := modelToUse;
     tokenCountIn := None; tokenCountOut := None; cost := None;
     isSuccess := false; errorMessage := Some (message error);
     requestData := (systemPrompt, msgs);
     responseData := LoggedErrorData (response_data error) |}.

(** The ledger record of a successful attempt. *)
Definition success_record (systemPrompt : string) (msgs : list Message)
           (user : option Z) (modelToUse : string)
           (promptTokens completionTokens theCost : number)
           (response : Response) : ApiLog :=
  {| userId := user; apiService := "Claude"; endpoint := modelToUse;
     tokenCountIn := Some promptTokens;
     tokenCountOut := Some completionTokens;
     cost := Some theCost;
     isSuccess := true; errorMessage := None;
     requestData := (systemPrompt, msgs);
     responseData := LoggedContent (response_content response) |}.

(** The [try] block after the provider has answered: either the value
    returned by the function, or what is thrown into [catch]. *)
Definition on_response (systemPrompt : string) (msgs : list Message)
           (user : option Z) (modelToUse : string) (response : Response)
           (trace : list event) : (InsightResult + Caught) * list event :=
  let promptTokens := promptTokens_of response msgs in
  match completionTokens_of response with
  | inr thrown => (inr thrown, trace)
  | inl completionTokens =>
      let theCost := calculateCost modelToUse promptTokens completionTokens in
      let trace :=
        logClaudeApiCall
          (success_record systemPrompt msgs user modelToUse promptTokens
                          completionTokens theCost response) trace in
      (inl {| result_content := first_text response;
              modelUsed := modelToUse;
              result_usage := usage response;
              result_cost := theCost |}, trace)
  end.

Definition request_payload (modelToUse systemPrompt : string)
           (msgs : list Message) : RequestPayload :=
  {| payload_model := modelToUse; max_tokens := MAX_TOKENS;
     system := systemPrompt; messages := msgs |}.

(** The [try] block of one attempt: the provider call and, when it
    answers, the handling of the response. *)
Definition try_block (systemPrompt : string) (msgs : list Message)
           (user : option Z) (attempt : nat) (modelToUse : string)
           (trace : list event) : (InsightResult + Caught) * list event :=
  let requestPayload := request_payload modelToUse systemPrompt msgs in
  let trace := (trace ++ [ProviderCall attempt requestPayload])%list in
  match messages_create attempt requestPayload with
  | inl response =>
      on_response systemPrompt msgs user modelToUse response trace
  | inr error => (inr error, trace)
  end.

(** The [while (attempt <= maxAttempts)] loop.  [remaining] is
    [maxAttempts + 1 - attempt], the number of iterations the loop
    condition still admits; falling out of the loop returns
    [undefined] ([None]). *)
Fixpoint attempts (maxAttempts : nat) (systemPrompt : string)
         (msgs : list Message) (user : option Z)
         (remaining : nat) (modelToUse : string) (trace : list event)
  : completion (option InsightResult) * list event :=
  match remaining with
  | O => (Return None, trace)
  | S remaining' =>
      let attempt := (maxAttempts + 1 - remaining)%nat in
      match try_block systemPrompt msgs user attempt modelToUse trace with
      | (inl result, trace) => (Return (Some result), trace)
      | (inr error, trace) =>
          let trace :=
            logClaudeApiCall
              (failed_record systemPrompt msgs user modelToUse error)
              trace in
          if Nat.eqb attempt maxAttempts then
            (Throw (Error (failure_message maxAttempts error)), trace)
          else if String.eqb modelToUse PREMIUM_MODEL
                  && negb (String.eqb BASIC_MODEL PREMIUM_MODEL) then
            attempts maxAttempts systemPrompt msgs user remaining'
                     BASIC_MODEL trace
          else
            attempts maxAttempts systemPrompt msgs user remaining'
                     modelToUse
                     (trace ++ [Sleep (1000 * Z.of_nat attempt)])%list
      end
  end.

Definition initial_model (userPlan : string) : string :=
  if String.eqb userPlan "premium" then PREMIUM_MODEL else BASIC_MODEL.

Definition maxAttempts : nat := 2.

Definition getClaudeInsight (systemPrompt : string) (msgs : list Message)
           (userPlan : string) (user : option Z)
  : completion (option InsightResult) * list event :=
  if negb anthropic then
    (Throw (Error "AI service is currently unavailable."), [])
  else
    attempts maxAttempts systemPrompt msgs user maxAttempts
             (initial_model userPlan) [].

End Configured.

(** ** Reading a trace *)

(** The model of each provider call, in order. *)
Fixpoint attempted_models (trace : list event) : list string :=
  match trace with
  | [] => []
  | ProviderCall _ payload :: rest => payload_model payload :: attempted_models rest
  | _ :: rest => attempted_models rest
  end.

(** The backoff intervals, in order. *)
Fixpoint waits (trace : list event) : list Z :=
  match trace with
  | [] => []
  | Sleep ms :: rest => ms :: waits rest
  | _ :: rest => waits rest
  end.

(** The records handed to the ledger, in order. *)
Fixpoint ledger (trace : list event) : list ApiLog :=
  match trace with
  | [] => []
  | ApiLogCreate record _ :: rest => record :: ledger rest
  | _ :: rest => ledger rest
  end.

(** Every provider call is directly followed by one ledger record, for
    the model that was called, and no record comes without a call. *)
Fixpoint one_record_per_attempt (trace : list event) : bool :=
  match trace with
  | [] => true
  | Sleep _ :: rest => one_record_per_attempt rest
  | ProviderCall _ payload :: ApiLogCreate record _ :: rest =>
      String.eqb (endpoint record) (payload_model payload)
      && one_record_per_attempt rest
  | _ => false
  end.

(** The defaults of the two model identifiers. *)
Definition default_PREMIUM_MODEL : string := "claude-3-5-sonnet-20240620".
Definition default_BASIC_MODEL : string := "claude-3-haiku-20240307".

(** ** SYSTEM_PROMPTS *)

Definition BIRTH_CHART_ANALYSIS : string :=
  "You are an expert astrologer, skilled in both Vedic and Western astrological traditions. Your task is to provide a comprehensive and insightful birth chart analysis.
Analyze the provided birth chart data within <birth_chart_data> XML tags.
Focus on:
1.  Overall personality profile: Core traits, motivations, and inherent nature.
2.  Strengths and Talents: Identify key planetary placements, aspects, or house significations that indicate natural gifts, skills, or areas of potential.
3.  Challenges and Weaknesses: Identify areas for growth, potential obstacles, or challenging patterns indicated in the chart. Frame these constructively.
4.  Life Path and Purpose: Discuss potential directions, karmic lessons, and overarching themes for the individual's life journey.
5.  Key Life Areas: Briefly touch upon career, relationships, health, and spirituality as indicated by the chart.

Guidelines:
- Provide practical and actionable insights.
- Maintain a supportive, empowering, and positive tone. Avoid fatalistic or overly negative predictions.
- Be culturally sensitive. If referencing specific cultural astrological elements (like Vedic dashas or yogas), explain them briefly if necessary.
- Structure your response clearly, perhaps using headings for different sections.
- Do not ask for clarification or more information. Work with the data provided.
- Aim for a detailed report, approximately 1000-1500 words.
- Use clear, accessible language. Avoid overly technical jargon where possible, or explain it.
- Balance insights from both Vedic and Western perspectives if data allows, or state which system you are primarily using for a given interpretation. If Ayanamsa is provided, lean towards Vedic interpretation for relevant parts.
- Conclude with an uplifting summary.
".

Definition PREDICTIONS_TRANSITS : string :=
  "You are a predictive astrologer specializing in transit analysis. Your task is to analyze the impact of current and upcoming planetary transits relative to the provided natal birth chart.
Natal chart data is within <natal_chart_data> XML tags. Current transit data is within <transit_data> XML tags.
Focus on:
1.  Major upcoming transits of slow-moving planets (Saturn, Jupiter, Uranus, Neptune, Pluto) and their conjunctions, oppositions, squares, or trines to natal planets or angles.
2.  Significant transits of faster-moving planets (Mars, Venus, Mercury) if they form potent aspects or activate sensitive points.
3.  The general themes and energies prevalent for the individual in the next 3-6 months based on these transits.
4.  Specific areas of life (career, relationships, health, finances, personal growth) likely to be affected.
5.  Opportunities and challenges presented by these transits.

Guidelines:
- Be specific about which transiting planet is aspecting which natal planet/point and in which house.
- Provide a timeframe or duration for the influence where possible.
- Offer constructive advice on how to navigate these periods.
- Emphasize empowerment and conscious co-creation with planetary energies, rather than deterministic predictions.
- Do not make definitive, absolute predictions of events. Focus on tendencies, potentials, and energetic climates.
- If Vedic dasha periods are provided, integrate their influence with transit effects.
- Clearly state the time period you are covering (e.g., " ++ dq ++ "For the next 3-6 months..." ++ dq ++ ").
".

Definition COMPATIBILITY_ANALYSIS : string :=
  "You are a relationship astrologer specializing in synastry and composite chart analysis (though focus on synastry if only two natal charts are provided).
You will be given two birth charts: <chart_A_data> and <chart_B_data>.
Your task is to provide a detailed compatibility analysis for a romantic relationship.
Focus on:
1.  Harmonious Connections (Synastry): Identify positive inter-aspects (e.g., Sun-Moon trines, Venus-Mars conjunctions) and their implications for attraction, understanding, and support.
2.  Challenging Dynamics (Synastry): Identify difficult inter-aspects (e.g., Mars-Saturn squares, Sun-Pluto oppositions) and discuss potential friction points, power struggles, or areas needing conscious effort.
3.  Core Compatibility: Assess overall compatibility based on Sun, Moon, Ascendant, Venus, and Mars placements and interactions.
4.  Communication Styles: Analyze Mercury interactions.
5.  Emotional Connection: Analyze Moon and Venus interactions.
6.  Long-term Potential: Discuss aspects involving Saturn for stability and commitment.
7.  Growth Areas: Highlight how the relationship can foster individual and mutual growth.

Guidelines:
- Be balanced: Acknowledge both strengths and challenges. No relationship is perfect.
- Be constructive: Offer insights on how to navigate challenging aspects.
- Be sensitive: Relationship dynamics are personal. Use empathetic language.
- Avoid declaring a relationship " ++ dq ++ "good" ++ dq ++ " or " ++ dq ++ "bad." ++ dq ++ " Focus on the dynamics at play.
- If specific relationship questions are posed by the user, address them within the context of the astrological analysis.
- Conclude with a summary of the relationship's key potentials and advice for fostering a healthy dynamic.
".

Definition REMEDIAL_MEASURES : string :=
  "You are an experienced Vedic astrologer specializing in astrological remedies (Upayas).
You have been provided with a birth chart in <birth_chart_data> XML tags and potentially a specific problem or area of concern in <user_query> XML tags.
Your task is to suggest appropriate and ethical remedial measures based on Vedic astrological principles.
Focus on suggesting remedies from these categories:
1.  Gemstones (Ratna): Suggest appropriate gemstones for strengthening well-placed benefic planets or pacifying malefic influences. Specify the finger, metal, and any caveats (e.g., " ++ dq ++ "to be worn after trial" ++ dq ++ "). ONLY suggest primary gemstones for key planets if appropriate.
2.  Mantras: Suggest specific planetary mantras (Navagraha mantras), seed (Bija) mantras, or deity mantras relevant to challenging planetary placements or to enhance positive ones. Provide the mantra if possible, or describe it.
3.  Yantras: Suggest the use or worship of specific yantras if applicable.
4.  Charity (Daana): Suggest charitable acts related to specific planets (e.g., donating black clothes for Saturn).
5.  Fasting (Vrata): Suggest fasting on specific days of the week related to planets.
6.  Rituals/Poojas: Suggest simple home-based rituals or specific poojas if appropriate (e.g., Navagraha Pooja, or poojas for specific deities). Keep suggestions practical.
7.  Lifestyle Adjustments: Suggest behavioral changes, color therapy, or daily routines aligned with planetary energies.

Guidelines:
- Prioritize safety and ethics. Do not suggest remedies that are harmful, excessively expensive, or exploitative.
- Explain the reasoning behind each suggested remedy in brief (e.g., " ++ dq ++ "To strengthen your Jupiter, which rules your 9th house of fortune..." ++ dq ++ ").
- Emphasize that remedies are supportive measures and not magical fixes. They work best with self-effort and good karma.
- Be specific (e.g., " ++ dq ++ "chant the mantra for Venus 108 times on Fridays" ++ dq ++ ").
- If a user has mentioned a specific problem, tailor remedies to address it, if astrologically justifiable.
- Clearly state if a remedy is for strengthening a planet or pacifying a malefic influence.
- Suggest a maximum of 3-5 key remedies to avoid overwhelming the user.
- Include a disclaimer that astrological remedies are part of a traditional system of belief and their efficacy can vary. Advise consulting a qualified astrologer in person for complex issues or before undertaking significant remedies like expensive gemstone wearing.
- Do not guarantee results from remedies.
".
Definition SYSTEM_PROMPTS : list (string * string) :=
  [ ("BIRTH_CHART_ANALYSIS", BIRTH_CHART_ANALYSIS);
    ("PREDICTIONS_TRANSITS", PREDICTIONS_TRANSITS);
    ("COMPATIBILITY_ANALYSIS", COMPATIBILITY_ANALYSIS);
    ("REMEDIAL_MEASURES", REMEDIAL_MEASURES) ].

End Claude.

(* ================================================================== *)
(** * src/server/integrations/ephemeris.js *)
(* ================================================================== *)

Module Ephemeris.

Local Open Scope string_scope.

(** The six coordinates [xx[0..5]] of a position. *)
Record Coordinates : Type := {
  xx0 : Q; xx1 : Q; xx2 : Q; xx3 : Q; xx4 : Q; xx5 : Q
}.

(** What [swe_calc_ut] returns. *)
Record CalcResult : Type := {
  ret : Z;
  xx : Coordinates;
  serr : string
}.

(** What [swe_houses_ex] returns. *)
Record HousesResult : Type := {
  houses_ret : Z;
  houses_cusps : list Q;
  ascmc : list Q;
  houses_serr : string
}.

Record UtcDate : Type := {
  year : Z; month : Z; day : Z; hours : Z; minutes : Z; seconds : Z
}.

(** The calls made on the shared library handle, in order. *)
Inductive call : Type :=
| Call_utc_to_jd (utc : UtcDate)
| Call_set_sid_mode (mode : Z)
| Call_get_ayanamsa_ut (jdut : Q)
| Call_calc_ut (jdut : Q) (id flags : Z)
| Call_houses_ex (jdut : Q) (flags : Z) (latitude longitude : Q)
                 (system : option nat)
| Call_close.

(** The process-wide state of the library: the sidereal mode last set
    (0 is the default) and the history of calls. *)
Record Sweph : Type := {
  sid_mode : Z;
  calls : list call
}.

Definition called (c : call) (st : Sweph) : Sweph :=
  {| sid_mode := sid_mode st; calls := (calls st ++ [c])%list |}.

Definition swe_set_sid_mode (mode : Z) (st : Sweph) : Sweph :=
  {| sid_mode := mode; calls := (calls st ++ [Call_set_sid_mode mode])%list |}.

Record PlanetPosition : Type := {
  longitude : Q;
  latitude : Q;
  distance : Q;
  speedLon : Q;
  speedLat : option Q;
  speedDist : option Q;
  isRetrograde : bool
}.

Record HouseFrame : Type := {
  cusps : list Q;
  ascendant : option Q;
  mc : option Q;
  armc : option Q;
  vertex : option Q
}.

Record ChartResult : Type := {
  jdut : Q;
  birthDate : string;
  birthTime : string;
  location : Q * Q * string;
  ayanamsa : option (string * Q);
  houseSystem : string;
  planets : list (string * PlanetPosition);
  houses : HouseFrame
}.

(** [object[key] = value] on a plain object: an existing key keeps its
    place, a new key is added last. *)
Fixpoint set_property {A : Type} (o : list (string * A)) (key : string)
         (value : A) : list (string * A) :=
  match o with
  | [] => [(key, value)]
  | (k, v) :: rest =>
      if String.eqb k key then (key, value) :: rest
      else (k, v) :: set_property rest key value
  end.

Fixpoint get_property {A : Type} (o : list (string * A)) (key : string)
  : option A :=
  match o with
  | [] => None
  | (k, v) :: rest => if String.eqb k key then Some v else get_property rest key
  end.

Definition HOUSE_SYSTEMS_PLACIDUS : string := "P".

Section Sweph.

(** The constants of the [sweph-js] binding.  The source only names
    them; their values are parameters here.  A constant the binding does
    not define is [None] ([undefined]). *)
Variables SE_SUN SE_MOON SE_MERCURY SE_VENUS SE_MARS SE_JUPITER SE_SATURN
          SE_URANUS SE_NEPTUNE SE_PLUTO SE_MEAN_NODE : Z.
Variables SEFLG_SPEED SEFLG_SIDEREAL : Z.
Variables SEFLG_SIDM_LAHIRI SEFLG_SIDM_RAMAN SEFLG_SIDM_KRISHNAMURTI
  : option Z.

(** The functions of the binding and of date-fns, as oracles.
    [utc_of_local] stands for [format], [toDate] and [zonedTimeToUtc]
    together; the ephemeris functions may read the sidereal mode. *)
Variable utc_of_local : string -> string -> string -> completion UtcDate.
Variable swe_utc_to_jd : UtcDate -> Z * Q.
Variable swe_get_ayanamsa_ut : Z -> Q -> Q.
Variable swe_calc_ut : Z -> Q -> Z -> Z -> CalcResult.
Variable swe_houses_ex : Z -> Q -> Z -> Q -> Q -> option nat -> HousesResult.
Variable format_date : string -> string.

Definition PLANET_LIST : list (string * Z) :=
  [ ("SE_SUN", SE_SUN); ("SE_MOON", SE_MOON); ("SE_MERCURY", SE_MERCURY);
    ("SE_VENUS", SE_VENUS); ("SE_MARS", SE_MARS);
    ("SE_JUPITER", SE_JUPITER); ("SE_SATURN", SE_SATURN);
    ("SE_URANUS", SE_URANUS); ("SE_NEPTUNE", SE_NEPTUNE);
    ("SE_PLUTO", SE_PLUTO); ("SE_MEAN_NODE", SE_MEAN_NODE) ].

(** Keyed by the decimal rendering of the identifier. *)
Definition PLANET_NAMES : list (string * string) :=
  [ (string_of_Z SE_SUN, "Sun"); (string_of_Z SE_MOON, "Moon");
    (string_of_Z SE_MERCURY, "Mercury"); (string_of_Z SE_VENUS, "Venus");
    (string_of_Z SE_MARS, "Mars"); (string_of_Z SE_JUPITER, "Jupiter");
    (string_of_Z SE_SATURN, "Saturn"); (string_of_Z SE_URANUS, "Uranus");
    (string_of_Z SE_NEPTUNE, "Neptune"); (string_of_Z SE_PLUTO, "Pluto");
    (string_of_Z SE_MEAN_NODE, "Rahu") ].

Definition planet_name (id : Z) : string :=
  match JsObject.own PLANET_NAMES (string_of_Z id) with
  | Some n => n
  | None => "undefined"
  end.

Definition AYANAMSA_MODES : list (string * option Z) :=
  [ ("LAHIRI", SEFLG_SIDM_LAHIRI); ("RAMAN", SEFLG_SIDM_RAMAN);
    ("KRISHNAMURTI", SEFLG_SIDM_KRISHNAMURTI) ].

(** [AYANAMSA_MODES[ayanamsaName.toUpperCase()]] when it is truthy.  An
    upper-cased name is never one of the inherited member names, which
    all hold a lower-case letter, so only own properties are found. *)
Definition recognised_mode (ayanamsaName : string) : option Z :=
  match JsObject.own AYANAMSA_MODES (toUpperCase ayanamsaName) with
  | Some (Some mode) => if Z.eqb mode 0 then None else Some mode
  | _ => None
  end.

Definition getJulianDayUT (birthDateObj birthTimeStr timezone : string)
           (st : Sweph) : completion Q * Sweph :=
  match utc_of_local birthDateObj birthTimeStr timezone with
  | Throw e => (Throw e, st)
  | Return utcDate =>
      let st := called (Call_utc_to_jd utcDate) st in
      let '(r, jd) := swe_utc_to_jd utcDate in
      if Z.ltb r 0
      then (Throw (Error "Failed to calculate Julian Day from UTC."), st)
      else (Return jd, st)
  end.

(** The loop over [Object.entries(PLANET_LIST)]. *)
Fixpoint planet_loop (jd : Q) (flags : Z) (entries : list (string * Z))
         (planets : list (string * PlanetPosition)) (st : Sweph)
  : completion (list (string * PlanetPosition)) * Sweph :=
  match entries with
  | [] => (Return planets, st)
  | (_, id) :: rest =>
      let r := swe_calc_ut (sid_mode st) jd id flags in
      let st := called (Call_calc_ut jd id flags) st in
      if Z.ltb (ret r) 0 || truthy_string (serr r) then
        (Throw (Error ("Failed to calculate position for " ++ planet_name id)),
         st)
      else
        let position :=
          {| longitude := xx0 (xx r); latitude := xx1 (xx r);
             distance := xx2 (xx r); speedLon := xx3 (xx r);
             speedLat := Some (xx4 (xx r)); speedDist := Some (xx5 (xx r));
             isRetrograde := Qltb (xx3 (xx r)) 0 |} in
        planet_loop jd flags rest
                    (set_property planets (planet_name id) position) st
  end.

(** The derived south node.  The sum of the longitude and 180 is
    rounded; the remainder is exact. *)
Definition with_ketu (planets : list (string * PlanetPosition))
  : list (string * PlanetPosition) :=
  match get_property planets "Rahu" with
  | Some Rahu =>
      set_property planets "Ketu"
        {| longitude := js_rem (fadd (longitude Rahu) 180) 360;
           latitude := - latitude Rahu;
           distance := distance Rahu;
           speedLon := speedLon Rahu;
           speedLat := None; speedDist := None;
           isRetrograde := isRetrograde Rahu |}
  | None => planets
  end.

Definition calculateBirthChartData (birthDate birthTime : string)
           (latitude longitude : Q) (timezone : string)
           (houseSystemChar ayanamsaName : option string) (st : Sweph)
  : completion ChartResult * Sweph :=
  let houseSystemChar :=
    match houseSystemChar with Some c => c | None => HOUSE_SYSTEMS_PLACIDUS end in
  let ayanamsaName :=
    match ayanamsaName with Some a => a | None => "LAHIRI" end in
  match getJulianDayUT birthDate birthTime timezone st with
  | (Throw e, st) => (Throw e, st)
  | (Return jdut, st) =>
    let flags := SEFLG_SPEED in
    let ayanamsaMode := recognised_mode ayanamsaName in
    let '(flags, ayanamsaValue, st) :=
      match ayanamsaMode with
      | Some mode =>
          let flags := Z.lor flags SEFLG_SIDEREAL in
          let st := swe_set_sid_mode mode st in
          let value := swe_get_ayanamsa_ut (sid_mode st) jdut in
          (flags, value, called (Call_get_ayanamsa_ut jdut) st)
      | None => (flags, 0, st)
      end in
    match planet_loop jdut flags PLANET_LIST [] st with
    | (Throw e, st) => (Throw e, st)
    | (Return planets, st) =>
      let planets := with_ketu planets in
      let code := charCodeAt0 houseSystemChar in
      let h := swe_houses_ex (sid_mode st) jdut flags latitude longitude code in
      let st := called (Call_houses_ex jdut flags latitude longitude code) st in
      if Z.ltb (houses_ret h) 0 || truthy_string (houses_serr h) then
        (Throw (Error "Failed to calculate house cusps."), st)
      else
        let houseCusps := firstn 12 (skipn 1 (houses_cusps h)) in
        let st := match ayanamsaMode with
                  | Some _ => swe_set_sid_mode 0 st
                  | None => st
                  end in
        let st := called Call_close st in
        (Return
           {| jdut := jdut;
              birthDate := format_date birthDate;
              birthTime := birthTime;
              location := (latitude, longitude, timezone);
              ayanamsa := match ayanamsaMode with
                          | Some _ => Some (ayanamsaName, ayanamsaValue)
                          | None => None
                          end;
              houseSystem := houseSystemChar;
              planets := planets;
              houses := {| cusps := houseCusps;
                           ascendant := nth_error (ascmc h) 0;
                           mc := nth_error (ascmc h) 1;
                           armc := nth_error (ascmc h) 2;
                           vertex := nth_error (ascmc h) 3 |} |}, st)
    end
  end.

End Sweph.

End Ephemeris.

(* ================================================================== *)
(** * src/server/actions/astrology.js *)
(* ================================================================== *)

Module Actions.

Local Open Scope string_scope.

(** What the [systemPrompt] constant of [getAstrologyReport] is bound to. *)
Inductive prompt_value : Type :=
| PromptText (s : string)
| PrototypeMember (key : string).

(** [SYSTEM_PROMPTS[analysisType] || SYSTEM_PROMPTS.BIRTH_CHART_ANALYSIS]:
    the left operand wins when it is truthy, that is a non-empty own
    prompt or an inherited member. *)
Definition select_system_prompt (analysisType : string) : prompt_value :=
  match JsObject.get Claude.SYSTEM_PROMPTS analysisType with
  | JsObject.Own p =>
      if truthy_string p then PromptText p
      else PromptText Claude.BIRTH_CHART_ANALYSIS
  | JsObject.Inherited key => PrototypeMember key
  | JsObject.Undefined => PromptText Claude.BIRTH_CHART_ANALYSIS
  end.

End Actions.

(* ================================================================== *)
(** * Notions of the specification *)
(* ================================================================== *)

Module HouseSpec.

(** The zodiac sign of a longitude: the 30 degree segment that holds its
    residue modulo 360. *)
Definition sign_index (x : Q) : Z := Qfloor (Qmod x 360 / 30).

(** Cusp [i + 1] of a frame; the index wraps, so that the cusp after the
    twelfth is the first. *)
Definition cusp_at (houseCusps : list Q) (i : nat) : Q :=
  nth (i mod 12) houseCusps 0.

(** [x] lies on the half-open arc that starts at [a] (included) and runs
    forward round the circle to [b] (excluded). *)
Definition on_arc (a b x : Q) : Prop :=
  Qmod (x - a) 360 < Qmod (b - a) 360.

(** The cusps increase strictly from each house to the next, except for
    the one step, after cusp [k + 1], that passes 360/0. *)
Definition ordered_from (houseCusps : list Q) (k : nat) : bool :=
  forallb
    (fun j =>
       let here := Qmod (cusp_at houseCusps j) 360 in
       let next := Qmod (cusp_at houseCusps (j + 1)) 360 in
       if Nat.eqb j k then Qltb next here
       else Qltb here next)
    (seq 0 12).

(** A valid frame: twelve cusps that go once round the circle in
    order. *)
Definition valid_frame (houseCusps : list Q) : bool :=
  Nat.eqb (List.length houseCusps) 12
  && existsb (ordered_from houseCusps) (seq 0 12).

End HouseSpec.

(* ================================================================== *)
(** * Derived forms used in the proofs *)
(* ================================================================== *)

Module Derived.

Import AstroLogic.
Local Open Scope string_scope.

(** The body of [formatLongitude] after normalisation, split into the four
    integers it computes and their rendering. *)
Definition dms_double (correctedDegrees : Q) : Z * Z * Z * Z :=
  let signIndex := Qfloor (fdiv correctedDegrees 30) in
  let degreesInSign := js_rem correctedDegrees 30 in
  let degrees := Qfloor degreesInSign in
  let minutesDecimal := fmul (fsub degreesInSign (inject_Z degrees)) 60 in
  let minutes := Qfloor minutesDecimal in
  let seconds :=
    Qfloor (fmul (fsub minutesDecimal (inject_Z minutes)) 60) in
  (signIndex, degrees, minutes, seconds).

(** The same four integers in exact arithmetic, where nothing is
    rounded. *)
Definition dms_of (correctedDegrees : Q) : Z * Z * Z * Z :=
  let signIndex := Qfloor (correctedDegrees / 30) in
  let degreesInSign := js_rem correctedDegrees 30 in
  let degrees := Qfloor degreesInSign in
  let minutesDecimal := (degreesInSign - inject_Z degrees) * 60 in
  let minutes := Qfloor minutesDecimal in
  let seconds := Qfloor ((minutesDecimal - inject_Z minutes) * 60) in
  (signIndex, degrees, minutes, seconds).

Definition render_dms (v : Z * Z * Z * Z) : string :=
  let '(signIndex, degrees, minutes, seconds) := v in
  string_of_Z degrees ++ "° "
    ++ nth (Z.to_nat signIndex) ZODIAC_SIGNS "undefined" ++ " "
    ++ padStart0 2 (string_of_Z minutes) ++ "' "
    ++ padStart0 2 (string_of_Z seconds) ++ dq.

(** The rendering that the specification describes, for any longitude:
    the sign of the 30 degree segment that holds the residue modulo 360,
    and the degrees, minutes and seconds of the offset into it, cut off
    and not rounded, all in exact arithmetic. *)
Definition exact_rendering (L : Q) : string :=
  render_dms (dms_of (Qmod L 360)).

(** The normalised cusps of a frame, listed from the one after cusp
    [k + 1]. *)
Definition frame_cusp (houseCusps : list Q) (k t : nat) : Q :=
  norm360 (HouseSpec.cusp_at houseCusps (k + 1 + t)).

(** The test in the body of the cusp loop, on the two normalised
    cusps. *)
Definition arc_test (cusp1 cusp2 planetLon : Q) : bool :=
  if Qle_bool cusp1 cusp2 then
    Qle_bool cusp1 planetLon && Qltb planetLon cusp2
  else
    (Qle_bool cusp1 planetLon && Qltb planetLon 360)
    || (Qle_bool 0 planetLon && Qltb planetLon cusp2).


End Derived.

(* ================================================================== *)
(** * Derived notions for a run of the insight loop *)
(* ================================================================== *)

Module InsightDerived.

Import Claude.
Local Open Scope string_scope.
Local Open Scope list_scope.

Section Run.

Variables PREMIUM_MODEL BASIC_MODEL : string.
Variable messages_create : nat -> RequestPayload -> Response + Caught.
Variable apiLog_create : ApiLog -> bool.
Variables (systemPrompt : string) (msgs : list Message) (user : option Z).

(** Attempt [attempt] with [modelToUse] succeeds with this result and
    this ledger record. *)
Definition succeeds (attempt : nat) (modelToUse : string)
           (result : InsightResult) (record : ApiLog) : Prop :=
  exists response completionTokens,
    messages_create attempt (request_payload modelToUse systemPrompt msgs)
    = inl response
    /\ completionTokens_of response = inl completionTokens
    /\ let promptTokens := promptTokens_of response msgs in
       let theCost := calculateCost PREMIUM_MODEL BASIC_MODEL modelToUse
                                    promptTokens completionTokens in
       record = success_record systemPrompt msgs user modelToUse promptTokens
                               completionTokens theCost response
       /\ result = {| result_content := first_text response;
                      modelUsed := modelToUse;
                      result_usage := usage response;
                      result_cost := theCost |}.

(** Attempt [attempt] with [modelToUse] ends in the [catch] clause with
    [error]: the provider raised it, or the handling of the response
    did. *)
Definition fails (attempt : nat) (modelToUse : string) (error : Caught)
  : Prop :=
  messages_create attempt (request_payload modelToUse systemPrompt msgs)
  = inr error
  \/ exists response,
      messages_create attempt (request_payload modelToUse systemPrompt msgs)
      = inl response
      /\ completionTokens_of response = inr error.

(** The model tried after a failed attempt that is not the last. *)
Definition next_model (modelToUse : string) : string :=
  if String.eqb modelToUse PREMIUM_MODEL
     && negb (String.eqb BASIC_MODEL PREMIUM_MODEL)
  then BASIC_MODEL else modelToUse.

Definition next_wait (modelToUse : string) (attempt : nat) : list event :=
  if String.eqb modelToUse PREMIUM_MODEL
     && negb (String.eqb BASIC_MODEL PREMIUM_MODEL)
  then [] else [Sleep (1000 * Z.of_nat attempt)].

Definition logged (record : ApiLog) : event :=
  ApiLogCreate record (apiLog_create record).

Definition called (attempt : nat) (modelToUse : string) : event :=
  ProviderCall attempt (request_payload modelToUse systemPrompt msgs).

(** The shape of every run of the two-attempt loop. *)
Inductive run_shape (m0 : string)
  : completion (option InsightResult) * list event -> Prop :=
| FirstSucceeds result record :
    succeeds 1 m0 result record ->
    run_shape m0 (Return (Some result), [called 1 m0; logged record])
| SecondSucceeds e1 result record :
    fails 1 m0 e1 ->
    succeeds 2 (next_model m0) result record ->
    run_shape m0
      (Return (Some result),
       [called 1 m0; logged (failed_record systemPrompt msgs user m0 e1)]
         ++ next_wait m0 1
         ++ [called 2 (next_model m0); logged record])
| BothFail e1 e2 :
    fails 1 m0 e1 ->
    fails 2 (next_model m0) e2 ->
    run_shape m0
      (Throw (Error (failure_message 2 e2)),
       [called 1 m0; logged (failed_record systemPrompt msgs user m0 e1)]
         ++ next_wait m0 1
         ++ [called 2 (next_model m0);
             logged (failed_record systemPrompt msgs user (next_model m0) e2)]).

(** The token counts and the cost on the record of a successful
    attempt. *)
Definition usage_reported (record : ApiLog) : Prop :=
  exists attempt response promptTokens completionTokens pricing,
    messages_create attempt
      (request_payload (endpoint record) systemPrompt msgs) = inl response
    /\ tokenCountIn record = Some promptTokens
    /\ tokenCountOut record = Some completionTokens
    /\ (forall n, reported_input_tokens response = Some n -> ~ n == 0 ->
                  promptTokens = Finite n)
    /\ (reported_input_tokens response = None ->
        promptTokens
        = Finite (inject_Z (Z.of_nat (utf16_length (inputText msgs))) / 4))
    /\ (forall n, reported_output_tokens response = Some n -> ~ n == 0 ->
                  completionTokens = Finite n)
    /\ (reported_output_tokens response = None ->
        forall block rest t,
          response_content response = block :: rest ->
          text block = Some t ->
          completionTokens
          = Finite (inject_Z (Z.of_nat (utf16_length t)) / 4))
    /\ JsObject.get (MODEL_PRICING PREMIUM_MODEL BASIC_MODEL) (endpoint record)
       = JsObject.Own pricing
    /\ cost record
       = Some (num_add
                 (num_mul (num_div promptTokens (Finite 1000000))
                          (Finite (input pricing)))
                 (num_mul (num_div completionTokens (Finite 1000000))
                          (Finite (output pricing)))).

End Run.

(** Example collaborators: a provider that is overloaded on the first
    attempt and answers the second, one that is always overloaded, and a
    ledger table that stores every record. *)
Definition overloaded : Caught :=
  {| message := "overloaded_error"; response_data := None |}.

Definition example_response : Response :=
  {| usage := Some {| input_tokens := Some 1200; output_tokens := Some 800 |};
     response_content := [ {| text := Some "Your Sun is in Cancer." |} ] |}.

Definition flaky_provider (attempt : nat) (payload : RequestPayload)
  : Response + Caught :=
  match attempt with
  | 1%nat => inr overloaded
  | _ => inl example_response
  end.

Definition failing_provider (attempt : nat) (payload : RequestPayload)
  : Response + Caught := inr overloaded.

(** A provider that reports no token counts; the degree sign of its
    answer is one UTF-16 code unit and two bytes of UTF-8. *)
Definition uncounted_response : Response :=
  {| usage := None;
     response_content := [ {| text := Some "Sun at 15° Aries" |} ] |}.

Definition uncounted_provider (attempt : nat) (payload : RequestPayload)
  : Response + Caught := inl uncounted_response.

Definition storing_ledger (record : ApiLog) : bool := true.

Definition example_messages : list Message :=
  [ {| role := "user"; content := "Please provide a birth chart analysis." |} ].

(** The example of the specification: a premium call. *)
Definition example_run (provider : nat -> RequestPayload -> Response + Caught)
           (userPlan : string)
  : completion (option InsightResult) * list event :=
  getClaudeInsight default_PREMIUM_MODEL default_BASIC_MODEL true provider
                   storing_ledger BIRTH_CHART_ANALYSIS example_messages
                   userPlan (Some 7%Z).

End InsightDerived.

(* ================================================================== *)
(** * Derived notions for the ephemeris calls *)
(* ================================================================== *)

Module EphemerisDerived.

Import Ephemeris.
Local Open Scope string_scope.

(** The bodies asked of [swe_calc_ut], in order. *)
Fixpoint calc_queries (cs : list call) : list Z :=
  match cs with
  | [] => []
  | Call_calc_ut _ id _ :: rest => id :: calc_queries rest
  | _ :: rest => calc_queries rest
  end.

(** The example configuration: the identifiers of the Swiss Ephemeris
    headers. *)
Definition example_utc : UtcDate :=
  {| year := 1990; month := 7; day := 21; hours := 13; minutes := 15;
     seconds := 0 |}.

Definition example_position (id : Z) : CalcResult :=
  {| ret := 0;
     xx := {| xx0 := inject_Z (25 * id) + (1 # 2); xx1 := id # 4;
              xx2 := 1; xx3 := (- id) # 10; xx4 := 0; xx5 := 0 |};
     serr := "" |}.

(** The same positions, with the node at the double next below 180. *)
Definition node_below_180 (id : Z) : CalcResult :=
  if Z.eqb id 10 then
    {| ret := 0;
       xx := {| xx0 := 180 - pow2 (-45); xx1 := 0;
                xx2 := 1; xx3 := - (1 # 16); xx4 := 0; xx5 := 0 |};
       serr := "" |}
  else example_position id.

Definition failing_position (id : Z) : CalcResult :=
  {| ret := -1;
     xx := {| xx0 := 0; xx1 := 0; xx2 := 0; xx3 := 0; xx4 := 0; xx5 := 0 |};
     serr := "ephemeris file not found" |}.

Definition example_houses : HousesResult :=
  {| houses_ret := 0;
     houses_cusps := [0; 350; 20; 60; 90; 120; 150; 170; 200; 240; 270; 300; 330]%Q;
     ascmc := [350; 260; 255; 170]%Q;
     houses_serr := "" |}.

Definition failing_houses : HousesResult :=
  {| houses_ret := -1; houses_cusps := []; ascmc := [];
     houses_serr := "" |}.

(** [calculateBirthChartData] on the example call of the source file
    ('1990-07-21', '09:15', New York, 'P', 'LAHIRI'), with given
    position and house oracles. *)
Definition example_call (calc : Z -> CalcResult) (houses : HousesResult)
  : completion ChartResult * Sweph :=
  calculateBirthChartData
    0 1 2 3 4 5 6 7 8 9 10 256 65536 (Some 1%Z) (Some 3%Z) (Some 5%Z)
    (fun _ _ _ => Return example_utc)
    (fun _ => (0%Z, 2448093 + (55 # 100)))
    (fun _ _ => 23 + (72 # 100))
    (fun _ _ id _ => calc id)
    (fun _ _ _ _ _ _ => houses)
    (fun d => d)
    "1990-07-21" "09:15" (407128 # 10000) (- (740060 # 10000))
    "America/New_York" (Some "P") (Some "LAHIRI")
    {| sid_mode := 0; calls := [] |}.

End EphemerisDerived.

(* ================================================================== *)
(** * Derived notions for the serialisers *)
(* ================================================================== *)

Module SerialiserDerived.

Import AstroLogic.
Local Open Scope string_scope.

(** [s] begins with [p]. *)
Definition starts_with (p s : string) : Prop := exists rest, s = p ++ rest.

Definition present {A : Type} (o : option A) : bool :=
  match o with Some _ => true | None => false end.

(** The guard of the chart serialiser: no chart, no planets or no
    houses. *)
Definition chart_insufficient (chartData : option ChartData) : bool :=
  match chartData with
  | None => true
  | Some d => negb (present (planets d) && present (houses d))
  end.

(** The guard of the transit serialiser: no transit data, no (or an
    empty) date, or no planets. *)
Definition transit_insufficient (transitData : option TransitData) : bool :=
  match transitData with
  | None => true
  | Some d =>
      match date d with
      | Some theDate =>
          negb (truthy_string theDate && present (transit_planets d))
      | None => true
      end
  end.

Definition planet_complete (entry : string * PlanetData) : bool :=
  present (longitude (snd entry)).

(** A chart with every field the serialiser dereferences: a longitude
    for each planet, ascendant, midheaven and cusps, the house system,
    and the value of the ayanamsa when one is named. *)
Definition chart_complete (d : ChartData) : bool :=
  match planets d, houses d with
  | Some ps, Some h =>
      forallb planet_complete ps
      && present (cusps h) && present (ascendant h) && present (mc h)
      && present (houseSystem d)
      && match named_ayanamsa d with
         | Some (_, None) => false
         | _ => true
         end
  | _, _ => false
  end.

Definition transit_complete (d : TransitData) : bool :=
  match date d, transit_planets d with
  | Some theDate, Some ps =>
      truthy_string theDate && forallb planet_complete ps
  | _, _ => false
  end.

(** [hay] holds [needle] somewhere. *)
Definition contains (needle hay : string) : Prop :=
  exists before after, hay = before ++ needle ++ after.

(** No character of [s] opens a tag. *)
Fixpoint lt_free (s : string) : bool :=
  match s with
  | EmptyString => true
  | String c r => negb (Ascii.eqb c "<") && lt_free r
  end.

(** Every [<] of [s] is followed, in [s], by a character other than
    [e]. *)
Fixpoint tag_safe (s : string) : bool :=
  match s with
  | EmptyString => true
  | String c r =>
      if Ascii.eqb c "<" then
        match r with
        | EmptyString => false
        | String c' _ => negb (Ascii.eqb c' "e") && tag_safe r
        end
      else tag_safe r
  end.

Definition plain (field : option string) : bool :=
  match field with Some v => lt_free v | None => true end.

(** The text fields of a chart hold no [<]. *)
Definition chart_text_plain (d : ChartData) : bool :=
  plain (name d) && plain (birthDate d) && plain (birthTime d)
  && match location d with Some loc => plain (timezone loc) | None => true end
  && plain (gender d) && plain (houseSystem d)
  && match ayanamsa d with Some a => plain (ayanamsa_name a) | None => true end
  && match planets d with
     | Some ps => forallb (fun entry => lt_free (fst entry)) ps
     | None => true
     end.

Definition transit_text_plain (d : TransitData) : bool :=
  plain (date d)
  && match transit_planets d with
     | Some ps => forallb (fun entry => lt_free (fst entry)) ps
     | None => true
     end.

(** The call returns a text that has property [P]. *)
Definition returns_with (P : string -> Prop) (c : completion string) : Prop :=
  exists s, c = Return s /\ P s.

(** Inputs with a field missing inside [houses], and inside a planet. *)
Definition sun_only : list (string * PlanetData) :=
  [ ("Sun", {| longitude := Some (1185 # 10); latitude := Some 0;
               speedLon := Some (95 # 100); isRetrograde := Some false |}) ].

Definition chart_without_ascendant : ChartData :=
  {| name := Some "Asha"; birthDate := Some "1990-07-21";
     birthTime := Some "09:15"; location := None; gender := None;
     houseSystem := Some "P"; ayanamsa := None;
     planets := Some sun_only;
     houses := Some {| cusps := Some [350; 20; 60; 90; 120; 150; 170; 200;
                                      240; 270; 300; 330]%Q;
                       ascendant := None; mc := Some 260 |} |}.

Definition example_chart : ChartData :=
  {| name := Some "Asha"; birthDate := Some "1990-07-21";
     birthTime := Some "09:15";
     location := Some {| loc_latitude := Some (407128 # 10000);
                         loc_longitude := Some (- (740060 # 10000));
                         timezone := Some "America/New_York" |};
     gender := None;
     houseSystem := Some "P";
     ayanamsa := Some {| ayanamsa_name := Some "LAHIRI";
                         ayanamsa_value := Some (2372 # 100) |};
     planets := Some sun_only;
     houses := Some {| cusps := Some [350; 20; 60; 90; 120; 150; 170; 200;
                                      240; 270; 300; 330]%Q;
                       ascendant := Some 350; mc := Some 260 |} |}.

Definition transit_without_longitude : TransitData :=
  {| date := Some "2025-06-01";
     transit_planets :=
       Some [ ("Mars", {| longitude := None; latitude := None;
                          speedLon := Some (5 # 10);
                          isRetrograde := Some false |}) ] |}.

Definition example_transit : TransitData :=
  {| date := Some "2025-06-01"; transit_planets := Some sun_only |}.

End SerialiserDerived.

(* ================================================================== *)
(** * Derived notions for the outcomes of the serialisers *)
(* ================================================================== *)

Module SerialiserOutcomes.

Import AstroLogic SerialiserDerived.
Local Open Scope string_scope.

(** [s] ends with [suffix]. *)
Definition ends_with (suffix s : string) : Prop :=
  exists before, s = before ++ suffix.

(** The call completes normally. *)
Definition returns {A : Type} (c : completion A) : Prop :=
  exists a, c = Return a.

(** The outcome of a builder applied to the text [xml]: a text that
    extends [xml], or a [TypeError]. *)
Definition grows (xml : string) (c : completion string) : Prop :=
  match c with
  | Return s => starts_with xml s
  | Throw e => exists what, e = TypeError what
  end.

(** [getHousePlacement] reads the house system only past its guard, that
    is when there are twelve cusps. *)
Definition placement_defined (h : Houses) (houseSystem : option string)
  : bool :=
  match cusps h with
  | Some cs => negb (Nat.eqb (List.length cs) 12) || present houseSystem
  | None => true
  end.

(** A named ayanamsa has a value. *)
Definition ayanamsa_valued (d : ChartData) : bool :=
  match named_ayanamsa d with
  | Some (_, None) => false
  | _ => true
  end.

(** The fields that the chart serialiser reads without a guard: the
    longitude of every planet; the house system, when there is a planet
    to place and twelve cusps to place it in; the ascendant, the
    midheaven and the cusps; the value of a named ayanamsa. *)
Definition chart_readable (d : ChartData) : bool :=
  match planets d, houses d with
  | Some ps, Some h =>
      ayanamsa_valued d
      && forallb planet_complete ps
      && match ps with
         | [] => true
         | _ :: _ => placement_defined h (houseSystem d)
         end
      && present (ascendant h) && present (mc h) && present (cusps h)
  | _, _ => false
  end.

End SerialiserOutcomes.

(* ================================================================== *)
(** * Derived notions for the edge cases of the insight loop *)
(* ================================================================== *)

Module InsightEdges.

Import Claude InsightDerived.
Local Open Scope string_scope.
Local Open Scope list_scope.

(** [response.usage?.output_tokens] is falsy: absent or zero. *)
Definition output_count_falsy (response : Response) : bool :=
  match reported_output_tokens response with
  | Some n => negb (truthy_number n)
  | None => true
  end.

(** The provider calls of a trace, in order. *)
Fixpoint provider_calls (trace : list event) : list (nat * RequestPayload) :=
  match trace with
  | [] => []
  | ProviderCall attempt payload :: rest =>
      (attempt, payload) :: provider_calls rest
  | _ :: rest => provider_calls rest
  end.

(** Example answers: one without any content block, one whose first
    block has no text; neither reports an output count. *)
Definition empty_response : Response :=
  {| usage := Some {| input_tokens := Some 1200; output_tokens := None |};
     response_content := [] |}.

Definition textless_response : Response :=
  {| usage := None; response_content := [ {| text := None |} ] |}.

Definition answering (response : Response) (attempt : nat)
           (payload : RequestPayload) : Response + Caught :=
  inl response.

(** The first attempt is answered without text, the second in full. *)
Definition textless_then_full (attempt : nat) (payload : RequestPayload)
  : Response + Caught :=
  match attempt with
  | 1%nat => inl textless_response
  | _ => inl example_response
  end.

End InsightEdges.

(* ================================================================== *)
(** * Derived notions for the traces of the chart builder *)
(* ================================================================== *)

Module EphemerisTraces.

Import Ephemeris.
Local Open Scope string_scope.

(** The sidereal modes set, in order. *)
Fixpoint mode_settings (cs : list call) : list Z :=
  match cs with
  | [] => []
  | Call_set_sid_mode mode :: rest => mode :: mode_settings rest
  | _ :: rest => mode_settings rest
  end.

(** The number of [swe_close] calls and of [swe_houses_ex] calls. *)
Fixpoint closes (cs : list call) : nat :=
  match cs with
  | [] => 0
  | Call_close :: rest => S (closes rest)
  | _ :: rest => closes rest
  end.

Fixpoint house_queries (cs : list call) : nat :=
  match cs with
  | [] => 0
  | Call_houses_ex _ _ _ _ _ :: rest => S (house_queries rest)
  | _ :: rest => house_queries rest
  end.

(** The flags passed to [swe_calc_ut] and to [swe_houses_ex], in
    order. *)
Fixpoint flags_used (cs : list call) : list Z :=
  match cs with
  | [] => []
  | Call_calc_ut _ _ flags :: rest => flags :: flags_used rest
  | Call_houses_ex _ flags _ _ _ :: rest => flags :: flags_used rest
  | _ :: rest => flags_used rest
  end.

(** How far a call of the chart builder gets. *)
Inductive stage : Type :=
| DateFailed
| JulianDayFailed
| PlanetFailed (k : nat)
| HousesFailed
| Completed.

(** The library calls of a call of the chart builder that gets as far as
    [s]: the Julian day, the two calls that set up a recognised
    ayanamsa [mode], the position queries for the bodies [ids], the
    houses, the reset of the mode and the close. *)
Definition trace_of (ids : list Z) (flags : Z) (mode : option Z)
           (utc : UtcDate) (jd : Q) (latitude longitude : Q)
           (code : option nat) (s : stage) : list call :=
  let setup :=
    match mode with
    | Some m => [Call_set_sid_mode m; Call_get_ayanamsa_ut jd]
    | None => []
    end in
  let reset :=
    match mode with Some _ => [Call_set_sid_mode 0] | None => [] end in
  let query id := Call_calc_ut jd id flags in
  let houses := Call_houses_ex jd flags latitude longitude code in
  match s with
  | DateFailed => []
  | JulianDayFailed => [Call_utc_to_jd utc]
  | PlanetFailed k =>
      (Call_utc_to_jd utc :: setup ++ map query (firstn (S k) ids))%list
  | HousesFailed =>
      (Call_utc_to_jd utc :: setup ++ map query ids ++ [houses])%list
  | Completed =>
      (Call_utc_to_jd utc :: setup ++ map query ids ++ [houses] ++ reset
         ++ [Call_close])%list
  end.

(** The test after a position query, [ret < 0 || serr], and the test
    after the house calculation, [housesRet < 0 || housesSerr]. *)
Definition position_failed (r : CalcResult) : bool :=
  Z.ltb (ret r) 0 || truthy_string (serr r).

Definition houses_failed (h : HousesResult) : bool :=
  Z.ltb (houses_ret h) 0 || truthy_string (houses_serr h).

(** The [houseSystemChar] parameter after its default. *)
Definition given_house_system (houseSystemChar : option string) : string :=
  match houseSystemChar with Some c => c | None => HOUSE_SYSTEMS_PLACIDUS end.

(** The [ayanamsaName] parameter after its default. *)
Definition given_ayanamsa (ayanamsaName : option string) : string :=
  match ayanamsaName with Some a => a | None => "LAHIRI" end.

(** The retrograde flag of a position says that its speed in longitude
    is negative. *)
Definition retrograde_by_speed (p : PlanetPosition) : Prop :=
  isRetrograde p = true <-> speedLon p < 0.

(** The names of the twelve bodies of a chart, in the order in which the
    builder stores them. *)
Definition BODY_NAMES : list string :=
  [ "Sun"; "Moon"; "Mercury"; "Venus"; "Mars"; "Jupiter"; "Saturn";
    "Uranus"; "Neptune"; "Pluto"; "Rahu"; "Ketu" ].

(** The example call of the source file with a name that is not an
    ayanamsa, on a library whose sidereal mode an earlier call has left
    at 1. *)
Definition example_tropical_call : completion ChartResult * Sweph :=
  calculateBirthChartData
    0 1 2 3 4 5 6 7 8 9 10 256 65536 (Some 1%Z) (Some 3%Z) (Some 5%Z)
    (fun _ _ _ => Return EphemerisDerived.example_utc)
    (fun _ => (0%Z, 2448093 + (55 # 100)))
    (fun _ _ => 23 + (72 # 100))
    (fun _ _ id _ => EphemerisDerived.example_position id)
    (fun _ _ _ _ _ _ => EphemerisDerived.example_houses)
    (fun d => d)
    "1990-07-21" "09:15" (407128 # 10000) (- (740060 # 10000))
    "America/New_York" (Some "P") (Some "TROPICAL")
    {| sid_mode := 1; calls := [] |}.

End EphemerisTraces.

(* ================================================================== *)
(** * Actions: what they complete with *)
(* ================================================================== *)

Module Http.

(** What an action throws: an [HttpError] of @wasp/core, with its status
    code and message, or any other error. *)
Inductive thrown : Type :=
| HttpError (status : Z) (message : string)
| Other (e : js_error).

(** What an action completes with. *)
Inductive outcome (A : Type) : Type :=
| Done (a : A)
| Failed (t : thrown).

Arguments Done {A} a.
Arguments Failed {A} t.

Definition and_then {A B : Type} (c : outcome A) (k : A -> outcome B)
  : outcome B :=
  match c with
  | Done a => k a
  | Failed t => Failed t
  end.

(** [n || 0] on an integer. *)
Definition or_zero (n : Z) : Z := if Z.eqb n 0 then 0%Z else n.

End Http.

(* ================================================================== *)
(** * src/server/actions/astrology.js: limits, credits, titles *)
(* ================================================================== *)

Module AstrologyActions.

Import Http.
Local Open Scope string_scope.

Definition FREE_TRIAL_CHART_LIMIT : Z := 1.
Definition FREE_TRIAL_AI_INSIGHTS_LIMIT : Z := 3.
Definition BASIC_PLAN_CHART_LIMIT : Z := 3.

(** A row of the User table as the helpers read it, with the count of
    its birth charts ([_count.birthCharts]). *)
Record User : Type := {
  id : Z;
  planId : option string;
  credits : Z;
  birthCharts : Z
}.

(** [!user.planId || user.planId === 'free_trial']. *)
Definition free_trial (user : User) : bool :=
  match planId user with
  | None => true
  | Some p => negb (truthy_string p) || String.eqb p "free_trial"
  end.

(** [user.planId === plan]. *)
Definition on_plan (user : User) (plan : string) : bool :=
  match planId user with
  | Some p => String.eqb p plan
  | None => false
  end.

Definition forbidden {A : Type} (message : string) : outcome A :=
  Failed (HttpError 403 message).

(** [checkUserLimits]; [findUnique] is the User table, by id. *)
Definition checkUserLimits (findUnique : Z -> option User) (userId : Z)
           (actionType : string) : outcome User :=
  match findUnique userId with
  | None => Failed (HttpError 404 "User not found.")
  | Some user =>
      and_then
        (if String.eqb actionType "createChart" then
           if free_trial user
              && Z.leb FREE_TRIAL_CHART_LIMIT (birthCharts user)
           then forbidden "Free trial limit of 1 birth chart reached. Please upgrade to create more charts."
           else if on_plan user "basic"
                   && Z.leb BASIC_PLAN_CHART_LIMIT (birthCharts user)
           then forbidden "Basic plan limit of 3 birth charts reached. Please upgrade for unlimited charts."
           else Done tt
         else Done tt)
        (fun _ =>
      and_then
        (if String.eqb actionType "aiInsight" then
           if free_trial user && Z.leb (or_zero (credits user)) 0
           then forbidden "Free trial AI insight limit reached. Please upgrade for more insights."
           else if on_plan user "basic" && Z.leb (or_zero (credits user)) 0
           then forbidden "Basic plan AI credit limit reached. Please upgrade or wait for next cycle."
           else Done tt
         else Done tt)
        (fun _ => Done user))
  end.

(** [decrementUserCredits(userId, amount = 1)]: the User table after
    the call. *)
Definition decrementUserCredits (users : Z -> option User) (userId : Z)
           (amount : option Z) : Z -> option User :=
  let amount := match amount with Some a => a | None => 1%Z end in
  match users userId with
  | Some user =>
      if negb (on_plan user "premium") then
        fun i =>
          if Z.eqb i userId then
            Some {| id := id user; planId := planId user;
                    credits := (credits user - amount)%Z;
                    birthCharts := birthCharts user |}
          else users i
      else users
  | None => users
  end.

(** The condition under which [createBirthChart] spends a credit on an
    initial insight: a free-trial user who had no chart. *)
Definition initial_insight_due (user : User) : bool :=
  free_trial user && Z.eqb (birthCharts user) 0.

(** The system prompt of a follow-up question. *)
Definition follow_up_prompt (question : string) : string :=
  "You are an insightful astrologer continuing a conversation. The user's birth chart details are in prior messages or provided again. Address the user's latest query: <user_query>"
    ++ question
    ++ "</user_query> based on the astrological chart and previous discussion. Be concise and relevant.".

(** The system prompt that [askAstrologyQuestion] passes on, from the
    validated [analysisType] (absent when [None]), the messages already
    in the conversation and the question. *)
Definition question_system_prompt {M : Type} (analysisType : option string)
           (existingMessages : list M) (question : string)
  : Actions.prompt_value :=
  let given :=
    match analysisType with
    | Some a => truthy_string a
    | None => false
    end in
  let systemPromptKey :=
    match analysisType with
    | Some a =>
        if truthy_string a then a
        else if Nat.eqb (List.length existingMessages) 0
             then "BIRTH_CHART_ANALYSIS" else "CONVERSATIONAL_ASTROLOGER"
    | None =>
        if Nat.eqb (List.length existingMessages) 0
        then "BIRTH_CHART_ANALYSIS" else "CONVERSATIONAL_ASTROLOGER"
    end in
  let systemPrompt := Actions.select_system_prompt systemPromptKey in
  if Nat.ltb 0 (List.length existingMessages) && negb given
  then Actions.PromptText (follow_up_prompt question)
  else systemPrompt.

(** The values that [astrologyQuestionSchema] lets through for
    [analysisType]. *)
Definition ANALYSIS_TYPES : list string :=
  [ "BIRTH_CHART_ANALYSIS"; "PREDICTIONS_TRANSITS"; "COMPATIBILITY_ANALYSIS";
    "REMEDIAL_MEASURES" ].

(** ** deleteBirthChart *)

(** [context.user], and the row of the chart. *)
Record ContextUser : Type := { user_id : Z; isAdmin : bool }.
Record BirthChartRow : Type := { chart_userId : Z }.

(** The three deletions of the action. *)
Inductive deletion : Type :=
| DeleteMessages (chartId : Z)
| DeleteConversations (chartId : Z)
| DeleteBirthChart (chartId : Z).

Definition deleted : string := "Birth chart deleted successfully.".

(** [deleteBirthChart]: what it completes with, and the deletions it has
    carried out.  [findUnique] is the BirthChart table; [accepts] tells
    whether the database carries out a deletion or rejects it. *)
Definition deleteBirthChart (findUnique : Z -> option BirthChartRow)
           (accepts : deletion -> bool) (chartId : option Z)
           (user : option ContextUser) : outcome string * list deletion :=
  match user with
  | None => (Failed (HttpError 401 "User not authenticated."), [])
  | Some user =>
      match chartId with
      | None => (Failed (HttpError 400 "Chart ID is required."), [])
      | Some chartId =>
          if Z.eqb chartId 0 then
            (Failed (HttpError 400 "Chart ID is required."), [])
          else
            match findUnique chartId with
            | None => (Failed (HttpError 404 "Birth chart not found."), [])
            | Some chart =>
                if negb (Z.eqb (chart_userId chart) (user_id user))
                   && negb (isAdmin user)
                then (Failed (HttpError 403 "You do not have permission to delete this chart."), [])
                else
                  let failed := Failed (HttpError 500 "Failed to delete birth chart.") in
                  if negb (accepts (DeleteMessages chartId)) then
                    (failed, [])
                  else if negb (accepts (DeleteConversations chartId)) then
                    (failed, [DeleteMessages chartId])
                  else if negb (accepts (DeleteBirthChart chartId)) then
                    (failed, [DeleteMessages chartId;
                              DeleteConversations chartId])
                  else
                    (Done deleted,
                     [DeleteMessages chartId; DeleteConversations chartId;
                      DeleteBirthChart chartId])
            end
      end
  end.

(** ** From the chart builder to the serialiser *)

Definition planet_for_xml (p : Ephemeris.PlanetPosition)
  : AstroLogic.PlanetData :=
  {| AstroLogic.longitude := Some (Ephemeris.longitude p);
     AstroLogic.latitude := Some (Ephemeris.latitude p);
     AstroLogic.speedLon := Some (Ephemeris.speedLon p);
     AstroLogic.isRetrograde := Some (Ephemeris.isRetrograde p) |}.

(** [{ ...chartRawData, name, gender }], the object that
    [createBirthChart] hands to [formatBirthChartDataAsXML]. *)
Definition chartDataForXML (chartRawData : Ephemeris.ChartResult)
           (name : string) (gender : option string) : AstroLogic.ChartData :=
  let '(latitude, longitude, timezone) := Ephemeris.location chartRawData in
  {| AstroLogic.name := Some name;
     AstroLogic.birthDate := Some (Ephemeris.birthDate chartRawData);
     AstroLogic.birthTime := Some (Ephemeris.birthTime chartRawData);
     AstroLogic.location :=
       Some {| AstroLogic.loc_latitude := Some latitude;
               AstroLogic.loc_longitude := Some longitude;
               AstroLogic.timezone := Some timezone |};
     AstroLogic.gender := gender;
     AstroLogic.houseSystem := Some (Ephemeris.houseSystem chartRawData);
     AstroLogic.ayanamsa :=
       match Ephemeris.ayanamsa chartRawData with
       | Some (n, v) =>
           Some {| AstroLogic.ayanamsa_name := Some n;
                   AstroLogic.ayanamsa_value := Some v |}
       | None => None
       end;
     AstroLogic.planets :=
       Some (map (fun e => (fst e, planet_for_xml (snd e)))
                 (Ephemeris.planets chartRawData));
     AstroLogic.houses :=
       Some {| AstroLogic.cusps :=
                 Some (Ephemeris.cusps (Ephemeris.houses chartRawData));
               AstroLogic.ascendant :=
                 Ephemeris.ascendant (Ephemeris.houses chartRawData);
               AstroLogic.mc := Ephemeris.mc (Ephemeris.houses chartRawData) |}
  |}.

End AstrologyActions.

(* ================================================================== *)
(** * src/server/integrations/stripe.js: the plan table *)
(* ================================================================== *)

Module Stripe.

Import Http.
Local Open Scope string_scope.

Record PlanDetail : Type := {
  priceId : option string;
  name : string;
  credits : Z
}.

(** [{ planId: planKey, ...PLAN_DETAILS[planKey] }]. *)
Record PlanMatch : Type := {
  planId : string;
  detail : PlanDetail
}.

(** [a === b] on two values that are each a string or [undefined]. *)
Definition strict_eq (a b : option string) : bool :=
  match a, b with
  | Some x, Some y => String.eqb x y
  | None, None => true
  | _, _ => false
  end.

Section Configured.

(** [process.env.STRIPE_BASIC_PLAN_PRICE_ID] and
    [process.env.STRIPE_PREMIUM_PLAN_PRICE_ID]; [None] when unset. *)
Variables BASIC_PLAN_PRICE_ID PREMIUM_PLAN_PRICE_ID : option string.

Definition PLAN_DETAILS : list (string * PlanDetail) :=
  [ ("basic", {| priceId := BASIC_PLAN_PRICE_ID; name := "Basic Plan";
                 credits := 50 |});
    ("premium", {| priceId := PREMIUM_PLAN_PRICE_ID; name := "Premium Plan";
                   credits := 200 |}) ].

(** [for (const planKey in plans) if (plans[planKey].priceId === priceId)
    return ...; return null]. *)
Fixpoint for_in (plans : list (string * PlanDetail))
         (priceId' : option string) : option PlanMatch :=
  match plans with
  | [] => None
  | (planKey, d) :: rest =>
      if strict_eq (priceId d) priceId'
      then Some {| planId := planKey; detail := d |}
      else for_in rest priceId'
  end.

Definition getPlanDetailsById (priceId' : option string) : option PlanMatch :=
  for_in PLAN_DETAILS priceId'.

(** The plan check of [createStripeCheckoutSession]:
    [const planDetail = PLAN_DETAILS[planId];
     if (!planDetail || !planDetail.priceId) throw ...]. *)
Definition checkout_plan (planId' : string) : outcome PlanDetail :=
  let refused :=
    Failed (HttpError 400
              ("Invalid plan ID or price ID not configured for: " ++ planId')) in
  match JsObject.get PLAN_DETAILS planId' with
  | JsObject.Own d =>
      match priceId d with
      | Some p => if truthy_string p then Done d else refused
      | None => refused
      end
  | JsObject.Inherited _ => refused
  | JsObject.Undefined => refused
  end.

End Configured.

(** The plan check of the [createCheckoutSession] action
    (src/server/actions/payment.js), which runs first:
    [!planId || (planId !== 'basic' && planId !== 'premium')]. *)
Definition plan_id_refused (planId' : option string) : bool :=
  match planId' with
  | None => true
  | Some p =>
      negb (truthy_string p)
      || (negb (String.eqb p "basic") && negb (String.eqb p "premium"))
  end.

End Stripe.

(* ================================================================== *)
(** * src/server/integrations/geolocation.js *)
(* ================================================================== *)

Module Geolocation.

Local Open Scope string_scope.

Record LatLng : Type := { lat : Q; lng : Q }.

(** A geocoding result.  [geometry] is [None] when the result has no
    [geometry], and [Some None] when the geometry has no [location]. *)
Record GeocodeResult : Type := {
  geometry : option (option LatLng);
  formatted_address : option string;
  place_id : option string
}.

(** [apiResponse.data] of a geocoding request. *)
Record GeocodeData : Type := {
  status : string;
  results : list GeocodeResult;
  error_message : option string
}.

(** [apiResponse.data] of a time zone request. *)
Record TimezoneData : Type := {
  tz_status : string;
  dstOffset : option Q;
  rawOffset : option Q;
  timeZoneId : option string;
  timeZoneName : option string;
  errorMessage : option string
}.

(** What the [catch] clause receives: [error.message] and
    [error.response?.data]. *)
Record Caught : Type := {
  message : string;
  response_data : option string
}.

Record GeocodeParams : Type := {
  address : string;
  geocode_key : string
}.

Record TimezoneParams : Type := {
  location : LatLng;
  timestamp : Z;
  timezone_key : string
}.

Inductive Request : Type :=
| GeocodeRequest (params : GeocodeParams)
| TimezoneRequest (params : TimezoneParams).

Inductive Logged : Type :=
| LoggedResult (result : GeocodeResult)
| LoggedGeocodeData (data : GeocodeData)
| LoggedTimezoneData (data : TimezoneData)
| LoggedErrorData (data : option string).

(** The [data] object passed to [prisma.apiLog.create]. *)
Record ApiLog : Type := {
  userId : option Z;
  apiService : string;
  endpoint : string;
  requestData : Request;
  responseData : Logged;
  isSuccess : bool;
  logged_error : option string
}.

Inductive event : Type :=
| ApiCall (request : Request)
| ApiLogCreate (record : ApiLog) (stored : bool).

(** What [geocodeAddress] and [getTimezone] return. *)
Record GeoData : Type := {
  latitude : Q;
  longitude : Q;
  formattedAddress : option string;
  placeId : option string
}.

Record TimezoneInfo : Type := {
  info_dstOffset : option Q;
  info_rawOffset : option Q;
  info_timeZoneId : option string;
  info_timeZoneName : option string
}.

Section Configured.

(** [process.env.GOOGLE_MAPS_API_KEY]; [None] when unset. *)
Variable GOOGLE_MAPS_API_KEY : option string.

(** [Status.OK] of the Google Maps client library. *)
Variable Status_OK : string.

(** [client.geocode] and [client.timezone]: the data of the response, or
    the error they reject with. *)
Variable client_geocode : GeocodeParams -> GeocodeData + Caught.
Variable client_timezone : TimezoneParams -> TimezoneData + Caught.

(** Whether [prisma.apiLog.create] accepts the record. *)
Variable apiLog_create : ApiLog -> bool.

(** [GOOGLE_MAPS_API_KEY ? new Client({}) : null]: the key when there is
    a client. *)
Definition client : option string :=
  match GOOGLE_MAPS_API_KEY with
  | Some k => if truthy_string k then Some k else None
  | None => None
  end.

(** [logGoogleApiCall]: one [create]; a database error is caught and only
    logged. *)
Definition logGoogleApiCall (record : ApiLog) (trace : list event)
  : list event :=
  (trace ++ [ApiLogCreate record (apiLog_create record)])%list.

Definition type_error (property : string) : Caught :=
  {| message := "Cannot read properties of undefined (reading '" ++ property
                  ++ "')";
     response_data := None |}.

(** [a || b] on an optional string and a string. *)
Definition or_else (a : option string) (b : string) : string :=
  match a with
  | Some s => if truthy_string s then s else b
  | None => b
  end.

Definition geocodeAddress (address' : string) (userId' : option Z)
  : completion (option GeoData) * list event :=
  match client with
  | None => (Throw (Error "Geolocation service is currently unavailable."), [])
  | Some key =>
      let params := {| address := address'; geocode_key := key |} in
      let request := GeocodeRequest params in
      let record response ok error :=
        {| userId := userId'; apiService := "GoogleMaps";
           endpoint := "geocode"; requestData := request;
           responseData := response; isSuccess := ok;
           logged_error := error |} in
      let trace := [ApiCall request] in
      let not_found data trace :=
        (inl None,
         logGoogleApiCall
           (record (LoggedGeocodeData data) false
                   (Some (or_else (error_message data) (status data))))
           trace) in
      (* the [try] block: the value returned, or what is thrown into
         [catch] *)
      let '(tried, trace) :=
        match client_geocode params with
        | inr error => (inr error, trace)
        | inl data =>
            if String.eqb (status data) Status_OK then
              match results data with
              | result :: _ =>
                  match geometry result with
                  | None => (inr (type_error "location"), trace)
                  | Some location' =>
                      let trace :=
                        logGoogleApiCall
                          (record (LoggedResult result) true None) trace in
                      match location' with
                      | None => (inr (type_error "lat"), trace)
                      | Some l =>
                          (inl (Some {| latitude := lat l;
                                        longitude := lng l;
                                        formattedAddress :=
                                          formatted_address result;
                                        placeId := place_id result |}),
                           trace)
                      end
                  end
              | [] => not_found data trace
              end
            else not_found data trace
        end in
      match tried with
      | inl value => (Return value, trace)
      | inr error =>
          (Throw (Error ("Geocoding request failed: " ++ message error)),
           logGoogleApiCall
             (record (LoggedErrorData (response_data error)) false
                     (Some (message error)))
             trace)
      end
  end.

(** [getTimezone]; [timestamp'] is the time value of the date, in
    milliseconds. *)
Definition getTimezone (latitude' longitude' : Q) (timestamp' : Z)
           (userId' : option Z)
  : completion (option TimezoneInfo) * list event :=
  match client with
  | None => (Throw (Error "Timezone service is currently unavailable."), [])
  | Some key =>
      let timestampSeconds := (timestamp' / 1000)%Z in
      let params :=
        {| location := {| lat := latitude'; lng := longitude' |};
           timestamp := timestampSeconds; timezone_key := key |} in
      let request := TimezoneRequest params in
      let record response ok error :=
        {| userId := userId'; apiService := "GoogleMaps";
           endpoint := "timezone"; requestData := request;
           responseData := response; isSuccess := ok;
           logged_error := error |} in
      let trace := [ApiCall request] in
      match client_timezone params with
      | inl data =>
          if String.eqb (tz_status data) Status_OK then
            (Return (Some {| info_dstOffset := dstOffset data;
                             info_rawOffset := rawOffset data;
                             info_timeZoneId := timeZoneId data;
                             info_timeZoneName := timeZoneName data |}),
             logGoogleApiCall (record (LoggedTimezoneData data) true None)
                              trace)
          else
            (Return None,
             logGoogleApiCall
               (record (LoggedTimezoneData data) false
                       (Some (or_else (errorMessage data) (tz_status data))))
               trace)
      | inr error =>
          (Throw (Error ("Timezone request failed: " ++ message error)),
           logGoogleApiCall
             (record (LoggedErrorData (response_data error)) false
                     (Some (message error)))
             trace)
      end
  end.

End Configured.

(** The records handed to the ledger and the requests sent, in order. *)
Fixpoint ledger (trace : list event) : list ApiLog :=
  match trace with
  | [] => []
  | ApiLogCreate record _ :: rest => record :: ledger rest
  | _ :: rest => ledger rest
  end.

Fixpoint requests (trace : list event) : list Request :=
  match trace with
  | [] => []
  | ApiCall request :: rest => request :: requests rest
  | _ :: rest => requests rest
  end.

(** Example collaborators. *)
Definition no_results : GeocodeData :=
  {| status := "ZERO_RESULTS"; results := []; error_message := None |}.

Definition found (l : option (option LatLng)) : GeocodeData :=
  {| status := "OK";
     results := [ {| geometry := l;
                     formatted_address := Some "New York, NY, USA";
                     place_id := Some "ChIJOwg_06VPwokRYv534QaPC8g" |} ];
     error_message := None |}.

End Geolocation.

(* ================================================================== *)
(** * src/server/jobs/monthlyHoroscope.js: the transit data *)
(* ================================================================== *)

Module MonthlyHoroscope.

Import Ephemeris.
Local Open Scope string_scope.

(** The job's own [PLANET_LIST]. *)
Definition PLANET_LIST : list (string * Z) :=
  [ ("SE_SUN", 0%Z); ("SE_MOON", 1%Z); ("SE_MERCURY", 2%Z);
    ("SE_VENUS", 3%Z); ("SE_MARS", 4%Z); ("SE_JUPITER", 5%Z);
    ("SE_SATURN", 6%Z); ("SE_URANUS", 7%Z); ("SE_NEPTUNE", 8%Z);
    ("SE_PLUTO", 9%Z); ("SE_MEAN_NODE", 10%Z) ].

(** What the function reads of [targetDate], the 15th of the month:
    its UTC year, month (from 0) and day, and the date part of its ISO
    rendering. *)
Record TargetDate : Type := {
  utcFullYear : Z;
  utcMonth : Z;
  utcDate : Z;
  isoDate : string
}.

(** A transit position: [{ longitude: xx[0], speedLon: xx[3] }]. *)
Record TransitPosition : Type := {
  transit_longitude : Q;
  transit_speedLon : Q
}.

Record TransitResult : Type := {
  transit_date : string;
  transit_planets : list (string * TransitPosition)
}.

(** [Object.keys(PLANET_LIST).find(key => PLANET_LIST[key] === id)
     || `Planet_${id}`]. *)
Definition planetName (id : Z) : string :=
  match find (fun entry => Z.eqb (snd entry) id) PLANET_LIST with
  | Some (key, _) => if truthy_string key then key
                     else "Planet_" ++ string_of_Z id
  | None => "Planet_" ++ string_of_Z id
  end.

Section Sweph.

Variables SE_SUN SE_MOON SE_MERCURY SE_VENUS SE_MARS SE_JUPITER SE_SATURN
          SE_URANUS SE_NEPTUNE SE_PLUTO SE_MEAN_NODE : Z.
Variable SEFLG_SPEED : Z.
Variable swe_utc_to_jd : UtcDate -> Z * Q.
Variable swe_calc_ut : Z -> Q -> Z -> Z -> CalcResult.

Definition planetIds : list Z :=
  [ SE_SUN; SE_MOON; SE_MERCURY; SE_VENUS; SE_MARS; SE_JUPITER; SE_SATURN;
    SE_URANUS; SE_NEPTUNE; SE_PLUTO; SE_MEAN_NODE ].

(** The loop over [planetIds]; no result of the library is checked. *)
Fixpoint transit_loop (jdutTransit : Q) (flags : Z) (ids : list Z)
         (transitPlanets : list (string * TransitPosition)) (st : Sweph)
  : list (string * TransitPosition) * Sweph :=
  match ids with
  | [] => (transitPlanets, st)
  | id :: rest =>
      let r := swe_calc_ut (sid_mode st) jdutTransit id flags in
      let st := called (Call_calc_ut jdutTransit id flags) st in
      transit_loop jdutTransit flags rest
        (set_property transitPlanets (planetName id)
           {| transit_longitude := xx0 (xx r);
              transit_speedLon := xx3 (xx r) |})
        st
  end.

Definition getTransitDataForMonth (targetDate : TargetDate) (st : Sweph)
  : TransitResult * Sweph :=
  let noon :=
    {| year := utcFullYear targetDate;
       month := (utcMonth targetDate + 1)%Z;
       day := utcDate targetDate;
       hours := 12; minutes := 0; seconds := 0 |} in
  let st := called (Call_utc_to_jd noon) st in
  let jdutTransit := snd (swe_utc_to_jd noon) in
  let st := swe_set_sid_mode 0 st in
  let flags := SEFLG_SPEED in
  let '(transitPlanets, st) := transit_loop jdutTransit flags planetIds [] st in
  let st := called Call_close st in
  ({| transit_date := isoDate targetDate;
      transit_planets := transitPlanets |}, st).

End Sweph.

(** The transit data as [formatTransitDataAsXML] receives it. *)
Definition transit_for_xml (transitData : TransitResult)
  : AstroLogic.TransitData :=
  {| AstroLogic.date := Some (transit_date transitData);
     AstroLogic.transit_planets :=
       Some (map (fun e =>
                    (fst e,
                     {| AstroLogic.longitude :=
                          Some (transit_longitude (snd e));
                        AstroLogic.latitude := None;
                        AstroLogic.speedLon := Some (transit_speedLon (snd e));
                        AstroLogic.isRetrograde := None |}))
                 (transit_planets transitData)) |}.

(** The job run for June 2025 on a library whose sidereal mode an
    earlier call has left at 1. *)
Definition example_transits : TransitResult * Sweph :=
  getTransitDataForMonth 0 1 2 3 4 5 6 7 8 9 10 256
    (fun _ => (0%Z, 2460842))
    (fun _ _ id _ => EphemerisDerived.example_position id)
    {| utcFullYear := 2025; utcMonth := 5; utcDate := 15;
       isoDate := "2025-06-15" |}
    {| sid_mode := 1; calls := [] |}.

End MonthlyHoroscope.

Import AstroLogic HouseSpec Derived.

(* ================================================================== *)
(** * Facts about the arithmetic *)
(* ================================================================== *)

Section JsNumFacts.

Lemma Qfloor_unique (x : Q) (n : Z) :
  inject_Z n <= x -> x < inject_Z (n + 1) -> Qfloor x = n.
Proof.
  intros Hlo Hhi.
  pose proof (Qfloor_le x) as H1.
  pose proof (Qlt_floor x) as H2.
  assert (A : (n < Qfloor x + 1)%Z).
  { rewrite Zlt_Qlt. eapply Qle_lt_trans; eauto. }
  assert (B : (Qfloor x < n + 1)%Z).
  { rewrite Zlt_Qlt. eapply Qle_lt_trans; eauto. }
  lia.
Qed.

Lemma Qfloor_spec (x : Q) :
  inject_Z (Qfloor x) <= x /\ x < inject_Z (Qfloor x) + 1.
Proof.
  split; [apply Qfloor_le|].
  pose proof (Qlt_floor x) as H. rewrite inject_Z_plus in H. exact H.
Qed.

Lemma Qfloor_sub_Z (x : Q) (n : Z) :
  Qfloor (x - inject_Z n) = (Qfloor x - n)%Z.
Proof.
  destruct (Qfloor_spec x) as [H1 H2].
  apply Qfloor_unique.
  - unfold Z.sub. rewrite inject_Z_plus, inject_Z_opp. lra.
  - replace (Qfloor x - n + 1)%Z with ((Qfloor x + 1) + - n)%Z by lia.
    rewrite !inject_Z_plus, inject_Z_opp. change (inject_Z 1) with 1. lra.
Qed.

Lemma Qtrunc_nonneg (x : Q) : 0 <= x -> Qtrunc x = Qfloor x.
Proof.
  destruct x as [n d]. unfold Qle, Qtrunc, Qfloor. simpl. intros H.
  rewrite Z.mul_1_r in H. apply Z.quot_div_nonneg; lia.
Qed.

End JsNumFacts.

Local Open Scope string_scope.

Ltac qdiv :=
  unfold Qdiv in *;
  repeat match goal with
    | |- context [ / 360 ] => change (/ 360) with (1 # 360)
    | |- context [ / 30 ] => change (/ 30) with (1 # 30)
    | H : context [ / 360 ] |- _ => change (/ 360) with (1 # 360) in H
    | H : context [ / 30 ] |- _ => change (/ 30) with (1 # 30) in H
    end.

Lemma Qfloor_range (x : Q) (a b : Z) :
  inject_Z a <= x -> x < inject_Z b -> (a <= Qfloor x < b)%Z.
Proof.
  intros Ha Hb. destruct (Qfloor_spec x) as [H1 H2]. split.
  - rewrite <- (Qfloor_Z a). now apply Qfloor_resp_le.
  - rewrite Zlt_Qlt. lra.
Qed.

Lemma Qtrunc_opp (q : Q) : Qtrunc (- q) = (- Qtrunc q)%Z.
Proof. destruct q as [n d]. unfold Qtrunc. simpl. apply Z.quot_opp_l. lia. Qed.

Lemma Qtrunc_spec (q : Q) :
  Qtrunc q = if Qle_bool 0 q then Qfloor q else (- Qfloor (- q))%Z.
Proof.
  destruct (Qle_bool 0 q) eqn:E.
  - apply Qtrunc_nonneg. now apply Qle_bool_iff.
  - assert (H : 0 <= - q).
    { destruct (Qlt_le_dec q 0) as [H|H]; [lra|]. apply Qle_bool_iff in H. congruence. }
    rewrite <- (Qtrunc_nonneg _ H), Qtrunc_opp. lia.
Qed.

#[local] Instance Qtrunc_comp : Proper (Qeq ==> eq) Qtrunc.
Proof.
  intros a b H. rewrite !Qtrunc_spec.
  assert (Qle_bool 0 a = Qle_bool 0 b) as ->.
  { destruct (Qle_bool 0 a) eqn:Ea, (Qle_bool 0 b) eqn:Eb; auto.
    - apply Qle_bool_iff in Ea. assert (Hb : 0 <= b) by lra.
      apply Qle_bool_iff in Hb. congruence.
    - apply Qle_bool_iff in Eb. assert (Ha : 0 <= a) by lra.
      apply Qle_bool_iff in Ha. congruence. }
  destruct (Qle_bool 0 b); now rewrite H.
Qed.

#[local] Instance js_rem_comp : Proper (Qeq ==> Qeq ==> Qeq) js_rem.
Proof.
  intros a b H c d H'. unfold js_rem.
  assert (E : Qtrunc (a / c) = Qtrunc (b / d)).
  { apply Qtrunc_comp. now rewrite H, H'. }
  rewrite E, H, H'. reflexivity.
Qed.

#[local] Instance Qmod_comp : Proper (Qeq ==> Qeq ==> Qeq) Qmod.
Proof.
  intros a b H c d H'. unfold Qmod.
  assert (E : Qfloor (a / c) = Qfloor (b / d)).
  { apply Qfloor_comp. now rewrite H, H'. }
  rewrite E, H, H'. reflexivity.
Qed.

(** The truncated quotient is within one of the exact quotient, on the
    side of zero. *)
Lemma Qtrunc_bounds (q : Q) :
  (0 <= q -> inject_Z (Qtrunc q) <= q /\ q < inject_Z (Qtrunc q) + 1) /\
  (q <= 0 -> q <= inject_Z (Qtrunc q) /\ inject_Z (Qtrunc q) < q + 1).
Proof.
  split; intros H.
  - rewrite Qtrunc_nonneg by assumption. apply Qfloor_spec.
  - assert (H' : 0 <= - q) by lra.
    pose proof (Qtrunc_nonneg _ H') as E. rewrite Qtrunc_opp in E.
    destruct (Qfloor_spec (- q)) as [H1 H2].
    rewrite <- E, inject_Z_opp in H1, H2. lra.
Qed.

Lemma js_rem_360_nonneg (x : Q) :
  0 <= x -> 0 <= js_rem x 360 /\ js_rem x 360 < 360.
Proof.
  intros H. unfold js_rem.
  destruct (Qtrunc_bounds (x / 360)) as [B _].
  destruct B as [B1 B2]; qdiv; lra.
Qed.

Lemma js_rem_360_bounds (x : Q) :
  - (360) < js_rem x 360 /\ js_rem x 360 < 360.
Proof.
  unfold js_rem.
  destruct (Qtrunc_bounds (x / 360)) as [B C].
  destruct (Qlt_le_dec x 0) as [N|P].
  - destruct C as [C1 C2]; qdiv; lra.
  - destruct B as [B1 B2]; qdiv; lra.
Qed.

Lemma js_rem_30_nonneg (x : Q) :
  0 <= x -> js_rem x 30 == x - 30 * inject_Z (Qfloor (x / 30)).
Proof.
  intros H. unfold js_rem. rewrite Qtrunc_nonneg; [reflexivity|]. qdiv. lra.
Qed.

Lemma Qmod_360_unique (x r : Q) (k : Z) :
  x == 360 * inject_Z k + r -> 0 <= r -> r < 360 -> Qmod x 360 == r.
Proof.
  intros E H1 H2. unfold Qmod.
  assert (F : Qfloor (x / 360) = k).
  { apply Qfloor_unique; rewrite ?inject_Z_plus; change (inject_Z 1) with 1;
      qdiv; lra. }
  rewrite F. lra.
Qed.

(* ------------------------------------------------------------------ *)
(** ** Powers of two and binades *)

Lemma pow2_pos (z : Z) : 0 < pow2 z.
Proof. apply Qpower_0_lt. reflexivity. Qed.

Lemma pow2_add (a b : Z) : pow2 (a + b) == pow2 a * pow2 b.
Proof. apply Qpower_plus. discriminate. Qed.

Lemma pow2_le (a b : Z) : (a <= b)%Z -> pow2 a <= pow2 b.
Proof. intros H. apply Qpower_le_compat_l; [exact H|discriminate]. Qed.

Lemma pow2_lt (a b : Z) : (a < b)%Z -> pow2 a < pow2 b.
Proof. intros H. apply Qpower_lt_compat_l; [exact H|reflexivity]. Qed.

Lemma pow2_le_inv (a b : Z) : pow2 a <= pow2 b -> (a <= b)%Z.
Proof. intros H. apply (Qpower_le_compat_l_inv 2); [exact H|reflexivity]. Qed.

Lemma pow2_lt_inv (a b : Z) : pow2 a < pow2 b -> (a < b)%Z.
Proof. intros H. apply (Qpower_lt_compat_l_inv 2); [exact H|reflexivity]. Qed.

Lemma pow2_Z (n : Z) : (0 <= n)%Z -> pow2 n == inject_Z (2 ^ n).
Proof. intros H. unfold pow2. now rewrite Zpower_Qpower. Qed.

Lemma pow2_0 : pow2 0 == 1.
Proof. reflexivity. Qed.

Lemma pow2_S (a : Z) : pow2 (a + 1) == 2 * pow2 a.
Proof. rewrite pow2_add. change (pow2 1) with 2. ring. Qed.

Lemma pow2_opp (a : Z) : pow2 (- a) == / pow2 a.
Proof. apply Qpower_opp. Qed.

Lemma pow2_cancel (a : Z) : pow2 a * pow2 (- a) == 1.
Proof. rewrite <- pow2_add. now replace (a + - a)%Z with 0%Z by lia. Qed.

Lemma Qfloor_spec' (x : Q) :
  inject_Z (Qfloor x) <= x /\ x < inject_Z (Qfloor x) + 1.
Proof.
  split; [apply Qfloor_le|].
  pose proof (Qlt_floor x) as H. rewrite inject_Z_plus in H. exact H.
Qed.

Lemma Qceiling_spec (x : Q) :
  inject_Z (Qceiling x) - 1 < x /\ x <= inject_Z (Qceiling x).
Proof.
  split; [|apply Qle_ceiling].
  pose proof (Qceiling_lt x) as H. unfold Z.sub in H.
  rewrite inject_Z_plus in H. exact H.
Qed.

Lemma Qlog2_spec (x : Q) :
  0 < x -> pow2 (Qlog2 x) <= x /\ x < pow2 (Qlog2 x + 1).
Proof.
  intros Hx. unfold Qlog2. destruct (Qle_bool 1 x) eqn:E.
  - apply Qle_bool_iff in E.
    destruct (Qfloor_spec' x) as [A B].
    assert (Hn : (1 <= Qfloor x)%Z).
    { rewrite <- (Qfloor_Z 1). now apply Qfloor_resp_le. }
    destruct (Z.log2_spec (Qfloor x)) as [L1 L2]; [lia|].
    pose proof (Z.log2_nonneg (Qfloor x)) as L0.
    rewrite !pow2_Z by lia. split.
    + rewrite Zle_Qle in L1. lra.
    + assert (L3 : (Qfloor x + 1 <= 2 ^ (Z.log2 (Qfloor x) + 1))%Z)
        by (unfold Z.succ in L2; lia).
      rewrite Zle_Qle, inject_Z_plus in L3. change (inject_Z 1) with 1 in L3.
      lra.
  - assert (Hlt : x < 1).
    { destruct (Qlt_le_dec x 1) as [H|H]; [exact H|].
      apply Qle_bool_iff in H. congruence. }
    assert (Hy : 1 < / x).
    { apply Qlt_shift_inv_l; [exact Hx|lra]. }
    destruct (Qceiling_spec (/ x)) as [A B].
    set (c := Qceiling (/ x)) in *.
    assert (Hc : (1 < c)%Z) by (rewrite Zlt_Qlt; change (inject_Z 1) with 1; lra).
    destruct (Z.log2_up_spec c Hc) as [L1 L2].
    pose proof (Z.log2_up_pos c Hc) as L0.
    set (k := Z.log2_up c) in *.
    assert (Xinv : x * / x == 1) by (apply Qmult_inv_r; lra).
    split.
    + (* 2^-k <= x  since 1/x <= c <= 2^k *)
      assert (P : / x <= pow2 k).
      { rewrite pow2_Z by lia. rewrite Zle_Qle in L2. lra. }
      pose proof (pow2_pos k) as Pk. pose proof (pow2_pos (- k)) as Pmk.
      pose proof (pow2_cancel k) as C.
      (* x * (/x) = 1 <= x * 2^k  =>  2^-k <= x *)
      assert (Q1 : 1 <= x * pow2 k).
      { rewrite <- Xinv. apply Qmult_le_l; assumption. }
      assert (Q2 : pow2 (- k) * 1 <= pow2 (- k) * (x * pow2 k)).
      { apply Qmult_le_l; assumption. }
      assert (Q3 : pow2 (- k) * (x * pow2 k) == x).
      { transitivity (x * (pow2 k * pow2 (- k))); [ring|]. rewrite C. ring. }
      lra.
    + (* x < 2^(-k+1) since 1/x > c - 1 >= 2^(k-1) *)
      assert (P : pow2 (k - 1) < / x).
      { rewrite pow2_Z by lia. unfold Z.pred in L1.
        replace (k + -1)%Z with (k - 1)%Z in L1 by lia.
        assert (L3 : (2 ^ (k - 1) + 1 <= c)%Z) by lia.
        rewrite Zle_Qle, inject_Z_plus in L3.
        change (inject_Z 1) with 1 in L3. lra. }
      replace (- k + 1)%Z with (- (k - 1))%Z by lia.
      pose proof (pow2_pos (k - 1)) as Pk.
      pose proof (pow2_pos (- (k - 1))) as Pmk.
      pose proof (pow2_cancel (k - 1)) as C.
      assert (Q1 : x * pow2 (k - 1) < 1).
      { rewrite <- Xinv. apply Qmult_lt_l; assumption. }
      assert (Q2 : pow2 (- (k - 1)) * (x * pow2 (k - 1)) < pow2 (- (k - 1)) * 1).
      { apply Qmult_lt_l; assumption. }
      assert (Q3 : pow2 (- (k - 1)) * (x * pow2 (k - 1)) == x).
      { transitivity (x * (pow2 (k - 1) * pow2 (- (k - 1)))); [ring|].
        rewrite C. ring. }
      lra.
Qed.

Lemma Qlog2_unique (x : Q) (e : Z) :
  pow2 e <= x -> x < pow2 (e + 1) -> Qlog2 x = e.
Proof.
  intros A B.
  assert (Hx : 0 < x) by (pose proof (pow2_pos e); lra).
  destruct (Qlog2_spec x Hx) as [C D].
  assert (E1 : (e < Qlog2 x + 1)%Z) by (apply pow2_lt_inv; lra).
  assert (E2 : (Qlog2 x < e + 1)%Z) by (apply pow2_lt_inv; lra).
  lia.
Qed.

Lemma Qle_bool_comp (a b c d : Q) :
  a == b -> c == d -> Qle_bool a c = Qle_bool b d.
Proof.
  intros E F.
  destruct (Qle_bool a c) eqn:A, (Qle_bool b d) eqn:B; trivial.
  - apply Qle_bool_iff in A. assert (H : b <= d) by lra.
    apply Qle_bool_iff in H. congruence.
  - apply Qle_bool_iff in B. assert (H : a <= c) by lra.
    apply Qle_bool_iff in H. congruence.
Qed.

Lemma Qle_bool_false (a b : Q) : Qle_bool a b = false <-> b < a.
Proof.
  split.
  - intros E. destruct (Qlt_le_dec b a) as [H|H]; [exact H|].
    apply Qle_bool_iff in H. congruence.
  - intros H. destruct (Qle_bool a b) eqn:E; [|reflexivity].
    apply Qle_bool_iff in E. lra.
Qed.

#[local] Instance Qlog2_comp : Proper (Qeq ==> eq) Qlog2.
Proof.
  intros a b H. unfold Qlog2.
  rewrite (Qle_bool_comp 1 1 a b (Qeq_refl 1) H).
  destruct (Qle_bool 1 b).
  - f_equal. now apply Qfloor_comp.
  - do 2 f_equal. apply Qceiling_comp. now rewrite H.
Qed.

#[local] Instance exponent_comp : Proper (Qeq ==> eq) exponent.
Proof.
  intros a b H. unfold exponent.
  assert (E : Qabs a == Qabs b) by (now rewrite H).
  rewrite (Qle_bool_comp _ _ _ _ E (Qeq_refl _)).
  destruct (Qle_bool _ _); [reflexivity|]. now apply Qlog2_comp.
Qed.

#[local] Instance ulp_comp : Proper (Qeq ==> Qeq) ulp.
Proof. intros a b H. unfold ulp. now rewrite H. Qed.

Lemma exponent_min (x : Q) : (-1022 <= exponent x)%Z.
Proof.
  unfold exponent. destruct (Qle_bool _ _) eqn:E; [lia|].
  apply Qle_bool_false in E.
  destruct (Qlog2_spec (Qabs x)) as [A B].
  { pose proof (pow2_pos (-1022)). lra. }
  assert (H : (-1022 < Qlog2 (Qabs x) + 1)%Z) by (apply pow2_lt_inv; lra).
  lia.
Qed.

(** Above the subnormal range the exponent is that of the binade. *)
Lemma exponent_binade (x : Q) (e : Z) :
  (-1022 <= e)%Z -> pow2 e <= Qabs x -> Qabs x < pow2 (e + 1) ->
  exponent x = e.
Proof.
  intros He A B. unfold exponent. destruct (Qle_bool _ _) eqn:E.
  - apply Qle_bool_iff in E.
    assert (H : (e < -1022 + 1)%Z).
    { apply pow2_lt_inv.
      pose proof (pow2_lt (-1022) (-1022 + 1) ltac:(lia)). lra. }
    assert (H' : (e <= -1022)%Z) by lia.
    lia.
  - now apply Qlog2_unique.
Qed.

Lemma exponent_lower (x : Q) (e : Z) :
  pow2 e <= Qabs x -> (e <= exponent x)%Z.
Proof.
  intros A. pose proof (exponent_min x) as M.
  unfold exponent in *. destruct (Qle_bool _ _) eqn:E.
  - apply Qle_bool_iff in E. apply pow2_le_inv. lra.
  - apply Qle_bool_false in E.
    destruct (Qlog2_spec (Qabs x)) as [C D].
    { pose proof (pow2_pos (-1022)). lra. }
    assert (H : (e < Qlog2 (Qabs x) + 1)%Z) by (apply pow2_lt_inv; lra).
    lia.
Qed.

Lemma exponent_upper (x : Q) (e : Z) :
  (-1022 <= e)%Z -> Qabs x < pow2 (e + 1) -> (exponent x <= e)%Z.
Proof.
  intros He B. unfold exponent. destruct (Qle_bool _ _) eqn:E; [exact He|].
  apply Qle_bool_false in E.
  destruct (Qlog2_spec (Qabs x)) as [C D].
  { pose proof (pow2_pos (-1022)). lra. }
  assert (H : (Qlog2 (Qabs x) < e + 1)%Z) by (apply pow2_lt_inv; lra).
  lia.
Qed.

(** A number that is not subnormal is at least [2^exponent]. *)
Lemma exponent_spec (x : Q) :
  Qabs x < pow2 (exponent x + 1)
  /\ ((-1022 < exponent x)%Z -> pow2 (exponent x) <= Qabs x).
Proof.
  unfold exponent. destruct (Qle_bool _ _) eqn:E.
  - apply Qle_bool_iff in E. split; [|lia].
    pose proof (pow2_lt (-1022) (-1022 + 1) ltac:(lia)). lra.
  - apply Qle_bool_false in E.
    destruct (Qlog2_spec (Qabs x)) as [C D].
    { pose proof (pow2_pos (-1022)). lra. }
    split; [exact D|intros _; exact C].
Qed.

Lemma ulp_pos (x : Q) : 0 < ulp x.
Proof. apply pow2_pos. Qed.

(** ** Rounding to the nearest integer, ties to even *)

#[local] Instance round_half_even_comp : Proper (Qeq ==> eq) round_half_even.
Proof.
  intros a b H. unfold round_half_even.
  assert (E : Qfloor a = Qfloor b) by (now apply Qfloor_comp).
  rewrite E.
  assert (F : Qcompare (a - inject_Z (Qfloor b)) (1 # 2)
              = Qcompare (b - inject_Z (Qfloor b)) (1 # 2)).
  { apply Qcompare_comp; [now rewrite H|reflexivity]. }
  now rewrite F.
Qed.

Lemma round_half_even_cases (q : Q) :
  let f := Qfloor q in
  (q - inject_Z f < 1 # 2 /\ round_half_even q = f)
  \/ (1 # 2 < q - inject_Z f /\ round_half_even q = (f + 1)%Z)
  \/ (q - inject_Z f == 1 # 2
      /\ (round_half_even q = f \/ round_half_even q = (f + 1)%Z)).
Proof.
  cbv zeta. unfold round_half_even.
  destruct (Qcompare_spec (q - inject_Z (Qfloor q)) (1 # 2)) as [H|H|H].
  - right. right. split; [exact H|]. destruct (Z.even _); auto.
  - left. now split.
  - right. left. now split.
Qed.

Lemma round_half_even_near (q : Q) :
  q - (1 # 2) <= inject_Z (round_half_even q)
  /\ inject_Z (round_half_even q) <= q + (1 # 2).
Proof.
  destruct (Qfloor_spec' q) as [A B].
  destruct (round_half_even_cases q) as [[H ->]|[[H ->]|[H [-> | ->]]]];
    rewrite ?inject_Z_plus; change (inject_Z 1) with 1; split; lra.
Qed.

Lemma round_half_even_Z (k : Z) : round_half_even (inject_Z k) = k.
Proof.
  unfold round_half_even. rewrite Qfloor_Z.
  assert (E : Qcompare (inject_Z k - inject_Z k) (1 # 2) = Lt).
  { rewrite <- Qlt_alt. lra. }
  now rewrite E.
Qed.

Lemma round_half_even_mono (p q : Q) :
  p <= q -> (round_half_even p <= round_half_even q)%Z.
Proof.
  intros H.
  destruct (Qeq_dec p q) as [E|N].
  { rewrite (round_half_even_comp _ _ E). lia. }
  assert (Hlt : p < q) by (apply Qlt_leneq; split; assumption).
  destruct (Z.le_gt_cases (round_half_even p) (round_half_even q)) as [L|G];
    [exact L|exfalso].
  assert (G' : (round_half_even q + 1 <= round_half_even p)%Z) by lia.
  rewrite Zle_Qle, inject_Z_plus in G'. change (inject_Z 1) with 1 in G'.
  destruct (round_half_even_near p) as [_ P2].
  destruct (round_half_even_near q) as [Q1 _].
  lra.
Qed.

Lemma round_half_even_nonneg (q : Q) : 0 <= q -> (0 <= round_half_even q)%Z.
Proof.
  intros H. rewrite <- (round_half_even_Z 0).
  now apply round_half_even_mono.
Qed.

(** ** Rounding to the nearest double *)

#[local] Instance rnd_comp : Proper (Qeq ==> Qeq) rnd.
Proof.
  intros a b H. unfold rnd.
  assert (U : ulp a == ulp b) by (now rewrite H).
  assert (E : round_half_even (a / ulp a) = round_half_even (b / ulp b)).
  { apply round_half_even_comp. now rewrite H. }
  now rewrite E, U.
Qed.

Lemma div_ulp (x : Q) : x / ulp x * ulp x == x.
Proof. field. pose proof (ulp_pos x). lra. Qed.

(** The rounding error is at most half a unit in the last place. *)
Lemma rnd_error (x : Q) : Qabs (rnd x - x) <= ulp x * (1 # 2).
Proof.
  unfold rnd. pose proof (ulp_pos x) as U.
  destruct (round_half_even_near (x / ulp x)) as [A B].
  pose proof (div_ulp x) as D.
  generalize dependent (ulp x). intros u U A B D.
  set (m := inject_Z (round_half_even (x / u))) in *.
  set (q := x / u) in *.
  assert (E : m * u - x == (m - q) * u) by (rewrite <- D; ring).
  rewrite E. apply Qabs_Qle_condition. split.
  - assert (H : (- (1 # 2)) * u <= (m - q) * u).
    { apply Qmult_le_compat_r; lra. }
    lra.
  - assert (H : (m - q) * u <= (1 # 2) * u).
    { apply Qmult_le_compat_r; lra. }
    lra.
Qed.

Lemma rnd_nonneg (x : Q) : 0 <= x -> 0 <= rnd x.
Proof.
  intros H. unfold rnd. pose proof (ulp_pos x) as U.
  apply Qmult_le_0_compat; [|lra].
  change 0 with (inject_Z 0). rewrite <- Zle_Qle.
  apply round_half_even_nonneg. apply Qle_shift_div_l; lra.
Qed.

(** A whole multiple of [2^t] with fewer than 54 significant bits, [t]
    not below the exponent of the smallest subnormal, is a double. *)
Lemma rnd_exact (m t : Z) :
  (-1074 <= t)%Z -> (Z.abs m < 2 ^ 53)%Z ->
  rnd (inject_Z m * pow2 t) == inject_Z m * pow2 t.
Proof.
  intros Ht Hm. set (x := inject_Z m * pow2 t).
  pose proof (pow2_pos t) as Pt.
  assert (Habs : Qabs x == inject_Z (Z.abs m) * pow2 t).
  { unfold x. rewrite Qabs_Qmult, (Qabs_pos (pow2 t)) by lra.
    reflexivity. }
  assert (Hj : (exponent x - 52 <= t)%Z).
  { destruct (exponent_spec x) as [_ S].
    destruct (Z.eq_dec (exponent x) (-1022)) as [E|N]; [lia|].
    pose proof (exponent_min x) as M.
    specialize (S ltac:(lia)).
    assert (B : Qabs x < pow2 (t + 53)).
    { rewrite Habs, pow2_add, Qmult_comm.
      apply Qmult_lt_l; [exact Pt|].
      rewrite pow2_Z by lia. now rewrite <- Zlt_Qlt. }
    assert (L : (exponent x < t + 53)%Z) by (apply pow2_lt_inv; lra).
    lia. }
  unfold rnd, ulp. set (u := (exponent x - 52)%Z) in *.
  assert (Ej : pow2 t == inject_Z (2 ^ (t - u)) * pow2 u).
  { rewrite <- pow2_Z by lia. rewrite <- pow2_add.
    now replace (t - u + u)%Z with t by lia. }
  assert (Eq : x / pow2 u == inject_Z (m * 2 ^ (t - u))).
  { unfold x. rewrite Ej, inject_Z_mult. field.
    pose proof (pow2_pos u). lra. }
  rewrite (round_half_even_comp _ _ Eq), round_half_even_Z.
  unfold x. rewrite Ej, inject_Z_mult. ring.
Qed.

Lemma rnd_Z (n : Z) :
  (Z.abs n < 2 ^ 53)%Z -> rnd (inject_Z n) == inject_Z n.
Proof.
  intros H. pose proof (rnd_exact n 0 ltac:(lia) H) as E.
  rewrite pow2_0, Qmult_1_r in E. exact E.
Qed.
Lemma Qmod_360_range (x : Q) : 0 <= Qmod x 360 /\ Qmod x 360 < 360.
Proof.
  unfold Qmod. destruct (Qfloor_spec (x / 360)) as [A B]. qdiv. lra.
Qed.

Lemma Qmod_360_period (x : Q) (k : Z) :
  Qmod (x + 360 * inject_Z k) 360 == Qmod x 360.
Proof.
  apply (Qmod_360_unique _ _ (Qfloor (x / 360) + k)).
  - unfold Qmod. rewrite inject_Z_plus.
    generalize (inject_Z (Qfloor (x / 360))) (inject_Z k). intros f j. lra.
  - apply Qmod_360_range.
  - apply Qmod_360_range.
Qed.

Lemma Qmod_360_small (x : Q) : 0 <= x -> x < 360 -> Qmod x 360 == x.
Proof.
  intros. apply (Qmod_360_unique x x 0); [change (inject_Z 0) with 0| |]; lra.
Qed.

Lemma js_rem_360_Qmod (x : Q) : 0 <= x -> js_rem x 360 == Qmod x 360.
Proof.
  intros H. unfold js_rem, Qmod. rewrite Qtrunc_nonneg; [reflexivity|].
  unfold Qdiv. change (/ 360) with (1 # 360). lra.
Qed.

(* ------------------------------------------------------------------ *)
(** ** The grid of the multiples of a power of two *)

Lemma grid_comp (t : Z) (x y : Q) : x == y -> grid t x -> grid t y.
Proof. intros E [k H]. exists k. now rewrite <- E. Qed.

Lemma grid_weaken (t t' : Z) (x : Q) : (t' <= t)%Z -> grid t x -> grid t' x.
Proof.
  intros H [k E]. exists (k * 2 ^ (t - t'))%Z.
  rewrite E, inject_Z_mult, <- (pow2_Z (t - t')) by lia.
  rewrite <- Qmult_assoc, <- pow2_add.
  now replace (t - t' + t')%Z with t by lia.
Qed.

Lemma grid_Z (t : Z) (n : Z) : (t <= 0)%Z -> grid t (inject_Z n).
Proof.
  intros H. apply (grid_weaken 0); [exact H|].
  exists n. rewrite pow2_0. ring.
Qed.

Lemma grid_pow2 (t e : Z) : (t <= e)%Z -> grid t (pow2 e).
Proof.
  intros H. apply (grid_weaken e); [exact H|]. exists 1%Z. ring.
Qed.

Lemma grid_plus (t : Z) (x y : Q) : grid t x -> grid t y -> grid t (x + y).
Proof.
  intros [k E] [j F]. exists (k + j)%Z. rewrite E, F, inject_Z_plus. ring.
Qed.

Lemma grid_opp (t : Z) (x : Q) : grid t x -> grid t (- x).
Proof. intros [k E]. exists (- k)%Z. rewrite E, inject_Z_opp. ring. Qed.

Lemma grid_minus (t : Z) (x y : Q) : grid t x -> grid t y -> grid t (x - y).
Proof. intros H G. apply grid_plus; [exact H|now apply grid_opp]. Qed.

Lemma grid_scale (t : Z) (n : Z) (x : Q) : grid t x -> grid t (inject_Z n * x).
Proof.
  intros [k E]. exists (n * k)%Z. rewrite E, inject_Z_mult. ring.
Qed.

(** Two points of a grid that differ are at least one step apart. *)
Lemma grid_step (t : Z) (a b : Q) :
  grid t a -> grid t b -> a < b -> a + pow2 t <= b.
Proof.
  intros [k E] [j F] H. pose proof (pow2_pos t) as P.
  assert (L : (k < j)%Z).
  { destruct (Z.lt_ge_cases k j) as [L|G]; [exact L|exfalso].
    rewrite Zle_Qle in G.
    assert (inject_Z j * pow2 t <= inject_Z k * pow2 t)
      by (apply Qmult_le_compat_r; lra).
    lra. }
  assert (L' : (k + 1 <= j)%Z) by lia.
  rewrite Zle_Qle, inject_Z_plus in L'. change (inject_Z 1) with 1 in L'.
  assert ((inject_Z k + 1) * pow2 t <= inject_Z j * pow2 t)
    by (apply Qmult_le_compat_r; lra).
  rewrite E, F. lra.
Qed.

(** A point of the grid [2^t] below [2^(t+53)] in magnitude is a
    double. *)
Lemma grid_exact (t : Z) (x : Q) :
  (-1074 <= t)%Z -> grid t x -> Qabs x < pow2 (t + 53) -> rnd x == x.
Proof.
  intros Ht [k E] B. rewrite E. apply rnd_exact; [exact Ht|].
  pose proof (pow2_pos t) as P.
  assert (A : Qabs x == inject_Z (Z.abs k) * pow2 t).
  { rewrite E, Qabs_Qmult, (Qabs_pos (pow2 t)) by lra. reflexivity. }
  rewrite A, pow2_add in B.
  rewrite (pow2_Z 53) in B by lia.
  rewrite Zlt_Qlt.
  destruct (Qlt_le_dec (inject_Z (Z.abs k)) (inject_Z (2 ^ 53))) as [L|G];
    [exact L|exfalso].
  assert (inject_Z (2 ^ 53) * pow2 t <= inject_Z (Z.abs k) * pow2 t)
    by (apply Qmult_le_compat_r; lra).
  lra.
Qed.

(** What [rnd] returns is a multiple of the unit of its argument. *)
Lemma rnd_grid (x : Q) : grid (exponent x - 52) (rnd x).
Proof. exists (round_half_even (x / ulp x)). reflexivity. Qed.

(** A double above [2^e] is a multiple of [2^(e - 52)]. *)
Lemma double_grid (x : Q) (e : Z) :
  rnd x == x -> pow2 e <= Qabs x -> grid (e - 52) x.
Proof.
  intros D A. apply (grid_comp _ _ _ D).
  apply (grid_weaken (exponent x - 52)); [|apply rnd_grid].
  pose proof (exponent_lower x e A). lia.
Qed.

(** Below a point [B] of the grid of its binade, the next double is one
    step down. *)
Lemma double_gap (x B : Q) (e : Z) :
  rnd x == x -> 0 <= x -> x < B -> grid (e - 52) B -> pow2 e < B ->
  x <= B - pow2 (e - 52).
Proof.
  intros D H0 H1 G P.
  destruct (Qlt_le_dec x (pow2 e)) as [L|L].
  - pose proof (grid_step (e - 52) (pow2 e) B
                  (grid_pow2 (e - 52) e ltac:(lia)) G P). lra.
  - assert (Gx : grid (e - 52) x).
    { apply double_grid; [exact D|]. rewrite Qabs_pos; assumption. }
    pose proof (grid_step (e - 52) x B Gx G H1). lra.
Qed.

(** ** Monotonicity *)

Lemma rnd_above (x : Q) :
  0 <= x -> (-1022 < exponent x)%Z -> pow2 (exponent x) <= rnd x.
Proof.
  intros H0 He. destruct (exponent_spec x) as [_ S]. specialize (S He).
  rewrite Qabs_pos in S by assumption.
  unfold rnd, ulp. set (E := exponent x) in *.
  pose proof (pow2_pos (E - 52)) as U.
  assert (P : pow2 E == inject_Z (2 ^ 52) * pow2 (E - 52)).
  { rewrite <- pow2_Z, <- pow2_add by lia.
    now replace (52 + (E - 52))%Z with E by lia. }
  rewrite P. apply Qmult_le_compat_r; [|lra].
  rewrite <- Zle_Qle. rewrite <- (round_half_even_Z (2 ^ 52)).
  apply round_half_even_mono.
  apply Qle_shift_div_l; [exact U|]. now rewrite <- P.
Qed.

Lemma rnd_below (x : Q) : 0 <= x -> rnd x <= pow2 (exponent x + 1).
Proof.
  intros H0. destruct (exponent_spec x) as [S _].
  rewrite Qabs_pos in S by assumption.
  unfold rnd, ulp. set (E := exponent x) in *.
  pose proof (pow2_pos (E - 52)) as U.
  assert (P : pow2 (E + 1) == inject_Z (2 ^ 53) * pow2 (E - 52)).
  { rewrite <- pow2_Z, <- pow2_add by lia.
    now replace (53 + (E - 52))%Z with (E + 1)%Z by lia. }
  rewrite P. apply Qmult_le_compat_r; [|lra].
  rewrite <- Zle_Qle. rewrite <- (round_half_even_Z (2 ^ 53)).
  apply round_half_even_mono.
  apply Qle_shift_div_r; [exact U|]. rewrite <- P. lra.
Qed.

Lemma rnd_mono (x y : Q) : 0 <= x -> x <= y -> rnd x <= rnd y.
Proof.
  intros H0 H.
  assert (Hy : 0 <= y) by lra.
  assert (Le : (exponent x <= exponent y)%Z).
  { apply exponent_upper; [apply exponent_min|].
    destruct (exponent_spec y) as [S _].
    rewrite Qabs_pos in * by assumption. lra. }
  destruct (Z.eq_dec (exponent x) (exponent y)) as [E|N].
  - unfold rnd, ulp. rewrite E.
    pose proof (pow2_pos (exponent y - 52)) as U.
    apply Qmult_le_compat_r; [|lra].
    rewrite <- Zle_Qle. apply round_half_even_mono.
    apply Qmult_le_compat_r; [exact H|].
    apply Qlt_le_weak, Qinv_lt_0_compat, U.
  - pose proof (exponent_min x) as M.
    pose proof (rnd_below x H0) as B.
    pose proof (rnd_above y Hy ltac:(lia)) as A.
    pose proof (pow2_le (exponent x + 1) (exponent y) ltac:(lia)).
    lra.
Qed.

(** Rounding never passes a double. *)
Lemma rnd_le_double (x b : Q) : 0 <= x -> x <= b -> rnd b == b -> rnd x <= b.
Proof. intros H0 H D. rewrite <- D. now apply rnd_mono. Qed.

Lemma rnd_ge_double (x b : Q) : 0 <= b -> b <= x -> rnd b == b -> b <= rnd x.
Proof. intros H0 H D. rewrite <- D. now apply rnd_mono. Qed.

(** What [rnd] returns is a double. *)
Lemma rnd_idem (x : Q) : 0 <= x -> rnd (rnd x) == rnd x.
Proof.
  intros H0.
  pose proof (rnd_nonneg x H0) as N.
  pose proof (rnd_below x H0) as B.
  pose proof (exponent_min x) as M.
  destruct (Qlt_le_dec (rnd x) (pow2 (exponent x + 1))) as [L|G].
  - apply (grid_exact (exponent x - 52)); [lia|apply rnd_grid|].
    rewrite Qabs_pos by assumption.
    now replace (exponent x - 52 + 53)%Z with (exponent x + 1)%Z by lia.
  - assert (E : rnd x == inject_Z 1 * pow2 (exponent x + 1))
      by (change (inject_Z 1) with 1; lra).
    rewrite E. apply rnd_exact; [lia|reflexivity].
Qed.

(* ------------------------------------------------------------------ *)
(** ** Error bounds *)

Lemma rnd_error_below (x : Q) (e : Z) :
  (-1022 <= e)%Z -> Qabs x < pow2 (e + 1) ->
  Qabs (rnd x - x) <= pow2 (e - 53).
Proof.
  intros He B. pose proof (rnd_error x) as R.
  pose proof (exponent_upper x e He B) as U.
  assert (L : ulp x <= pow2 (e - 52)) by (apply pow2_le; lia).
  assert (P : pow2 (e - 52) == 2 * pow2 (e - 53)).
  { rewrite <- pow2_S. now replace (e - 53 + 1)%Z with (e - 52)%Z by lia. }
  lra.
Qed.

(** ** The normalisation idiom *)

Lemma js_rem_nonneg_small (x : Q) : 0 <= x -> x < 360 -> js_rem x 360 == x.
Proof.
  intros H0 H1. rewrite js_rem_360_Qmod by assumption.
  now apply Qmod_360_small.
Qed.

Lemma normalising_sum (x : Q) :
  0 < js_rem x 360 + 360 /\ js_rem x 360 + 360 < 720.
Proof. pose proof (js_rem_360_bounds x). lra. Qed.

Lemma normalised_sum_range (x : Q) :
  0 <= fadd (js_rem x 360) 360 /\ fadd (js_rem x 360) 360 <= 720.
Proof.
  destruct (normalising_sum x) as [A B]. unfold fadd. split.
  - apply rnd_nonneg. lra.
  - apply rnd_le_double; [lra|lra|]. apply (rnd_Z 720). reflexivity.
Qed.

Lemma norm360_range (x : Q) : 0 <= norm360 x /\ norm360 x < 360.
Proof.
  unfold norm360. apply js_rem_360_nonneg. apply normalised_sum_range.
Qed.

(** The normalised value is the residue of a number within [2^-44] of
    the argument. *)
Lemma norm360_near (x : Q) :
  exists e, Qabs e <= pow2 (-44) /\ norm360 x == Qmod (x + e) 360.
Proof.
  destruct (normalising_sum x) as [A B].
  destruct (normalised_sum_range x) as [C D].
  exists (fadd (js_rem x 360) 360 - (js_rem x 360 + 360)). split.
  - unfold fadd. apply (rnd_error_below _ 9); [lia|].
    rewrite Qabs_pos by lra. change (pow2 (9 + 1)) with 1024. lra.
  - unfold norm360. rewrite js_rem_360_Qmod by assumption.
    set (s := fadd (js_rem x 360) 360).
    rewrite <- (Qmod_360_period (x + _) (1 - Qtrunc (x / 360))).
    apply Qmod_comp; [|reflexivity].
    unfold js_rem. unfold Z.sub. rewrite inject_Z_plus, inject_Z_opp.
    change (inject_Z 1) with 1. ring.
Qed.

#[local] Instance norm360_comp : Proper (Qeq ==> Qeq) norm360.
Proof. intros a b H. unfold norm360, fadd. now rewrite H. Qed.

(** On the multiples of [2^-43] the normalisation is exact. *)
Lemma norm360_exact (x : Q) : grid (-43) x -> norm360 x == Qmod x 360.
Proof.
  intros G. destruct (normalising_sum x) as [A B].
  unfold norm360, fadd.
  assert (Ga : grid (-43) (js_rem x 360 + 360)).
  { apply grid_plus; [|apply (grid_Z _ 360); lia].
    unfold js_rem. apply grid_minus; [exact G|].
    apply (grid_comp _ (inject_Z (360 * Qtrunc (x / 360))));
      [rewrite inject_Z_mult; reflexivity|apply grid_Z; lia]. }
  assert (R : rnd (js_rem x 360 + 360) == js_rem x 360 + 360).
  { apply (grid_exact (-43)); [lia|exact Ga|].
    rewrite Qabs_pos by lra. change (pow2 (-43 + 53)) with 1024. lra. }
  rewrite R, js_rem_360_Qmod by lra.
  rewrite <- (Qmod_360_period x (1 - Qtrunc (x / 360))).
  apply Qmod_comp; [|reflexivity].
  unfold js_rem. unfold Z.sub. rewrite inject_Z_plus, inject_Z_opp.
  change (inject_Z 1) with 1. ring.
Qed.

(** The normalised value is a double. *)
Lemma norm360_double (x : Q) : rnd (norm360 x) == norm360 x.
Proof.
  destruct (normalising_sum x) as [A B].
  destruct (normalised_sum_range x) as [C D].
  destruct (norm360_range x) as [N0 N1].
  unfold norm360 in *. set (s := fadd (js_rem x 360) 360) in *.
  assert (Ds : rnd s == s) by (apply rnd_idem; lra).
  destruct (Qlt_le_dec s 360) as [L|G].
  - rewrite js_rem_nonneg_small by assumption. exact Ds.
  - apply (grid_exact (-44)); [lia| |].
    + unfold js_rem. apply grid_minus.
      * apply (double_grid s 8 Ds). rewrite Qabs_pos by lra.
        change (pow2 8) with 256. lra.
      * apply (grid_comp _ (inject_Z (360 * Qtrunc (s / 360))));
          [rewrite inject_Z_mult; reflexivity|apply grid_Z; lia].
    + rewrite Qabs_pos by assumption. change (pow2 (-44 + 53)) with 512. lra.
Qed.

(* ------------------------------------------------------------------ *)
(** ** Degrees, minutes and seconds *)

Ltac push_inject :=
  unfold Z.sub in *;
  repeat (rewrite ?inject_Z_plus, ?inject_Z_mult, ?inject_Z_opp in * );
  change (inject_Z 1) with 1 in *;
  change (inject_Z 12) with 12 in *;
  change (inject_Z 30) with 30 in *;
  change (inject_Z 60) with 60 in *;
  change (inject_Z 3600) with 3600 in *.

Lemma sign_below (c : Q) (k e : Z) :
  rnd c == c -> 0 <= c -> c < inject_Z (30 * (k + 1)) ->
  (0 <= k)%Z ->
  grid (e - 52) (inject_Z (30 * (k + 1))) ->
  pow2 e < inject_Z (30 * (k + 1)) ->
  rnd ((inject_Z (30 * (k + 1)) - pow2 (e - 52)) / 30) < inject_Z (k + 1) ->
  fdiv c 30 < inject_Z (k + 1).
Proof.
  intros D H0 H1 Hk G P R.
  pose proof (double_gap c _ e D H0 H1 G P) as Gap.
  unfold fdiv. eapply Qle_lt_trans; [|exact R].
  apply rnd_mono; qdiv; lra.
Qed.

Lemma sign_of_double (c : Q) :
  rnd c == c -> 0 <= c -> c < 360 -> Qfloor (fdiv c 30) = Qfloor (c / 30).
Proof.
  intros D H0 H1.
  destruct (Qfloor_spec (c / 30)) as [A B].
  set (k := Qfloor (c / 30)) in *.
  assert (Hk : (0 <= k < 12)%Z).
  { apply Qfloor_range; qdiv;
      [change (inject_Z 0) with 0|change (inject_Z 12) with 12]; lra. }
  assert (Hc : c < inject_Z (30 * (k + 1))).
  { push_inject. qdiv. lra. }
  apply Qfloor_unique.
  - unfold fdiv. apply rnd_ge_double.
    + change 0 with (inject_Z 0). rewrite <- Zle_Qle. lia.
    + exact A.
    + apply rnd_Z. lia.
  - assert (Cases : (k = 0 \/ k = 1 \/ k = 2 \/ k = 3 \/ k = 4 \/ k = 5
                     \/ k = 6 \/ k = 7 \/ k = 8 \/ k = 9 \/ k = 10
                     \/ k = 11)%Z) by lia.
    clearbody k.
    destruct Cases as [E|[E|[E|[E|[E|[E|[E|[E|[E|[E|[E|E]]]]]]]]]]];
      subst k;
      [apply (sign_below c 0 4)|apply (sign_below c 1 5)
      |apply (sign_below c 2 6)|apply (sign_below c 3 6)
      |apply (sign_below c 4 7)|apply (sign_below c 5 7)
      |apply (sign_below c 6 7)|apply (sign_below c 7 7)
      |apply (sign_below c 8 8)|apply (sign_below c 9 8)
      |apply (sign_below c 10 8)|apply (sign_below c 11 8)];
      trivial; try lia;
      try (apply grid_Z; lia);
      try (vm_compute; reflexivity).
Qed.
Lemma Qfloor_shift (x y : Q) (n : Z) :
  x == y - inject_Z n -> Qfloor x = (Qfloor y - n)%Z.
Proof. intros E. rewrite <- Qfloor_sub_Z. now apply Qfloor_comp. Qed.

Lemma dms_of_floor (c : Q) :
  0 <= c ->
  dms_of c = (Qfloor (c / 30),
              Qfloor c - 30 * Qfloor (c / 30),
              Qfloor (60 * c) - 60 * Qfloor c,
              Qfloor (3600 * c) - 60 * Qfloor (60 * c))%Z.
Proof.
  intros Hc. unfold dms_of.
  set (s := Qfloor (c / 30)).
  assert (Ed : Qfloor (js_rem c 30) = (Qfloor c - 30 * s)%Z).
  { apply Qfloor_shift.
    rewrite js_rem_30_nonneg by assumption. fold s.
    rewrite inject_Z_mult. reflexivity. }
  rewrite Ed.
  assert (Em : Qfloor ((js_rem c 30 - inject_Z (Qfloor c - 30 * s)) * 60)
               = (Qfloor (60 * c) - 60 * Qfloor c)%Z).
  { replace (60 * Qfloor c)%Z with (60 * (30 * s + (Qfloor c - 30 * s)))%Z by lia.
    apply Qfloor_shift.
    rewrite js_rem_30_nonneg by assumption. fold s.
    rewrite !inject_Z_mult, inject_Z_plus, !inject_Z_mult.
    generalize (inject_Z (Qfloor c - 30 * s)) (inject_Z s). intros u v.
    change (inject_Z 60) with 60. change (inject_Z 30) with 30. lra. }
  rewrite Em.
  assert (Es : Qfloor (((js_rem c 30 - inject_Z (Qfloor c - 30 * s)) * 60
                        - inject_Z (Qfloor (60 * c) - 60 * Qfloor c)) * 60)
               = (Qfloor (3600 * c) - 60 * Qfloor (60 * c))%Z).
  { replace (60 * Qfloor (60 * c))%Z
      with (3600 * (30 * s + (Qfloor c - 30 * s))
            + 60 * (Qfloor (60 * c) - 60 * Qfloor c))%Z by lia.
    apply Qfloor_shift.
    rewrite js_rem_30_nonneg by assumption. fold s.
    rewrite !inject_Z_plus, !inject_Z_mult, inject_Z_plus, !inject_Z_mult.
    generalize (inject_Z (Qfloor c - 30 * s)) (inject_Z s)
               (inject_Z (Qfloor (60 * c) - 60 * Qfloor c)). intros u v w.
    change (inject_Z 60) with 60. change (inject_Z 30) with 30.
    change (inject_Z 3600) with 3600. lra. }
  rewrite Es. reflexivity.
Qed.

#[local] Instance fadd_comp : Proper (Qeq ==> Qeq ==> Qeq) fadd.
Proof. intros a b H c d G. unfold fadd. now rewrite H, G. Qed.
#[local] Instance fsub_comp : Proper (Qeq ==> Qeq ==> Qeq) fsub.
Proof. intros a b H c d G. unfold fsub. now rewrite H, G. Qed.
#[local] Instance fmul_comp : Proper (Qeq ==> Qeq ==> Qeq) fmul.
Proof. intros a b H c d G. unfold fmul. now rewrite H, G. Qed.
#[local] Instance fdiv_comp : Proper (Qeq ==> Qeq ==> Qeq) fdiv.
Proof. intros a b H c d G. unfold fdiv. now rewrite H, G. Qed.

(** Taking the whole part off a double is exact. *)
Lemma frac_double (x : Q) :
  rnd x == x -> 0 <= x ->
  rnd (x - inject_Z (Qfloor x)) == x - inject_Z (Qfloor x).
Proof.
  intros D H0. destruct (Qfloor_spec x) as [A B].
  destruct (Qlt_le_dec x 1) as [L|G].
  - assert (E : Qfloor x = 0%Z).
    { apply Qfloor_unique; [exact H0|exact L]. }
    rewrite E. change (inject_Z 0) with 0.
    assert (E' : x - 0 == x) by ring. now rewrite E'.
  - apply (grid_exact (-52)); [lia| |].
    + apply grid_minus; [|apply grid_Z; lia].
      apply (double_grid x 0 D). rewrite Qabs_pos by assumption.
      now rewrite pow2_0.
    + rewrite Qabs_pos by lra. change (pow2 (-52 + 53)) with 2. lra.
Qed.

(** A double below 1 is at most [1 - 2^-53]. *)
Lemma double_below_one (x : Q) :
  rnd x == x -> 0 <= x -> x < 1 -> x <= 1 - pow2 (-53).
Proof.
  intros D H0 H1.
  apply (double_gap x 1 (-1) D H0 H1).
  - apply (grid_Z (-1 - 52) 1). lia.
  - reflexivity.
Qed.

(** Sixty times a double below 1 rounds below 60, within [2^-48]. *)
Lemma sixtieths (x : Q) :
  rnd x == x -> 0 <= x -> x < 1 ->
  0 <= fmul x 60 /\ fmul x 60 < 60
  /\ Qabs (fmul x 60 - x * 60) <= pow2 (-48).
Proof.
  intros D H0 H1. pose proof (double_below_one x D H0 H1) as G.
  unfold fmul. split; [apply rnd_nonneg; lra|]. split.
  - apply (Qle_lt_trans _ (rnd ((1 - pow2 (-53)) * 60))).
    + apply rnd_mono; lra.
    + vm_compute. reflexivity.
  - apply (rnd_error_below _ 5); [lia|].
    rewrite Qabs_pos by lra. change (pow2 (5 + 1)) with 64. lra.
Qed.

(** The four integers that the code computes from a normalised double
    are those of the exact computation on a number [v] within [2^-53] of
    it; the sign and the degrees are those of the double itself; and on a
    multiple of [2^-20] nothing is rounded. *)
Lemma dms_double_spec (c : Q) :
  rnd c == c -> 0 <= c -> c < 360 ->
  exists (v : Q) (M S : Z),
    Qabs (v - c) <= pow2 (-53) /\ 0 <= v /\ v < 360
    /\ dms_double c
       = (Qfloor (c / 30), (Qfloor c - 30 * Qfloor (c / 30))%Z, M, S)
    /\ dms_of v = dms_double c
    /\ (0 <= M < 60)%Z /\ (0 <= S < 60)%Z
    /\ (grid (-20) c -> v == c).
Proof.
  intros Dc H0 H1.
  destruct (Qfloor_spec (c / 30)) as [A B].
  destruct (Qfloor_spec c) as [A' B'].
  set (k := Qfloor (c / 30)) in *.
  set (n := Qfloor c) in *.
  assert (Hn : (30 * k <= n < 30 * k + 30)%Z).
  { unfold n. apply Qfloor_range; push_inject; qdiv; lra. }
  (* the fraction of a degree *)
  set (f0 := c - inject_Z n).
  assert (Df : rnd f0 == f0) by (apply frac_double; assumption).
  assert (Rf : 0 <= f0 /\ f0 < 1) by (unfold f0; lra).
  destruct (sixtieths f0 Df (proj1 Rf) (proj2 Rf)) as (M0 & M1 & Me).
  set (md := fmul f0 60) in *.
  assert (Dmd : rnd md == md) by (apply rnd_idem; lra).
  destruct (Qfloor_spec md) as [Am Bm].
  set (M := Qfloor md) in *.
  assert (HM : (0 <= M < 60)%Z).
  { unfold M. apply Qfloor_range;
      [change (inject_Z 0) with 0|change (inject_Z 60) with 60]; lra. }
  set (g0 := md - inject_Z M).
  assert (Dg : rnd g0 == g0) by (apply frac_double; assumption).
  assert (Rg : 0 <= g0 /\ g0 < 1) by (unfold g0; lra).
  destruct (sixtieths g0 Dg (proj1 Rg) (proj2 Rg)) as (S0 & S1 & Se).
  set (s := fmul g0 60) in *.
  destruct (Qfloor_spec s) as [As Bs].
  set (S := Qfloor s) in *.
  assert (HS : (0 <= S < 60)%Z).
  { unfold S. apply Qfloor_range;
      [change (inject_Z 0) with 0|change (inject_Z 60) with 60]; lra. }
  (* what the function computes *)
  assert (Edis : js_rem c 30 == c - 30 * inject_Z k).
  { apply js_rem_30_nonneg. exact H0. }
  assert (ED : Qfloor (js_rem c 30) = (n - 30 * k)%Z).
  { apply Qfloor_shift. rewrite Edis, inject_Z_mult. reflexivity. }
  assert (Ef : fsub (js_rem c 30) (inject_Z (n - 30 * k)) == f0).
  { unfold fsub. rewrite <- Df. apply rnd_comp.
    rewrite Edis. unfold f0. push_inject. ring. }
  assert (Emd : fmul (fsub (js_rem c 30) (inject_Z (n - 30 * k))) 60 == md).
  { unfold md. now rewrite Ef. }
  assert (Eg : fsub (fmul (fsub (js_rem c 30) (inject_Z (n - 30 * k))) 60)
                    (inject_Z M) == g0).
  { unfold fsub. rewrite <- Dg. apply rnd_comp. unfold g0. now rewrite Emd. }
  assert (Fn : dms_double c = (k, (n - 30 * k)%Z, M, S)).
  { unfold dms_double.
    rewrite (sign_of_double c Dc H0 H1). fold k. rewrite ED.
    assert (E1 : Qfloor (fmul (fsub (js_rem c 30) (inject_Z (n - 30 * k))) 60)
                 = M) by (apply Qfloor_comp; exact Emd).
    rewrite E1.
    assert (E2 : Qfloor
                   (fmul (fsub (fmul (fsub (js_rem c 30)
                                           (inject_Z (n - 30 * k))) 60)
                               (inject_Z M)) 60) = S).
    { apply Qfloor_comp. unfold s. now rewrite Eg. }
    now rewrite E2. }
  (* the longitude that is rendered *)
  set (v := inject_Z n + inject_Z M / 60 + s / 3600).
  assert (HMq : 0 <= inject_Z M /\ inject_Z M <= 59).
  { split; [change 0 with (inject_Z 0)|change 59 with (inject_Z 59)];
      rewrite <- Zle_Qle; lia. }
  assert (Hnq : inject_Z (30 * k) <= inject_Z n
                /\ inject_Z n <= inject_Z (30 * k) + 29).
  { split; [rewrite <- Zle_Qle; lia|].
    change 29 with (inject_Z 29). rewrite <- inject_Z_plus, <- Zle_Qle. lia. }
  assert (Hkq : 0 <= inject_Z k /\ inject_Z k <= 11).
  { assert (Hk : (0 <= k < 12)%Z).
    { unfold k. apply Qfloor_range; qdiv;
        [change (inject_Z 0) with 0|change (inject_Z 12) with 12]; lra. }
    split; [change 0 with (inject_Z 0)|change 11 with (inject_Z 11)];
      rewrite <- Zle_Qle; lia. }
  assert (Hv : v - c == (60 * (md - f0 * 60) + (s - g0 * 60)) / 3600).
  { unfold v, g0, f0. field. }
  exists v, M, S.
  split.
  { rewrite Hv. apply Qabs_Qle_condition in Me. apply Qabs_Qle_condition in Se.
    assert (P : pow2 (-48) == 32 * pow2 (-53)) by reflexivity.
    pose proof (pow2_pos (-53)) as P53.
    apply Qabs_Qle_condition. unfold Qdiv. change (/ 3600) with (1 # 3600).
    split; lra. }
  assert (V0 : 0 <= v).
  { unfold v. unfold Qdiv. change (/ 60) with (1 # 60).
    change (/ 3600) with (1 # 3600). push_inject. lra. }
  assert (V1 : v < inject_Z n + 1).
  { unfold v. unfold Qdiv. change (/ 60) with (1 # 60).
    change (/ 3600) with (1 # 3600). lra. }
  split; [exact V0|]. split.
  { push_inject. lra. }
  split; [exact Fn|].
  assert (Last : grid (-20) c -> v == c).
  { intros G.
    assert (Gf : grid (-20) f0).
    { unfold f0. apply grid_minus; [exact G|apply grid_Z; lia]. }
    assert (Xm : md == f0 * 60).
    { unfold md, fmul. apply (grid_exact (-20)); [lia| |].
      - apply (grid_comp _ (inject_Z 60 * f0));
          [change (inject_Z 60) with 60; ring|now apply grid_scale].
      - rewrite Qabs_pos by lra. change (pow2 (-20 + 53)) with 8589934592.
        lra. }
    assert (Gg : grid (-20) g0).
    { unfold g0. apply grid_minus; [|apply grid_Z; lia].
      apply (grid_comp _ (inject_Z 60 * f0));
        [rewrite Xm; change (inject_Z 60) with 60; ring
        |now apply grid_scale]. }
    assert (Xs : s == g0 * 60).
    { unfold s, fmul. apply (grid_exact (-20)); [lia| |].
      - apply (grid_comp _ (inject_Z 60 * g0));
          [change (inject_Z 60) with 60; ring|now apply grid_scale].
      - rewrite Qabs_pos by lra. change (pow2 (-20 + 53)) with 8589934592.
        lra. }
    assert (Z0 : v - c == 0) by (rewrite Hv, Xm, Xs; field).
    lra. }
  split; [|split; [assumption|split; assumption]].
  rewrite Fn, (dms_of_floor v V0).
  assert (F1 : Qfloor v = n).
  { apply Qfloor_unique; [|rewrite inject_Z_plus; exact V1].
    unfold v. unfold Qdiv. change (/ 60) with (1 # 60).
    change (/ 3600) with (1 # 3600). lra. }
  assert (F0 : Qfloor (v / 30) = k).
  { apply Qfloor_unique; push_inject; qdiv; unfold v; unfold Qdiv;
      change (/ 60) with (1 # 60); change (/ 3600) with (1 # 3600); lra. }
  assert (F2 : Qfloor (60 * v) = (60 * n + M)%Z).
  { apply Qfloor_unique; push_inject; unfold v; unfold Qdiv;
      change (/ 60) with (1 # 60); change (/ 3600) with (1 # 3600); lra. }
  assert (F3 : Qfloor (3600 * v) = (3600 * n + 60 * M + S)%Z).
  { apply Qfloor_unique; push_inject; unfold v; unfold Qdiv;
      change (/ 60) with (1 # 60); change (/ 3600) with (1 # 3600); lra. }
  rewrite F0, F1, F2, F3. do 3 f_equal; lia.
Qed.


(* ================================================================== *)
(** * Facts about formatLongitude *)
(* ================================================================== *)

Lemma formatLongitude_unfold (L : Q) :
  formatLongitude (Num L) = render_dms (dms_double (norm360 L)).
Proof.
  cbv beta iota zeta delta [formatLongitude render_dms dms_double norm360].
  reflexivity.
Qed.

Lemma dms_of_comp (a b : Q) : 0 <= a -> a == b -> dms_of a = dms_of b.
Proof.
  intros Ha E. assert (Hb : 0 <= b) by lra.
  rewrite !dms_of_floor by assumption.
  assert (E1 : Qfloor (a / 30) = Qfloor (b / 30)) by (apply Qfloor_comp; now rewrite E).
  assert (E2 : Qfloor a = Qfloor b) by (now apply Qfloor_comp).
  assert (E3 : Qfloor (60 * a) = Qfloor (60 * b)) by (apply Qfloor_comp; now rewrite E).
  assert (E4 : Qfloor (3600 * a) = Qfloor (3600 * b)) by (apply Qfloor_comp; now rewrite E).
  now rewrite E1, E2, E3, E4.
Qed.

Lemma exact_rendering_period (L : Q) (k : Z) :
  exact_rendering (L + 360 * inject_Z k) = exact_rendering L.
Proof.
  unfold exact_rendering. f_equal.
  apply dms_of_comp; [apply Qmod_360_range|apply Qmod_360_period].
Qed.

Lemma in_segment (L : Q) :
  0 <= L -> L < 360 ->
  let sign := Qfloor (L / 30) in
  (0 <= sign < 12)%Z /\ inject_Z (30 * sign) <= L /\ L < inject_Z (30 * sign) + 30.
Proof.
  intros H0 H1 sign.
  destruct (Qfloor_spec (L / 30)) as [A B]. fold sign in A, B.
  split.
  - apply Qfloor_range; qdiv; [change (inject_Z 0) with 0|change (inject_Z 12) with 12]; lra.
  - push_inject. qdiv. lra.
Qed.

(** What the four integers of the exact computation are, on a longitude
    in [0, 360). *)
Lemma dms_of_truncates (L : Q) :
  0 <= L -> L < 360 ->
  exists sign D M S : Z,
    dms_of L = (sign, D, M, S)
    /\ (0 <= sign < 12)%Z
    /\ inject_Z (30 * sign) <= L /\ L < inject_Z (30 * sign) + 30
    /\ (0 <= D < 30)%Z /\ (0 <= M < 60)%Z /\ (0 <= S < 60)%Z
    /\ inject_Z (3600 * D + 60 * M + S) <= (L - inject_Z (30 * sign)) * 3600
    /\ (L - inject_Z (30 * sign)) * 3600 < inject_Z (3600 * D + 60 * M + S) + 1.
Proof.
  intros H0 H1.
  destruct (in_segment L H0 H1) as (Hs & Hlo & Hhi).
  set (s := Qfloor (L / 30)) in *.
  destruct (Qfloor_spec L) as [A1 B1].
  destruct (Qfloor_spec (60 * L)) as [A2 B2].
  destruct (Qfloor_spec (3600 * L)) as [A3 B3].
  assert (HD : (30 * s <= Qfloor L < 30 * s + 30)%Z).
  { apply Qfloor_range; [exact Hlo|]. push_inject. lra. }
  assert (HM : (60 * Qfloor L <= Qfloor (60 * L) < 60 * Qfloor L + 60)%Z).
  { apply Qfloor_range; push_inject; lra. }
  assert (HS : (60 * Qfloor (60 * L) <= Qfloor (3600 * L)
                < 60 * Qfloor (60 * L) + 60)%Z).
  { apply Qfloor_range; push_inject; lra. }
  exists s, (Qfloor L - 30 * s)%Z, (Qfloor (60 * L) - 60 * Qfloor L)%Z,
    (Qfloor (3600 * L) - 60 * Qfloor (60 * L))%Z.
  split; [now apply dms_of_floor|].
  split; [exact Hs|]. split; [exact Hlo|]. split; [exact Hhi|].
  split; [lia|]. split; [lia|]. split; [lia|].
  replace (3600 * (Qfloor L - 30 * s) + 60 * (Qfloor (60 * L) - 60 * Qfloor L)
           + (Qfloor (3600 * L) - 60 * Qfloor (60 * L)))%Z
    with (Qfloor (3600 * L) - 3600 * (30 * s))%Z by lia.
  push_inject. split; lra.
Qed.

Lemma exact_rendering_truncates (L : Q) :
  0 <= L -> L < 360 ->
  exists (sign D M S : Z) (name : string),
    nth_error ZODIAC_SIGNS (Z.to_nat sign) = Some name
    /\ exact_rendering L
       = string_of_Z D ++ "° " ++ name ++ " " ++ padStart0 2 (string_of_Z M)
           ++ "' " ++ padStart0 2 (string_of_Z S) ++ dq
    /\ (0 <= sign < 12)%Z
    /\ inject_Z (30 * sign) <= L /\ L < inject_Z (30 * sign) + 30
    /\ (0 <= D < 30)%Z /\ (0 <= M < 60)%Z /\ (0 <= S < 60)%Z
    /\ inject_Z (3600 * D + 60 * M + S) <= (L - inject_Z (30 * sign)) * 3600
    /\ (L - inject_Z (30 * sign)) * 3600 < inject_Z (3600 * D + 60 * M + S) + 1.
Proof.
  intros H0 H1.
  destruct (dms_of_truncates L H0 H1) as (s & D & M & S & E & Hs & Rest).
  exists s, D, M, S, (nth (Z.to_nat s) ZODIAC_SIGNS "undefined").
  split.
  { apply nth_error_nth'. simpl. lia. }
  split; [|split; [exact Hs|exact Rest]].
  unfold exact_rendering.
  rewrite (dms_of_comp (Qmod L 360) L), E;
    [reflexivity|apply Qmod_360_range|now apply Qmod_360_small].
Qed.

Lemma small_errors : pow2 (-44) + pow2 (-53) <= pow2 (-43).
Proof. vm_compute. discriminate. Qed.

(** The rendering of the code is the exact rendering of a longitude
    within [2^-43] of the argument. *)
Lemma formatLongitude_near (L : Q) :
  exists d : Q,
    Qabs d <= pow2 (-43)
    /\ formatLongitude (Num L) = exact_rendering (L + d).
Proof.
  destruct (norm360_near L) as (e & He & Hc).
  destruct (norm360_range L) as [C0 C1].
  destruct (dms_double_spec (norm360 L) (norm360_double L) C0 C1)
    as (v & M & S & Hv & V0 & V1 & _ & Hd & _).
  exists (e + (v - norm360 L)). split.
  - eapply Qle_trans; [apply Qabs_triangle|].
    pose proof small_errors. lra.
  - rewrite formatLongitude_unfold, <- Hd. unfold exact_rendering. f_equal.
    apply dms_of_comp; [exact V0|]. symmetry.
    apply (Qmod_360_unique _ _ (Qfloor ((L + e) / 360))); [|assumption..].
    unfold Qmod in Hc. revert Hc.
    generalize (inject_Z (Qfloor ((L + e) / 360))) (norm360 L).
    intros f c Hc. lra.
Qed.

(** On the multiples of [2^-20] nothing is rounded. *)
Lemma formatLongitude_on_grid (L : Q) :
  grid (-20) L -> formatLongitude (Num L) = exact_rendering L.
Proof.
  intros G. destruct (norm360_range L) as [C0 C1].
  assert (E : norm360 L == Qmod L 360).
  { apply norm360_exact. apply (grid_weaken (-20)); [lia|exact G]. }
  assert (Gc : grid (-20) (norm360 L)).
  { apply (grid_comp _ (Qmod L 360)); [now symmetry|].
    unfold Qmod. apply grid_minus; [exact G|].
    apply (grid_comp _ (inject_Z (360 * Qfloor (L / 360))));
      [rewrite inject_Z_mult; reflexivity|apply grid_Z; lia]. }
  destruct (dms_double_spec (norm360 L) (norm360_double L) C0 C1)
    as (v & M & S & _ & V0 & _ & _ & Hd & _ & _ & Hg).
  rewrite formatLongitude_unfold, <- Hd. unfold exact_rendering. f_equal.
  apply dms_of_comp; [exact V0|]. rewrite (Hg Gc). exact E.
Qed.

Lemma formatLongitude_example :
  formatLongitude (Num (double_of_decimal (155069 # 10000)))
  = "15° Aries 30' 24" ++ dq.
Proof. vm_compute. reflexivity. Qed.

(** C5, as amended.  [formatLongitude] prints the exact rendering of a
    longitude within [2^-43] degree of its argument, and of the argument
    itself when that is a whole multiple of [2^-20] degree.  The exact
    rendering has period 360; on a longitude in [0, 360) it names the sign
    of the 30 degree segment that holds the longitude and gives the whole
    degrees, minutes and seconds of the offset into that segment, cut off
    and not rounded: D, M, S are below 30, 60, 60 and D*3600 + M*60 + S is
    the offset in arc seconds rounded down.  The double nearest to 15.5069
    prints as 15 degrees Aries 30 minutes 24 seconds. *)
Theorem formatLongitude_renders_a_nearby_longitude :
  (forall L : Q,
      exists d : Q,
        Qabs d <= pow2 (-43)
        /\ formatLongitude (Num L) = exact_rendering (L + d))
  /\ (forall L : Q,
         grid (-20) L -> formatLongitude (Num L) = exact_rendering L)
  /\ (forall (L : Q) (k : Z),
         exact_rendering L = exact_rendering (L + 360 * inject_Z k))
  /\ (forall L : Q,
         0 <= L -> L < 360 ->
         exists (sign D M S : Z) (name : string),
           nth_error ZODIAC_SIGNS (Z.to_nat sign) = Some name
           /\ exact_rendering L
              = string_of_Z D ++ "° " ++ name ++ " "
                  ++ padStart0 2 (string_of_Z M) ++ "' "
                  ++ padStart0 2 (string_of_Z S) ++ dq
           /\ (0 <= sign < 12)%Z
           /\ inject_Z (30 * sign) <= L /\ L < inject_Z (30 * sign) + 30
           /\ (0 <= D < 30)%Z /\ (0 <= M < 60)%Z /\ (0 <= S < 60)%Z
           /\ inject_Z (3600 * D + 60 * M + S)
              <= (L - inject_Z (30 * sign)) * 3600
           /\ (L - inject_Z (30 * sign)) * 3600
              < inject_Z (3600 * D + 60 * M + S) + 1)
  /\ formatLongitude (Num (double_of_decimal (155069 # 10000)))
     = "15° Aries 30' 24" ++ dq.
Proof.
  split; [exact formatLongitude_near|].
  split; [exact formatLongitude_on_grid|].
  split; [intros L k; symmetry; apply exact_rendering_period|].
  split; [exact exact_rendering_truncates|exact formatLongitude_example].
Qed.

(** C5 fails as stated.  The double nearest to 250.55 lies above 250.55,
    that is, at 10 degrees 33 minutes into Sagittarius or beyond, and is
    printed with 32 minutes 59 seconds; a full turn below it is a double
    too, and is printed with 33 minutes 00 seconds. *)
Lemma formatLongitude_is_not_periodic_on_doubles :
  let L := double_of_decimal (25055 # 100) in
  is_double L = true
  /\ is_double (L + 360 * inject_Z (-1)) = true
  /\ 240 + 10 + (33 # 60) <= L /\ L < 360
  /\ formatLongitude (Num L) = "10° Sagittarius 32' 59" ++ dq
  /\ formatLongitude (Num (L + 360 * inject_Z (-1)))
     = "10° Sagittarius 33' 00" ++ dq.
Proof.
  cbv zeta. split; [vm_compute; reflexivity|].
  split; [vm_compute; reflexivity|].
  split; [vm_compute; discriminate|].
  split; [vm_compute; reflexivity|].
  split; vm_compute; reflexivity.
Qed.

Lemma formatLongitude_renders_a_nearby_longitude_witness :
  formatLongitude (Num (1721 # 8)) = exact_rendering (1721 # 8)
  /\ exact_rendering (1721 # 8) = "5° Scorpio 07' 30" ++ dq.
Proof.
  split; [|vm_compute; reflexivity].
  apply (proj1 (proj2 formatLongitude_renders_a_nearby_longitude)).
  exists 225574912%Z. vm_compute. reflexivity.
Defined.


(* ================================================================== *)
(** * Facts about getHousePlacement *)
(* ================================================================== *)

(** ** Whole-sign placement *)

(** The quotient by 30 is rounded, but never up to the next whole number:
    the sign index is that of the normalised longitude. *)
Lemma sign_of_normalised (x : Q) :
  Qfloor (fdiv (norm360 x) 30) = Qfloor (norm360 x / 30).
Proof.
  destruct (norm360_range x).
  apply sign_of_double; [apply norm360_double|assumption..].
Qed.

Lemma sign_index_range (x : Q) : (0 <= sign_index x < 12)%Z.
Proof.
  unfold sign_index. destruct (Qmod_360_range x) as [A B].
  apply Qfloor_range; qdiv;
    [change (inject_Z 0) with 0|change (inject_Z 12) with 12]; lra.
Qed.

Lemma normalised_sign_range (x : Q) : (0 <= Qfloor (norm360 x / 30) < 12)%Z.
Proof.
  destruct (norm360_range x) as [A B].
  apply Qfloor_range; qdiv;
    [change (inject_Z 0) with 0|change (inject_Z 12) with 12]; lra.
Qed.

Lemma normalised_sign_near (x : Q) :
  exists e, Qabs e <= pow2 (-44)
            /\ Qfloor (norm360 x / 30) = sign_index (x + e).
Proof.
  destruct (norm360_near x) as (e & He & E). exists e.
  split; [exact He|]. unfold sign_index. apply Qfloor_comp. now rewrite E.
Qed.

Lemma normalised_sign_exact (x : Q) :
  grid (-43) x -> Qfloor (norm360 x / 30) = sign_index x.
Proof.
  intros G. unfold sign_index. apply Qfloor_comp.
  now rewrite (norm360_exact x G).
Qed.

Lemma whole_sign_placement (lon asc : Q) (houseCusps : list Q) (hs : string) :
  List.length houseCusps = 12%nat ->
  toUpperCase hs = "W" ->
  getHousePlacement lon (Some houseCusps) (Some asc) (Some hs)
  = Return (House ((Qfloor (norm360 lon / 30) - Qfloor (norm360 asc / 30))
                   mod 12 + 1)).
Proof.
  intros Hlen Hw. unfold getHousePlacement, bind, require. rewrite Hlen, Hw.
  change (negb (12 =? 12)%nat) with false.
  change (String.eqb "W" "W") with true. cbv iota.
  rewrite !sign_of_normalised.
  pose proof (normalised_sign_range lon).
  pose proof (normalised_sign_range asc).
  generalize dependent (Qfloor (norm360 lon / 30)).
  generalize dependent (Qfloor (norm360 asc / 30)).
  intros a Ha l Hl.
  do 2 f_equal. f_equal.
  rewrite Z.rem_mod_nonneg by lia.
  replace (l - a + 12)%Z with (l - a + 1 * 12)%Z by lia.
  apply Z_mod_plus_full.
Qed.

(** C6, as amended.  With twelve cusps and the whole-sign system, the
    house is the sign index of the normalised longitude minus that of the
    normalised ascendant, modulo 12, plus one, whatever the cusps are,
    where the normalised value is the double that the code computes: it
    is the residue modulo 360 of a number within [2^-44] of the argument,
    and of the argument itself when that is a whole multiple of [2^-43].
    An ascendant at 5 degrees Leo (125, sign 4) and a planet at 10 degrees
    Scorpio (220, sign 7) give house 4. *)
Theorem whole_sign_house_of_normalised_longitudes
        (lon asc : Q) (houseCusps : list Q) (hs : string) :
  List.length houseCusps = 12%nat ->
  toUpperCase hs = "W" ->
  getHousePlacement lon (Some houseCusps) (Some asc) (Some hs)
  = Return (House ((Qfloor (norm360 lon / 30) - Qfloor (norm360 asc / 30))
                   mod 12 + 1))
  /\ (exists e1 e2 : Q,
         Qabs e1 <= pow2 (-44) /\ Qabs e2 <= pow2 (-44)
         /\ getHousePlacement lon (Some houseCusps) (Some asc) (Some hs)
            = Return (House ((sign_index (lon + e1) - sign_index (asc + e2))
                             mod 12 + 1)))
  /\ (grid (-43) lon -> grid (-43) asc ->
      getHousePlacement lon (Some houseCusps) (Some asc) (Some hs)
      = Return (House ((sign_index lon - sign_index asc) mod 12 + 1)))
  /\ sign_index 125 = 4%Z /\ sign_index 220 = 7%Z
  /\ getHousePlacement 220 (Some houseCusps) (Some 125) (Some hs)
     = Return (House 4).
Proof.
  intros Hlen Hw.
  pose proof (whole_sign_placement lon asc houseCusps hs Hlen Hw) as P.
  split; [exact P|]. split; [|split].
  - destruct (normalised_sign_near lon) as (e1 & H1 & E1).
    destruct (normalised_sign_near asc) as (e2 & H2 & E2).
    exists e1, e2. split; [exact H1|]. split; [exact H2|].
    now rewrite <- E1, <- E2.
  - intros Gl Ga.
    now rewrite <- (normalised_sign_exact lon Gl),
                <- (normalised_sign_exact asc Ga).
  - split; [reflexivity|]. split; [reflexivity|].
    rewrite (whole_sign_placement 220 125 houseCusps hs Hlen Hw).
    rewrite (normalised_sign_exact 220), (normalised_sign_exact 125);
      [reflexivity|apply (grid_Z _ 125); lia|apply (grid_Z _ 220); lia].
Qed.

(** C6 fails as stated.  The double next below 360 lies in the last sign,
    index 11, so that with the ascendant at 0 the formula gives house 12;
    the normalisation of the code rounds it to 360, and on to 0, and the
    code answers house 1. *)
Lemma whole_sign_house_of_the_last_double_below_360 :
  let lon := 360 - pow2 (-44) in
  let cusps := [0; 30; 60; 90; 120; 150; 180; 210; 240; 270; 300; 330] in
  is_double lon = true
  /\ 0 <= lon /\ lon < 360
  /\ sign_index lon = 11%Z /\ sign_index 0 = 0%Z
  /\ ((11 - 0) mod 12 + 1 = 12)%Z
  /\ getHousePlacement lon (Some cusps) (Some 0) (Some "W")
     = Return (House 1).
Proof.
  cbv zeta. split; [vm_compute; reflexivity|].
  split; [vm_compute; discriminate|]. split; [vm_compute; reflexivity|].
  repeat split; vm_compute; reflexivity.
Qed.

Lemma whole_sign_house_of_normalised_longitudes_witness :
  getHousePlacement (1721 # 8)
    (Some [12; 41; 70; 100; 131; 162; 192; 221; 250; 280; 311; 342])
    (Some (25 # 2)) (Some "w")
  = Return (House ((Qfloor (norm360 (1721 # 8) / 30)
                    - Qfloor (norm360 (25 # 2) / 30)) mod 12 + 1)).
Proof.
  exact (proj1 (whole_sign_house_of_normalised_longitudes
                  (1721 # 8) (25 # 2)
                  [12; 41; 70; 100; 131; 162; 192; 221; 250; 280; 311; 342]
                  "w" eq_refl eq_refl)).
Defined.


(** ** Quadrant placement *)

Lemma between_cusps_unfold houseCusps planetLon i :
  between_cusps houseCusps planetLon i
  = arc_test (norm360 (nth i houseCusps 0))
             (norm360 (nth ((i + 1) mod 12) houseCusps 0)) planetLon.
Proof.
  cbv beta zeta delta [between_cusps arc_test]. reflexivity.
Qed.

Lemma Qltb_iff (a b : Q) : Qltb a b = true <-> a < b.
Proof.
  unfold Qltb. rewrite negb_true_iff. split.
  - intros E. destruct (Qlt_le_dec a b) as [H|H]; [exact H|].
    apply Qle_bool_iff in H. congruence.
  - intros H. destruct (Qle_bool b a) eqn:E; [|reflexivity].
    apply Qle_bool_iff in E. lra.
Qed.

Lemma arc_test_iff (c1 c2 p : Q) :
  0 <= p -> p < 360 ->
  arc_test c1 c2 p = true <->
  (c1 <= c2 /\ c1 <= p /\ p < c2) \/ (c2 < c1 /\ (c1 <= p \/ p < c2)).
Proof.
  intros H0 H1. unfold arc_test.
  destruct (Qle_bool c1 c2) eqn:E.
  - apply Qle_bool_iff in E.
    rewrite andb_true_iff, Qle_bool_iff, Qltb_iff. split; [tauto|].
    intros [H|[H _]]; [tauto|lra].
  - assert (c2 < c1).
    { destruct (Qlt_le_dec c2 c1) as [H|H]; [exact H|].
      apply Qle_bool_iff in H. congruence. }
    rewrite orb_true_iff, !andb_true_iff, !Qle_bool_iff, !Qltb_iff.
    split.
    + intros [[A B]|[A B]]; right; split; auto.
    + intros [[A _]|[_ [A|A]]]; [lra| left; split; auto | right; split; auto].
Qed.

(** The residue of a difference, from the residues of its terms. *)
Lemma Qmod_360_diff (x a : Q) :
  (Qmod a 360 <= Qmod x 360 -> Qmod (x - a) 360 == Qmod x 360 - Qmod a 360) /\
  (Qmod x 360 < Qmod a 360 ->
   Qmod (x - a) 360 == Qmod x 360 - Qmod a 360 + 360).
Proof.
  destruct (Qmod_360_range x) as [X0 X1].
  destruct (Qmod_360_range a) as [A0 A1].
  split; intros H.
  - apply (Qmod_360_unique _ _ (Qfloor (x / 360) - Qfloor (a / 360)));
      [|lra|lra].
    unfold Qmod. push_inject.
    generalize (inject_Z (Qfloor (x / 360))) (inject_Z (Qfloor (a / 360))).
    intros u v. lra.
  - apply (Qmod_360_unique _ _ (Qfloor (x / 360) - Qfloor (a / 360) - 1));
      [|lra|lra].
    unfold Qmod. push_inject.
    generalize (inject_Z (Qfloor (x / 360))) (inject_Z (Qfloor (a / 360))).
    intros u v. lra.
Qed.

(** On three values in [0, 360) the test of the loop body is the arc
    membership. *)
Lemma arc_test_on_arc (A B X : Q) :
  0 <= A /\ A < 360 -> 0 <= B /\ B < 360 -> 0 <= X /\ X < 360 ->
  arc_test A B X = true <-> on_arc A B X.
Proof.
  intros [A0 A1] [B0 B1] [X0 X1].
  rewrite arc_test_iff by assumption. unfold on_arc.
  pose proof (Qmod_360_small A A0 A1) as SA.
  pose proof (Qmod_360_small B B0 B1) as SB.
  pose proof (Qmod_360_small X X0 X1) as SX.
  destruct (Qmod_360_diff X A) as [D1 D2].
  destruct (Qmod_360_diff B A) as [E1 E2].
  destruct (Qlt_le_dec X A) as [Hx|Hx];
    destruct (Qlt_le_dec B A) as [Hb|Hb];
    [pose proof (D2 ltac:(lra)) as D; pose proof (E2 ltac:(lra)) as E
    |pose proof (D2 ltac:(lra)) as D; pose proof (E1 ltac:(lra)) as E
    |pose proof (D1 ltac:(lra)) as D; pose proof (E2 ltac:(lra)) as E
    |pose proof (D1 ltac:(lra)) as D; pose proof (E1 ltac:(lra)) as E];
    clear D1 D2 E1 E2; split; intros; lra.
Qed.

(** Arc membership looks at the residues only. *)
Lemma Qmod_360_of_residues (x a : Q) :
  Qmod (Qmod x 360 - Qmod a 360) 360 == Qmod (x - a) 360.
Proof.
  rewrite <- (Qmod_360_period (x - a) (Qfloor (a / 360) - Qfloor (x / 360))).
  apply Qmod_comp; [|reflexivity].
  unfold Qmod. push_inject. ring.
Qed.

Lemma on_arc_residues (a b x a' b' x' : Q) :
  a' == Qmod a 360 -> b' == Qmod b 360 -> x' == Qmod x 360 ->
  on_arc a' b' x' <-> on_arc a b x.
Proof.
  intros Ea Eb Ex. unfold on_arc.
  assert (E1 : Qmod (x' - a') 360 == Qmod (x - a) 360).
  { transitivity (Qmod (Qmod x 360 - Qmod a 360) 360);
      [|apply Qmod_360_of_residues].
    apply Qmod_comp; [|reflexivity]. rewrite Ea, Ex. reflexivity. }
  assert (E2 : Qmod (b' - a') 360 == Qmod (b - a) 360).
  { transitivity (Qmod (Qmod b 360 - Qmod a 360) 360);
      [|apply Qmod_360_of_residues].
    apply Qmod_comp; [|reflexivity]. rewrite Ea, Eb. reflexivity. }
  rewrite E1, E2. reflexivity.
Qed.

Ltac mod12 :=
  repeat match goal with
    | |- context [ (?a mod 12)%nat ] =>
        lazymatch goal with
        | _ : a = (12 * (a / 12) + a mod 12)%nat |- _ => fail
        | _ => pose proof (Nat.div_mod_eq a 12);
               pose proof (Nat.mod_upper_bound a 12 ltac:(discriminate))
        end
    | _ : context [ (?a mod 12)%nat ] |- _ =>
        lazymatch goal with
        | _ : a = (12 * (a / 12) + a mod 12)%nat |- _ => fail
        | _ => pose proof (Nat.div_mod_eq a 12);
               pose proof (Nat.mod_upper_bound a 12 ltac:(discriminate))
        end
    end.

Section Chain.

(** Cusps listed from the one after the wrap: [d 0 < d 1 < ... < d m],
    and the arc after [d m] closes the circle at [d 0]. *)
Variable d : nat -> Q.
Variable m : nat.
Variable p : Q.
Hypothesis d_incr : forall t, (t < m)%nat -> d t < d (S t).
Hypothesis d_wrap : d (S m) = d 0%nat.
Hypothesis m_pos : (0 < m)%nat.
Hypothesis p_range : 0 <= p /\ p < 360.

Lemma chain_mono (s t : nat) : (s <= t)%nat -> (t <= m)%nat -> d s <= d t.
Proof.
  induction t as [|t IH]; intros Hst Htm.
  - replace s with 0%nat by lia. lra.
  - destruct (Nat.eq_dec s (S t)) as [->|Hne]; [lra|].
    assert (d s <= d t) by (apply IH; lia).
    assert (d t < d (S t)) by (apply d_incr; lia). lra.
Qed.

Lemma chain_inner (t : nat) :
  (t < m)%nat -> arc_test (d t) (d (S t)) p = true <-> d t <= p /\ p < d (S t).
Proof.
  intros Ht. pose proof (d_incr t Ht).
  rewrite arc_test_iff by tauto. split; [|intros; left; lra].
  intros [H'|H']; lra.
Qed.

Lemma chain_last :
  arc_test (d m) (d (S m)) p = true <-> d m <= p \/ p < d 0%nat.
Proof.
  rewrite d_wrap.
  assert (d 0%nat < d m).
  { assert (d 0%nat < d 1%nat) by (apply d_incr; lia).
    assert (d 1%nat <= d m) by (apply chain_mono; lia). lra. }
  rewrite arc_test_iff by tauto. split; [|intros; right; lra].
  intros [H'|H']; [lra|tauto].
Qed.

Lemma chain_between (m' : nat) :
  (m' <= m)%nat -> d 0%nat <= p -> p < d m' ->
  exists t, (t < m')%nat /\ d t <= p /\ p < d (S t).
Proof.
  induction m' as [|m' IH]; intros Hm Hlo Hhi; [lra|].
  destruct (Qlt_le_dec p (d m')) as [Hlt|Hge].
  - destruct IH as (t & Ht & Hb); [lia|assumption..|].
    exists t. split; [lia|exact Hb].
  - exists m'. split; [lia|split; assumption].
Qed.

Lemma chain_exists :
  exists t, (t <= m)%nat /\ arc_test (d t) (d (S t)) p = true.
Proof.
  destruct (Qlt_le_dec p (d 0%nat)) as [Hlo|Hlo].
  { exists m. split; [lia|]. apply chain_last. now right. }
  destruct (Qlt_le_dec p (d m)) as [Hhi|Hhi].
  - destruct (chain_between m (Nat.le_refl m) Hlo Hhi) as (t & Ht & Hb).
    exists t. split; [lia|]. now apply chain_inner.
  - exists m. split; [lia|]. apply chain_last. now left.
Qed.

Lemma chain_order (s t : nat) :
  (s < t)%nat -> (t <= m)%nat ->
  arc_test (d s) (d (S s)) p = true -> arc_test (d t) (d (S t)) p = true ->
  False.
Proof.
  intros Hst Htm Hs Ht.
  apply chain_inner in Hs; [|lia].
  assert (d (S s) <= d t) by (apply chain_mono; lia).
  assert (d 0%nat <= d s) by (apply chain_mono; lia).
  destruct (Nat.eq_dec t m) as [->|Hne].
  - apply chain_last in Ht. lra.
  - apply chain_inner in Ht; [|lia]. lra.
Qed.

Lemma chain_unique (s t : nat) :
  (s <= m)%nat -> (t <= m)%nat ->
  arc_test (d s) (d (S s)) p = true -> arc_test (d t) (d (S t)) p = true ->
  s = t.
Proof.
  intros Hs Ht Ts Tt.
  destruct (Nat.lt_trichotomy s t) as [H|[H|H]]; [|exact H|].
  - exfalso. exact (chain_order s t H Ht Ts Tt).
  - exfalso. exact (chain_order t s H Hs Tt Ts).
Qed.

End Chain.

Lemma cusp_at_mod (houseCusps : list Q) (i j : nat) :
  (i mod 12 = j mod 12)%nat -> cusp_at houseCusps i = cusp_at houseCusps j.
Proof. unfold cusp_at. now intros ->. Qed.

Lemma between_cusps_at (houseCusps : list Q) (p : Q) (i : nat) :
  (i < 12)%nat ->
  between_cusps houseCusps p i
  = arc_test (norm360 (cusp_at houseCusps i))
             (norm360 (cusp_at houseCusps (S i))) p.
Proof.
  intros Hi. rewrite between_cusps_unfold. unfold cusp_at.
  rewrite (Nat.mod_small i 12) by assumption.
  now replace (S i) with (i + 1)%nat by lia.
Qed.

(** The cusps as the loop compares them. *)
Lemma cusp_at_normalised (houseCusps : list Q) (j : nat) :
  List.length houseCusps = 12%nat ->
  cusp_at (map norm360 houseCusps) j = norm360 (cusp_at houseCusps j).
Proof.
  intros Hlen. unfold cusp_at.
  rewrite (nth_indep _ 0 (norm360 0)).
  - apply map_nth.
  - rewrite length_map, Hlen. apply Nat.mod_upper_bound. discriminate.
Qed.

Lemma ordered_from_spec (houseCusps : list Q) (k j : nat) :
  List.length houseCusps = 12%nat ->
  ordered_from (map norm360 houseCusps) k = true -> (j < 12)%nat ->
  if Nat.eqb j k
  then norm360 (cusp_at houseCusps (S j)) < norm360 (cusp_at houseCusps j)
  else norm360 (cusp_at houseCusps j) < norm360 (cusp_at houseCusps (S j)).
Proof.
  intros Hlen H Hj. unfold ordered_from in H. rewrite forallb_forall in H.
  specialize (H j). cbv zeta in H.
  replace (j + 1)%nat with (S j) in H by lia.
  assert (Hin : In j (seq 0 12)) by (apply in_seq; lia).
  specialize (H Hin).
  rewrite !cusp_at_normalised in H by assumption.
  destruct (norm360_range (cusp_at houseCusps j)) as [A0 A1].
  destruct (norm360_range (cusp_at houseCusps (S j))) as [B0 B1].
  pose proof (Qmod_360_small _ A0 A1) as SA.
  pose proof (Qmod_360_small _ B0 B1) as SB.
  destruct (Nat.eqb j k); apply Qltb_iff in H; lra.
Qed.

Section Frame.

Variable houseCusps : list Q.
Variable k : nat.
Variable lon : Q.
Hypothesis twelve : List.length houseCusps = 12%nat.
Hypothesis k_range : (k < 12)%nat.
Hypothesis ordered : ordered_from (map norm360 houseCusps) k = true.

Abbreviation d := (frame_cusp houseCusps k).
Abbreviation p := (norm360 lon).

Lemma frame_incr (t : nat) : (t < 11)%nat -> d t < d (S t).
Proof.
  intros Ht. unfold frame_cusp.
  pose proof (ordered_from_spec houseCusps k ((k + 1 + t) mod 12)
                                twelve ordered) as H.
  assert (Hlt : ((k + 1 + t) mod 12 < 12)%nat) by (apply Nat.mod_upper_bound; discriminate).
  specialize (H Hlt).
  assert (Hne : ((k + 1 + t) mod 12 <> k)%nat) by (mod12; lia).
  apply Nat.eqb_neq in Hne. rewrite Hne in H.
  rewrite (cusp_at_mod houseCusps (k + 1 + t) ((k + 1 + t) mod 12))
    by (now rewrite Nat.Div0.mod_mod).
  rewrite (cusp_at_mod houseCusps (k + 1 + S t) (S ((k + 1 + t) mod 12)));
    [exact H|].
  mod12. lia.
Qed.

Lemma frame_wrap : d 12%nat = d 0%nat.
Proof. unfold frame_cusp. f_equal. apply cusp_at_mod. mod12. lia. Qed.

Lemma frame_arc (i t : nat) :
  (i < 12)%nat -> (i = (k + 1 + t) mod 12)%nat ->
  between_cusps houseCusps p i = arc_test (d t) (d (S t)) p.
Proof.
  intros Hi E. rewrite between_cusps_at by assumption. unfold frame_cusp.
  rewrite (cusp_at_mod houseCusps i (k + 1 + t))
    by (rewrite E; now rewrite Nat.Div0.mod_mod).
  rewrite (cusp_at_mod houseCusps (S i) (k + 1 + S t)); [reflexivity|].
  subst i. mod12. lia.
Qed.

Lemma frame_exists :
  exists i, (i < 12)%nat /\ between_cusps houseCusps p i = true.
Proof.
  destruct (chain_exists d 11 p frame_incr frame_wrap ltac:(lia)
                         (norm360_range lon)) as (t & Ht & Tt).
  exists ((k + 1 + t) mod 12)%nat.
  assert (Hlt : ((k + 1 + t) mod 12 < 12)%nat) by (apply Nat.mod_upper_bound; discriminate).
  split; [exact Hlt|].
  now rewrite (frame_arc _ t Hlt eq_refl).
Qed.

Lemma frame_unique (i j : nat) :
  (i < 12)%nat -> (j < 12)%nat ->
  between_cusps houseCusps p i = true -> between_cusps houseCusps p j = true ->
  i = j.
Proof.
  intros Hi Hj Bi Bj.
  assert (Ei : (i = (k + 1 + (i + 11 - k) mod 12) mod 12)%nat) by (mod12; lia).
  assert (Ej : (j = (k + 1 + (j + 11 - k) mod 12) mod 12)%nat) by (mod12; lia).
  rewrite (frame_arc i _ Hi Ei) in Bi.
  rewrite (frame_arc j _ Hj Ej) in Bj.
  assert (E : ((i + 11 - k) mod 12 = (j + 11 - k) mod 12)%nat).
  { apply (chain_unique d 11 p frame_incr frame_wrap ltac:(lia)
                        (norm360_range lon)); try assumption; mod12; lia. }
  rewrite Ei, Ej, E. reflexivity.
Qed.

End Frame.

Lemma cusp_loop_first (houseCusps : list Q) (p : Q) (i0 r i : nat) :
  between_cusps houseCusps p i0 = true ->
  (forall j, (i <= j < i0)%nat -> between_cusps houseCusps p j = false) ->
  (i <= i0 < i + r)%nat ->
  cusp_loop houseCusps p r i = House (Z.of_nat i0 + 1).
Proof.
  intros B0. revert i. induction r as [|r IH]; intros i Hfirst Hr; [lia|].
  simpl. destruct (Nat.eq_dec i i0) as [->|Hne].
  - now rewrite B0.
  - rewrite (Hfirst i) by lia. apply IH; [|lia].
    intros j Hj. apply Hfirst. lia.
Qed.

Lemma valid_frame_ordered (houseCusps : list Q) :
  valid_frame (map norm360 houseCusps) = true ->
  List.length houseCusps = 12%nat /\
  exists k, (k < 12)%nat /\ ordered_from (map norm360 houseCusps) k = true.
Proof.
  unfold valid_frame.
  rewrite andb_true_iff, Nat.eqb_eq, existsb_exists, length_map.
  intros [Hlen (k & Hin & Hk)]. split; [exact Hlen|].
  exists k. apply in_seq in Hin. split; [lia|exact Hk].
Qed.

(** The placement of the loop, for a frame whose normalised cusps are in
    order. *)
Lemma quadrant_loop (lon : Q) (houseCusps : list Q) (asc : option Q)
      (hs : string) :
  valid_frame (map norm360 houseCusps) = true ->
  toUpperCase hs <> "W" ->
  exists i0 : nat,
    (i0 < 12)%nat
    /\ getHousePlacement lon (Some houseCusps) asc (Some hs)
       = Return (House (Z.of_nat i0 + 1))
    /\ (forall i, (i < 12)%nat ->
          i = i0 <->
          on_arc (norm360 (cusp_at houseCusps i))
                 (norm360 (cusp_at houseCusps (i + 1))) (norm360 lon)).
Proof.
  intros Hv Hq.
  destruct (valid_frame_ordered _ Hv) as (Hlen & k & Hk & Hord).
  destruct (frame_exists houseCusps k lon Hlen Hk Hord) as (i0 & Hi0 & B0).
  pose proof (frame_unique houseCusps k lon Hlen Hk Hord) as Huniq.
  assert (Harc : forall i, (i < 12)%nat ->
            between_cusps houseCusps (norm360 lon) i = true <->
            on_arc (norm360 (cusp_at houseCusps i))
                   (norm360 (cusp_at houseCusps (i + 1))) (norm360 lon)).
  { intros i Hi. rewrite between_cusps_at by assumption.
    replace (i + 1)%nat with (S i) by lia.
    apply arc_test_on_arc; apply norm360_range. }
  exists i0. split; [exact Hi0|]. split.
  - unfold getHousePlacement, bind, require. rewrite Hlen.
    change (negb (12 =? 12)%nat) with false. cbv iota.
    apply String.eqb_neq in Hq. rewrite Hq. f_equal.
    apply cusp_loop_first; [exact B0| |lia].
    intros j Hj. destruct (between_cusps houseCusps (norm360 lon) j) eqn:Bj;
      [|reflexivity].
    assert (j = i0) by (apply Huniq; trivial; lia). lia.
  - intros i Hi. rewrite <- Harc by assumption. split.
    + now intros ->.
    + intros Bi. now apply Huniq.
Qed.

(** A longitude at the start of an arc of positive length is on it. *)
Lemma on_arc_start (A B X : Q) :
  0 <= A /\ A < 360 -> 0 <= B /\ B < 360 -> X == A -> ~ A == B ->
  on_arc A B X.
Proof.
  intros [A0 A1] [B0 B1] E Hne. unfold on_arc.
  assert (Z0 : Qmod (X - A) 360 == 0).
  { apply (Qmod_360_unique _ _ 0); [change (inject_Z 0) with 0|..]; lra. }
  rewrite Z0.
  pose proof (Qmod_360_small A A0 A1) as SA.
  pose proof (Qmod_360_small B B0 B1) as SB.
  destruct (Qmod_360_diff B A) as [D1 D2].
  destruct (Qlt_le_dec B A) as [H|H].
  - rewrite (D2 ltac:(lra)). lra.
  - rewrite (D1 ltac:(lra)).
    destruct (Qlt_le_dec A B) as [H'|H']; [lra|].
    exfalso. apply Hne. lra.
Qed.

Lemma grid_cusp (houseCusps : list Q) (j : nat) :
  Forall (grid (-43)) houseCusps -> grid (-43) (cusp_at houseCusps j).
Proof.
  intros F. unfold cusp_at.
  destruct (Nat.lt_ge_cases (j mod 12) (List.length houseCusps)) as [H|H].
  - rewrite Forall_forall in F. apply F. now apply nth_In.
  - rewrite nth_overflow by assumption. apply (grid_Z _ 0). lia.
Qed.

(** On a frame of cusps that are multiples of [2^-43], the order of the
    normalised cusps is that of the residues. *)
Lemma valid_frame_on_grid (houseCusps : list Q) :
  Forall (grid (-43)) houseCusps ->
  valid_frame (map norm360 houseCusps) = true ->
  valid_frame houseCusps = true.
Proof.
  intros F Hv.
  destruct (valid_frame_ordered _ Hv) as (Hlen & k & Hk & Hord).
  unfold valid_frame. rewrite Hlen. change (12 =? 12)%nat with true.
  cbv [andb]. apply existsb_exists. exists k.
  split; [apply in_seq; lia|].
  unfold ordered_from. apply forallb_forall. intros j Hj.
  apply in_seq in Hj. cbv zeta.
  replace (j + 1)%nat with (S j) by lia.
  pose proof (ordered_from_spec houseCusps k j Hlen Hord ltac:(lia)) as H.
  pose proof (norm360_exact _ (grid_cusp houseCusps j F)) as Ej.
  pose proof (norm360_exact _ (grid_cusp houseCusps (S j) F)) as Es.
  destruct (Nat.eqb j k); apply Qltb_iff; lra.
Qed.

(** C3, as amended.  For a house system other than whole sign and a
    frame of twelve cusps whose normalised values go once round the circle
    in order, the placement of any longitude returns a house number from 1
    to 12, never the null of the fallback; the number is [i + 1] exactly
    when the normalised longitude lies on the arc from the normalised cusp
    [i + 1] (included) to the next one (excluded), the arc that passes
    360/0 included; a longitude equal to a cusp is placed in the house
    that the cusp starts.  The normalised value is the double that the
    code computes: the residue modulo 360 of a number within [2^-44] of
    the argument.  When the longitude and the cusps are whole multiples of
    [2^-43], nothing is rounded, and the same holds of the longitude and
    the cusps themselves. *)
Theorem quadrant_placement_of_normalised_longitude
        (lon : Q) (houseCusps : list Q) (asc : option Q) (hs : string) :
  valid_frame (map norm360 houseCusps) = true ->
  toUpperCase hs <> "W" ->
  exists h : Z,
    getHousePlacement lon (Some houseCusps) asc (Some hs) = Return (House h)
    /\ (1 <= h <= 12)%Z
    /\ (forall i, (i < 12)%nat ->
          h = (Z.of_nat i + 1)%Z <->
          on_arc (norm360 (cusp_at houseCusps i))
                 (norm360 (cusp_at houseCusps (i + 1))) (norm360 lon))
    /\ (forall i, (i < 12)%nat ->
          lon == cusp_at houseCusps i -> h = (Z.of_nat i + 1)%Z)
    /\ (forall x : Q,
          exists e : Q,
            Qabs e <= pow2 (-44) /\ norm360 x == Qmod (x + e) 360)
    /\ (grid (-43) lon -> Forall (grid (-43)) houseCusps ->
        valid_frame houseCusps = true
        /\ forall i, (i < 12)%nat ->
             h = (Z.of_nat i + 1)%Z <->
             on_arc (cusp_at houseCusps i) (cusp_at houseCusps (i + 1)) lon).
Proof.
  intros Hv Hq.
  destruct (quadrant_loop lon houseCusps asc hs Hv Hq)
    as (i0 & Hi0 & Hret & Harc).
  destruct (valid_frame_ordered _ Hv) as (Hlen & k & Hk & Hord).
  exists (Z.of_nat i0 + 1)%Z.
  split; [exact Hret|]. split; [lia|].
  assert (Hh : forall i, (Z.of_nat i0 + 1)%Z = (Z.of_nat i + 1)%Z <-> i = i0)
    by (intros i; lia).
  split; [|split; [|split]].
  - intros i Hi. rewrite Hh. now apply Harc.
  - intros i Hi E. apply Hh. apply Harc; [exact Hi|].
    replace (i + 1)%nat with (S i) by lia.
    pose proof (ordered_from_spec houseCusps k i Hlen Hord Hi) as H.
    apply on_arc_start; try apply norm360_range.
    + now rewrite E.
    + destruct (Nat.eqb i k); lra.
  - exact norm360_near.
  - intros Gl Gc. split; [now apply valid_frame_on_grid|].
    intros i Hi. rewrite Hh, (Harc i Hi).
    apply on_arc_residues; apply norm360_exact;
      [apply grid_cusp|apply grid_cusp|]; assumption.
Qed.

(** C3 fails as stated.  In the frame below, which is valid, the double
    next below 200 lies on the arc from cusp 7, at 170, to cusp 8, at 200;
    the normalisation of the code rounds it to 200, and the code answers
    house 8. *)
Lemma quadrant_placement_of_the_last_double_below_a_cusp :
  let frame := [350; 20; 60; 90; 120; 150; 170; 200; 240; 270; 300; 330] in
  let lon := 200 - pow2 (-45) in
  is_double lon = true
  /\ valid_frame frame = true
  /\ cusp_at frame 6 = 170 /\ cusp_at frame 7 = 200
  /\ on_arc (cusp_at frame 6) (cusp_at frame 7) lon
  /\ getHousePlacement lon (Some frame) None (Some "P") = Return (House 8).
Proof.
  cbv zeta. split; [vm_compute; reflexivity|].
  split; [vm_compute; reflexivity|].
  split; [reflexivity|]. split; [reflexivity|].
  split; [vm_compute; reflexivity|vm_compute; reflexivity].
Qed.

Lemma quadrant_placement_of_normalised_longitude_witness :
  let frame := [350; 20; 60; 90; 120; 150; 170; 200; 240; 270; 300; 330] in
  exists h : Z,
    getHousePlacement 5 (Some frame) None (Some "P") = Return (House h)
    /\ (1 <= h <= 12)%Z
    /\ (forall i, (i < 12)%nat ->
          h = (Z.of_nat i + 1)%Z <->
          on_arc (norm360 (cusp_at frame i))
                 (norm360 (cusp_at frame (i + 1))) (norm360 5))
    /\ (forall i, (i < 12)%nat ->
          5 == cusp_at frame i -> h = (Z.of_nat i + 1)%Z)
    /\ (forall x : Q,
          exists e : Q,
            Qabs e <= pow2 (-44) /\ norm360 x == Qmod (x + e) 360)
    /\ (grid (-43) 5 -> Forall (grid (-43)) frame ->
        valid_frame frame = true
        /\ forall i, (i < 12)%nat ->
             h = (Z.of_nat i + 1)%Z <->
             on_arc (cusp_at frame i) (cusp_at frame (i + 1)) 5).
Proof.
  cbv zeta. apply quadrant_placement_of_normalised_longitude.
  - vm_compute. reflexivity.
  - discriminate.
Defined.


(* ================================================================== *)
(** * Facts about the insight loop *)
(* ================================================================== *)

Import Claude.
Local Open Scope list_scope.

Section InsightFacts.

Variables PREMIUM_MODEL BASIC_MODEL : string.
Variable messages_create : nat -> RequestPayload -> Response + Caught.
Variable apiLog_create : ApiLog -> bool.
Variables (systemPrompt : string) (msgs : list Message) (user : option Z).

Abbreviation succeeds :=
  (InsightDerived.succeeds PREMIUM_MODEL BASIC_MODEL messages_create
                           systemPrompt msgs user).
Abbreviation fails :=
  (InsightDerived.fails messages_create systemPrompt msgs).
Abbreviation next_model :=
  (InsightDerived.next_model PREMIUM_MODEL BASIC_MODEL).
Abbreviation next_wait :=
  (InsightDerived.next_wait PREMIUM_MODEL BASIC_MODEL).
Abbreviation logged := (InsightDerived.logged apiLog_create).
Abbreviation called := (InsightDerived.called systemPrompt msgs).
Abbreviation run_shape :=
  (InsightDerived.run_shape PREMIUM_MODEL BASIC_MODEL messages_create
                            apiLog_create systemPrompt msgs user).
Abbreviation usage_reported :=
  (InsightDerived.usage_reported PREMIUM_MODEL BASIC_MODEL messages_create
                                 systemPrompt msgs).
Abbreviation try_block' :=
  (try_block PREMIUM_MODEL BASIC_MODEL messages_create apiLog_create
             systemPrompt msgs user).
Abbreviation attempts' N :=
  (attempts PREMIUM_MODEL BASIC_MODEL messages_create apiLog_create N
            systemPrompt msgs user).

Lemma attempted_models_app (t u : list event) :
  attempted_models (t ++ u) = (attempted_models t ++ attempted_models u)%list.
Proof.
  induction t as [|[a p|r b|ms] t IH]; simpl; [reflexivity| |assumption..].
  now rewrite IH.
Qed.

Lemma waits_app (t u : list event) : waits (t ++ u) = (waits t ++ waits u)%list.
Proof.
  induction t as [|[a p|r b|ms] t IH]; simpl; [reflexivity|assumption..|].
  now rewrite IH.
Qed.

Lemma ledger_app (t u : list event) : ledger (t ++ u) = (ledger t ++ ledger u)%list.
Proof.
  induction t as [|[a p|r b|ms] t IH]; simpl; [reflexivity|assumption| |assumption].
  now rewrite IH.
Qed.


(** What one [try] block adds to the trace. *)
Lemma try_block_spec (attempt : nat) (modelToUse : string) (trace : list event) :
  match try_block' attempt modelToUse trace with
  | (inl result, trace') =>
      exists record,
        trace' = trace ++ [called attempt modelToUse; logged record]
        /\ succeeds attempt modelToUse result record
  | (inr error, trace') =>
      trace' = trace ++ [called attempt modelToUse]
      /\ fails attempt modelToUse error
  end.
Proof.
  unfold try_block, on_response, logClaudeApiCall, succeeds, fails.
  destruct (messages_create _ _) as [response|error]; [|split; auto].
  destruct (completionTokens_of response) as [tokens|thrown] eqn:E.
  - eexists. rewrite <- app_assoc. split; [reflexivity|].
    exists response, tokens. repeat split; trivial.
  - split; [reflexivity|]. right. exists response. split; trivial.
Qed.

Lemma attempts_waits (N : nat) :
  forall remaining modelToUse trace,
    (remaining <= N)%nat ->
    exists ws,
      waits (snd (attempts' N remaining modelToUse trace))
      = (waits trace ++ ws)%list
      /\ StronglySorted Z.lt ws
      /\ Forall (fun w => (1000 * Z.of_nat (N + 1 - remaining) <= w)%Z) ws.
Proof.
  induction remaining as [|remaining IH]; intros modelToUse trace Hle.
  - exists []. simpl. rewrite app_nil_r. repeat constructor.
  - cbn [attempts].
    pose proof (try_block_spec (N + 1 - S remaining) modelToUse trace) as Hb.
    destruct (try_block' (N + 1 - S remaining) modelToUse trace)
      as [[result|error] trace'].
    + destruct Hb as (record & -> & _). exists []. cbn [snd].
      rewrite waits_app. cbn [waits app]. repeat constructor.
    + destruct Hb as [-> _]. unfold logClaudeApiCall, called.
      destruct (Nat.eqb _ N).
      { exists []. cbn [snd]. rewrite !waits_app. cbn [waits app].
        rewrite !app_nil_r. repeat constructor. }
      destruct (_ && _).
      * destruct (IH BASIC_MODEL
                    ((trace ++ [ProviderCall (N + 1 - S remaining)
                                  (request_payload modelToUse systemPrompt msgs)])
                       ++ [ApiLogCreate
                             (failed_record systemPrompt msgs user modelToUse error)
                             (apiLog_create
                                (failed_record systemPrompt msgs user modelToUse
                                               error))])%list
                    ltac:(lia)) as (ws & E & Hs & Hf).
        exists ws. rewrite E, !waits_app. cbn [waits app]. rewrite !app_nil_r.
        repeat split; trivial.
        eapply Forall_impl; [|exact Hf]. cbv beta. intros w Hw. lia.
      * match goal with
        | |- context [attempts' N remaining modelToUse ?t] =>
            destruct (IH modelToUse t ltac:(lia)) as (ws & E & Hs & Hf)
        end.
        exists ((1000 * Z.of_nat (N + 1 - S remaining))%Z :: ws).
        rewrite E, !waits_app. cbn [waits app]. rewrite !app_nil_r.
        rewrite <- app_assoc. cbn [app].
        repeat split; trivial.
        -- constructor; [exact Hs|].
           eapply Forall_impl; [|exact Hf]. cbv beta. intros w Hw. lia.
        -- constructor; [lia|].
           eapply Forall_impl; [|exact Hf]. cbv beta. intros w Hw. lia.
Qed.


Lemma attempts_step (N remaining : nat) (modelToUse : string)
      (trace : list event) :
  attempts' N (S remaining) modelToUse trace
  = match try_block' (N + 1 - S remaining)%nat modelToUse trace with
    | (inl result, trace) => (Return (Some result), trace)
    | (inr error, trace) =>
        let trace :=
          logClaudeApiCall apiLog_create
            (failed_record systemPrompt msgs user modelToUse error) trace in
        if Nat.eqb (N + 1 - S remaining) N then
          (Throw (Error (failure_message N error)), trace)
        else if String.eqb modelToUse PREMIUM_MODEL
                && negb (String.eqb BASIC_MODEL PREMIUM_MODEL) then
          attempts' N remaining BASIC_MODEL trace
        else
          attempts' N remaining modelToUse
                    (trace ++ [Sleep (1000 * Z.of_nat (N + 1 - S remaining))])
    end.
Proof. reflexivity. Qed.

Lemma attempts_shape (m0 : string) :
  run_shape m0 (attempts' 2%nat 2%nat m0 []).
Proof.
  rewrite attempts_step. change (2 + 1 - 2)%nat with 1%nat.
  pose proof (try_block_spec 1 m0 []) as H1.
  destruct (try_block' 1%nat m0 []) as [[r1|e1] t1].
  { destruct H1 as (record & -> & ?). now constructor. }
  destruct H1 as [-> F1]. change (Nat.eqb 1 2) with false. cbv iota zeta.
  unfold logClaudeApiCall.
  assert (Hn : forall t,
             (if String.eqb m0 PREMIUM_MODEL
                 && negb (String.eqb BASIC_MODEL PREMIUM_MODEL)
              then attempts' 2%nat 1%nat BASIC_MODEL t
              else attempts' 2%nat 1%nat m0
                     (t ++ [Sleep (1000 * Z.of_nat 1)]))
             = attempts' 2%nat 1%nat (next_model m0) (t ++ next_wait m0 1)).
  { intros t. unfold next_model, next_wait.
    destruct (_ && _); [now rewrite app_nil_r|reflexivity]. }
  rewrite Hn. clear Hn.
  rewrite attempts_step. change (2 + 1 - 1)%nat with 2%nat.
  match goal with
  | |- context [try_block' 2%nat (next_model m0) ?t] =>
      pose proof (try_block_spec 2 (next_model m0) t) as H2;
      destruct (try_block' 2%nat (next_model m0) t) as [[r2|e2] t2]
  end.
  - destruct H2 as (record & -> & ?).
    cbn [app]. rewrite <- ?app_assoc. cbn [app].
    now apply InsightDerived.SecondSucceeds.
  - destruct H2 as [-> F2]. change (Nat.eqb 2 2) with true. cbv iota zeta.
    unfold logClaudeApiCall.
    cbn [app]. rewrite <- ?app_assoc. cbn [app].
    now apply InsightDerived.BothFail.
Qed.


Variable anthropic : bool.
Variable userPlan : string.

Abbreviation the_run :=
  (getClaudeInsight PREMIUM_MODEL BASIC_MODEL anthropic messages_create
                    apiLog_create systemPrompt msgs userPlan user).
Abbreviation m0 := (initial_model PREMIUM_MODEL BASIC_MODEL userPlan).

Lemma run_unavailable :
  anthropic = false ->
  the_run = (Throw (Error "AI service is currently unavailable."), []).
Proof. intros E. unfold getClaudeInsight. now rewrite E. Qed.

Lemma run_available : anthropic = true -> run_shape m0 the_run.
Proof.
  intros E. unfold getClaudeInsight. rewrite E. apply attempts_shape.
Qed.

Lemma fallback_condition (modelToUse : string) :
  PREMIUM_MODEL <> BASIC_MODEL ->
  String.eqb modelToUse PREMIUM_MODEL
  && negb (String.eqb BASIC_MODEL PREMIUM_MODEL)
  = String.eqb modelToUse PREMIUM_MODEL.
Proof.
  intros Hd. assert (E : String.eqb BASIC_MODEL PREMIUM_MODEL = false)
    by (apply String.eqb_neq; congruence).
  rewrite E. apply andb_true_r.
Qed.

Lemma succeeds_not_error attempt model result record error :
  succeeds attempt model result record ->
  messages_create attempt (request_payload model systemPrompt msgs)
  = inr error -> False.
Proof. intros (response & tokens & E & _) E'. congruence. Qed.

Lemma succeeds_modelUsed attempt model result record :
  succeeds attempt model result record ->
  modelUsed result = model /\ endpoint record = model
  /\ isSuccess record = true.
Proof. intros (response & tokens & _ & _ & -> & ->). now repeat split. Qed.

Lemma ledger_of_shape (first second : ApiLog) :
  ledger ([called 1 m0; logged first] ++ next_wait m0 1
            ++ [called 2 (next_model m0); logged second])
  = [first; second].
Proof.
  cbn [app ledger called logged]. rewrite ledger_app.
  unfold next_wait. destruct (_ && _); reflexivity.
Qed.

Lemma models_of_shape (first second : ApiLog) :
  attempted_models ([called 1 m0; logged first] ++ next_wait m0 1
                      ++ [called 2 (next_model m0); logged second])
  = [m0; next_model m0].
Proof.
  cbn [app attempted_models called logged]. rewrite attempted_models_app.
  unfold next_wait. destruct (_ && _); reflexivity.
Qed.

Lemma paired_of_shape (first second : ApiLog) :
  endpoint first = m0 -> endpoint second = next_model m0 ->
  one_record_per_attempt
    ([called 1 m0; logged first] ++ next_wait m0 1
       ++ [called 2 (next_model m0); logged second]) = true.
Proof.
  intros E1 E2. unfold next_wait, called, logged.
  destruct (_ && _); cbn [app one_record_per_attempt request_payload payload_model];
    rewrite E1, E2, !String.eqb_refl; reflexivity.
Qed.

Lemma waits_of_shape (first second : ApiLog) :
  waits ([called 1 m0; logged first] ++ next_wait m0 1
           ++ [called 2 (next_model m0); logged second])
  = waits (next_wait m0 1).
Proof.
  cbn [app waits called logged]. rewrite waits_app.
  cbn [waits called logged]. apply app_nil_r.
Qed.

(** The model and the wait after a failed first attempt. *)
Lemma next_of_premium :
  m0 = PREMIUM_MODEL ->
  next_model m0 = BASIC_MODEL
  /\ (PREMIUM_MODEL <> BASIC_MODEL -> waits (next_wait m0 1) = [])
  /\ (PREMIUM_MODEL = BASIC_MODEL -> waits (next_wait m0 1) = [1000%Z]).
Proof.
  intros Hm. unfold next_model, next_wait. rewrite Hm, String.eqb_refl.
  destruct (String.eqb BASIC_MODEL PREMIUM_MODEL) eqn:E; cbn [andb negb].
  - apply String.eqb_eq in E. split; [congruence|].
    split; [congruence|reflexivity].
  - apply String.eqb_neq in E. split; [reflexivity|].
    split; [reflexivity|congruence].
Qed.

Lemma next_of_other :
  m0 <> PREMIUM_MODEL ->
  next_model m0 = m0 /\ waits (next_wait m0 1) = [1000%Z].
Proof.
  intros Hm. apply String.eqb_neq in Hm. unfold next_model, next_wait.
  rewrite Hm. now split.
Qed.

(** The models a run tries, and what it has done once the provider has
    failed the first attempt. *)
Lemma run_models :
  anthropic = true ->
  (attempted_models (snd the_run) = [m0]
   \/ attempted_models (snd the_run) = [m0; next_model m0])
  /\ (forall error,
         messages_create 1%nat (request_payload m0 systemPrompt msgs)
         = inr error ->
         attempted_models (snd the_run) = [m0; next_model m0]
         /\ waits (snd the_run) = waits (next_wait m0 1))
  /\ (forall result,
         fst the_run = Return (Some result) ->
         exists earlier,
           attempted_models (snd the_run) = earlier ++ [modelUsed result]).
Proof.
  intros Ea. pose proof (run_available Ea) as Hshape.
  remember the_run as R eqn:ER. clear ER.
  destruct Hshape as [result record Hs
                     |e1 result record Hf Hs
                     |e1 e2 Hf1 Hf2]; cbn [fst snd];
    rewrite ?models_of_shape, ?waits_of_shape.
  - split; [now left|]. split.
    + intros error Herr. exfalso.
      exact (succeeds_not_error _ _ _ _ _ Hs Herr).
    + intros r [= <-]. exists [].
      now destruct (succeeds_modelUsed _ _ _ _ Hs) as [-> _].
  - split; [now right|]. split; [now split|].
    intros r [= <-]. exists [m0].
    now destruct (succeeds_modelUsed _ _ _ _ Hs) as [-> _].
  - split; [now right|]. split; [now split|]. intros r [=].
Qed.

(** C1.  The first attempt uses the premium model for the [premium] plan
    and the basic model for any other (so the premium model exactly for
    that plan, the two models being distinct); after a provider error on
    it the premium model is replaced by the basic one and retried at once,
    any other model (or the one model, when both names are configured to
    the same) is retried after a wait of 1000 ms times the attempt number,
    so the waits increase with the attempt, whatever the bound on
    attempts; no run makes more than two attempts; and the result of a
    successful run names the model of its last attempt. *)
Theorem insight_model_selection_and_fallback :
  let tried := attempted_models (snd the_run) in
  (userPlan = "premium" -> m0 = PREMIUM_MODEL)
  /\ (userPlan <> "premium" -> m0 = BASIC_MODEL)
  /\ (PREMIUM_MODEL <> BASIC_MODEL ->
      (m0 = PREMIUM_MODEL <-> userPlan = "premium"))
  /\ (List.length tried <= 2)%nat
  /\ (anthropic = true -> hd_error tried = Some m0)
  /\ (anthropic = true ->
      forall error,
        messages_create 1%nat (request_payload m0 systemPrompt msgs)
        = inr error ->
        (m0 = PREMIUM_MODEL ->
         tried = [PREMIUM_MODEL; BASIC_MODEL]
         /\ (PREMIUM_MODEL <> BASIC_MODEL -> waits (snd the_run) = []))
        /\ (m0 <> PREMIUM_MODEL \/ PREMIUM_MODEL = BASIC_MODEL ->
            tried = [m0; m0] /\ waits (snd the_run) = [1000%Z]))
  /\ (forall result,
        fst the_run = Return (Some result) ->
        exists earlier, tried = earlier ++ [modelUsed result])
  /\ (forall N,
        StronglySorted Z.lt
          (waits (snd (attempts' N N m0 [])))).
Proof.
  intros tried. subst tried.
  assert (Hplan : (userPlan = "premium" -> m0 = PREMIUM_MODEL)
                  /\ (userPlan <> "premium" -> m0 = BASIC_MODEL)).
  { unfold initial_model. destruct (String.eqb userPlan "premium") eqn:E.
    - apply String.eqb_eq in E. split; intros; congruence.
    - apply String.eqb_neq in E. split; intros; congruence. }
  destruct Hplan as [Hp Hb]. split; [exact Hp|]. split; [exact Hb|].
  split.
  { intros Hd. split; [|exact Hp]. intros Hm.
    destruct (string_dec userPlan "premium") as [E|E]; [exact E|].
    specialize (Hb E). congruence. }
  assert (Hsorted : forall N,
             StronglySorted Z.lt (waits (snd (attempts' N N m0 [])))).
  { intros N. destruct (attempts_waits N N m0 [] (Nat.le_refl N))
      as (ws & -> & Hs' & _). exact Hs'. }
  assert (Hcase : anthropic = true \/ anthropic = false)
    by (destruct anthropic; auto).
  destruct Hcase as [Ea|Ea].
  - destruct (run_models Ea) as (Hm & Herr & Hres).
    split; [destruct Hm as [-> | ->]; simpl; lia|].
    split; [intros _; destruct Hm as [-> | ->]; reflexivity|].
    split; [|split; [exact Hres|exact Hsorted]].
    intros _ error Hfail. destruct (Herr error Hfail) as [-> ->]. split.
    + intros Hprem. destruct (next_of_premium Hprem) as (-> & Hw & _).
      split; [now rewrite Hprem|exact Hw].
    + intros [Hother|Hsame].
      * now destruct (next_of_other Hother) as [-> ->].
      * destruct (string_dec m0 PREMIUM_MODEL) as [Hprem|Hother].
        -- destruct (next_of_premium Hprem) as (-> & _ & Hw).
           rewrite (Hw Hsame). split; [|reflexivity]. congruence.
        -- now destruct (next_of_other Hother) as [-> ->].
  - rewrite (run_unavailable Ea). cbn [fst snd attempted_models].
    split; [simpl; lia|]. split; [congruence|]. split; [congruence|].
    split; [intros r [=]|exact Hsorted].
Qed.

(** C2.  Each provider call is directly followed by exactly one ledger
    record; a successful run ends with the one success record, after the
    failure records of the earlier attempts; a run whose two attempts
    both fail throws the error that wraps the message of the last one,
    and by then the ledger holds the failure records of both, the last
    event before the throw being the record of the last attempt. *)
Theorem one_ledger_record_per_attempt :
  one_record_per_attempt (snd the_run) = true
  /\ List.length (ledger (snd the_run))
     = List.length (attempted_models (snd the_run))
  /\ (forall result,
        fst the_run = Return (Some result) ->
        exists failed record,
          ledger (snd the_run) = failed ++ [record]
          /\ isSuccess record = true
          /\ Forall (fun r => isSuccess r = false) failed)
  /\ (forall thrown,
        fst the_run = Throw thrown -> anthropic = true ->
        exists e1 e2 model2 earlier,
          fails 2 model2 e2
          /\ thrown = Error ("AI service request failed after 2 attempts: "
                               ++ message e2)%string
          /\ ledger (snd the_run)
             = [failed_record systemPrompt msgs user m0 e1;
                failed_record systemPrompt msgs user model2 e2]
          /\ snd the_run
             = earlier
                 ++ [logged (failed_record systemPrompt msgs user model2 e2)])
  /\ fst the_run <> Return None.
Proof.
  assert (Hcase : anthropic = true \/ anthropic = false)
    by (destruct anthropic; auto).
  destruct Hcase as [Ea|Ea].
  - pose proof (run_available Ea) as Hshape.
    remember the_run as R eqn:ER. clear ER.
    destruct Hshape as [result record Hs
                       |e1 result record Hf Hs
                       |e1 e2 Hf1 Hf2]; cbn [fst snd].
    + destruct (succeeds_modelUsed _ _ _ _ Hs) as (_ & Hend & Hok).
      split.
      { unfold called, logged.
        cbn [one_record_per_attempt request_payload payload_model].
        now rewrite Hend, String.eqb_refl. }
      split; [reflexivity|]. split.
      { intros r _. exists [], record. now repeat split. }
      split; [intros thrown [=]|intros [=]].
    + destruct (succeeds_modelUsed _ _ _ _ Hs) as (_ & Hend & Hok).
      rewrite ledger_of_shape, models_of_shape.
      split; [now apply paired_of_shape|].
      split; [reflexivity|]. split.
      { intros r _.
        exists [failed_record systemPrompt msgs user m0 e1], record.
        repeat split; trivial. now repeat constructor. }
      split; [intros thrown [=]|intros [=]].
    + rewrite ledger_of_shape, models_of_shape.
      split; [now apply paired_of_shape|].
      split; [reflexivity|]. split; [intros r [=]|].
      split; [|intros [=]].
      intros thrown [= <-] _.
      exists e1, e2, (next_model m0),
        ([called 1 m0; logged (failed_record systemPrompt msgs user m0 e1)]
           ++ next_wait m0 1 ++ [called 2 (next_model m0)]).
      split; [exact Hf2|]. split; [reflexivity|]. split; [reflexivity|].
      cbn [app]. rewrite <- !app_assoc. reflexivity.
  - rewrite (run_unavailable Ea). cbn [fst snd].
    split; [reflexivity|]. split; [reflexivity|].
    split; [intros r [=]|]. split; [|intros [=]].
    intros thrown _ E. congruence.
Qed.

Lemma priced (model : string) :
  model = PREMIUM_MODEL \/ model = BASIC_MODEL ->
  exists pricing,
    JsObject.get (MODEL_PRICING PREMIUM_MODEL BASIC_MODEL) model
    = JsObject.Own pricing
    /\ In (model, pricing) (MODEL_PRICING PREMIUM_MODEL BASIC_MODEL).
Proof.
  intros H. unfold JsObject.get, MODEL_PRICING. cbn [JsObject.own].
  destruct (String.eqb BASIC_MODEL model) eqn:Eb.
  - apply String.eqb_eq in Eb. subst model. eexists. split; [reflexivity|].
    right. now left.
  - destruct H as [->| ->].
    + rewrite String.eqb_refl. eexists. split; [reflexivity|]. now left.
    + now rewrite String.eqb_refl in Eb.
Qed.

Lemma m0_configured : m0 = PREMIUM_MODEL \/ m0 = BASIC_MODEL.
Proof. unfold initial_model. destruct (String.eqb _ _); auto. Qed.

Lemma next_model_configured :
  next_model m0 = PREMIUM_MODEL \/ next_model m0 = BASIC_MODEL.
Proof.
  unfold next_model. destruct (_ && _); [auto|apply m0_configured].
Qed.

Lemma truthy_number_nonzero (n : Q) : ~ n == 0 -> truthy_number n = true.
Proof.
  intros H. unfold truthy_number. destruct (Qeq_bool n 0) eqn:E; [|reflexivity].
  apply Qeq_bool_iff in E. contradiction.
Qed.

Lemma succeeds_usage attempt model result record :
  model = PREMIUM_MODEL \/ model = BASIC_MODEL ->
  succeeds attempt model result record -> usage_reported record.
Proof.
  intros Hm (response & tokens & Ecall & Etok & -> & _).
  destruct (priced model Hm) as (pricing & Hget & _).
  exists attempt, response, (promptTokens_of response msgs), tokens, pricing.
  cbn [endpoint tokenCountIn tokenCountOut cost success_record].
  split; [exact Ecall|]. split; [reflexivity|]. split; [reflexivity|].
  split.
  { intros n E Hn. unfold promptTokens_of, or_estimate.
    now rewrite E, truthy_number_nonzero. }
  split.
  { intros E. unfold promptTokens_of, or_estimate. now rewrite E. }
  split.
  { intros n E Hn. unfold completionTokens_of in Etok.
    rewrite E, truthy_number_nonzero in Etok by assumption. congruence. }
  split.
  { intros E block rest t Hc Ht. unfold completionTokens_of in Etok.
    rewrite E, Hc, Ht in Etok. unfold length_over_4 in Etok. congruence. }
  split; [exact Hget|].
  unfold calculateCost. now rewrite Hget.
Qed.

(** C7, as amended.  The record of a successful attempt carries the
    provider-reported token counts when they are present and not zero,
    the estimate of a quarter of the length in UTF-16 code units (of the
    joined message contents for the input, of the text of the first
    content block for the output) when they are absent, and the cost
    computed in double arithmetic from the price-table entry of the
    model that was used: the quotient of each count by 1000000, its
    product with the price, and the sum of the two products, each
    rounded.  The record of a failed attempt carries neither token counts
    nor a cost. *)
Theorem usage_and_cost_of_each_attempt (record : ApiLog) :
  In record (ledger (snd the_run)) ->
  (isSuccess record = true -> usage_reported record)
  /\ (isSuccess record = false ->
      tokenCountIn record = None /\ tokenCountOut record = None
      /\ cost record = None).
Proof.
  assert (Hcase : anthropic = true \/ anthropic = false)
    by (destruct anthropic; auto).
  destruct Hcase as [Ea|Ea].
  - pose proof (run_available Ea) as Hshape.
    pose proof m0_configured as H0. pose proof next_model_configured as H1.
    remember the_run as R eqn:ER. clear ER.
    assert (Hfail : forall model e,
               let r := failed_record systemPrompt msgs user model e in
               (isSuccess r = true -> usage_reported r)
               /\ (isSuccess r = false ->
                   tokenCountIn r = None /\ tokenCountOut r = None
                   /\ cost r = None)).
    { intros model e. split; [discriminate|now repeat split]. }
    assert (Hsucc : forall attempt model result r,
               model = PREMIUM_MODEL \/ model = BASIC_MODEL ->
               succeeds attempt model result r ->
               (isSuccess r = true -> usage_reported r)
               /\ (isSuccess r = false ->
                   tokenCountIn r = None /\ tokenCountOut r = None
                   /\ cost r = None)).
    { intros attempt model result r Hm Hs. split.
      - intros _. exact (succeeds_usage _ _ _ _ Hm Hs).
      - destruct (succeeds_modelUsed _ _ _ _ Hs) as (_ & _ & Hok). congruence. }
    destruct Hshape as [result rec Hs
                       |e1 result rec Hf Hs
                       |e1 e2 Hf1 Hf2]; cbn [fst snd].
    + cbn [ledger called logged]. intros [<-|[]].
      exact (Hsucc _ _ _ _ H0 Hs).
    + rewrite ledger_of_shape. intros [<-|[<-|[]]]; [apply Hfail|].
      exact (Hsucc _ _ _ _ H1 Hs).
    + rewrite ledger_of_shape. intros [<-|[<-|[]]]; apply Hfail.
  - rewrite (run_unavailable Ea). intros [].
Qed.

End InsightFacts.

Import InsightDerived.

Lemma default_models_differ : default_PREMIUM_MODEL <> default_BASIC_MODEL.
Proof. discriminate. Qed.

Lemma insight_model_selection_and_fallback_witness :
  attempted_models (snd (example_run flaky_provider "premium"))
  = [default_PREMIUM_MODEL; default_BASIC_MODEL]
  /\ waits (snd (example_run flaky_provider "premium")) = []
  /\ attempted_models (snd (example_run flaky_provider "basic"))
     = [default_BASIC_MODEL; default_BASIC_MODEL]
  /\ waits (snd (example_run flaky_provider "basic")) = [1000%Z]
  /\ exists earlier result,
      fst (example_run flaky_provider "premium") = Return (Some result)
      /\ attempted_models (snd (example_run flaky_provider "premium"))
         = earlier ++ [modelUsed result].
Proof.
  destruct (insight_model_selection_and_fallback
              default_PREMIUM_MODEL default_BASIC_MODEL flaky_provider
              storing_ledger BIRTH_CHART_ANALYSIS example_messages (Some 7%Z)
              true "premium")
    as (_ & _ & _ & _ & _ & Hp & Hr & _).
  destruct (insight_model_selection_and_fallback
              default_PREMIUM_MODEL default_BASIC_MODEL flaky_provider
              storing_ledger BIRTH_CHART_ANALYSIS example_messages (Some 7%Z)
              true "basic")
    as (_ & _ & _ & _ & _ & Hb & _).
  destruct (Hp eq_refl overloaded eq_refl) as [[H1 H2] _]; [reflexivity|].
  destruct (Hb eq_refl overloaded eq_refl) as [_ [H3 H4]];
    [left; discriminate|].
  split; [exact H1|]. split; [exact (H2 default_models_differ)|].
  split; [exact H3|]. split; [exact H4|].
  destruct (Hr _ eq_refl) as [earlier He].
  exists earlier. eexists. split; [reflexivity|exact He].
Defined.

Lemma one_ledger_record_per_attempt_witness :
  (exists failed record,
      ledger (snd (example_run flaky_provider "premium")) = failed ++ [record]
      /\ isSuccess record = true
      /\ Forall (fun r => isSuccess r = false) failed)
  /\ exists e1 e2 model2 earlier,
      InsightDerived.fails failing_provider BIRTH_CHART_ANALYSIS
                           example_messages 2 model2 e2
      /\ fst (example_run failing_provider "premium")
         = Throw (Error ("AI service request failed after 2 attempts: "
                           ++ message e2)%string)
      /\ ledger (snd (example_run failing_provider "premium"))
         = [failed_record BIRTH_CHART_ANALYSIS example_messages (Some 7%Z)
                          default_PREMIUM_MODEL e1;
            failed_record BIRTH_CHART_ANALYSIS example_messages (Some 7%Z)
                          model2 e2]
      /\ snd (example_run failing_provider "premium")
         = earlier
             ++ [InsightDerived.logged storing_ledger
                   (failed_record BIRTH_CHART_ANALYSIS example_messages
                                  (Some 7%Z) model2 e2)].
Proof.
  destruct (one_ledger_record_per_attempt
              default_PREMIUM_MODEL default_BASIC_MODEL flaky_provider
              storing_ledger BIRTH_CHART_ANALYSIS example_messages (Some 7%Z)
              true "premium") as (_ & _ & Hs & _).
  destruct (one_ledger_record_per_attempt
              default_PREMIUM_MODEL default_BASIC_MODEL failing_provider
              storing_ledger BIRTH_CHART_ANALYSIS example_messages (Some 7%Z)
              true "premium") as (_ & _ & _ & Hf & _).
  split; [exact (Hs _ eq_refl)|].
  destruct (Hf _ eq_refl eq_refl) as (e1 & e2 & model2 & earlier & H1 & H2 & H3 & H4).
  exists e1, e2, model2, earlier.
  split; [exact H1|]. split; [|split; [exact H3|exact H4]].
  unfold example_run. rewrite <- H2. reflexivity.
Defined.

(** C7 fails as stated: the record of a failed attempt has no token counts
    and no cost. *)
Lemma failed_attempt_reports_no_usage :
  exists record,
    In record (ledger (snd (example_run flaky_provider "premium")))
    /\ isSuccess record = false
    /\ tokenCountIn record = None
    /\ tokenCountOut record = None
    /\ cost record = None.
Proof.
  eexists. split; [left; reflexivity|]. repeat split.
Qed.

(** The estimate counts UTF-16 code units, not bytes: the answer of
    sixteen characters, one of them a degree sign, is estimated at four
    tokens. *)
Lemma estimate_counts_code_units :
  exists record q,
    ledger (snd (example_run uncounted_provider "basic")) = [record]
    /\ isSuccess record = true
    /\ tokenCountOut record = Some (Finite q) /\ q == 4
    /\ String.length "Sun at 15° Aries" = 17%nat.
Proof.
  do 2 eexists. split; [reflexivity|]. repeat split.
Qed.

Lemma usage_and_cost_of_each_attempt_witness :
  exists record,
    In record (ledger (snd (example_run flaky_provider "premium")))
    /\ isSuccess record = true
    /\ InsightDerived.usage_reported
         default_PREMIUM_MODEL default_BASIC_MODEL flaky_provider
         BIRTH_CHART_ANALYSIS example_messages record
    /\ tokenCountIn record = Some (Finite 1200)
    /\ tokenCountOut record = Some (Finite 800)
    /\ endpoint record = default_BASIC_MODEL.
Proof.
  eexists. split; [right; left; reflexivity|].
  split; [reflexivity|]. split; [|repeat split].
  apply (usage_and_cost_of_each_attempt
           default_PREMIUM_MODEL default_BASIC_MODEL flaky_provider
           storing_ledger BIRTH_CHART_ANALYSIS example_messages (Some 7%Z)
           true "premium").
  - right. left. reflexivity.
  - reflexivity.
Defined.

(* ================================================================== *)
(** * Facts about the chart builder *)
(* ================================================================== *)

Import Ephemeris EphemerisDerived.

Section EphemerisFacts.

Variables SE_SUN SE_MOON SE_MERCURY SE_VENUS SE_MARS SE_JUPITER SE_SATURN
          SE_URANUS SE_NEPTUNE SE_PLUTO SE_MEAN_NODE : Z.
Variables SEFLG_SPEED SEFLG_SIDEREAL : Z.
Variables SEFLG_SIDM_LAHIRI SEFLG_SIDM_RAMAN SEFLG_SIDM_KRISHNAMURTI
  : option Z.
Variable utc_of_local : string -> string -> string -> completion UtcDate.
Variable swe_utc_to_jd : UtcDate -> Z * Q.
Variable swe_get_ayanamsa_ut : Z -> Q -> Q.
Variable swe_calc_ut : Z -> Q -> Z -> Z -> CalcResult.
Variable swe_houses_ex : Z -> Q -> Z -> Q -> Q -> option nat -> HousesResult.
Variable format_date : string -> string.

Abbreviation PLANET_LIST' :=
  (PLANET_LIST SE_SUN SE_MOON SE_MERCURY SE_VENUS SE_MARS SE_JUPITER
               SE_SATURN SE_URANUS SE_NEPTUNE SE_PLUTO SE_MEAN_NODE).
Abbreviation planet_loop' :=
  (planet_loop SE_SUN SE_MOON SE_MERCURY SE_VENUS SE_MARS SE_JUPITER
               SE_SATURN SE_URANUS SE_NEPTUNE SE_PLUTO SE_MEAN_NODE
               swe_calc_ut).
Abbreviation recognised_mode' :=
  (recognised_mode SEFLG_SIDM_LAHIRI SEFLG_SIDM_RAMAN SEFLG_SIDM_KRISHNAMURTI).
Abbreviation calculateBirthChartData' :=
  (calculateBirthChartData
     SE_SUN SE_MOON SE_MERCURY SE_VENUS SE_MARS SE_JUPITER SE_SATURN
     SE_URANUS SE_NEPTUNE SE_PLUTO SE_MEAN_NODE SEFLG_SPEED SEFLG_SIDEREAL
     SEFLG_SIDM_LAHIRI SEFLG_SIDM_RAMAN SEFLG_SIDM_KRISHNAMURTI
     utc_of_local swe_utc_to_jd swe_get_ayanamsa_ut swe_calc_ut
     swe_houses_ex format_date).

Lemma get_set_same {A : Type} (o : list (string * A)) (key : string) (v : A) :
  get_property (set_property o key v) key = Some v.
Proof.
  induction o as [|[k w] o IH]; simpl.
  - now rewrite String.eqb_refl.
  - destruct (String.eqb k key) eqn:E; simpl.
    + now rewrite String.eqb_refl.
    + now rewrite E.
Qed.

Lemma get_set_other {A : Type} (o : list (string * A)) (key other : string)
      (v : A) :
  key <> other ->
  get_property (set_property o key v) other = get_property o other.
Proof.
  intros Hne. apply String.eqb_neq in Hne.
  induction o as [|[k w] o IH]; simpl.
  - now rewrite Hne.
  - destruct (String.eqb k key) eqn:E; simpl.
    + apply String.eqb_eq in E. subst k. now rewrite Hne.
    + now rewrite IH.
Qed.

Lemma calc_queries_app (a b : list call) :
  calc_queries (a ++ b) = calc_queries a ++ calc_queries b.
Proof.
  induction a as [|c a IH]; [reflexivity|].
  destruct c; simpl; now rewrite ?IH.
Qed.

(** A completed planet loop has asked for each listed body once, in
    order, and has left the sidereal mode alone. *)
Lemma planet_loop_calls (jd : Q) (flags : Z) (entries : list (string * Z)) :
  forall planets st,
    sid_mode (snd (planet_loop' jd flags entries planets st)) = sid_mode st
    /\ forall done,
        fst (planet_loop' jd flags entries planets st) = Return done ->
        calc_queries (calls (snd (planet_loop' jd flags entries planets st)))
        = calc_queries (calls st) ++ map snd entries.
Proof.
  induction entries as [|[n id] entries IH]; intros planets st.
  - simpl. split; [reflexivity|]. intros _ _. now rewrite app_nil_r.
  - cbn [planet_loop].
    destruct (Z.ltb _ 0 || truthy_string _).
    + cbn [fst snd]. split; [reflexivity|discriminate].
    + match goal with
      | |- context [planet_loop' jd flags entries ?ps ?s] =>
          destruct (IH ps s) as [Hm Hc]
      end.
      split; [exact Hm|]. intros done Hd. rewrite (Hc done Hd).
      cbn [called calls map snd]. rewrite calc_queries_app.
      cbn [calc_queries]. now rewrite <- app_assoc.
Qed.

Abbreviation planet_name' :=
  (planet_name SE_SUN SE_MOON SE_MERCURY SE_VENUS SE_MARS SE_JUPITER
               SE_SATURN SE_URANUS SE_NEPTUNE SE_PLUTO SE_MEAN_NODE).

Lemma planet_loop_sets_last (jd : Q) (flags : Z) (n : string) (id : Z)
      (entries : list (string * Z)) :
  forall planets st done,
    fst (planet_loop' jd flags (entries ++ [(n, id)]) planets st) = Return done ->
    exists position, get_property done (planet_name' id) = Some position.
Proof.
  induction entries as [|[n' id'] entries IH]; intros planets st done;
    cbn [app planet_loop];
    destruct (Z.ltb _ 0 || truthy_string _); try discriminate.
  - cbn [fst]. intros [= <-]. eexists. apply get_set_same.
  - apply IH.
Qed.

Lemma mean_node_is_rahu : planet_name' SE_MEAN_NODE = "Rahu".
Proof.
  unfold planet_name, PLANET_NAMES. cbn [JsObject.own].
  now rewrite String.eqb_refl.
Qed.

Section Call.

Variables (birthDate birthTime : string) (geo_latitude geo_longitude : Q)
          (timezone : string) (houseSystemChar ayanamsaName : option string)
          (st : Sweph).

Abbreviation the_call :=
  (calculateBirthChartData' birthDate birthTime geo_latitude geo_longitude
                            timezone houseSystemChar ayanamsaName st).

Lemma chart_planets (chart : ChartResult) :
  fst the_call = Return chart ->
  exists jd flags st1 loaded,
    fst (planet_loop' jd flags PLANET_LIST' [] st1) = Return loaded
    /\ calc_queries (calls st1) = calc_queries (calls st)
    /\ planets chart = with_ketu loaded
    /\ calc_queries (calls (snd the_call))
       = calc_queries (calls (snd (planet_loop' jd flags PLANET_LIST' [] st1))).
Proof.
  unfold calculateBirthChartData, getJulianDayUT.
  destruct (utc_of_local birthDate birthTime timezone) as [utc|e];
    [|discriminate].
  destruct (swe_utc_to_jd utc) as [r jd].
  destruct (Z.ltb r 0); [discriminate|].
  destruct (recognised_mode' _) as [mode|]; cbv beta iota zeta;
    match goal with
    | |- context [planet_loop' ?jd' ?flags ?l ?ps ?s] =>
        destruct (planet_loop' jd' flags l ps s) as [[loaded|e] st2] eqn:El;
        [|discriminate];
        destruct (Z.ltb _ 0 || truthy_string _); [discriminate|];
        cbn [fst snd]; intros [= <-]; cbn [planets];
        exists jd', flags, s, loaded
    end; rewrite El; cbn [fst snd called swe_set_sid_mode calls];
    rewrite ?calc_queries_app; cbn [calc_queries]; rewrite ?app_nil_r;
    repeat split; trivial.
Qed.

(** The sum of a longitude in [-180, 360] and 180 is rounded by at most
    [2^-44], and not at all on the multiples of [2^-43]. *)
Lemma opposite_point (r : Q) :
  - (180) <= r -> r <= 360 ->
  (exists e : Q,
      Qabs e <= pow2 (-44)
      /\ js_rem (fadd r 180) 360 == Qmod (r + 180 + e) 360)
  /\ (grid (-43) r -> js_rem (fadd r 180) 360 == Qmod (r + 180) 360).
Proof.
  intros Lo Hi.
  assert (N : 0 <= fadd r 180) by (apply rnd_nonneg; lra).
  split.
  - exists (fadd r 180 - (r + 180)). split.
    + unfold fadd. apply (rnd_error_below _ 9); [lia|].
      rewrite Qabs_pos by lra. change (pow2 (9 + 1)) with 1024. lra.
    + rewrite js_rem_360_Qmod by assumption.
      apply Qmod_comp; [ring|reflexivity].
  - intros G. rewrite js_rem_360_Qmod by assumption.
    apply Qmod_comp; [|reflexivity].
    unfold fadd. apply (grid_exact (-43)); [lia| |].
    + apply grid_plus; [exact G|apply (grid_Z _ 180); lia].
    + rewrite Qabs_pos by lra. change (pow2 (-43 + 53)) with 1024. lra.
Qed.

(** C4, as amended.  A chart that was produced holds Rahu, and Ketu
    beside it: the longitude of Ketu is the remainder modulo 360 of the
    double nearest to Rahu's longitude plus 180, and its latitude is
    Rahu's negated.  For a longitude of Rahu from -180 to 360 (the oracle
    gives one in [0, 360)) that is the residue modulo 360 of a number
    within [2^-44] of Rahu's longitude plus 180, and of Rahu's longitude
    plus 180 itself when Rahu's longitude is a whole multiple of [2^-43].
    The position oracle was asked once for each body of PLANET_LIST, the
    node among them, and for nothing else: Ketu comes from the stored
    position of Rahu. *)
Theorem ketu_is_opposite_rahu_up_to_rounding (chart : ChartResult) :
  fst the_call = Return chart ->
  calc_queries (calls (snd the_call))
  = calc_queries (calls st) ++ map snd PLANET_LIST'
  /\ (exists Rahu, get_property (planets chart) "Rahu" = Some Rahu)
  /\ forall Rahu,
      get_property (planets chart) "Rahu" = Some Rahu ->
      exists Ketu,
        get_property (planets chart) "Ketu" = Some Ketu
        /\ longitude Ketu = js_rem (fadd (longitude Rahu) 180) 360
        /\ latitude Ketu = - latitude Rahu
        /\ (- (180) <= longitude Rahu -> longitude Rahu <= 360 ->
            (exists e : Q,
                Qabs e <= pow2 (-44)
                /\ longitude Ketu == Qmod (longitude Rahu + 180 + e) 360)
            /\ (grid (-43) (longitude Rahu) ->
                longitude Ketu == Qmod (longitude Rahu + 180) 360)).
Proof.
  intros Hc.
  destruct (chart_planets chart Hc) as (jd & flags & st1 & loaded & Hl & Hq & Hp & Hcalls).
  split.
  { rewrite Hcalls.
    destruct (planet_loop_calls jd flags PLANET_LIST' [] st1) as [_ H].
    now rewrite (H loaded Hl), Hq. }
  assert (Hr : exists R, get_property loaded "Rahu" = Some R).
  { rewrite <- mean_node_is_rahu.
    apply (planet_loop_sets_last jd flags "SE_MEAN_NODE" SE_MEAN_NODE
             (removelast PLANET_LIST') [] st1).
    exact Hl. }
  destruct Hr as [R HR].
  assert (Hk : planets chart
               = set_property loaded "Ketu"
                   {| longitude := js_rem (fadd (longitude R) 180) 360;
                      latitude := - latitude R;
                      distance := distance R;
                      speedLon := speedLon R;
                      speedLat := None; speedDist := None;
                      isRetrograde := isRetrograde R |}).
  { rewrite Hp. unfold with_ketu. now rewrite HR. }
  assert (Hsame : get_property (planets chart) "Rahu" = Some R).
  { rewrite Hk, get_set_other; [exact HR|discriminate]. }
  split; [now exists R|].
  intros Rahu HRahu. assert (Rahu = R) by congruence. subst Rahu.
  eexists. split; [rewrite Hk; apply get_set_same|].
  cbn [longitude latitude]. split; [reflexivity|]. split; [reflexivity|].
  apply opposite_point.
Qed.

(** When the ayanamsa is recognised, a call that returns has reset the
    sidereal mode, and a call that throws after the Julian day was
    computed has left it set. *)
Lemma sidereal_mode_on_exit (name : string) (mode : Z) (utc : UtcDate)
      (r : Z) (jd : Q) :
  ayanamsaName = Some name ->
  recognised_mode' name = Some mode ->
  utc_of_local birthDate birthTime timezone = Return utc ->
  swe_utc_to_jd utc = (r, jd) -> Z.ltb r 0 = false ->
  match fst the_call with
  | Return _ => sid_mode (snd the_call) = 0%Z
  | Throw _ => sid_mode (snd the_call) = mode
  end.
Proof.
  intros -> Hm Hu Hj Hr.
  unfold calculateBirthChartData, getJulianDayUT.
  rewrite Hu, Hj, Hr, Hm. cbv beta iota zeta.
  match goal with
  | |- context [planet_loop' ?jd' ?flags ?l ?ps ?s] =>
      destruct (planet_loop_calls jd' flags l ps s) as [Hs _];
      destruct (planet_loop' jd' flags l ps s) as [[loaded|e] st2]
  end; cbn [fst snd] in *; [|exact Hs].
  destruct (Z.ltb _ 0 || truthy_string _); cbn [fst snd]; [|reflexivity].
  cbn [called sid_mode]. exact Hs.
Qed.

End Call.

End EphemerisFacts.

(** C8 at a failing input.  The example call with a position oracle that
    fails: the call throws at the first body and the sidereal mode stays at
    the Lahiri mode it had set, instead of the default 0. *)
Lemma sidereal_mode_leaks_on_planet_failure :
  fst (example_call failing_position example_houses)
  = Throw (Error "Failed to calculate position for Sun")
  /\ sid_mode (snd (example_call failing_position example_houses)) = 1%Z
  /\ sid_mode (snd (example_call example_position example_houses)) = 0%Z
  /\ fst (example_call example_position failing_houses)
     = Throw (Error "Failed to calculate house cusps.")
  /\ sid_mode (snd (example_call example_position failing_houses)) = 1%Z.
Proof. vm_compute. repeat split. Qed.

(** C4 fails as stated.  With Rahu at the double next below 180, Rahu's
    longitude plus 180 is below 360 and its own residue; the sum of the
    code is rounded to 360, and Ketu is placed at 0. *)
Lemma ketu_of_the_last_double_below_180 :
  exists chart Rahu Ketu,
    fst (example_call node_below_180 example_houses) = Return chart
    /\ get_property (planets chart) "Rahu" = Some Rahu
    /\ get_property (planets chart) "Ketu" = Some Ketu
    /\ is_double (longitude Rahu) = true
    /\ longitude Rahu == 180 - pow2 (-45)
    /\ Qmod (longitude Rahu + 180) 360 == 360 - pow2 (-45)
    /\ longitude Ketu == 0.
Proof.
  do 3 eexists. split; [vm_compute; reflexivity|].
  split; [vm_compute; reflexivity|]. split; [vm_compute; reflexivity|].
  cbn [longitude]. repeat split; vm_compute; reflexivity.
Qed.

Lemma ketu_is_opposite_rahu_up_to_rounding_witness :
  exists chart,
    fst (example_call example_position example_houses) = Return chart
    /\ exists Rahu Ketu,
        get_property (planets chart) "Rahu" = Some Rahu
        /\ get_property (planets chart) "Ketu" = Some Ketu
        /\ longitude Ketu = js_rem (fadd (longitude Rahu) 180) 360
        /\ latitude Ketu = - latitude Rahu.
Proof.
  eexists. split; [vm_compute; reflexivity|].
  eexists.
  pose proof (ketu_is_opposite_rahu_up_to_rounding 0 1 2 3 4 5 6 7 8 9 10 256 65536 (Some 1%Z) (Some 3%Z) (Some 5%Z)
      (fun _ _ _ => Return example_utc)
      (fun _ => (0%Z, 2448093 + (55 # 100)))
      (fun _ _ => 23 + (72 # 100))
      (fun _ _ id _ => example_position id)
      (fun _ _ _ _ _ _ => example_houses)
      (fun d => d)
      "1990-07-21" "09:15" (407128 # 10000) (- (740060 # 10000))
      "America/New_York" (Some "P") (Some "LAHIRI")
      {| sid_mode := 0; calls := [] |} _ eq_refl) as (_ & _ & H).
  destruct (H _ eq_refl) as (Ketu & HK & Hlon & Hlat & _).
  exists Ketu. repeat split; trivial.
Defined.

(* ================================================================== *)
(** * Facts about the serialisers *)
(* ================================================================== *)

Local Open Scope string_scope.

Import AstroLogic SerialiserDerived.

Lemma append_assoc (a b c : string) : (a ++ b) ++ c = a ++ (b ++ c).
Proof. induction a as [|x a IH]; simpl; [reflexivity|now rewrite IH]. Qed.

Lemma starts_with_refl (p : string) : starts_with p p.
Proof.
  exists "". induction p as [|x p IH]; simpl; [reflexivity|now rewrite <- IH].
Qed.

Lemma starts_with_app (p s t : string) :
  starts_with p s -> starts_with p (s ++ t).
Proof. intros [rest ->]. exists (rest ++ t). apply append_assoc. Qed.

(** ** Characters of the rendered pieces *)

Lemma lt_free_app (a b : string) :
  lt_free a = true -> lt_free b = true -> lt_free (a ++ b) = true.
Proof.
  induction a as [|c a IH]; simpl; [auto|].
  rewrite !andb_true_iff. intros [Hc Ha] Hb. auto.
Qed.

Lemma lt_free_tag_safe (s : string) : lt_free s = true -> tag_safe s = true.
Proof.
  induction s as [|c s IH]; simpl; [reflexivity|].
  rewrite andb_true_iff, negb_true_iff. intros [-> Hs]. auto.
Qed.

Lemma tag_safe_tail (c : ascii) (s : string) :
  tag_safe (String c s) = true -> tag_safe s = true.
Proof.
  simpl. destruct (Ascii.eqb c "<"); [|auto].
  destruct s as [|c' s]; [discriminate|].
  rewrite andb_true_iff. tauto.
Qed.

Lemma tag_safe_app (a b : string) :
  tag_safe a = true -> tag_safe b = true -> tag_safe (a ++ b) = true.
Proof.
  induction a as [|c a IH]; intros Ha Hb; [exact Hb|].
  pose proof (tag_safe_tail _ _ Ha) as Ht. specialize (IH Ht Hb).
  cbn [append tag_safe] in *.
  destruct (Ascii.eqb c "<"); [|exact IH].
  destruct a as [|c' a]; [discriminate|].
  cbn [append]. rewrite andb_true_iff in *. destruct Ha as [Hc _].
  split; [exact Hc|exact IH].
Qed.

Lemma tag_safe_no_error (s : string) :
  tag_safe s = true -> ~ contains "<error>" s.
Proof.
  intros Hs (before & after & E). subst s.
  induction before as [|c before IH].
  - discriminate.
  - apply IH. exact (tag_safe_tail _ _ Hs).
Qed.

Lemma lt_free_uint (d : Decimal.uint) :
  lt_free (NilEmpty.string_of_uint d) = true.
Proof. induction d; simpl; auto. Qed.

Lemma lt_free_string_of_Z (n : Z) : lt_free (string_of_Z n) = true.
Proof.
  unfold string_of_Z, NilZero.string_of_int, NilZero.string_of_uint.
  destruct (Z.to_int n) as [d|d]; destruct d; simpl;
    rewrite ?lt_free_uint; reflexivity.
Qed.

Lemma lt_free_repeat0 (n : nat) : lt_free (repeat0 n) = true.
Proof. induction n; simpl; auto. Qed.

Lemma lt_free_padStart0 (n : nat) (s : string) :
  lt_free s = true -> lt_free (padStart0 n s) = true.
Proof. intros H. apply lt_free_app; [apply lt_free_repeat0|exact H]. Qed.

Lemma lt_free_substring (s : string) :
  lt_free s = true -> forall n m, lt_free (substring n m s) = true.
Proof.
  induction s as [|c s IH]; intros H n m.
  - destruct n, m; reflexivity.
  - simpl in H. apply andb_true_iff in H. destruct H as [Hc Hs].
    destruct n as [|n]; [destruct m as [|m]|]; simpl; auto.
    rewrite Hc. simpl. auto.
Qed.

Lemma lt_free_toFixed (x : Q) (f : nat) : lt_free (toFixed x f) = true.
Proof.
  unfold toFixed.
  set (m := padStart0 (f + 1) _).
  assert (Hm : lt_free m = true)
    by (apply lt_free_padStart0, lt_free_string_of_Z).
  assert (Hs : lt_free (if Qle_bool 0 x then "" else "-") = true)
    by (destruct (Qle_bool 0 x); reflexivity).
  destruct f as [|f].
  - now apply lt_free_app.
  - apply lt_free_app; [exact Hs|].
    apply lt_free_app; [now apply lt_free_substring|].
    apply lt_free_app; [reflexivity|now apply lt_free_substring].
Qed.

Lemma lt_free_nth (l : list string) (d : string) (n : nat) :
  forallb lt_free l = true -> lt_free d = true -> lt_free (nth n l d) = true.
Proof.
  revert n. induction l as [|x l IH]; intros n Hl Hd; destruct n; simpl; auto.
  - simpl in Hl. apply andb_true_iff in Hl. tauto.
  - simpl in Hl. apply andb_true_iff in Hl. apply IH; tauto.
Qed.

Lemma lt_free_formatLongitude (v : js_arg) : lt_free (formatLongitude v) = true.
Proof.
  destruct v as [| |negative|q]; [reflexivity..|].
  unfold formatLongitude. cbv zeta.
  apply lt_free_app; [apply lt_free_string_of_Z|].
  apply lt_free_app; [reflexivity|].
  apply lt_free_app; [apply lt_free_nth; reflexivity|].
  apply lt_free_app; [reflexivity|].
  apply lt_free_app; [apply lt_free_padStart0, lt_free_string_of_Z|].
  apply lt_free_app; [reflexivity|].
  apply lt_free_app; [apply lt_free_padStart0, lt_free_string_of_Z|].
  reflexivity.
Qed.

Lemma lt_free_string_of_bool (b : bool) : lt_free (string_of_bool b) = true.
Proof. destruct b; reflexivity. Qed.

Create HintDb pieces.

#[local] Hint Resolve lt_free_toFixed lt_free_formatLongitude
  lt_free_string_of_bool lt_free_string_of_Z : pieces.

(** ** What the builders preserve *)

Section Invariant.

(** A property [P] of the text built so far that is kept when a [good]
    piece is appended; every piece without a dangerous [<] is good. *)
Variable P : string -> Prop.
Variable good : string -> Prop.
Hypothesis P_app : forall xml piece, P xml -> good piece -> P (xml ++ piece).
Hypothesis good_app : forall a b, good a -> good b -> good (a ++ b).
Hypothesis good_safe : forall s, tag_safe s = true -> good s.

Abbreviation good_field field := (forall v, field = Some v -> good v).

Ltac piece :=
  repeat lazymatch goal with
    | |- good (_ ++ _) => apply good_app
    end;
  first [ assumption
        | apply good_safe;
          first [ reflexivity
                | apply lt_free_tag_safe; auto with pieces ] ].

Ltac built :=
  first [ assumption
        | lazymatch goal with
          | |- P (_ ++ _) => apply P_app; [built|piece]
          end ].

Lemma add_if_string_keeps xml field open close :
  good_field field -> good open -> good close ->
  P xml -> P (add_if_string xml field open close).
Proof.
  intros Hf Ho Hc H. unfold add_if_string. destruct field as [v|]; [|exact H].
  specialize (Hf v eq_refl). destruct (truthy_string v); [|exact H].
  apply P_app; [exact H|]. piece.
Qed.

Lemma add_if_number_keeps xml field digits open close :
  good open -> good close ->
  P xml -> P (add_if_number xml field digits open close).
Proof.
  intros Ho Hc H. unfold add_if_number. destruct field as [v|]; [|exact H].
  destruct (truthy_number v); [|exact H].
  apply P_app; [exact H|]. piece.
Qed.

Lemma add_typeof_number_keeps xml field open close :
  good open -> good close ->
  P xml -> P (add_typeof_number xml field open close).
Proof.
  intros Ho Hc H. unfold add_typeof_number. destruct field as [v|]; [|exact H].
  apply P_app; [exact H|]. piece.
Qed.

Lemma add_typeof_boolean_keeps xml field open close :
  good open -> good close ->
  P xml -> P (add_typeof_boolean xml field open close).
Proof.
  intros Ho Hc H. unfold add_typeof_boolean. destruct field as [v|]; [|exact H].
  apply P_app; [exact H|]. piece.
Qed.

Lemma returns_with_Return s : P s -> returns_with P (Return s).
Proof. intros H. now exists s. Qed.

Lemma returns_with_bind c k :
  returns_with P c ->
  (forall s, P s -> returns_with P (k s)) ->
  returns_with P (bind c k).
Proof. intros (s & -> & H) Hk. simpl. now apply Hk. Qed.

Lemma for_of_keeps {A : Type} (body : string -> A -> completion string)
      (entries : list A) :
  (forall e xml, In e entries -> P xml -> returns_with P (body xml e)) ->
  forall xml, P xml -> returns_with P (for_of body entries xml).
Proof.
  induction entries as [|e entries IH]; intros Hb xml Hx; cbn [for_of].
  - now apply returns_with_Return.
  - apply returns_with_bind.
    + apply Hb; [now left|exact Hx].
    + intros s Hs. apply IH; [|exact Hs].
      intros e' xml' Hin. apply Hb. now right.
Qed.

Lemma personal_information_keeps d xml :
  good_field (name d) -> good_field (birthDate d) -> good_field (birthTime d) ->
  (forall loc, location d = Some loc -> good_field (timezone loc)) ->
  good_field (gender d) ->
  P xml -> P (personal_information d xml).
Proof.
  intros Hn Hd Ht Hl Hg H. unfold personal_information.
  apply P_app; [|piece].
  apply add_if_string_keeps; [exact Hg|piece|piece|].
  assert (H3 : P (add_if_string
                    (add_if_string
                       (add_if_string (xml ++ "  <personal_information>" ++ nl)
                                      (name d) "    <name>" "</name>")
                       (birthDate d) "    <birth_date>" "</birth_date>")
                    (birthTime d) "    <birth_time>" "</birth_time>")).
  { repeat (apply add_if_string_keeps; [assumption|piece|piece|]). built. }
  destruct (location d) as [loc|]; [|exact H3].
  specialize (Hl loc eq_refl).
  destruct (timezone loc) as [tz|]; [|exact H3].
  specialize (Hl tz eq_refl).
  destruct (truthy_string tz); [|exact H3].
  apply P_app; [|piece]. apply P_app; [|piece].
  repeat (apply add_if_number_keeps; [piece|piece|]).
  built.
Qed.

Lemma astrological_system_keeps d xml :
  match named_ayanamsa d with Some (_, None) => false | _ => true end = true ->
  good_field (houseSystem d) ->
  (forall a, ayanamsa d = Some a -> good_field (ayanamsa_name a)) ->
  P xml -> returns_with P (astrological_system d xml).
Proof.
  intros Ha Hh Hn H. unfold astrological_system.
  assert (Hshown : good match houseSystem d with
                        | Some hs => if truthy_string hs then hs else "Placidus"
                        | None => "Placidus"
                        end).
  { destruct (houseSystem d) as [hs|]; [|piece].
    specialize (Hh hs eq_refl). destruct (truthy_string hs); [exact Hh|piece]. }
  assert (Hname : forall n v, named_ayanamsa d = Some (n, v) -> good n).
  { unfold named_ayanamsa. intros n v.
    destruct (ayanamsa d) as [a|]; [|discriminate].
    specialize (Hn a eq_refl).
    destruct (ayanamsa_name a) as [n'|]; [|discriminate].
    specialize (Hn n' eq_refl).
    destruct (truthy_string n'); [|discriminate]. now intros [= <- _]. }
  destruct (named_ayanamsa d) as [[n v]|].
  - destruct v as [v|]; [|discriminate].
    specialize (Hname n (Some v) eq_refl).
    cbn [bind require]. apply returns_with_Return. built.
  - cbn [bind require]. apply returns_with_Return. built.
Qed.

Lemma getHousePlacement_returns lon cs asc hs :
  exists pl, getHousePlacement lon cs asc (Some hs) = Return pl.
Proof.
  unfold getHousePlacement. destruct cs as [cs|]; [|eauto].
  destruct (negb _); [eauto|]. cbn [bind require].
  destruct (String.eqb _ _); [destruct asc|]; eauto.
Qed.

Lemma chart_planet_keeps h hs xml entry :
  planet_complete entry = true -> good (fst entry) ->
  P xml -> returns_with P (chart_planet h (Some hs) xml entry).
Proof.
  destruct entry as [n data]. unfold planet_complete, chart_planet.
  cbn [fst snd].
  destruct (longitude data) as [lon|]; [|discriminate]. intros _ Hn H.
  cbn [bind require].
  destruct (getHousePlacement_returns lon (cusps h) (ascendant h) hs) as [pl ->].
  cbn [bind]. apply returns_with_Return.
  apply P_app; [|piece].
  destruct (truthy_placement pl); [apply P_app; [|piece]|];
    (apply add_typeof_boolean_keeps; [piece|piece|];
     repeat (apply add_typeof_number_keeps; [piece|piece|]); built).
Qed.

Lemma transit_planet_keeps xml entry :
  planet_complete entry = true -> good (fst entry) ->
  P xml -> returns_with P (transit_planet xml entry).
Proof.
  destruct entry as [n data]. unfold planet_complete, transit_planet.
  cbn [fst snd].
  destruct (longitude data) as [lon|]; [|discriminate]. intros _ Hn H.
  cbn [bind require]. apply returns_with_Return.
  apply P_app; [|piece].
  apply add_typeof_boolean_keeps; [piece|piece|].
  apply add_typeof_number_keeps; [piece|piece|]. built.
Qed.

Lemma chart_cusp_keeps xml item :
  P xml -> returns_with P (chart_cusp xml item).
Proof.
  destruct item as [index cusp]. intros H. unfold chart_cusp.
  apply returns_with_Return. built.
Qed.

Lemma house_cusps_keeps h xml :
  present (cusps h) = true -> present (ascendant h) = true ->
  present (mc h) = true ->
  P xml -> returns_with P (house_cusps h xml).
Proof.
  unfold house_cusps.
  destruct (cusps h) as [cs|], (ascendant h) as [asc|], (mc h) as [m|];
    try discriminate. intros _ _ _ H. cbn [bind require].
  apply returns_with_bind.
  - apply for_of_keeps; [|built].
    intros e xml' _. apply chart_cusp_keeps.
  - intros s Hs. apply returns_with_Return. built.
Qed.

Lemma chart_keeps d :
  chart_complete d = true ->
  good_field (name d) -> good_field (birthDate d) -> good_field (birthTime d) ->
  (forall loc, location d = Some loc -> good_field (timezone loc)) ->
  good_field (gender d) -> good_field (houseSystem d) ->
  (forall a, ayanamsa d = Some a -> good_field (ayanamsa_name a)) ->
  (forall ps entry, planets d = Some ps -> In entry ps -> good (fst entry)) ->
  P ("<birth_chart_details>" ++ nl) ->
  returns_with P (formatBirthChartDataAsXML (Some d)).
Proof.
  intros Hc Hn Hd Ht Hl Hg Hh Ha Hp H0. unfold chart_complete in Hc.
  unfold formatBirthChartDataAsXML.
  destruct (planets d) as [ps|]; [|discriminate].
  destruct (houses d) as [h|]; [|discriminate].
  rewrite !andb_true_iff in Hc.
  destruct Hc as [[[[[Hps Hcs] Hasc] Hmc] Hhs] Hay].
  destruct (houseSystem d) as [hs|] eqn:Ehs; [|discriminate].
  cbv zeta.
  apply returns_with_bind.
  { apply astrological_system_keeps; trivial; [now rewrite Ehs|].
    now apply personal_information_keeps. }
  intros s1 H1. apply returns_with_bind.
  { unfold planetary_positions. apply returns_with_bind.
    - apply for_of_keeps; [|built].
      intros e xml Hin Hx. rewrite Ehs. apply chart_planet_keeps; trivial.
      + rewrite forallb_forall in Hps. now apply Hps.
      + now apply (Hp ps).
    - intros s Hs. apply returns_with_Return. built. }
  intros s2 H2. apply returns_with_bind.
  { now apply house_cusps_keeps. }
  intros s3 H3. apply returns_with_Return. built.
Qed.

Lemma transit_keeps d :
  transit_complete d = true ->
  good_field (date d) ->
  (forall ps entry, transit_planets d = Some ps -> In entry ps ->
                    good (fst entry)) ->
  P ("<transit_details>" ++ nl) ->
  returns_with P (formatTransitDataAsXML (Some d)).
Proof.
  intros Hc Hd Hp H0. unfold transit_complete in Hc.
  unfold formatTransitDataAsXML.
  destruct (date d) as [dt|]; [|discriminate].
  destruct (transit_planets d) as [ps|]; [|discriminate].
  rewrite andb_true_iff in Hc. destruct Hc as [Hdt Hps].
  rewrite Hdt. cbn [negb]. cbv zeta. specialize (Hd dt eq_refl).
  apply returns_with_bind.
  { apply for_of_keeps; [|built].
    intros e xml Hin Hx. apply transit_planet_keeps; trivial.
    - rewrite forallb_forall in Hps. now apply Hps.
    - now apply (Hp ps). }
  intros s Hs. apply returns_with_Return. built.
Qed.

End Invariant.

Lemma plain_field (field : option string) :
  plain field = true -> forall v, field = Some v -> tag_safe v = true.
Proof. intros H v ->. now apply lt_free_tag_safe. Qed.

Lemma plain_names (ps : list (string * PlanetData)) (entry : string * PlanetData) :
  forallb (fun e => lt_free (fst e)) ps = true -> In entry ps ->
  tag_safe (fst entry) = true.
Proof.
  intros H Hin. rewrite forallb_forall in H. apply lt_free_tag_safe.
  now apply H.
Qed.

Lemma chart_returns_text (d : ChartData) :
  chart_complete d = true ->
  returns_with (starts_with ("<birth_chart_details>" ++ nl))
               (formatBirthChartDataAsXML (Some d)).
Proof.
  intros Hc.
  apply (chart_keeps (starts_with ("<birth_chart_details>" ++ nl))
                     (fun _ => True)); try exact Hc;
    auto using starts_with_app, starts_with_refl.
Qed.

Lemma chart_returns_safe (d : ChartData) :
  chart_complete d = true -> chart_text_plain d = true ->
  returns_with (fun s => tag_safe s = true)
               (formatBirthChartDataAsXML (Some d)).
Proof.
  intros Hc Hp. unfold chart_text_plain in Hp.
  rewrite !andb_true_iff in Hp.
  destruct Hp as [[[[[[[Hn Hd] Ht] Hl] Hg] Hh] Ha] Hps].
  apply (chart_keeps (fun s => tag_safe s = true)
                     (fun s => tag_safe s = true));
    try exact Hc; auto using tag_safe_app;
    try (now apply plain_field).
  - intros loc E. rewrite E in Hl. now apply plain_field.
  - intros a E. rewrite E in Ha. now apply plain_field.
  - intros ps entry E. rewrite E in Hps. now apply plain_names.
Qed.

Lemma transit_returns_text (d : TransitData) :
  transit_complete d = true ->
  returns_with (starts_with ("<transit_details>" ++ nl))
               (formatTransitDataAsXML (Some d)).
Proof.
  intros Hc.
  apply (transit_keeps (starts_with ("<transit_details>" ++ nl))
                       (fun _ => True)); try exact Hc;
    auto using starts_with_app, starts_with_refl.
Qed.

Lemma transit_returns_safe (d : TransitData) :
  transit_complete d = true -> transit_text_plain d = true ->
  returns_with (fun s => tag_safe s = true)
               (formatTransitDataAsXML (Some d)).
Proof.
  intros Hc Hp. unfold transit_text_plain in Hp.
  rewrite andb_true_iff in Hp. destruct Hp as [Hd Hps].
  apply (transit_keeps (fun s => tag_safe s = true)
                       (fun s => tag_safe s = true));
    try exact Hc; auto using tag_safe_app;
    try (now apply plain_field).
  intros ps entry E. rewrite E in Hps. now apply plain_names.
Qed.

(** C9, as amended.  Without a chart, planets or houses the chart
    serialiser returns the error element, and so does the transit
    serialiser without transit data, date or planets; on an input that has
    every field the serialiser dereferences, each returns the tagged text,
    which opens with the root element and, when the text fields of the
    input hold no [<], holds no error element.  Neither case throws. *)
Theorem serialisers_on_missing_and_complete_input
        (chartData : option ChartData) (transitData : option TransitData) :
  (chart_insufficient chartData = true ->
   formatBirthChartDataAsXML chartData
   = Return "<error>Insufficient chart data provided</error>")
  /\ (forall d, chartData = Some d -> chart_complete d = true ->
      exists text,
        formatBirthChartDataAsXML chartData = Return text
        /\ starts_with ("<birth_chart_details>" ++ nl) text
        /\ (chart_text_plain d = true -> ~ contains "<error>" text))
  /\ (transit_insufficient transitData = true ->
      formatTransitDataAsXML transitData
      = Return "<error>Insufficient transit data provided</error>")
  /\ (forall d, transitData = Some d -> transit_complete d = true ->
      exists text,
        formatTransitDataAsXML transitData = Return text
        /\ starts_with ("<transit_details>" ++ nl) text
        /\ (transit_text_plain d = true -> ~ contains "<error>" text)).
Proof.
  split; [|split; [|split]].
  - unfold chart_insufficient, formatBirthChartDataAsXML.
    destruct chartData as [d|]; [|reflexivity].
    destruct (planets d), (houses d); try reflexivity. discriminate.
  - intros d -> Hc.
    destruct (chart_returns_text d Hc) as (text & E & Hs).
    exists text. split; [exact E|]. split; [exact Hs|].
    intros Hp. destruct (chart_returns_safe d Hc Hp) as (text' & E' & Hsafe).
    apply tag_safe_no_error. congruence.
  - unfold transit_insufficient, formatTransitDataAsXML.
    destruct transitData as [d|]; [|reflexivity].
    destruct (date d) as [dt|]; [|reflexivity].
    destruct (transit_planets d); [|reflexivity].
    cbn [present]. rewrite andb_true_r. intros ->. reflexivity.
  - intros d -> Hc.
    destruct (transit_returns_text d Hc) as (text & E & Hs).
    exists text. split; [exact E|]. split; [exact Hs|].
    intros Hp. destruct (transit_returns_safe d Hc Hp) as (text' & E' & Hsafe).
    apply tag_safe_no_error. congruence.
Qed.

(** C9 fails as stated: with the ascendant missing inside [houses], or the
    longitude missing inside a planet, the serialisers throw. *)
Lemma serialisers_throw_on_missing_field :
  formatBirthChartDataAsXML (Some chart_without_ascendant)
  = Throw (TypeError "chartData.houses.ascendant.toFixed")
  /\ formatTransitDataAsXML (Some transit_without_longitude)
     = Throw (TypeError "data.longitude.toFixed").
Proof. vm_compute. split; reflexivity. Qed.

Lemma serialisers_on_missing_and_complete_input_witness :
  formatBirthChartDataAsXML None
  = Return "<error>Insufficient chart data provided</error>"
  /\ (exists text,
         formatBirthChartDataAsXML (Some example_chart) = Return text
         /\ starts_with ("<birth_chart_details>" ++ nl) text
         /\ ~ contains "<error>" text)
  /\ formatTransitDataAsXML None
     = Return "<error>Insufficient transit data provided</error>"
  /\ (exists text,
         formatTransitDataAsXML (Some example_transit) = Return text
         /\ starts_with ("<transit_details>" ++ nl) text
         /\ ~ contains "<error>" text).
Proof.
  destruct (serialisers_on_missing_and_complete_input None None)
    as (H1 & _ & H3 & _).
  destruct (serialisers_on_missing_and_complete_input
              (Some example_chart) (Some example_transit))
    as (_ & H2 & _ & H4).
  split; [apply H1; reflexivity|].
  split.
  { destruct (H2 example_chart eq_refl eq_refl) as (text & E & Hs & Hn).
    exists text. split; [exact E|]. split; [exact Hs|]. apply Hn. reflexivity. }
  split; [apply H3; reflexivity|].
  destruct (H4 example_transit eq_refl eq_refl) as (text & E & Hs & Hn).
  exists text. split; [exact E|]. split; [exact Hs|]. apply Hn. reflexivity.
Defined.

(* ================================================================== *)
(** * Facts about the prompt selection *)
(* ================================================================== *)

Import Actions.

Lemma own_prompt_absent (analysisType : string) :
  ~ In analysisType (map fst SYSTEM_PROMPTS) ->
  JsObject.own SYSTEM_PROMPTS analysisType = None.
Proof.
  intros H. unfold SYSTEM_PROMPTS in *. cbn [map fst In] in H.
  cbn [JsObject.own].
  repeat match goal with
         | |- context [String.eqb ?k analysisType] =>
             let E := fresh in
             destruct (String.eqb k analysisType) eqn:E;
             [apply String.eqb_eq in E; exfalso; apply H; rewrite E; tauto|]
         end.
  reflexivity.
Qed.

(** An analysis kind that names neither a prompt nor a member of
    [Object.prototype] gets the birth chart prompt. *)
Lemma unknown_kind_gets_birth_chart_prompt (analysisType : string) :
  ~ In analysisType (map fst SYSTEM_PROMPTS) ->
  ~ In analysisType JsObject.Object_prototype_keys ->
  select_system_prompt analysisType = PromptText BIRTH_CHART_ANALYSIS.
Proof.
  intros Hown Hproto. unfold select_system_prompt, JsObject.get.
  rewrite (own_prompt_absent _ Hown).
  destruct (existsb _ _) eqn:E; [|reflexivity].
  apply existsb_exists in E. destruct E as (k & Hin & Hk).
  apply String.eqb_eq in Hk. subst k. contradiction.
Qed.

(** C10 at a failing input.  [constructor] is not a key of the prompt
    table, yet the lookup finds the member that every object inherits, which
    is truthy, so the birth chart prompt is not used. *)
Lemma inherited_member_is_selected_as_prompt :
  ~ In "constructor" (map fst SYSTEM_PROMPTS)
  /\ select_system_prompt "constructor" = PrototypeMember "constructor"
  /\ select_system_prompt "constructor" <> PromptText BIRTH_CHART_ANALYSIS
  /\ select_system_prompt "NATAL_REPORT" = PromptText BIRTH_CHART_ANALYSIS.
Proof.
  split; [|split; [|split]].
  - cbn [map fst SYSTEM_PROMPTS In]. intros [H|[H|[H|[H|[]]]]]; discriminate.
  - reflexivity.
  - discriminate.
  - reflexivity.
Qed.

(* ================================================================== *)
(** * Further facts about house placement *)
(* ================================================================== *)

Lemma norm360_period (x : Q) (k : Z) :
  grid (-43) x -> norm360 (x + 360 * inject_Z k) == norm360 x.
Proof.
  intros G. rewrite (norm360_exact x G), norm360_exact.
  - apply Qmod_360_period.
  - apply grid_plus; [exact G|].
    apply (grid_comp _ (inject_Z (360 * k)));
      [rewrite inject_Z_mult; reflexivity|apply grid_Z; lia].
Qed.

Lemma Qltb_comp (a b c d : Q) : a == b -> c == d -> Qltb a c = Qltb b d.
Proof. intros E F. unfold Qltb. now rewrite E, F. Qed.

Lemma arc_test_comp (c1 c2 p q : Q) :
  p == q -> arc_test c1 c2 p = arc_test c1 c2 q.
Proof.
  intros E. unfold arc_test.
  rewrite (Qltb_comp p q c2 c2 E (Qeq_refl _)).
  rewrite (Qltb_comp p q 360 360 E (Qeq_refl _)).
  assert (H1 : Qle_bool c1 p = Qle_bool c1 q) by (now rewrite E).
  assert (H2 : Qle_bool 0 p = Qle_bool 0 q) by (now rewrite E).
  now rewrite H1, H2.
Qed.

Lemma cusp_loop_comp (houseCusps : list Q) (p q : Q) (r i : nat) :
  p == q -> cusp_loop houseCusps p r i = cusp_loop houseCusps q r i.
Proof.
  intros E. revert i. induction r as [|r IH]; intros i; [reflexivity|].
  cbn [cusp_loop]. rewrite !between_cusps_unfold.
  rewrite (arc_test_comp _ _ p q E). now rewrite IH.
Qed.

Lemma rounded_sign_comp (a b : Q) :
  a == b -> Qfloor (fdiv a 30) = Qfloor (fdiv b 30).
Proof. intros E. apply Qfloor_comp. unfold fdiv. now rewrite E. Qed.

(** Where the normalisation rounds nothing, that is, on a longitude that
    is a whole multiple of [2^-43], the house placement has period 360 in
    the longitude of the planet, and on such an ascendant in the longitude
    of the ascendant, for every frame and every house system, whatever
    else is missing. *)
Theorem house_placement_has_period_360_without_rounding
        (lon : Q) (k : Z) (houseCusps : option (list Q)) (asc : option Q)
        (hs : option string) :
  (grid (-43) lon ->
   getHousePlacement (lon + 360 * inject_Z k) houseCusps asc hs
   = getHousePlacement lon houseCusps asc hs)
  /\ (forall a : Q,
         asc = Some a -> grid (-43) a ->
         getHousePlacement lon houseCusps (Some (a + 360 * inject_Z k)) hs
         = getHousePlacement lon houseCusps asc hs).
Proof.
  unfold getHousePlacement.
  destruct houseCusps as [cs|]; [|split; reflexivity].
  destruct (negb _); [split; reflexivity|].
  cbv zeta.
  destruct hs as [hs|]; cbn [bind require]; [|split; reflexivity].
  destruct (String.eqb _ _).
  - split.
    + intros G. destruct asc as [asc|]; [|reflexivity].
      now rewrite (rounded_sign_comp _ _ (norm360_period lon k G)).
    + intros a -> G.
      now rewrite (rounded_sign_comp _ _ (norm360_period a k G)).
  - split; [|reflexivity]. intros G.
    now rewrite (cusp_loop_comp cs _ _ 12 0 (norm360_period lon k G)).
Qed.

Lemma house_placement_has_period_360_without_rounding_witness :
  getHousePlacement ((1721 # 8) + 360 * inject_Z 2)
    (Some [350; 20; 60; 90; 120; 150; 170; 200; 240; 270; 300; 330])
    (Some 350) (Some "P")
  = getHousePlacement (1721 # 8)
      (Some [350; 20; 60; 90; 120; 150; 170; 200; 240; 270; 300; 330])
      (Some 350) (Some "P").
Proof.
  apply (proj1 (house_placement_has_period_360_without_rounding
                  (1721 # 8) 2
                  (Some [350; 20; 60; 90; 120; 150; 170; 200; 240; 270; 300;
                         330])
                  (Some 350) (Some "P"))).
  exists 1892259511402496%Z. vm_compute. reflexivity.
Defined.

Lemma sign_index_next (x : Q) :
  sign_index (x + 30) = ((sign_index x + 1) mod 12)%Z.
Proof.
  unfold sign_index.
  destruct (Qmod_360_range x) as [A B].
  set (s := Qfloor (Qmod x 360 / 30)).
  assert (Hs : inject_Z s <= Qmod x 360 / 30 /\ Qmod x 360 / 30 < inject_Z s + 1).
  { split; [apply Qfloor_le|].
    pose proof (Qlt_floor (Qmod x 360 / 30)) as H.
    rewrite inject_Z_plus in H. exact H. }
  assert (Hr : (0 <= s < 12)%Z).
  { unfold s. apply Qfloor_range; qdiv;
      [change (inject_Z 0) with 0|change (inject_Z 12) with 12]; lra. }
  destruct Hs as [S1 S2]. revert S1 S2. qdiv. intros S1 S2.
  destruct (Z.eq_dec s 11) as [E11|N11].
  - rewrite E11 in *. change ((11 + 1) mod 12)%Z with 0%Z.
    change (inject_Z 11) with 11 in *.
    assert (M : Qmod (x + 30) 360 == Qmod x 360 - 330).
    { apply (Qmod_360_unique _ _ (Qfloor (x / 360) + 1)); [|lra|lra].
      unfold Qmod. rewrite inject_Z_plus. change (inject_Z 1) with 1.
      generalize (inject_Z (Qfloor (x / 360))). intros f. lra. }
    apply Qfloor_unique; rewrite M; change (inject_Z 0) with 0;
      change (inject_Z (0 + 1)) with 1; qdiv; lra.
  - rewrite Z.mod_small by lia.
    assert (Hlt : inject_Z (s + 1) <= inject_Z 11)
      by (rewrite <- Zle_Qle; lia).
    rewrite inject_Z_plus in Hlt.
    change (inject_Z 1) with 1 in Hlt. change (inject_Z 11) with 11 in Hlt.
    assert (M : Qmod (x + 30) 360 == Qmod x 360 + 30).
    { apply (Qmod_360_unique _ _ (Qfloor (x / 360))); [|lra|lra].
      unfold Qmod. generalize (inject_Z (Qfloor (x / 360))). intros f. lra. }
    apply Qfloor_unique; rewrite M, ?inject_Z_plus;
      change (inject_Z 1) with 1; qdiv; lra.
Qed.

(** With twelve cusps, the whole-sign system and an ascendant given, the
    placement is a house from 1 to 12; it is house 1 exactly when the
    normalised longitude and the normalised ascendant, as the code computes
    them, have the same sign index; and for a longitude and an ascendant
    that are whole multiples of [2^-43], where nothing is rounded, the
    planet 30 degrees further on is in the next house, house 1 following
    house 12. *)
Theorem whole_sign_houses_follow_the_signs
        (lon asc : Q) (houseCusps : list Q) (hs : string) :
  List.length houseCusps = 12%nat ->
  toUpperCase hs = "W" ->
  exists h : Z,
    getHousePlacement lon (Some houseCusps) (Some asc) (Some hs)
    = Return (House h)
    /\ (1 <= h <= 12)%Z
    /\ (h = 1%Z <->
        Qfloor (norm360 lon / 30) = Qfloor (norm360 asc / 30))
    /\ (grid (-43) lon ->
        getHousePlacement (lon + 30) (Some houseCusps) (Some asc) (Some hs)
        = Return (House (h mod 12 + 1))).
Proof.
  intros Hlen Hw.
  exists ((Qfloor (norm360 lon / 30) - Qfloor (norm360 asc / 30)) mod 12
          + 1)%Z.
  pose proof (normalised_sign_range lon) as Hl.
  pose proof (normalised_sign_range asc) as Ha.
  split; [now apply whole_sign_placement|].
  split; [Z.to_euclidean_division_equations; lia|].
  split; [Z.to_euclidean_division_equations; lia|].
  intros G.
  rewrite whole_sign_placement by assumption.
  assert (G30 : grid (-43) (lon + 30))
    by (apply grid_plus; [exact G|apply (grid_Z _ 30); lia]).
  rewrite (normalised_sign_exact _ G30), sign_index_next.
  rewrite <- (normalised_sign_exact _ G).
  do 2 f_equal.
  Z.to_euclidean_division_equations; lia.
Qed.

Lemma whole_sign_houses_follow_the_signs_witness :
  exists h : Z,
    getHousePlacement 220 (Some [12; 41; 70; 100; 131; 162; 192; 221; 250;
                                 280; 311; 342]) (Some 125) (Some "W")
    = Return (House h)
    /\ (1 <= h <= 12)%Z
    /\ (h = 1%Z <->
        Qfloor (norm360 220 / 30) = Qfloor (norm360 125 / 30))
    /\ (grid (-43) 220 ->
        getHousePlacement (220 + 30)
          (Some [12; 41; 70; 100; 131; 162; 192; 221; 250; 280; 311; 342])
          (Some 125) (Some "W")
        = Return (House (h mod 12 + 1))).
Proof.
  apply whole_sign_houses_follow_the_signs; reflexivity.
Defined.

(** The cusp loop returns the first index whose test holds, or null when
    none does. *)
Lemma cusp_loop_spec (houseCusps : list Q) (p : Q) (r i : nat) :
  (exists i0, (i <= i0 < i + r)%nat
              /\ cusp_loop houseCusps p r i = House (Z.of_nat i0 + 1)
              /\ between_cusps houseCusps p i0 = true
              /\ forall j, (i <= j < i0)%nat ->
                           between_cusps houseCusps p j = false)
  \/ (cusp_loop houseCusps p r i = NullHouse
      /\ forall j, (i <= j < i + r)%nat ->
                   between_cusps houseCusps p j = false).
Proof.
  revert i. induction r as [|r IH]; intros i.
  - right. split; [reflexivity|]. intros j Hj. lia.
  - cbn [cusp_loop]. destruct (between_cusps houseCusps p i) eqn:B.
    + left. exists i. split; [lia|]. split; [reflexivity|].
      split; [exact B|]. intros j Hj. lia.
    + destruct (IH (S i)) as [(i0 & Hi & E & B0 & Hf)|[E Hf]].
      * left. exists i0. split; [lia|]. split; [exact E|].
        split; [exact B0|].
        intros j Hj. destruct (Nat.eq_dec j i) as [->|Hne]; [exact B|].
        apply Hf. lia.
      * right. split; [exact E|]. intros j Hj.
        destruct (Nat.eq_dec j i) as [->|Hne]; [exact B|]. apply Hf. lia.
Qed.

(** For any twelve cusps, valid frame or not, a quadrant placement is
    the first house, counting from house 1, whose arc from its normalised
    cusp (included) to the next normalised cusp (excluded) holds the
    normalised longitude, and it is null exactly when no such arc holds
    it; the normalised values are the doubles that the code computes with
    [(x % 360 + 360) % 360].  The result is never a number outside 1 to
    12. *)
Theorem quadrant_placement_is_first_arc
        (lon : Q) (houseCusps : list Q) (asc : option Q) (hs : string) :
  List.length houseCusps = 12%nat ->
  toUpperCase hs <> "W" ->
  (exists i : nat,
      (i < 12)%nat
      /\ getHousePlacement lon (Some houseCusps) asc (Some hs)
         = Return (House (Z.of_nat i + 1))
      /\ on_arc (norm360 (cusp_at houseCusps i))
                (norm360 (cusp_at houseCusps (i + 1))) (norm360 lon)
      /\ forall j, (j < i)%nat ->
           ~ on_arc (norm360 (cusp_at houseCusps j))
                    (norm360 (cusp_at houseCusps (j + 1))) (norm360 lon))
  \/ (getHousePlacement lon (Some houseCusps) asc (Some hs) = Return NullHouse
      /\ forall j, (j < 12)%nat ->
           ~ on_arc (norm360 (cusp_at houseCusps j))
                    (norm360 (cusp_at houseCusps (j + 1))) (norm360 lon)).
Proof.
  intros Hlen Hq.
  assert (Harc : forall i, (i < 12)%nat ->
            between_cusps houseCusps (norm360 lon) i = true <->
            on_arc (norm360 (cusp_at houseCusps i))
                   (norm360 (cusp_at houseCusps (i + 1))) (norm360 lon)).
  { intros i Hi. rewrite between_cusps_at by assumption.
    replace (i + 1)%nat with (S i) by lia.
    apply arc_test_on_arc; apply norm360_range. }
  assert (E : getHousePlacement lon (Some houseCusps) asc (Some hs)
              = Return (cusp_loop houseCusps (norm360 lon) 12 0)).
  { unfold getHousePlacement, bind, require. rewrite Hlen.
    change (negb (12 =? 12)%nat) with false. cbv iota.
    apply String.eqb_neq in Hq. now rewrite Hq. }
  rewrite E.
  destruct (cusp_loop_spec houseCusps (norm360 lon) 12 0)
    as [(i0 & Hi & El & B0 & Hf)|[El Hf]].
  - left. exists i0. split; [lia|]. split; [now rewrite El|].
    split; [apply Harc; [lia|exact B0]|].
    intros j Hj Hon. apply Harc in Hon; [|lia].
    rewrite (Hf j) in Hon by lia. discriminate.
  - right. split; [now rewrite El|].
    intros j Hj Hon. apply Harc in Hon; [|lia].
    rewrite (Hf j) in Hon by lia. discriminate.
Qed.

Lemma quadrant_placement_is_first_arc_witness :
  let frame := [10; 40; 40; 95; 20; 150; 170; 200; 240; 270; 300; 330] in
  (exists i : nat,
      (i < 12)%nat
      /\ getHousePlacement 100 (Some frame) None (Some "P")
         = Return (House (Z.of_nat i + 1))
      /\ on_arc (norm360 (cusp_at frame i))
                (norm360 (cusp_at frame (i + 1))) (norm360 100)
      /\ forall j, (j < i)%nat ->
           ~ on_arc (norm360 (cusp_at frame j))
                    (norm360 (cusp_at frame (j + 1))) (norm360 100))
  \/ (getHousePlacement 100 (Some frame) None (Some "P") = Return NullHouse
      /\ forall j, (j < 12)%nat ->
           ~ on_arc (norm360 (cusp_at frame j))
                    (norm360 (cusp_at frame (j + 1))) (norm360 100)).
Proof.
  cbv zeta.
  apply quadrant_placement_is_first_arc; [reflexivity|discriminate].
Defined.

(* ================================================================== *)
(** * Further facts about the serialisers *)
(* ================================================================== *)

Import SerialiserOutcomes.

Lemma starts_with_trans (a b c : string) :
  starts_with a b -> starts_with b c -> starts_with a c.
Proof.
  intros [r ->] [r' ->]. exists (r ++ r'). apply append_assoc.
Qed.

Lemma starts_with_append (xml piece : string) : starts_with xml (xml ++ piece).
Proof. now exists piece. Qed.

Lemma grows_Return (xml s : string) : starts_with xml s -> grows xml (Return s).
Proof. intros H. exact H. Qed.

Lemma grows_bind (xml : string) (c : completion string)
      (k : string -> completion string) :
  grows xml c -> (forall s, grows s (k s)) -> grows xml (bind c k).
Proof.
  destruct c as [s|e]; cbn [grows bind]; [|auto].
  intros Hs Hk. specialize (Hk s). destruct (k s) as [t|e]; cbn [grows] in *;
    [|exact Hk].
  exact (starts_with_trans _ _ _ Hs Hk).
Qed.

Lemma grows_from (xml xml' : string) (c : completion string) :
  starts_with xml xml' -> grows xml' c -> grows xml c.
Proof.
  destruct c as [s|e]; cbn [grows]; [|auto].
  intros. now apply (starts_with_trans _ xml').
Qed.

Lemma grows_require {A : Type} (xml what : string) (o : option A)
      (k : A -> completion string) :
  (forall a, grows xml (k a)) -> grows xml (bind (require what o) k).
Proof.
  intros Hk. destruct o as [a|]; cbn [require bind grows]; [apply Hk|].
  now exists what.
Qed.

Lemma for_of_grows {A : Type} (body : string -> A -> completion string)
      (entries : list A) :
  (forall xml e, grows xml (body xml e)) ->
  forall xml, grows xml (for_of body entries xml).
Proof.
  intros Hb. induction entries as [|e entries IH]; intros xml; cbn [for_of].
  - apply starts_with_refl.
  - apply grows_bind; [apply Hb|exact IH].
Qed.

Lemma add_if_string_grows xml field open close :
  starts_with xml (add_if_string xml field open close).
Proof.
  unfold add_if_string. destruct field as [v|]; [|apply starts_with_refl].
  destruct (truthy_string v); [apply starts_with_append|apply starts_with_refl].
Qed.

Lemma add_if_number_grows xml field digits open close :
  starts_with xml (add_if_number xml field digits open close).
Proof.
  unfold add_if_number. destruct field as [v|]; [|apply starts_with_refl].
  destruct (truthy_number v); [apply starts_with_append|apply starts_with_refl].
Qed.

Lemma add_typeof_number_grows xml field open close :
  starts_with xml (add_typeof_number xml field open close).
Proof.
  unfold add_typeof_number.
  destruct field as [v|]; [apply starts_with_append|apply starts_with_refl].
Qed.

Lemma add_typeof_boolean_grows xml field open close :
  starts_with xml (add_typeof_boolean xml field open close).
Proof.
  unfold add_typeof_boolean.
  destruct field as [v|]; [apply starts_with_append|apply starts_with_refl].
Qed.

Ltac extends :=
  repeat first
    [ apply starts_with_refl
    | apply starts_with_append
    | eapply starts_with_trans; [|apply starts_with_append]
    | eapply starts_with_trans; [|apply add_if_string_grows]
    | eapply starts_with_trans; [|apply add_if_number_grows]
    | eapply starts_with_trans; [|apply add_typeof_number_grows]
    | eapply starts_with_trans; [|apply add_typeof_boolean_grows] ].

Lemma personal_information_grows d xml :
  starts_with xml (personal_information d xml).
Proof.
  unfold personal_information.
  destruct (location d) as [loc|]; [|extends].
  destruct (timezone loc) as [tz|]; [|extends].
  destruct (truthy_string tz); extends.
Qed.

Lemma getHousePlacement_throws lon cs asc hs e :
  getHousePlacement lon cs asc hs = Throw e -> exists what, e = TypeError what.
Proof.
  unfold getHousePlacement. destruct cs as [cs|]; [|discriminate].
  destruct (negb _); [discriminate|]. cbv zeta.
  destruct hs as [hs|]; cbn [bind require].
  - destruct (String.eqb _ _); [destruct asc|]; discriminate.
  - intros [= <-]. eauto.
Qed.

Lemma chart_planet_grows h hs xml entry :
  grows xml (chart_planet h hs xml entry).
Proof.
  destruct entry as [n data]. unfold chart_planet.
  apply grows_require. intros lon.
  destruct (getHousePlacement lon (cusps h) (ascendant h) hs) as [pl|e] eqn:E;
    cbn [bind grows].
  - destruct (truthy_placement pl); extends.
  - exact (getHousePlacement_throws _ _ _ _ _ E).
Qed.

Lemma transit_planet_grows xml entry : grows xml (transit_planet xml entry).
Proof.
  destruct entry as [n data]. unfold transit_planet.
  apply grows_require. intros lon. cbn [grows]. extends.
Qed.

Lemma chart_cusp_grows xml item : grows xml (chart_cusp xml item).
Proof. destruct item as [index cusp]. unfold chart_cusp. cbn [grows]. extends. Qed.

Lemma astrological_system_grows d xml : grows xml (astrological_system d xml).
Proof.
  unfold astrological_system.
  destruct (named_ayanamsa d) as [[n v]|].
  - destruct v as [v|]; cbn [bind require grows]; [extends|eauto].
  - cbn [bind grows]. extends.
Qed.

Lemma planetary_positions_grows d ps h xml :
  grows xml (planetary_positions d ps h xml).
Proof.
  unfold planetary_positions.
  apply grows_bind.
  - eapply grows_from; [apply starts_with_append|].
    apply for_of_grows. intros. apply chart_planet_grows.
  - intros s. cbn [grows]. extends.
Qed.

Lemma house_cusps_grows h xml : grows xml (house_cusps h xml).
Proof.
  unfold house_cusps.
  apply grows_require. intros asc.
  apply grows_require. intros themc.
  apply grows_require. intros theCusps.
  apply grows_bind.
  - eapply grows_from; [|apply for_of_grows; intros; apply chart_cusp_grows].
    extends.
  - intros s. cbn [grows]. extends.
Qed.

(** The two serialisers have three outcomes only, for every input: the
    error element, when the guard finds the top level incomplete; a
    [TypeError], raised by reading a missing inner field; or a text that
    opens with the root element and ends with its closing tag.  No other
    kind of error is raised, and no partial text is returned. *)
Theorem serialisers_refuse_raise_or_close
        (chartData : option ChartData) (transitData : option TransitData) :
  match formatBirthChartDataAsXML chartData with
  | Return text =>
      (chart_insufficient chartData = true
       /\ text = "<error>Insufficient chart data provided</error>")
      \/ (chart_insufficient chartData = false
          /\ starts_with ("<birth_chart_details>" ++ nl) text
          /\ ends_with "</birth_chart_details>" text)
  | Throw e =>
      chart_insufficient chartData = false /\ exists what, e = TypeError what
  end
  /\ match formatTransitDataAsXML transitData with
     | Return text =>
         (transit_insufficient transitData = true
          /\ text = "<error>Insufficient transit data provided</error>")
         \/ (transit_insufficient transitData = false
             /\ starts_with ("<transit_details>" ++ nl) text
             /\ ends_with "</transit_details>" text)
     | Throw e =>
         transit_insufficient transitData = false
         /\ exists what, e = TypeError what
     end.
Proof.
  split.
  - unfold formatBirthChartDataAsXML, chart_insufficient.
    destruct chartData as [d|]; [|left; now split].
    destruct (planets d) as [ps|]; [|left; now split].
    destruct (houses d) as [h|]; [|left; now split].
    cbn [present andb negb]. cbv zeta.
    set (xml0 := "<birth_chart_details>" ++ nl).
    pose proof (personal_information_grows d xml0) as H0.
    pose proof (astrological_system_grows d (personal_information d xml0)) as H1.
    destruct (astrological_system d (personal_information d xml0)) as [s1|e];
      cbn [bind grows] in *; [|now split].
    pose proof (planetary_positions_grows d ps h s1) as H2.
    destruct (planetary_positions d ps h s1) as [s2|e];
      cbn [bind grows] in *; [|now split].
    pose proof (house_cusps_grows h s2) as H3.
    destruct (house_cusps h s2) as [s3|e]; cbn [bind grows] in *; [|now split].
    right. split; [reflexivity|]. split; [|now exists s3].
    apply starts_with_app.
    eapply starts_with_trans; [exact H0|].
    eapply starts_with_trans; [exact H1|].
    eapply starts_with_trans; [exact H2|exact H3].
  - unfold formatTransitDataAsXML, transit_insufficient.
    destruct transitData as [d|]; [|left; now split].
    destruct (date d) as [dt|]; [|left; now split].
    destruct (transit_planets d) as [ps|];
      [|left; split; [now rewrite andb_false_r|reflexivity]].
    cbn [present]. rewrite andb_true_r.
    destruct (truthy_string dt); cbn [negb]; [|left; now split]. cbv zeta.
    set (xml0 := "<transit_details>" ++ nl).
    match goal with
    | |- context [for_of transit_planet ps ?x] =>
        pose proof (for_of_grows transit_planet ps
                      (fun xml e => transit_planet_grows xml e) x) as H1;
        destruct (for_of transit_planet ps x) as [s1|e];
        cbn [bind grows] in *; [|now split]
    end.
    right. split; [reflexivity|]. split.
    + eapply starts_with_trans; [|apply starts_with_append].
      eapply starts_with_trans; [|apply starts_with_append].
      eapply starts_with_trans; [|exact H1]. unfold xml0. extends.
    + exists (s1 ++ "  </transiting_planets>" ++ nl). reflexivity.
Qed.

(** ** Which inputs are serialised *)

Lemma returns_bind {A B : Type} (c : completion A) (k : A -> completion B) :
  returns (bind c k) <-> exists a, c = Return a /\ returns (k a).
Proof.
  destruct c as [a|e]; cbn [bind].
  - split; [intros H; now exists a|intros (a' & [= <-] & H); exact H].
  - split; [intros [b [=]]|intros (a & [=] & _)].
Qed.

Lemma returns_Return {A : Type} (a : A) : returns (Return a).
Proof. now exists a. Qed.

Lemma returns_require {A B : Type} (what : string) (o : option A)
      (k : A -> completion B) :
  returns (bind (require what o) k) <-> exists a, o = Some a /\ returns (k a).
Proof.
  destruct o as [a|]; cbn [require bind].
  - split; [intros H; now exists a|intros (a' & [= <-] & H); exact H].
  - split; [intros [b [=]]|intros (a & [=] & _)].
Qed.

Lemma for_of_returns {A : Type} (body : string -> A -> completion string)
      (ok : A -> bool) (entries : list A) :
  (forall xml e, returns (body xml e) <-> ok e = true) ->
  forall xml, returns (for_of body entries xml) <-> forallb ok entries = true.
Proof.
  intros Hb. induction entries as [|e entries IH]; intros xml;
    cbn [for_of forallb].
  - split; [reflexivity|intros _; apply returns_Return].
  - rewrite returns_bind, andb_true_iff. split.
    + intros (s & E & H). split.
      * apply (Hb xml e). now exists s.
      * now apply (IH s).
    + intros [He Hes]. apply (Hb xml e) in He. destruct He as [s E].
      exists s. split; [exact E|]. now apply IH.
Qed.

Lemma getHousePlacement_returns_iff lon h hs :
  returns (getHousePlacement lon (cusps h) (ascendant h) hs)
  <-> placement_defined h hs = true.
Proof.
  unfold getHousePlacement, placement_defined.
  destruct (cusps h) as [cs|]; [|split; [reflexivity|intros _; apply returns_Return]].
  destruct (negb _); cbn [orb];
    [split; [reflexivity|intros _; apply returns_Return]|].
  cbv zeta. destruct hs as [hs|]; cbn [bind require present].
  - split; [reflexivity|intros _].
    destruct (String.eqb _ _); [destruct (ascendant h)|]; apply returns_Return.
  - split; [intros [pl [=]]|discriminate].
Qed.

Lemma chart_planet_returns_iff h hs xml entry :
  returns (chart_planet h hs xml entry)
  <-> planet_complete entry && placement_defined h hs = true.
Proof.
  destruct entry as [n data]. unfold chart_planet, planet_complete.
  cbn [fst snd]. rewrite returns_require, andb_true_iff. split.
  - intros (lon & E & H). rewrite E. split; [reflexivity|].
    apply returns_bind in H. destruct H as (pl & Ep & _).
    apply (getHousePlacement_returns_iff lon). now exists pl.
  - intros [Hl Hp]. destruct (longitude data) as [lon|]; [|discriminate].
    exists lon. split; [reflexivity|].
    apply (getHousePlacement_returns_iff lon) in Hp. destruct Hp as [pl Ep].
    apply returns_bind. exists pl. split; [exact Ep|apply returns_Return].
Qed.

Lemma transit_planet_returns_iff xml entry :
  returns (transit_planet xml entry) <-> planet_complete entry = true.
Proof.
  destruct entry as [n data]. unfold transit_planet, planet_complete.
  cbn [fst snd]. rewrite returns_require. split.
  - intros (lon & -> & _). reflexivity.
  - destruct (longitude data) as [lon|]; [|discriminate]. intros _.
    exists lon. split; [reflexivity|apply returns_Return].
Qed.

Lemma forallb_both {A : Type} (f : A -> bool) (b : bool) (l : list A) :
  forallb (fun e => f e && b) l
  = forallb f l && match l with [] => true | _ :: _ => b end.
Proof.
  induction l as [|x l IH]; [reflexivity|].
  cbn [forallb]. rewrite IH. destruct (f x), b, (forallb f l), l; reflexivity.
Qed.

Lemma astrological_system_returns_iff d xml :
  returns (astrological_system d xml) <-> ayanamsa_valued d = true.
Proof.
  unfold astrological_system, ayanamsa_valued.
  destruct (named_ayanamsa d) as [[n [v|]]|]; cbn [bind require].
  - split; [reflexivity|intros _; apply returns_Return].
  - split; [intros [s [=]]|discriminate].
  - split; [reflexivity|intros _; apply returns_Return].
Qed.

Lemma house_cusps_returns_iff h xml :
  returns (house_cusps h xml)
  <-> present (ascendant h) && present (mc h) && present (cusps h) = true.
Proof.
  unfold house_cusps.
  destruct (ascendant h) as [asc|]; cbn [bind require present andb];
    [|split; [intros [s [=]]|discriminate]].
  destruct (mc h) as [m|]; cbn [bind require present andb];
    [|split; [intros [s [=]]|discriminate]].
  destruct (cusps h) as [cs|]; cbn [bind require present andb];
    [|split; [intros [s [=]]|discriminate]].
  split; [reflexivity|intros _]. cbv zeta.
  apply returns_bind.
  assert (Hb : forall x (e : nat * Q),
             returns (chart_cusp x e) <-> (fun _ => true) e = true).
  { intros x [i c]. split; [reflexivity|intros _; apply returns_Return]. }
  match goal with
  | |- exists a, for_of chart_cusp ?l ?x = Return a /\ _ =>
      destruct (proj2 (for_of_returns chart_cusp (fun _ => true) l Hb x))
        as [s E]; [now apply forallb_forall|]
  end.
  exists s. split; [exact E|apply returns_Return].
Qed.

Lemma planetary_positions_returns_iff d ps h xml :
  returns (planetary_positions d ps h xml)
  <-> forallb planet_complete ps
      && match ps with
         | [] => true
         | _ :: _ => placement_defined h (houseSystem d)
         end = true.
Proof.
  unfold planetary_positions. cbv zeta. rewrite returns_bind.
  rewrite <- forallb_both.
  assert (Hb : forall x e,
             returns (chart_planet h (houseSystem d) x e)
             <-> (fun e => planet_complete e
                           && placement_defined h (houseSystem d)) e = true)
    by (intros x e; apply chart_planet_returns_iff).
  split.
  - intros (s & E & _).
    apply (for_of_returns _ _ ps Hb (xml ++ "  <planetary_positions>" ++ nl)).
    now exists s.
  - intros H.
    apply (for_of_returns _ _ ps Hb (xml ++ "  <planetary_positions>" ++ nl))
      in H.
    destruct H as [s E]. exists s. split; [exact E|apply returns_Return].
Qed.

(** The chart serialiser returns a text exactly when its guard refuses
    the input or the input has the fields it reads without a guard: a
    longitude for every planet, the ascendant, the midheaven and the
    cusps, the value of a named ayanamsa, and the house system when there
    is a planet and there are twelve cusps.  On every other input it
    throws. *)
Theorem chart_serialiser_returns_iff_readable (d : ChartData) :
  (exists text, formatBirthChartDataAsXML (Some d) = Return text)
  <-> chart_insufficient (Some d) = true \/ chart_readable d = true.
Proof.
  unfold formatBirthChartDataAsXML, chart_insufficient, chart_readable.
  destruct (planets d) as [ps|];
    [|split; [now left|intros _; eexists; reflexivity]].
  destruct (houses d) as [h|];
    [|split; [now left|intros _; eexists; reflexivity]].
  cbn [present andb negb]. cbv zeta.
  change (exists text, ?c = Return text) with (returns c).
  rewrite returns_bind. split.
  - intros (s1 & E1 & H). right.
    assert (Ha : ayanamsa_valued d = true).
    { apply (astrological_system_returns_iff d
               (personal_information d ("<birth_chart_details>" ++ nl))).
      now exists s1. }
    apply returns_bind in H. destruct H as (s2 & E2 & H).
    assert (Hp : forallb planet_complete ps
                 && match ps with
                    | [] => true
                    | _ :: _ => placement_defined h (houseSystem d)
                    end = true).
    { apply (planetary_positions_returns_iff d ps h s1). now exists s2. }
    apply returns_bind in H. destruct H as (s3 & E3 & _).
    assert (Hh : present (ascendant h) && present (mc h) && present (cusps h)
                 = true).
    { apply (house_cusps_returns_iff h s2). now exists s3. }
    rewrite Ha. cbn [andb]. rewrite <- !andb_assoc in *.
    apply andb_true_iff in Hp. destruct Hp as [-> ->]. exact Hh.
  - intros [[=]|H]. rewrite <- !andb_assoc in H.
    apply andb_true_iff in H. destruct H as [Ha H].
    apply andb_true_iff in H. destruct H as [Hp H].
    apply andb_true_iff in H. destruct H as [Hd Hh].
    apply (astrological_system_returns_iff d
             (personal_information d ("<birth_chart_details>" ++ nl))) in Ha.
    destruct Ha as [s1 E1]. exists s1. split; [exact E1|].
    apply returns_bind.
    assert (Hpp : forallb planet_complete ps
                  && match ps with
                     | [] => true
                     | _ :: _ => placement_defined h (houseSystem d)
                     end = true) by (now rewrite Hp, Hd).
    apply (planetary_positions_returns_iff d ps h s1) in Hpp.
    destruct Hpp as [s2 E2]. exists s2. split; [exact E2|].
    apply returns_bind.
    assert (Hhh : present (ascendant h) && present (mc h) && present (cusps h)
                  = true) by (now rewrite <- !andb_assoc).
    apply (house_cusps_returns_iff h s2) in Hhh.
    destruct Hhh as [s3 E3]. exists s3. split; [exact E3|apply returns_Return].
Qed.

(** The transit serialiser returns a text exactly when its guard refuses
    the input or every planet has a longitude; when the guard passes and
    a planet has no longitude it throws. *)
Theorem transit_serialiser_returns_iff_complete (d : TransitData) :
  (exists text, formatTransitDataAsXML (Some d) = Return text)
  <-> transit_insufficient (Some d) = true \/ transit_complete d = true.
Proof.
  unfold formatTransitDataAsXML, transit_insufficient, transit_complete.
  destruct (date d) as [dt|];
    [|split; [now left|intros _; eexists; reflexivity]].
  destruct (transit_planets d) as [ps|];
    [|split; [left; now rewrite andb_false_r|intros _; eexists; reflexivity]].
  cbn [present]. rewrite andb_true_r.
  destruct (truthy_string dt); cbn [negb andb];
    [|split; [now left|intros _; eexists; reflexivity]].
  cbv zeta.
  change (exists text, ?c = Return text) with (returns c).
  rewrite returns_bind.
  assert (Hb : forall x e,
             returns (transit_planet x e) <-> planet_complete e = true)
    by (intros x e; apply transit_planet_returns_iff).
  split.
  - intros (s & E & _). right.
    match type of E with
    | for_of _ _ ?x = _ => apply (for_of_returns _ _ ps Hb x)
    end.
    now exists s.
  - intros [[=]|H].
    match goal with
    | |- exists a, for_of _ _ ?x = _ /\ _ =>
        apply (for_of_returns _ _ ps Hb x) in H
    end.
    destruct H as [s E]. exists s. split; [exact E|apply returns_Return].
Qed.

(** ** formatLongitude on every argument *)

Lemma length_append (a b : string) :
  String.length (a ++ b) = (String.length a + String.length b)%nat.
Proof. induction a as [|c a IH]; simpl; [reflexivity|now rewrite IH]. Qed.

(** [formatLongitude] answers N/A exactly for an argument that is not a
    number or is NaN.  For an infinity it prints NaN for the degrees, the
    minutes and the seconds and [undefined] for the sign.  For every
    finite number, negative or beyond 360 as well, it prints one of the
    twelve sign names, that of the 30 degree segment holding the
    normalised longitude that the code computes, then the whole degrees
    of the offset of the normalised longitude into that segment, which are
    below 30, and minutes and seconds below 60. *)
Theorem formatLongitude_names_a_sign_for_every_number :
  (forall v : js_arg,
      formatLongitude v = "N/A" <-> v = NotNumber \/ v = NaN)
  /\ (forall negative : bool,
         formatLongitude (Infinite negative)
         = "NaN° undefined NaN' NaN" ++ dq)
  /\ (forall L : Q,
         exists (sign D M S : Z) (name : string),
           In name ZODIAC_SIGNS
           /\ nth_error ZODIAC_SIGNS (Z.to_nat sign) = Some name
           /\ formatLongitude (Num L)
              = string_of_Z D ++ "° " ++ name ++ " "
                  ++ padStart0 2 (string_of_Z M) ++ "' "
                  ++ padStart0 2 (string_of_Z S) ++ dq
           /\ inject_Z (30 * sign) <= norm360 L
           /\ norm360 L < inject_Z (30 * sign) + 30
           /\ D = (Qfloor (norm360 L) - 30 * sign)%Z
           /\ (0 <= D < 30)%Z /\ (0 <= M < 60)%Z /\ (0 <= S < 60)%Z).
Proof.
  assert (Hall : forall L : Q,
         exists (sign D M S : Z) (name : string),
           In name ZODIAC_SIGNS
           /\ nth_error ZODIAC_SIGNS (Z.to_nat sign) = Some name
           /\ formatLongitude (Num L)
              = string_of_Z D ++ "° " ++ name ++ " "
                  ++ padStart0 2 (string_of_Z M) ++ "' "
                  ++ padStart0 2 (string_of_Z S) ++ dq
           /\ inject_Z (30 * sign) <= norm360 L
           /\ norm360 L < inject_Z (30 * sign) + 30
           /\ D = (Qfloor (norm360 L) - 30 * sign)%Z
           /\ (0 <= D < 30)%Z /\ (0 <= M < 60)%Z /\ (0 <= S < 60)%Z).
  { intros L. destruct (norm360_range L) as [R0 R1].
    destruct (dms_double_spec (norm360 L) (norm360_double L) R0 R1)
      as (v & M & S & _ & _ & _ & Hd & _ & HM & HS & _).
    destruct (in_segment (norm360 L) R0 R1) as (Hs & Hlo & Hhi).
    set (s := Qfloor (norm360 L / 30)) in *.
    assert (Hn : nth_error ZODIAC_SIGNS (Z.to_nat s)
                 = Some (nth (Z.to_nat s) ZODIAC_SIGNS "undefined")).
    { apply nth_error_nth'. simpl. lia. }
    assert (HD : (30 * s <= Qfloor (norm360 L) < 30 * s + 30)%Z).
    { destruct (Qfloor_spec (norm360 L)) as [A1 B1].
      apply Qfloor_range; [exact Hlo|]. push_inject. lra. }
    exists s, (Qfloor (norm360 L) - 30 * s)%Z, M, S,
      (nth (Z.to_nat s) ZODIAC_SIGNS "undefined").
    split; [exact (nth_error_In _ _ Hn)|]. split; [exact Hn|].
    split; [rewrite formatLongitude_unfold, Hd; reflexivity|].
    split; [exact Hlo|]. split; [exact Hhi|]. split; [reflexivity|].
    split; [lia|]. split; [exact HM|exact HS]. }
  split; [|split; [reflexivity|exact Hall]].
  intros v. split.
  - destruct v as [| |negative|L]; [now left|now right|discriminate|].
    destruct (Hall L) as (sign & D & M & S & name & _ & _ & -> & _).
    intros E. apply (f_equal String.length) in E.
    rewrite !length_append in E. cbn [String.length] in E. lia.
  - intros [->| ->]; reflexivity.
Qed.

(* ================================================================== *)
(** * Further facts about the insight loop *)
(* ================================================================== *)

Import Claude InsightDerived InsightEdges.
Local Open Scope list_scope.

(** The price table has an entry for the economical model at 0.25 and
    1.25 per million tokens, whatever the configuration, and one for the
    premium model at 3 and 15 when the two identifiers differ; the cost is
    computed in double arithmetic, each quotient, product and sum
    rounded.  When both are configured to the same identifier the later
    entry replaces the earlier, so that identifier is priced as the
    economical model.  A model that is neither of the two costs 0, unless
    its name is that of a member of [Object.prototype], such as
    [constructor]: then the cost is NaN. *)
Theorem cost_uses_the_later_price_entry (PREMIUM_MODEL BASIC_MODEL : string)
        (inputTokens outputTokens : Q) :
  calculateCost PREMIUM_MODEL BASIC_MODEL BASIC_MODEL
                (Finite inputTokens) (Finite outputTokens)
  = Finite (fadd (fmul (fdiv inputTokens 1000000) (25 # 100))
                 (fmul (fdiv outputTokens 1000000) (125 # 100)))
  /\ (PREMIUM_MODEL <> BASIC_MODEL ->
      calculateCost PREMIUM_MODEL BASIC_MODEL PREMIUM_MODEL
                    (Finite inputTokens) (Finite outputTokens)
      = Finite (fadd (fmul (fdiv inputTokens 1000000) 3)
                     (fmul (fdiv outputTokens 1000000) 15)))
  /\ (forall model,
         model <> PREMIUM_MODEL -> model <> BASIC_MODEL ->
         calculateCost PREMIUM_MODEL BASIC_MODEL model
                       (Finite inputTokens) (Finite outputTokens)
         = if existsb (String.eqb model) JsObject.Object_prototype_keys
           then NotANumber else Finite 0)
  /\ (PREMIUM_MODEL <> "constructor" -> BASIC_MODEL <> "constructor" ->
      calculateCost PREMIUM_MODEL BASIC_MODEL "constructor"
                    (Finite inputTokens) (Finite outputTokens)
      = NotANumber).
Proof.
  assert (Other : forall model,
             model <> PREMIUM_MODEL -> model <> BASIC_MODEL ->
             calculateCost PREMIUM_MODEL BASIC_MODEL model
                           (Finite inputTokens) (Finite outputTokens)
             = if existsb (String.eqb model) JsObject.Object_prototype_keys
               then NotANumber else Finite 0).
  { intros model Hp Hb. unfold calculateCost, JsObject.get, MODEL_PRICING.
    cbn [JsObject.own].
    assert (E1 : String.eqb BASIC_MODEL model = false)
      by (apply String.eqb_neq; congruence).
    assert (E2 : String.eqb PREMIUM_MODEL model = false)
      by (apply String.eqb_neq; congruence).
    rewrite E1, E2.
    destruct (existsb _ _); reflexivity. }
  split; [|split; [|split; [exact Other|]]].
  - unfold calculateCost, JsObject.get, MODEL_PRICING. cbn [JsObject.own].
    rewrite String.eqb_refl. cbn [num_div num_mul num_add input output].
    change (Qeq_bool 1000000 0) with false. reflexivity.
  - intros Hd. unfold calculateCost, JsObject.get, MODEL_PRICING.
    cbn [JsObject.own].
    assert (E : String.eqb BASIC_MODEL PREMIUM_MODEL = false)
      by (apply String.eqb_neq; congruence).
    rewrite E, String.eqb_refl. cbn [num_div num_mul num_add input output].
    change (Qeq_bool 1000000 0) with false. reflexivity.
  - intros Hp Hb. rewrite Other by congruence. reflexivity.
Qed.

Lemma cost_uses_the_later_price_entry_witness :
  calculateCost "claude-3-5-sonnet-20240620" "claude-3-haiku-20240307"
                "claude-3-5-sonnet-20240620" (Finite 1200) (Finite 800)
  = Finite (fadd (fmul (fdiv 1200 1000000) 3) (fmul (fdiv 800 1000000) 15)).
Proof.
  apply (proj1 (proj2 (cost_uses_the_later_price_entry
                         "claude-3-5-sonnet-20240620"
                         "claude-3-haiku-20240307" 1200 800))).
  discriminate.
Defined.

Lemma provider_calls_app (t u : list event) :
  provider_calls (t ++ u) = provider_calls t ++ provider_calls u.
Proof.
  induction t as [|[a p|r b|ms] t IH]; simpl; [reflexivity| |assumption..].
  now rewrite IH.
Qed.

Section InsightEdgeFacts.

Variables PREMIUM_MODEL BASIC_MODEL : string.
Variable messages_create : nat -> RequestPayload -> Response + Caught.
Variable apiLog_create : ApiLog -> bool.
Variables (systemPrompt : string) (msgs : list Message) (user : option Z).
Variable anthropic : bool.
Variable userPlan : string.

Abbreviation the_run :=
  (getClaudeInsight PREMIUM_MODEL BASIC_MODEL anthropic messages_create
                    apiLog_create systemPrompt msgs userPlan user).
Abbreviation m0 := (initial_model PREMIUM_MODEL BASIC_MODEL userPlan).
Abbreviation m1 := (next_model PREMIUM_MODEL BASIC_MODEL m0).
Abbreviation shape :=
  (run_shape PREMIUM_MODEL BASIC_MODEL messages_create apiLog_create
             systemPrompt msgs user m0).
Abbreviation cost_of :=
  (calculateCost PREMIUM_MODEL BASIC_MODEL).

Lemma calls_of_shape (first second : ApiLog) :
  provider_calls
    ([InsightDerived.called systemPrompt msgs 1 m0; logged apiLog_create first]
       ++ next_wait PREMIUM_MODEL BASIC_MODEL m0 1
       ++ [InsightDerived.called systemPrompt msgs 2 m1;
           logged apiLog_create second])
  = [(1%nat, request_payload m0 systemPrompt msgs);
     (2%nat, request_payload m1 systemPrompt msgs)].
Proof.
  cbn [app provider_calls InsightDerived.called logged].
  rewrite provider_calls_app.
  unfold next_wait. destruct (_ && _); reflexivity.
Qed.

(** Every attempt sends the same request: the system prompt, the
    messages and the token limit of 4000 never change between attempts,
    only the model does, and the model is always one of the two
    configured ones.  The attempts are numbered 1 and 2 in order. *)
Theorem every_attempt_repeats_the_request :
  (forall attempt payload,
      In (attempt, payload) (provider_calls (snd the_run)) ->
      system payload = systemPrompt
      /\ messages payload = msgs
      /\ max_tokens payload = 4000%Z
      /\ (payload_model payload = PREMIUM_MODEL
          \/ payload_model payload = BASIC_MODEL))
  /\ map fst (provider_calls (snd the_run))
     = seq 1 (List.length (provider_calls (snd the_run))).
Proof.
  assert (Hcase : anthropic = true \/ anthropic = false)
    by (destruct anthropic; auto).
  pose proof (m0_configured PREMIUM_MODEL BASIC_MODEL userPlan) as H0.
  pose proof (next_model_configured PREMIUM_MODEL BASIC_MODEL userPlan) as H1.
  assert (Hp : forall m, m = PREMIUM_MODEL \/ m = BASIC_MODEL ->
             system (request_payload m systemPrompt msgs) = systemPrompt
             /\ messages (request_payload m systemPrompt msgs) = msgs
             /\ max_tokens (request_payload m systemPrompt msgs) = 4000%Z
             /\ (payload_model (request_payload m systemPrompt msgs)
                 = PREMIUM_MODEL
                 \/ payload_model (request_payload m systemPrompt msgs)
                    = BASIC_MODEL)).
  { intros m Hm. repeat split; trivial. }
  destruct Hcase as [Ea|Ea].
  - pose proof (run_available PREMIUM_MODEL BASIC_MODEL messages_create
                  apiLog_create systemPrompt msgs user anthropic userPlan Ea)
      as Hshape.
    remember the_run as R eqn:ER. clear ER.
    destruct Hshape as [result record Hs
                       |e1 result record Hf Hs
                       |e1 e2 Hf1 Hf2]; cbn [fst snd];
      rewrite ?calls_of_shape.
    + cbn [provider_calls InsightDerived.called logged].
      split; [|reflexivity]. intros a p [[= <- <-]|[]]. now apply Hp.
    + split; [|reflexivity].
      intros a p [[= <- <-]|[[= <- <-]|[]]]; now apply Hp.
    + split; [|reflexivity].
      intros a p [[= <- <-]|[[= <- <-]|[]]]; now apply Hp.
  - rewrite (run_unavailable PREMIUM_MODEL BASIC_MODEL messages_create
               apiLog_create systemPrompt msgs user anthropic userPlan Ea).
    split; [intros a p []|reflexivity].
Qed.

(** What a successful call returns agrees with the ledger: the last
    record names the model of the result, carries the same cost, and is
    the only success record; the text returned is the text of the first
    content block of the answer that was recorded, or the empty string
    when it has none. *)
Theorem result_agrees_with_the_ledger (result : InsightResult) :
  fst the_run = Return (Some result) ->
  exists earlier record,
    ledger (snd the_run) = earlier ++ [record]
    /\ isSuccess record = true
    /\ endpoint record = modelUsed result
    /\ cost record = Some (result_cost result)
    /\ Forall (fun r => isSuccess r = false /\ cost r = None) earlier
    /\ exists blocks,
        responseData record = LoggedContent blocks
        /\ result_content result
           = match blocks with
             | {| text := Some t |} :: _ => t
             | _ => ""
             end.
Proof.
  assert (Hcase : anthropic = true \/ anthropic = false)
    by (destruct anthropic; auto).
  assert (Hs : forall attempt model r record,
             succeeds PREMIUM_MODEL BASIC_MODEL messages_create systemPrompt
                      msgs user attempt model r record ->
             isSuccess record = true
             /\ endpoint record = modelUsed r
             /\ cost record = Some (result_cost r)
             /\ exists blocks,
                 responseData record = LoggedContent blocks
                 /\ result_content r
                    = match blocks with
                      | {| text := Some t |} :: _ => t
                      | _ => ""
                      end).
  { intros attempt model r record (response & tokens & _ & _ & -> & ->).
    cbn [isSuccess endpoint modelUsed cost result_cost success_record
         responseData result_content].
    repeat split. exists (response_content response). split; [reflexivity|].
    unfold first_text. destruct (response_content response) as [|[[t|]] rest];
      reflexivity. }
  destruct Hcase as [Ea|Ea].
  - pose proof (run_available PREMIUM_MODEL BASIC_MODEL messages_create
                  apiLog_create systemPrompt msgs user anthropic userPlan Ea)
      as Hshape.
    remember the_run as R eqn:ER. clear ER.
    destruct Hshape as [r record Hr
                       |e1 r record Hf Hr
                       |e1 e2 Hf1 Hf2]; cbn [fst snd]; intros [= <-].
    + destruct (Hs _ _ _ _ Hr) as (A & B & C & D).
      exists [], record. cbn [ledger InsightDerived.called logged app].
      repeat split; trivial.
    + destruct (Hs _ _ _ _ Hr) as (A & B & C & D).
      exists [failed_record systemPrompt msgs user m0 e1], record.
      rewrite ledger_of_shape. cbn [app].
      repeat split; trivial. repeat constructor.
  - rewrite (run_unavailable PREMIUM_MODEL BASIC_MODEL messages_create
               apiLog_create systemPrompt msgs user anthropic userPlan Ea).
    intros [=].
Qed.

Lemma cost_of_nan_output (model : string) (promptTokens : number) :
  model = PREMIUM_MODEL \/ model = BASIC_MODEL ->
  cost_of model promptTokens NotANumber = NotANumber.
Proof.
  intros Hm.
  destruct (priced PREMIUM_MODEL BASIC_MODEL model Hm) as (pricing & E & _).
  unfold calculateCost. rewrite E. cbn [num_div num_mul].
  destruct (num_mul _ _); reflexivity.
Qed.

(** An answer without any content block and without a reported output
    count is accepted on the first attempt: the call returns the empty
    text, and the output token count and the cost, on the ledger record
    and in the result, are NaN. *)
Theorem empty_answer_is_returned_with_nan_cost (response : Response) :
  anthropic = true ->
  messages_create 1%nat (request_payload m0 systemPrompt msgs) = inl response ->
  response_content response = [] ->
  output_count_falsy response = true ->
  exists record,
    the_run
    = (Return (Some {| result_content := "";
                       modelUsed := m0;
                       result_usage := usage response;
                       result_cost := NotANumber |}),
       [InsightDerived.called systemPrompt msgs 1 m0;
        logged apiLog_create record])
    /\ isSuccess record = true
    /\ tokenCountOut record = Some NotANumber
    /\ cost record = Some NotANumber.
Proof.
  intros Ea Ecall Hc Hf.
  assert (Et : completionTokens_of response = inl NotANumber).
  { unfold completionTokens_of, output_count_falsy in *.
    rewrite Hc. destruct (reported_output_tokens response) as [n|];
      [|reflexivity].
    destruct (truthy_number n); [discriminate|reflexivity]. }
  pose proof (cost_of_nan_output m0 (promptTokens_of response msgs)
                (m0_configured PREMIUM_MODEL BASIC_MODEL userPlan)) as Ecost.
  unfold getClaudeInsight. rewrite Ea. cbn [negb]. unfold maxAttempts.
  rewrite attempts_step. change (2 + 1 - 2)%nat with 1%nat.
  unfold try_block. rewrite Ecall. unfold on_response. rewrite Et, Ecost.
  unfold logClaudeApiCall. cbn [app].
  eexists. split.
  - unfold first_text. rewrite Hc. reflexivity.
  - cbn [isSuccess tokenCountOut cost success_record]. now repeat split.
Qed.

(** An answer whose first content block has no text, and that reports no
    output count, makes the token estimate throw inside the [try] block:
    the attempt is recorded as a failure although the provider answered,
    and, being the first, it is followed by a second provider call. *)
Theorem textless_answer_counts_as_a_failure (response : Response)
        (block : ContentBlock) (rest : list ContentBlock) :
  anthropic = true ->
  messages_create 1%nat (request_payload m0 systemPrompt msgs) = inl response ->
  response_content response = block :: rest ->
  text block = None ->
  output_count_falsy response = true ->
  exists failure second,
    ledger (snd the_run) = [failure; second]
    /\ isSuccess failure = false
    /\ endpoint failure = m0
    /\ responseData failure = LoggedErrorData None
    /\ provider_calls (snd the_run)
       = [(1%nat, request_payload m0 systemPrompt msgs);
          (2%nat, request_payload m1 systemPrompt msgs)].
Proof.
  intros Ea Ecall Hc Ht Hf.
  assert (Et : completionTokens_of response = inr type_error_length).
  { unfold completionTokens_of, output_count_falsy in *.
    rewrite Hc, Ht. destruct (reported_output_tokens response) as [n|];
      [|reflexivity].
    destruct (truthy_number n); [discriminate|reflexivity]. }
  pose proof (run_available PREMIUM_MODEL BASIC_MODEL messages_create
                apiLog_create systemPrompt msgs user anthropic userPlan Ea)
    as Hshape.
  remember the_run as R eqn:ER. clear ER.
  assert (Hfail : forall e1,
             fails messages_create systemPrompt msgs 1 m0 e1 ->
             e1 = type_error_length).
  { intros e1 [E|(response' & E & E')]; congruence. }
  destruct Hshape as [r record Hr
                     |e1 r record Hf1 Hr
                     |e1 e2 Hf1 Hf2]; cbn [fst snd].
  - destruct Hr as (response' & tokens & E & E' & _). exfalso. congruence.
  - rewrite (Hfail e1 Hf1), ledger_of_shape, calls_of_shape.
    eexists. eexists. split; [reflexivity|]. now repeat split.
  - rewrite (Hfail e1 Hf1), ledger_of_shape, calls_of_shape.
    eexists. eexists. split; [reflexivity|]. now repeat split.
Qed.

End InsightEdgeFacts.

Lemma empty_answer_is_returned_with_nan_cost_witness :
  exists record,
    getClaudeInsight default_PREMIUM_MODEL default_BASIC_MODEL true
                     (answering empty_response) storing_ledger
                     BIRTH_CHART_ANALYSIS example_messages "basic" (Some 7%Z)
    = (Return (Some {| result_content := "";
                       modelUsed := default_BASIC_MODEL;
                       result_usage := usage empty_response;
                       result_cost := NotANumber |}),
       [InsightDerived.called BIRTH_CHART_ANALYSIS example_messages 1
                              default_BASIC_MODEL;
        logged storing_ledger record])
    /\ isSuccess record = true
    /\ tokenCountOut record = Some NotANumber
    /\ cost record = Some NotANumber.
Proof.
  exact (empty_answer_is_returned_with_nan_cost
           default_PREMIUM_MODEL default_BASIC_MODEL
           (answering empty_response) storing_ledger BIRTH_CHART_ANALYSIS
           example_messages (Some 7%Z) true "basic" empty_response
           eq_refl eq_refl eq_refl eq_refl).
Defined.

Lemma textless_answer_counts_as_a_failure_witness :
  exists failure second,
    ledger (snd (example_run textless_then_full "premium"))
    = [failure; second]
    /\ isSuccess failure = false
    /\ endpoint failure = default_PREMIUM_MODEL
    /\ responseData failure = LoggedErrorData None
    /\ provider_calls (snd (example_run textless_then_full "premium"))
       = [(1%nat, request_payload default_PREMIUM_MODEL BIRTH_CHART_ANALYSIS
                                  example_messages);
          (2%nat, request_payload default_BASIC_MODEL BIRTH_CHART_ANALYSIS
                                  example_messages)].
Proof.
  exact (textless_answer_counts_as_a_failure
           default_PREMIUM_MODEL default_BASIC_MODEL textless_then_full
           storing_ledger BIRTH_CHART_ANALYSIS example_messages (Some 7%Z)
           true "premium" textless_response {| text := None |} []
           eq_refl eq_refl eq_refl eq_refl eq_refl).
Defined.

Lemma result_agrees_with_the_ledger_witness :
  exists result earlier record,
    fst (example_run flaky_provider "premium") = Return (Some result)
    /\ ledger (snd (example_run flaky_provider "premium")) = earlier ++ [record]
    /\ isSuccess record = true
    /\ endpoint record = modelUsed result
    /\ cost record = Some (result_cost result).
Proof.
  eexists.
  destruct (result_agrees_with_the_ledger
              default_PREMIUM_MODEL default_BASIC_MODEL flaky_provider
              storing_ledger BIRTH_CHART_ANALYSIS example_messages (Some 7%Z)
              true "premium" _ eq_refl)
    as (earlier & record & E & A & B & C & _).
  exists earlier, record. split; [reflexivity|]. repeat split; trivial.
Defined.

(* ================================================================== *)
(** * Further facts about the chart builder *)
(* ================================================================== *)

Import Ephemeris EphemerisDerived EphemerisTraces.
Local Open Scope list_scope.

Lemma mode_settings_app (a b : list call) :
  mode_settings (a ++ b) = mode_settings a ++ mode_settings b.
Proof.
  induction a as [|c a IH]; [reflexivity|].
  destruct c; simpl; now rewrite ?IH.
Qed.

Lemma closes_app (a b : list call) :
  closes (a ++ b) = (closes a + closes b)%nat.
Proof.
  induction a as [|c a IH]; [reflexivity|].
  destruct c; simpl; now rewrite ?IH.
Qed.

Lemma house_queries_app (a b : list call) :
  house_queries (a ++ b) = (house_queries a + house_queries b)%nat.
Proof.
  induction a as [|c a IH]; [reflexivity|].
  destruct c; simpl; now rewrite ?IH.
Qed.

Lemma flags_used_app (a b : list call) :
  flags_used (a ++ b) = flags_used a ++ flags_used b.
Proof.
  induction a as [|c a IH]; [reflexivity|].
  destruct c; simpl; now rewrite ?IH.
Qed.

(** What a run of position queries counts for. *)
Lemma queries_count (jd : Q) (flags : Z) (ids : list Z) :
  let qs := map (fun id => Call_calc_ut jd id flags) ids in
  mode_settings qs = [] /\ closes qs = 0%nat /\ house_queries qs = 0%nat
  /\ flags_used qs = map (fun _ => flags) ids
  /\ calc_queries qs = ids.
Proof.
  induction ids as [|id ids IH]; cbn; [now repeat split|].
  destruct IH as (A & B & C & D & E). cbn in *.
  repeat split; trivial; congruence.
Qed.

Lemma own_absent {A : Type} (l : list (string * A)) (key : string) :
  ~ In key (map fst l) -> JsObject.own l key = None.
Proof.
  induction l as [|[k v] l IH]; [reflexivity|].
  cbn [map fst In JsObject.own]. intros H.
  rewrite IH by tauto.
  destruct (String.eqb k key) eqn:E; [|reflexivity].
  apply String.eqb_eq in E. tauto.
Qed.

(** A table whose keys are pairwise distinct is read back entry by
    entry. *)
Lemma own_of_distinct_keys {A : Type} (l : list (string * A))
      (key : string) (v : A) :
  NoDup (map fst l) -> In (key, v) l -> JsObject.own l key = Some v.
Proof.
  induction l as [|[k w] l IH]; [intros _ []|].
  cbn [map fst JsObject.own]. intros Hnd Hin.
  apply NoDup_cons_iff in Hnd. destruct Hnd as [Hk Hnd].
  destruct Hin as [[= -> ->]|Hin].
  - rewrite own_absent by exact Hk. now rewrite String.eqb_refl.
  - now rewrite (IH Hnd Hin).
Qed.

Lemma string_of_Z_inj (a b : Z) : string_of_Z a = string_of_Z b -> a = b.
Proof.
  unfold string_of_Z. intros E.
  assert (Hn : forall n, Z.to_int n <> Decimal.Pos Decimal.Nil
                         /\ Z.to_int n <> Decimal.Neg Decimal.Nil).
  { intros [|p|p]; cbn; split; try discriminate;
      intros [= H]; exact (DecimalPos.Unsigned.to_uint_nonnil p H). }
  apply DecimalZ.to_int_inj.
  assert (F : Some (Z.to_int a) = Some (Z.to_int b)).
  { rewrite <- (NilZero.isi (Z.to_int a)) by apply Hn.
    rewrite <- (NilZero.isi (Z.to_int b)) by apply Hn.
    now rewrite E. }
  now injection F.
Qed.

Lemma NoDup_map_injective {A B : Type} (f : A -> B) (l : list A) :
  (forall x y, f x = f y -> x = y) -> NoDup l -> NoDup (map f l).
Proof.
  intros Hf. induction 1 as [|x l Hx Hnd IH]; cbn; constructor; trivial.
  intros Hin. apply in_map_iff in Hin. destruct Hin as (y & E & Hy).
  apply Hf in E. now subst y.
Qed.

Lemma set_property_new_key {A : Type} (o : list (string * A)) (key : string)
      (v : A) :
  ~ In key (map fst o) ->
  map fst (set_property o key v) = map fst o ++ [key].
Proof.
  induction o as [|[k w] o IH]; [reflexivity|].
  cbn [map fst In set_property]. intros H.
  destruct (String.eqb k key) eqn:E.
  - apply String.eqb_eq in E. tauto.
  - cbn [map fst app]. rewrite IH by tauto. reflexivity.
Qed.

Lemma set_property_entries {A : Type} (P : A -> Prop)
      (o : list (string * A)) (key : string) (v : A) :
  P v -> Forall (fun e => P (snd e)) o ->
  Forall (fun e => P (snd e)) (set_property o key v).
Proof.
  intros Hv. induction 1 as [|[k w] o Hw Ho IH]; cbn [set_property].
  - now repeat constructor.
  - destruct (String.eqb k key); constructor; trivial.
Qed.

Lemma get_property_entry {A : Type} (o : list (string * A)) (key : string)
      (v : A) :
  get_property o key = Some v -> In (key, v) o.
Proof.
  induction o as [|[k w] o IH]; [discriminate|]. cbn [get_property].
  destruct (String.eqb k key) eqn:E.
  - apply String.eqb_eq in E. intros [= <-]. subst k. now left.
  - intros H. right. now apply IH.
Qed.

Lemma get_property_of_key {A : Type} (o : list (string * A)) (key : string) :
  In key (map fst o) -> exists v, get_property o key = Some v.
Proof.
  induction o as [|[k w] o IH]; [intros []|]. cbn [map fst In get_property].
  destruct (String.eqb k key) eqn:E; [eauto|].
  intros [H|H]; [|now apply IH].
  apply String.eqb_neq in E. contradiction.
Qed.

Section EphemerisTraceFacts.

Variables SE_SUN SE_MOON SE_MERCURY SE_VENUS SE_MARS SE_JUPITER SE_SATURN
          SE_URANUS SE_NEPTUNE SE_PLUTO SE_MEAN_NODE : Z.
Variables SEFLG_SPEED SEFLG_SIDEREAL : Z.
Variables SEFLG_SIDM_LAHIRI SEFLG_SIDM_RAMAN SEFLG_SIDM_KRISHNAMURTI
  : option Z.
Variable utc_of_local : string -> string -> string -> completion UtcDate.
Variable swe_utc_to_jd : UtcDate -> Z * Q.
Variable swe_get_ayanamsa_ut : Z -> Q -> Q.
Variable swe_calc_ut : Z -> Q -> Z -> Z -> CalcResult.
Variable swe_houses_ex : Z -> Q -> Z -> Q -> Q -> option nat -> HousesResult.
Variable format_date : string -> string.

Abbreviation PLANET_LIST' :=
  (PLANET_LIST SE_SUN SE_MOON SE_MERCURY SE_VENUS SE_MARS SE_JUPITER
               SE_SATURN SE_URANUS SE_NEPTUNE SE_PLUTO SE_MEAN_NODE).
Abbreviation planet_loop' :=
  (planet_loop SE_SUN SE_MOON SE_MERCURY SE_VENUS SE_MARS SE_JUPITER
               SE_SATURN SE_URANUS SE_NEPTUNE SE_PLUTO SE_MEAN_NODE
               swe_calc_ut).
Abbreviation planet_name' :=
  (planet_name SE_SUN SE_MOON SE_MERCURY SE_VENUS SE_MARS SE_JUPITER
               SE_SATURN SE_URANUS SE_NEPTUNE SE_PLUTO SE_MEAN_NODE).
Abbreviation recognised_mode' :=
  (recognised_mode SEFLG_SIDM_LAHIRI SEFLG_SIDM_RAMAN SEFLG_SIDM_KRISHNAMURTI).
Abbreviation calculateBirthChartData' :=
  (calculateBirthChartData
     SE_SUN SE_MOON SE_MERCURY SE_VENUS SE_MARS SE_JUPITER SE_SATURN
     SE_URANUS SE_NEPTUNE SE_PLUTO SE_MEAN_NODE SEFLG_SPEED SEFLG_SIDEREAL
     SEFLG_SIDM_LAHIRI SEFLG_SIDM_RAMAN SEFLG_SIDM_KRISHNAMURTI
     utc_of_local swe_utc_to_jd swe_get_ayanamsa_ut swe_calc_ut
     swe_houses_ex format_date).

(** What the planet loop does to the trace: it only adds position
    queries, all with the flags it was given; either it completes, having
    asked for every body, or it throws at the first body whose query
    fails, naming it, having asked for no body after it. *)
Lemma planet_loop_trace (jd : Q) (flags : Z) (entries : list (string * Z)) :
  forall planets st,
    match fst (planet_loop' jd flags entries planets st) with
    | Return _ =>
        calls (snd (planet_loop' jd flags entries planets st))
        = calls st ++ map (fun id => Call_calc_ut jd id flags)
                          (map snd entries)
    | Throw e =>
        exists k id,
          (k < List.length entries)%nat
          /\ nth_error (map snd entries) k = Some id
          /\ e = Error ("Failed to calculate position for "
                          ++ planet_name' id)%string
          /\ calls (snd (planet_loop' jd flags entries planets st))
             = calls st ++ map (fun id => Call_calc_ut jd id flags)
                               (firstn (S k) (map snd entries))
    end.
Proof.
  induction entries as [|[nm id] entries IH]; intros planets st.
  - cbn. now rewrite app_nil_r.
  - cbn [planet_loop].
    destruct (Z.ltb _ 0 || truthy_string _).
    + cbn [fst snd List.length firstn map called calls].
      exists 0%nat, id. repeat split. lia.
    + match goal with
      | |- context [planet_loop' jd flags entries ?ps ?s] =>
          specialize (IH ps s);
          destruct (planet_loop' jd flags entries ps s) as [[done|e] st2]
      end; cbn [fst snd called calls] in *.
      * rewrite IH. cbn [map snd]. now rewrite <- app_assoc.
      * destruct IH as (k & id' & Hk & Hn & -> & Hc).
        exists (S k), id'. cbn [List.length map snd nth_error firstn].
        split; [lia|]. split; [exact Hn|]. split; [reflexivity|].
        rewrite Hc. now rewrite <- app_assoc.
Qed.

(** The outcome of the planet loop from the answers of the oracle: it
    throws at the first body whose query fails, and completes when none
    fails; the sidereal mode is not touched. *)
Lemma planet_loop_outcome (jd : Q) (fl : Z) (entries : list (string * Z)) :
  forall planets st0,
    let failed id := position_failed (swe_calc_ut (sid_mode st0) jd id fl) in
    let ids := map snd entries in
    let run := planet_loop' jd fl entries planets st0 in
    (forall k id,
        nth_error ids k = Some id -> failed id = true ->
        (forall j id', (j < k)%nat -> nth_error ids j = Some id' ->
                       failed id' = false) ->
        fst run
        = Throw (Error ("Failed to calculate position for "
                          ++ planet_name' id)%string)
        /\ calls (snd run)
           = calls st0 ++ map (fun id => Call_calc_ut jd id fl)
                              (firstn (S k) ids))
    /\ ((forall id, In id ids -> failed id = false) ->
        (exists done, fst run = Return done)
        /\ calls (snd run)
           = calls st0 ++ map (fun id => Call_calc_ut jd id fl) ids
        /\ sid_mode (snd run) = sid_mode st0).
Proof.
  induction entries as [|[nm id0] entries IH]; intros planets st0; cbv zeta.
  - split.
    + intros [|k] id H; discriminate.
    + intros _. cbn. rewrite app_nil_r. eauto.
  - cbn [planet_loop map snd].
    change (Z.ltb (ret (swe_calc_ut (sid_mode st0) jd id0 fl)) 0
            || truthy_string (serr (swe_calc_ut (sid_mode st0) jd id0 fl)))
      with (position_failed (swe_calc_ut (sid_mode st0) jd id0 fl)).
    destruct (position_failed (swe_calc_ut (sid_mode st0) jd id0 fl)) eqn:F.
    + split.
      * intros [|k] id Hn Hf Hfirst.
        -- injection Hn as <-. cbn. split; reflexivity.
        -- exfalso.
           specialize (Hfirst 0%nat id0 ltac:(lia) eq_refl). congruence.
      * intros Hall. rewrite (Hall id0) in F by (now left). discriminate.
    + match goal with
      | |- context [planet_loop' jd fl entries ?ps ?s] =>
          specialize (IH ps s); cbv zeta in IH;
          cbn [sid_mode called] in IH; destruct IH as [IH1 IH2]
      end.
      split.
      * intros [|k] id Hn Hf Hfirst.
        -- injection Hn as <-. congruence.
        -- cbn [nth_error] in Hn. destruct (IH1 k id Hn Hf) as [E C].
           { intros j id' Hj Hn'. apply (Hfirst (S j) id'); [lia|exact Hn']. }
           split; [exact E|]. rewrite C. cbn [calls called firstn map].
           now rewrite <- app_assoc.
      * intros Hall. destruct IH2 as (D & C & M).
        { intros id Hin. apply Hall. now right. }
        split; [exact D|]. split; [|exact M].
        rewrite C. cbn [calls called map]. now rewrite <- app_assoc.
Qed.

(** With pairwise distinct identifiers, [PLANET_NAMES] gives each
    listed body its own name. *)
Lemma planet_names_of_distinct_ids :
  NoDup (map snd PLANET_LIST') ->
  map (fun e => planet_name' (snd e)) PLANET_LIST'
  = [ "Sun"; "Moon"; "Mercury"; "Venus"; "Mars"; "Jupiter"; "Saturn";
      "Uranus"; "Neptune"; "Pluto"; "Rahu" ]%string.
Proof.
  intros Hnd.
  assert (Hkeys : NoDup (map fst
                           (PLANET_NAMES SE_SUN SE_MOON SE_MERCURY SE_VENUS
                              SE_MARS SE_JUPITER SE_SATURN SE_URANUS
                              SE_NEPTUNE SE_PLUTO SE_MEAN_NODE))).
  { change (NoDup (map string_of_Z (map snd PLANET_LIST'))).
    apply NoDup_map_injective; [exact string_of_Z_inj|exact Hnd]. }
  unfold planet_name. cbn [map snd PLANET_LIST].
  repeat match goal with
  | |- context [JsObject.own ?l (string_of_Z ?id)] =>
      match goal with
      | |- context [match JsObject.own l (string_of_Z id) with
                    | Some n => n | None => _ end] =>
          erewrite (own_of_distinct_keys l (string_of_Z id) _ Hkeys)
            by (cbn [PLANET_NAMES In]; tauto)
      end
  end.
  reflexivity.
Qed.

(** The keys and the entries of the object that the planet loop
    fills. *)
Lemma planet_loop_keys (jd : Q) (fl : Z) (entries : list (string * Z)) :
  forall planets st0 done,
    fst (planet_loop' jd fl entries planets st0) = Return done ->
    NoDup (map fst planets ++ map (fun e => planet_name' (snd e)) entries) ->
    map fst done
    = map fst planets ++ map (fun e => planet_name' (snd e)) entries.
Proof.
  induction entries as [|[nm id] entries IH]; intros planets st0 done.
  - cbn. intros [= <-] _. now rewrite app_nil_r.
  - cbn [planet_loop].
    destruct (Z.ltb _ 0 || truthy_string _); [discriminate|].
    intros Hd Hnd. cbn [map snd] in *.
    assert (Hnew : ~ In (planet_name' id) (map fst planets)).
    { apply NoDup_remove_2 in Hnd. intros Hin. apply Hnd.
      apply in_or_app. now left. }
    rewrite (IH _ _ _ Hd); rewrite set_property_new_key by exact Hnew.
    + now rewrite <- app_assoc.
    + rewrite <- app_assoc. cbn [app].
      apply NoDup_remove_1 in Hnd as Hrest.
      apply NoDup_remove_2 in Hnd.
      clear - Hnd Hrest.
      induction (map fst planets) as [|k ks IHk]; cbn [app] in *.
      * now constructor.
      * apply NoDup_cons_iff in Hrest. destruct Hrest as [Hk Hrest].
        constructor.
        -- intros Hin. apply in_app_or in Hin. destruct Hin as [Hin|Hin].
           ++ apply Hk. apply in_or_app. now left.
           ++ destruct Hin as [<-|Hin].
              ** apply Hnd. now left.
              ** apply Hk. apply in_or_app. now right.
        -- apply IHk; [|exact Hrest]. intros Hin. apply Hnd. now right.
Qed.

Lemma planet_loop_entries (P : PlanetPosition -> Prop) (jd : Q) (fl : Z)
      (entries : list (string * Z)) :
  (forall m id,
      P {| longitude := xx0 (xx (swe_calc_ut m jd id fl));
           latitude := xx1 (xx (swe_calc_ut m jd id fl));
           distance := xx2 (xx (swe_calc_ut m jd id fl));
           speedLon := xx3 (xx (swe_calc_ut m jd id fl));
           speedLat := Some (xx4 (xx (swe_calc_ut m jd id fl)));
           speedDist := Some (xx5 (xx (swe_calc_ut m jd id fl)));
           isRetrograde := Qltb (xx3 (xx (swe_calc_ut m jd id fl))) 0
        |}) ->
  forall planets st0 done,
    fst (planet_loop' jd fl entries planets st0) = Return done ->
    Forall (fun e => P (snd e)) planets ->
    Forall (fun e => P (snd e)) done.
Proof.
  intros HP.
  induction entries as [|[nm id] entries IH]; intros planets st0 done.
  - cbn. now intros [= <-].
  - cbn [planet_loop].
    destruct (Z.ltb _ 0 || truthy_string _); [discriminate|].
    intros Hd Hall. apply (IH _ _ _ Hd).
    apply set_property_entries; [apply HP|exact Hall].
Qed.

Section Call.

Variables (birthDate birthTime : string) (geo_latitude geo_longitude : Q)
          (timezone : string) (houseSystemChar ayanamsaName : option string)
          (st : Sweph).

Abbreviation the_call :=
  (calculateBirthChartData' birthDate birthTime geo_latitude geo_longitude
                            timezone houseSystemChar ayanamsaName st).
Abbreviation mode := (recognised_mode' (given_ayanamsa ayanamsaName)).
Abbreviation flags :=
  (match mode with
   | Some _ => Z.lor SEFLG_SPEED SEFLG_SIDEREAL
   | None => SEFLG_SPEED
   end).
Abbreviation trace_of' :=
  (trace_of (map snd PLANET_LIST') flags mode).
Abbreviation code := (charCodeAt0 (given_house_system houseSystemChar)).

(** Every call goes through the same stages, and stops at the first
    that fails. *)
Lemma call_stages :
  exists s utc jd,
    calls (snd the_call)
    = calls st ++ trace_of' utc jd geo_latitude geo_longitude code s
    /\ match s with
       | DateFailed =>
           exists e, utc_of_local birthDate birthTime timezone = Throw e
                     /\ fst the_call = Throw e
                     /\ sid_mode (snd the_call) = sid_mode st
       | JulianDayFailed =>
           fst the_call
           = Throw (Error "Failed to calculate Julian Day from UTC.")
           /\ sid_mode (snd the_call) = sid_mode st
       | PlanetFailed k =>
           (k < 11)%nat
           /\ (exists id,
                  nth_error (map snd PLANET_LIST') k = Some id
                  /\ fst the_call
                     = Throw (Error ("Failed to calculate position for "
                                       ++ planet_name' id)%string))
           /\ sid_mode (snd the_call)
              = match mode with Some m => m | None => sid_mode st end
       | HousesFailed =>
           fst the_call = Throw (Error "Failed to calculate house cusps.")
           /\ sid_mode (snd the_call)
              = match mode with Some m => m | None => sid_mode st end
       | Completed =>
           (exists chart,
               fst the_call = Return chart
               /\ (ayanamsa chart = None <-> mode = None))
           /\ sid_mode (snd the_call)
              = match mode with Some _ => 0%Z | None => sid_mode st end
       end.
Proof.
  unfold calculateBirthChartData, getJulianDayUT, given_ayanamsa,
    given_house_system.
  destruct (utc_of_local birthDate birthTime timezone) as [utc|e].
  2:{ exists DateFailed, {| year := 0; month := 0; day := 0; hours := 0;
                            minutes := 0; seconds := 0 |}, 0.
      cbn [fst snd trace_of]. rewrite app_nil_r. split; [reflexivity|].
      exists e. now repeat split. }
  destruct (swe_utc_to_jd utc) as [r jd].
  destruct (Z.ltb r 0).
  { exists JulianDayFailed, utc, jd. cbn [fst snd trace_of called calls sid_mode].
    now repeat split. }
  destruct (recognised_mode' _) as [m|]; cbv beta iota zeta;
    match goal with
    | |- context [planet_loop' ?jd' ?fl ?l ?ps ?s] =>
        destruct (planet_loop_calls SE_SUN SE_MOON SE_MERCURY SE_VENUS SE_MARS
                    SE_JUPITER SE_SATURN SE_URANUS SE_NEPTUNE SE_PLUTO
                    SE_MEAN_NODE swe_calc_ut jd' fl l ps s) as [Hs _];
        pose proof (planet_loop_trace jd' fl l ps s) as Ht;
        destruct (planet_loop' jd' fl l ps s) as [[loaded|e] st2]
    end; cbn [fst snd called swe_set_sid_mode sid_mode calls] in *.
  - destruct (Z.ltb _ 0 || truthy_string _);
      cbn [fst snd called swe_set_sid_mode sid_mode calls].
    + exists HousesFailed, utc, jd. cbn [trace_of]. rewrite Ht.
      rewrite <- !app_assoc. cbn [app]. now repeat split.
    + exists Completed, utc, jd. cbn [trace_of]. rewrite Ht.
      rewrite <- !app_assoc. cbn [app]. split; [reflexivity|].
      split; [|reflexivity]. eexists. split; [reflexivity|].
      cbn [ayanamsa]. split; discriminate.
  - destruct Ht as (k & id & Hk & Hn & -> & Hc).
    exists (PlanetFailed k), utc, jd. cbn [trace_of]. rewrite Hc.
    rewrite <- !app_assoc. cbn [app]. split; [reflexivity|].
    split; [exact Hk|]. split; [now exists id|exact Hs].
  - destruct (Z.ltb _ 0 || truthy_string _);
      cbn [fst snd called swe_set_sid_mode sid_mode calls].
    + exists HousesFailed, utc, jd. cbn [trace_of]. rewrite Ht.
      rewrite <- !app_assoc. cbn [app]. now repeat split.
    + exists Completed, utc, jd. cbn [trace_of]. rewrite Ht.
      rewrite <- !app_assoc. cbn [app]. split; [reflexivity|].
      split; [|exact Hs]. eexists. split; [reflexivity|].
      cbn [ayanamsa]. now split.
  - destruct Ht as (k & id & Hk & Hn & -> & Hc).
    exists (PlanetFailed k), utc, jd. cbn [trace_of]. rewrite Hc.
    rewrite <- !app_assoc. cbn [app]. split; [reflexivity|].
    split; [exact Hk|]. split; [now exists id|exact Hs].
Qed.

(** With a name that is not a recognised ayanamsa the call is tropical:
    it never sets the sidereal mode, on any path, so the mode it finds is
    the mode it computes with and the mode it leaves (a mode left behind
    by an earlier call is not cleared); it passes the speed flag alone;
    and a chart it returns carries no ayanamsa. *)
Theorem tropical_call_leaves_the_sidereal_mode :
  recognised_mode' (given_ayanamsa ayanamsaName) = None ->
  sid_mode (snd the_call) = sid_mode st
  /\ mode_settings (calls (snd the_call)) = mode_settings (calls st)
  /\ (exists used,
         flags_used (calls (snd the_call)) = flags_used (calls st) ++ used
         /\ Forall (fun f => f = SEFLG_SPEED) used)
  /\ forall chart, fst the_call = Return chart -> ayanamsa chart = None.
Proof.
  intros Hm. destruct call_stages as (s & utc & jd & Hc & Hs).
  rewrite Hm in Hc, Hs. rewrite Hc, mode_settings_app, flags_used_app.
  assert (Hq : forall ids,
             mode_settings (map (fun id => Call_calc_ut jd id SEFLG_SPEED) ids)
             = []
             /\ Forall (fun f => f = SEFLG_SPEED)
                       (flags_used
                          (map (fun id => Call_calc_ut jd id SEFLG_SPEED) ids))).
  { intros ids.
    destruct (queries_count jd SEFLG_SPEED ids) as (A & _ & _ & D & _).
    split; [exact A|]. cbv zeta in D. rewrite D.
    apply Forall_forall. intros f Hf. apply in_map_iff in Hf.
    now destruct Hf as (x & <- & _). }
  destruct s as [| |k| |]; cbn [trace_of app mode_settings flags_used].
  - destruct Hs as (e & _ & E & Hsid). rewrite app_nil_r.
    split; [exact Hsid|]. split; [reflexivity|].
    split; [exists []; split; [now rewrite app_nil_r|constructor]|].
    intros chart. rewrite E. discriminate.
  - destruct Hs as (E & Hsid). rewrite app_nil_r.
    split; [exact Hsid|]. split; [reflexivity|].
    split; [exists []; split; [now rewrite app_nil_r|constructor]|].
    intros chart. rewrite E. discriminate.
  - destruct Hs as (_ & (id & _ & E) & Hsid).
    destruct (Hq (firstn (S k) (map snd PLANET_LIST'))) as [Q1 Q2].
    rewrite Q1, app_nil_r.
    split; [exact Hsid|]. split; [reflexivity|].
    split; [eexists; split; [reflexivity|exact Q2]|].
    intros chart. rewrite E. discriminate.
  - destruct Hs as (E & Hsid).
    destruct (Hq (map snd PLANET_LIST')) as [Q1 Q2].
    rewrite mode_settings_app, flags_used_app, Q1.
    cbn [mode_settings flags_used app]. rewrite app_nil_r.
    split; [exact Hsid|]. split; [reflexivity|].
    split; [eexists; split; [reflexivity|]|].
    + apply Forall_app. split; [exact Q2|now constructor].
    + intros chart. rewrite E. discriminate.
  - destruct Hs as ((chart & E & Ha) & Hsid).
    destruct (Hq (map snd PLANET_LIST')) as [Q1 Q2].
    rewrite mode_settings_app, flags_used_app, Q1.
    cbn [mode_settings flags_used app]. rewrite app_nil_r.
    split; [exact Hsid|]. split; [reflexivity|].
    split; [eexists; split; [reflexivity|]|].
    + apply Forall_app. split; [exact Q2|now constructor].
    + intros chart'. rewrite E. intros [= <-]. now apply Ha.
Qed.

(** The ephemeris files are closed by a call that returns, as its last
    library call, and by no call that throws: after a failure of the
    date conversion, of a position or of the houses, [swe_close] has not
    been called. *)
Theorem ephemeris_is_closed_only_on_return :
  match fst the_call with
  | Return _ =>
      closes (calls (snd the_call)) = S (closes (calls st))
      /\ exists earlier, calls (snd the_call) = earlier ++ [Call_close]
  | Throw _ => closes (calls (snd the_call)) = closes (calls st)
  end.
Proof.
  destruct call_stages as (s & utc & jd & Hc & Hs).
  rewrite Hc, closes_app.
  assert (Hq : forall ids,
             closes (map (fun id => Call_calc_ut jd id flags) ids) = 0%nat).
  { intros ids. now destruct (queries_count jd flags ids) as (_ & B & _). }
  assert (Hsetup : forall rest,
             closes (match mode with
                     | Some m => [Call_set_sid_mode m; Call_get_ayanamsa_ut jd]
                     | None => []
                     end ++ rest) = closes rest).
  { intros rest. now destruct mode. }
  destruct s as [| |k| |]; cbn [trace_of closes].
  - destruct Hs as (e & _ & -> & _). cbn [closes]. lia.
  - destruct Hs as (-> & _). lia.
  - destruct Hs as (_ & (id & _ & ->) & _). rewrite Hsetup, Hq. lia.
  - destruct Hs as (-> & _). rewrite Hsetup, closes_app, Hq. cbn. lia.
  - destruct Hs as ((chart & -> & _) & _).
    rewrite Hsetup, !closes_app, Hq. split.
    + destruct mode; cbn; lia.
    + eexists. rewrite !app_comm_cons, !app_assoc. reflexivity.
Qed.

(** The bodies are asked of the position oracle in the order of
    PLANET_LIST, and the call stops at the first failure.  When the date
    conversion fails, or the Julian day cannot be computed, the call
    fails with that error and asks for no position and no houses.
    Otherwise, when the query of a body fails and that of no body before
    it does, the call fails with an error naming that body, after the
    queries up to that body and before any house calculation.  When no
    query fails, all eleven bodies have been asked and the houses are
    calculated once: the call fails with the house cusp error when that
    calculation fails, and returns a chart when it does not. *)
Theorem chart_builder_stops_at_the_first_failure :
  let ids := map snd PLANET_LIST' in
  let in_effect := match mode with Some m => m | None => sid_mode st end in
  let queried := calc_queries (calls (snd the_call)) in
  let housed := house_queries (calls (snd the_call)) in
  (forall e,
      utc_of_local birthDate birthTime timezone = Throw e ->
      fst the_call = Throw e
      /\ queried = calc_queries (calls st)
      /\ housed = house_queries (calls st))
  /\ (forall utc,
         utc_of_local birthDate birthTime timezone = Return utc ->
         (fst (swe_utc_to_jd utc) < 0)%Z ->
         fst the_call
         = Throw (Error "Failed to calculate Julian Day from UTC.")
         /\ queried = calc_queries (calls st)
         /\ housed = house_queries (calls st))
  /\ (forall utc,
         utc_of_local birthDate birthTime timezone = Return utc ->
         (0 <= fst (swe_utc_to_jd utc))%Z ->
         let jd := snd (swe_utc_to_jd utc) in
         let failed id :=
           position_failed (swe_calc_ut in_effect jd id flags) in
         let h :=
           swe_houses_ex in_effect jd flags geo_latitude geo_longitude code in
         (forall k id,
             nth_error ids k = Some id -> failed id = true ->
             (forall j id', (j < k)%nat -> nth_error ids j = Some id' ->
                            failed id' = false) ->
             fst the_call
             = Throw (Error ("Failed to calculate position for "
                               ++ planet_name' id)%string)
             /\ queried = calc_queries (calls st) ++ firstn (S k) ids
             /\ housed = house_queries (calls st))
         /\ ((forall id, In id ids -> failed id = false) ->
             queried = calc_queries (calls st) ++ ids
             /\ housed = S (house_queries (calls st))
             /\ (houses_failed h = true ->
                 fst the_call
                 = Throw (Error "Failed to calculate house cusps."))
             /\ (houses_failed h = false ->
                 exists chart, fst the_call = Return chart))).
Proof.
  cbv zeta. split; [|split].
  - intros e He. unfold calculateBirthChartData, getJulianDayUT.
    rewrite He. cbn [fst snd]. now repeat split.
  - intros utc Hu Hneg. unfold calculateBirthChartData, getJulianDayUT.
    rewrite Hu. destruct (swe_utc_to_jd utc) as [r jd]. cbn [fst] in Hneg.
    apply Z.ltb_lt in Hneg. rewrite Hneg. cbn [fst snd called calls].
    rewrite calc_queries_app, house_queries_app. cbn.
    rewrite app_nil_r, Nat.add_0_r. now repeat split.
  - intros utc Hu Hpos.
    assert (Hq : forall jd fl ids,
               calc_queries (map (fun id => Call_calc_ut jd id fl) ids) = ids
               /\ house_queries (map (fun id => Call_calc_ut jd id fl) ids)
                  = 0%nat).
    { intros jd fl ids.
      destruct (queries_count jd fl ids) as (_ & _ & C & _ & E).
      now split. }
    unfold calculateBirthChartData, getJulianDayUT, given_ayanamsa,
      given_house_system.
    rewrite Hu. destruct (swe_utc_to_jd utc) as [r jd]. cbn [fst snd] in *.
    apply Z.ltb_ge in Hpos. rewrite Hpos.
    destruct (recognised_mode' _) as [m|]; cbv beta iota zeta;
      match goal with
      | |- context [planet_loop' ?jd' ?fl ?l ?ps ?s] =>
          pose proof (planet_loop_outcome jd' fl l ps s) as Ho;
          cbv zeta in Ho;
          cbn [sid_mode swe_set_sid_mode called calls] in Ho;
          destruct Ho as [Ho1 Ho2];
          destruct (planet_loop' jd' fl l ps s) as [[loaded|e] st2]
      end; cbn [fst snd] in *.
    all: split.
    all: try (intros k id Hn Hf Hfirst;
              destruct (Ho1 k id Hn Hf Hfirst) as [E C];
              try discriminate; injection E as ->;
              rewrite C, !calc_queries_app, !house_queries_app;
              destruct (Hq jd (Z.lor SEFLG_SPEED SEFLG_SIDEREAL)
                           (firstn (S k) (map snd PLANET_LIST')))
                as [Q1 Q2];
              destruct (Hq jd SEFLG_SPEED
                           (firstn (S k) (map snd PLANET_LIST')))
                as [Q3 Q4];
              rewrite ?Q1, ?Q2, ?Q3, ?Q4; cbn;
              rewrite ?app_nil_r, ?Nat.add_0_r; now repeat split).
    all: intros Hall; destruct (Ho2 Hall) as ((done & E) & C & M);
      try discriminate; injection E as ->.
    all: change (Z.ltb (houses_ret ?h) 0 || truthy_string (houses_serr ?h))
           with (houses_failed h).
    all: rewrite M;
      match goal with
      | |- context [houses_failed ?h] => destruct (houses_failed h)
      end;
      cbn [fst snd called swe_set_sid_mode calls]; rewrite C;
      rewrite !calc_queries_app, !house_queries_app;
      destruct (Hq jd (Z.lor SEFLG_SPEED SEFLG_SIDEREAL)
                   (map snd PLANET_LIST')) as [Q1 Q2];
      destruct (Hq jd SEFLG_SPEED (map snd PLANET_LIST')) as [Q3 Q4];
      rewrite ?Q1, ?Q2, ?Q3, ?Q4; cbn;
      rewrite ?app_nil_r, ?Nat.add_0_r;
      (split; [reflexivity|]); (split; [lia|]);
      (split; [intros; try reflexivity; discriminate
              |intros; try discriminate; eexists; reflexivity]).
Qed.

Lemma chart_positions (chart : ChartResult) :
  fst the_call = Return chart ->
  exists jd fl st1 loaded,
    fst (planet_loop' jd fl PLANET_LIST' [] st1) = Return loaded
    /\ planets chart = with_ketu loaded.
Proof.
  intros Hc.
  destruct (chart_planets SE_SUN SE_MOON SE_MERCURY SE_VENUS SE_MARS
              SE_JUPITER SE_SATURN SE_URANUS SE_NEPTUNE SE_PLUTO SE_MEAN_NODE
              SEFLG_SPEED SEFLG_SIDEREAL SEFLG_SIDM_LAHIRI SEFLG_SIDM_RAMAN
              SEFLG_SIDM_KRISHNAMURTI utc_of_local swe_utc_to_jd
              swe_get_ayanamsa_ut swe_calc_ut swe_houses_ex format_date
              birthDate birthTime geo_latitude geo_longitude timezone
              houseSystemChar ayanamsaName st chart Hc)
    as (jd & fl & st1 & loaded & Hl & _ & Hp & _).
  now exists jd, fl, st1, loaded.
Qed.

(** When the eleven identifiers of the binding are pairwise distinct, a
    chart that is returned holds exactly twelve bodies, under these
    names and in this order: the eleven of PLANET_NAMES, then Ketu. *)
Theorem chart_holds_twelve_named_bodies (chart : ChartResult) :
  NoDup (map snd PLANET_LIST') ->
  fst the_call = Return chart ->
  map fst (planets chart) = BODY_NAMES.
Proof.
  intros Hnd Hc.
  destruct (chart_positions chart Hc) as (jd & fl & st1 & loaded & Hl & ->).
  pose proof (planet_names_of_distinct_ids Hnd) as Hnames.
  assert (Hkeys : map fst loaded
                  = [ "Sun"; "Moon"; "Mercury"; "Venus"; "Mars"; "Jupiter";
                      "Saturn"; "Uranus"; "Neptune"; "Pluto"; "Rahu" ]%string).
  { rewrite (planet_loop_keys jd fl PLANET_LIST' [] st1 loaded Hl);
      cbn [map fst app]; rewrite Hnames; [reflexivity|].
    repeat (constructor;
            [cbn [In]; intros H;
             repeat (destruct H as [H|H]; [discriminate|]); exact H|]).
    constructor. }
  unfold with_ketu.
  destruct (get_property_of_key loaded "Rahu") as [R HR].
  { rewrite Hkeys. cbn [In]. tauto. }
  rewrite HR, set_property_new_key.
  - now rewrite Hkeys.
  - rewrite Hkeys. cbn [In]. intros H.
    repeat (destruct H as [H|H]; [discriminate|]). exact H.
Qed.

(** In a chart that is returned, every body, Ketu included, is flagged
    retrograde exactly when its speed in longitude is negative. *)
Theorem retrograde_flag_follows_the_speed (chart : ChartResult)
        (name : string) (position : PlanetPosition) :
  fst the_call = Return chart ->
  In (name, position) (planets chart) ->
  (isRetrograde position = true <-> speedLon position < 0).
Proof.
  intros Hc Hin.
  destruct (chart_positions chart Hc) as (jd & fl & st1 & loaded & Hl & Hp).
  assert (Hall : Forall (fun e => retrograde_by_speed (snd e)) loaded).
  { apply (planet_loop_entries retrograde_by_speed jd fl PLANET_LIST'
             (fun m id => Qltb_iff _ 0) [] st1 loaded Hl).
    constructor. }
  assert (Hk : Forall (fun e => retrograde_by_speed (snd e)) (planets chart)).
  { rewrite Hp. unfold with_ketu.
    destruct (get_property loaded "Rahu") as [R|] eqn:HR; [|exact Hall].
    apply set_property_entries; [|exact Hall].
    apply get_property_entry in HR.
    rewrite Forall_forall in Hall. exact (Hall _ HR). }
  rewrite Forall_forall in Hk. exact (Hk _ Hin).
Qed.

End Call.

End EphemerisTraceFacts.

Lemma tropical_call_leaves_the_sidereal_mode_witness :
  sid_mode (snd example_tropical_call) = 1%Z
  /\ mode_settings (calls (snd example_tropical_call)) = [].
Proof.
  destruct (tropical_call_leaves_the_sidereal_mode
              0 1 2 3 4 5 6 7 8 9 10 256 65536 (Some 1%Z) (Some 3%Z) (Some 5%Z)
              (fun _ _ _ => Return example_utc)
              (fun _ => (0%Z, 2448093 + (55 # 100)))
              (fun _ _ => 23 + (72 # 100))
              (fun _ _ id _ => example_position id)
              (fun _ _ _ _ _ _ => example_houses)
              (fun d => d)
              "1990-07-21" "09:15" (407128 # 10000) (- (740060 # 10000))
              "America/New_York" (Some "P") (Some "TROPICAL")
              {| sid_mode := 1; calls := [] |} eq_refl) as (A & B & _).
  split; [exact A|exact B].
Defined.

Lemma chart_builder_stops_at_the_first_failure_witness :
  (exists chart,
      fst (example_call example_position example_houses) = Return chart)
  /\ fst (example_call example_position failing_houses)
     = Throw (Error "Failed to calculate house cusps.").
Proof.
  assert (Hall : forall (houses : HousesResult) (id : Z),
             In id [0; 1; 2; 3; 4; 5; 6; 7; 8; 9; 10]%Z ->
             position_failed (example_position id) = false).
  { intros _ id Hin. cbn [In] in Hin.
    repeat (destruct Hin as [<-|Hin]; [reflexivity|]). contradiction. }
  split.
  - pose proof (chart_builder_stops_at_the_first_failure
                  0 1 2 3 4 5 6 7 8 9 10 256 65536
                  (Some 1%Z) (Some 3%Z) (Some 5%Z)
                  (fun _ _ _ => Return example_utc)
                  (fun _ => (0%Z, 2448093 + (55 # 100)))
                  (fun _ _ => 23 + (72 # 100))
                  (fun _ _ id _ => example_position id)
                  (fun _ _ _ _ _ _ => example_houses)
                  (fun d => d)
                  "1990-07-21" "09:15" (407128 # 10000)
                  (- (740060 # 10000))
                  "America/New_York" (Some "P") (Some "LAHIRI")
                  {| sid_mode := 0; calls := [] |}) as H.
    cbv zeta in H. destruct H as (_ & _ & H).
    destruct (H example_utc eq_refl ltac:(cbn; lia)) as [_ H2].
    destruct (H2 (Hall example_houses)) as (_ & _ & _ & Hret).
    apply Hret. reflexivity.
  - pose proof (chart_builder_stops_at_the_first_failure
                  0 1 2 3 4 5 6 7 8 9 10 256 65536
                  (Some 1%Z) (Some 3%Z) (Some 5%Z)
                  (fun _ _ _ => Return example_utc)
                  (fun _ => (0%Z, 2448093 + (55 # 100)))
                  (fun _ _ => 23 + (72 # 100))
                  (fun _ _ id _ => example_position id)
                  (fun _ _ _ _ _ _ => failing_houses)
                  (fun d => d)
                  "1990-07-21" "09:15" (407128 # 10000)
                  (- (740060 # 10000))
                  "America/New_York" (Some "P") (Some "LAHIRI")
                  {| sid_mode := 0; calls := [] |}) as H.
    cbv zeta in H. destruct H as (_ & _ & H).
    destruct (H example_utc eq_refl ltac:(cbn; lia)) as [_ H2].
    destruct (H2 (Hall failing_houses)) as (_ & _ & Hthrow & _).
    apply Hthrow. reflexivity.
Defined.

(** The dotless i is capitalised to the letter I, so that a name written
    with it is recognised like the name written in ASCII. *)
Lemma dotless_i_is_capitalised :
  toUpperCase "lahırı" = "LAHIRI"
  /\ toUpperCase "ﬁ" = "FI" /\ toUpperCase "straße" = "STRASSE"
  /\ String.length "°" = 2%nat /\ utf16_length "°" = 1%nat.
Proof. repeat split. Qed.

Lemma chart_holds_twelve_named_bodies_witness :
  exists chart,
    fst (example_call example_position example_houses) = Return chart
    /\ map fst (planets chart) = BODY_NAMES.
Proof.
  eexists. split; [vm_compute; reflexivity|].
  eapply (chart_holds_twelve_named_bodies
           0 1 2 3 4 5 6 7 8 9 10 256 65536 (Some 1%Z) (Some 3%Z) (Some 5%Z)
           (fun _ _ _ => Return example_utc)
           (fun _ => (0%Z, 2448093 + (55 # 100)))
           (fun _ _ => 23 + (72 # 100))
           (fun _ _ id _ => example_position id)
           (fun _ _ _ _ _ _ => example_houses)
           (fun d => d)
           "1990-07-21" "09:15" (407128 # 10000) (- (740060 # 10000))
           "America/New_York" (Some "P") (Some "LAHIRI")
           {| sid_mode := 0; calls := [] |}).
  - cbn [map snd PLANET_LIST].
    repeat (constructor;
            [cbn [In]; intros H;
             repeat (destruct H as [H|H]; [discriminate|]); exact H|]).
    constructor.
  - reflexivity.
Defined.

Lemma retrograde_flag_follows_the_speed_witness :
  exists chart position,
    fst (example_call example_position example_houses) = Return chart
    /\ In ("Ketu"%string, position) (planets chart)
    /\ (isRetrograde position = true <-> speedLon position < 0).
Proof.
  eexists. eexists. split; [vm_compute; reflexivity|].
  split; [do 11 right; left; reflexivity|].
  eapply (retrograde_flag_follows_the_speed
           0 1 2 3 4 5 6 7 8 9 10 256 65536 (Some 1%Z) (Some 3%Z) (Some 5%Z)
           (fun _ _ _ => Return example_utc)
           (fun _ => (0%Z, 2448093 + (55 # 100)))
           (fun _ _ => 23 + (72 # 100))
           (fun _ _ id _ => example_position id)
           (fun _ _ _ _ _ _ => example_houses)
           (fun d => d)
           "1990-07-21" "09:15" (407128 # 10000) (- (740060 # 10000))
           "America/New_York" (Some "P") (Some "LAHIRI")
           {| sid_mode := 0; calls := [] |} _ "Ketu"%string).
  - vm_compute. reflexivity.
  - do 11 right. left. reflexivity.
Defined.

(* ================================================================== *)
(** * Facts about the limits, the credits and the titles of the actions *)
(* ================================================================== *)

Import Http AstrologyActions.
Local Open Scope string_scope.

Lemma or_zero_id (n : Z) : or_zero n = n.
Proof. unfold or_zero. destruct (Z.eqb_spec n 0); congruence. Qed.

(** A user may create a chart exactly when the plan leaves room: a
    free-trial user (no plan, an empty plan or [free_trial]) with no chart
    yet, a [basic] user with fewer than three, and any user on any other
    plan.  A refusal is an HttpError 403, and a missing user a 404. *)
Theorem chart_limits_are_one_and_three
        (findUnique : Z -> option User) (userId : Z) :
  (forall user,
      findUnique userId = Some user ->
      (checkUserLimits findUnique userId "createChart" = Done user
       <-> (free_trial user = true -> (birthCharts user < 1)%Z)
           /\ (on_plan user "basic" = true -> (birthCharts user < 3)%Z))
      /\ (checkUserLimits findUnique userId "createChart" = Done user
          \/ exists message,
               checkUserLimits findUnique userId "createChart"
               = Failed (HttpError 403 message)))
  /\ (findUnique userId = None ->
      checkUserLimits findUnique userId "createChart"
      = Failed (HttpError 404 "User not found.")).
Proof.
  split.
  - intros user E. unfold checkUserLimits. rewrite E.
    change (String.eqb "createChart" "createChart") with true.
    change (String.eqb "createChart" "aiInsight") with false.
    unfold FREE_TRIAL_CHART_LIMIT, BASIC_PLAN_CHART_LIMIT, forbidden.
    destruct (free_trial user), (on_plan user "basic");
      destruct (Z.leb_spec 1 (birthCharts user));
      destruct (Z.leb_spec 3 (birthCharts user));
      cbn [andb and_then];
      (split;
       [split;
        [intros Hdone; first [discriminate Hdone
                         |split; intros; first [congruence|lia]]
        |intros [Hl1 Hl2];
         first [reflexivity
               |exfalso; first [specialize (Hl1 eq_refl); lia
                               |specialize (Hl2 eq_refl); lia]]]
       |first [left; reflexivity|right; eexists; reflexivity]]).
  - intros E. unfold checkUserLimits. now rewrite E.
Qed.

(** A user may ask for an insight exactly when a free-trial or [basic]
    plan still has a positive credit; any other plan, [premium] among
    them, is never refused, whatever its credits.  A refusal is an
    HttpError 403. *)
Theorem insight_needs_a_credit_on_limited_plans
        (findUnique : Z -> option User) (userId : Z) (user : User) :
  findUnique userId = Some user ->
  (checkUserLimits findUnique userId "aiInsight" = Done user
   <-> (free_trial user = true \/ on_plan user "basic" = true ->
        (0 < credits user)%Z))
  /\ (checkUserLimits findUnique userId "aiInsight" = Done user
      \/ exists message,
           checkUserLimits findUnique userId "aiInsight"
           = Failed (HttpError 403 message)).
Proof.
  intros E. unfold checkUserLimits. rewrite E.
  change (String.eqb "aiInsight" "createChart") with false.
  change (String.eqb "aiInsight" "aiInsight") with true.
  unfold forbidden. rewrite or_zero_id.
  destruct (free_trial user), (on_plan user "basic");
    destruct (Z.leb_spec (credits user) 0);
    cbn [andb and_then];
    (split;
     [split;
      [intros Hdone; first [discriminate Hdone
                       |intros [?|?]; first [congruence|lia]]
      |intros Hl1;
       first [reflexivity
             |exfalso; first [specialize (Hl1 (or_introl eq_refl)); lia
                             |specialize (Hl1 (or_intror eq_refl)); lia]]]
     |first [left; reflexivity|right; eexists; reflexivity]]).
Qed.

Lemma insight_needs_a_credit_on_limited_plans_witness :
  checkUserLimits
    (fun _ => Some {| id := 7; planId := Some "premium"; credits := - (2);
                      birthCharts := 40 |}) 7 "aiInsight"
  = Done {| id := 7; planId := Some "premium"; credits := - (2);
            birthCharts := 40 |}.
Proof.
  apply (insight_needs_a_credit_on_limited_plans
           (fun _ => Some {| id := 7; planId := Some "premium";
                             credits := - (2); birthCharts := 40 |})
           7 _ eq_refl).
  intros [H|H]; discriminate.
Defined.

Lemma passed_insight_check (users : Z -> option User) (userId : Z)
      (user : User) :
  checkUserLimits users userId "aiInsight" = Done user ->
  users userId = Some user
  /\ (free_trial user = true \/ on_plan user "basic" = true ->
      (0 < credits user)%Z).
Proof.
  unfold checkUserLimits. destruct (users userId) as [u|]; [|discriminate].
  change (String.eqb "aiInsight" "createChart") with false.
  change (String.eqb "aiInsight" "aiInsight") with true.
  unfold forbidden. rewrite or_zero_id.
  destruct (free_trial u) eqn:Ef, (on_plan u "basic") eqn:Eb;
    destruct (Z.leb_spec (credits u) 0) as [Hle|Hlt];
    cbn [andb and_then]; intros Hd;
    first [discriminate Hd | injection Hd as <-];
    (split; [reflexivity|]); rewrite Ef, Eb;
    intros [?|?]; first [congruence|lia].
Qed.

(** After the insight check has passed, spending the credit leaves a
    free-trial or [basic] user with a credit count that is not negative;
    a [premium] user is not charged; a user on any other plan is charged
    without a check; and no other row of the table changes. *)
Theorem checked_credit_is_never_overdrawn
        (users : Z -> option User) (userId : Z) (user : User) :
  checkUserLimits users userId "aiInsight" = Done user ->
  exists after,
    decrementUserCredits users userId None userId = Some after
    /\ planId after = planId user
    /\ (on_plan user "premium" = true -> credits after = credits user)
    /\ (on_plan user "premium" = false ->
        credits after = (credits user - 1)%Z)
    /\ (free_trial user = true \/ on_plan user "basic" = true ->
        (0 <= credits after)%Z)
    /\ forall other,
        other <> userId ->
        decrementUserCredits users userId None other = users other.
Proof.
  intros Hc.
  destruct (passed_insight_check users userId user Hc) as [E Hpos].
  unfold decrementUserCredits. rewrite E.
  destruct (on_plan user "premium") eqn:Ep; cbn [negb].
  - exists user. split; [exact E|]. split; [reflexivity|].
    split; [reflexivity|]. split; [discriminate|].
    split; [intros H; specialize (Hpos H); lia|reflexivity].
  - rewrite Z.eqb_refl. eexists. split; [reflexivity|].
    cbn [planId credits]. split; [reflexivity|].
    split; [discriminate|]. split; [reflexivity|].
    split; [intros H; specialize (Hpos H); lia|].
    intros other Ho. apply Z.eqb_neq in Ho. now rewrite Ho.
Qed.

Lemma checked_credit_is_never_overdrawn_witness :
  exists after,
    decrementUserCredits
      (fun _ => Some {| id := 7; planId := Some "basic"; credits := 1;
                        birthCharts := 2 |}) 7 None 7 = Some after
    /\ credits after = 0%Z.
Proof.
  destruct (checked_credit_is_never_overdrawn
              (fun _ => Some {| id := 7; planId := Some "basic"; credits := 1;
                                birthCharts := 2 |}) 7 _ eq_refl)
    as (after & E & _ & _ & H & _).
  exists after. split; [exact E|]. now rewrite H.
Defined.

(** The initial insight of [createBirthChart] is not credit-checked: a
    free-trial user without a chart passes the chart limit whatever the
    credits, is due the initial insight, and is charged one credit for
    it, so the count can go below zero. *)
Theorem initial_insight_is_charged_without_a_check
        (users : Z -> option User) (userId : Z) (user : User) :
  users userId = Some user ->
  free_trial user = true ->
  birthCharts user = 0%Z ->
  checkUserLimits users userId "createChart" = Done user
  /\ initial_insight_due user = true
  /\ exists after,
      decrementUserCredits users userId None userId = Some after
      /\ credits after = (credits user - 1)%Z.
Proof.
  intros E Hf Hb.
  assert (Hp : on_plan user "premium" = false /\ on_plan user "basic" = false).
  { unfold free_trial, on_plan in *. destruct (planId user) as [p|];
      [|now split].
    apply orb_true_iff in Hf. destruct Hf as [Hf|Hf].
    - apply negb_true_iff in Hf. unfold truthy_string in Hf.
      apply negb_false_iff, String.eqb_eq in Hf. now subst p.
    - apply String.eqb_eq in Hf. now subst p. }
  destruct Hp as [Hp Hbasic].
  split; [|split].
  - unfold checkUserLimits. rewrite E.
    change (String.eqb "createChart" "createChart") with true.
    change (String.eqb "createChart" "aiInsight") with false.
    rewrite Hf, Hbasic, Hb. reflexivity.
  - unfold initial_insight_due. now rewrite Hf, Hb.
  - unfold decrementUserCredits. rewrite E, Hp. cbn [negb].
    rewrite Z.eqb_refl. eexists. split; reflexivity.
Qed.

Lemma initial_insight_is_charged_without_a_check_witness :
  exists after,
    decrementUserCredits
      (fun _ => Some {| id := 7; planId := None; credits := 0;
                        birthCharts := 0 |}) 7 None 7 = Some after
    /\ credits after = (- (1))%Z.
Proof.
  destruct (initial_insight_is_charged_without_a_check
              (fun _ => Some {| id := 7; planId := None; credits := 0;
                                birthCharts := 0 |}) 7 _
              eq_refl eq_refl eq_refl)
    as (_ & _ & after & E & H).
  exists after. split; [exact E|exact H].
Defined.

(** ** Prompts *)

(** For an [analysisType] that the question schema lets through (absent,
    or one of the four analysis kinds) the system prompt is always a
    text, never an inherited member of the table: the prompt of the kind
    when one is given; the birth-chart prompt for the first question of a
    conversation; the follow-up prompt, which quotes the question, for a
    later one. *)
Theorem validated_question_gets_a_text_prompt
        {M : Type} (analysisType : option string) (existingMessages : list M)
        (question : string) :
  (forall a, analysisType = Some a -> In a ANALYSIS_TYPES) ->
  exists text,
    question_system_prompt analysisType existingMessages question
    = Actions.PromptText text
    /\ (forall a, analysisType = Some a ->
                  JsObject.own Claude.SYSTEM_PROMPTS a = Some text)
    /\ (analysisType = None -> existingMessages = [] ->
        text = Claude.BIRTH_CHART_ANALYSIS)
    /\ (analysisType = None -> existingMessages <> [] ->
        text = follow_up_prompt question).
Proof.
  intros Hv. unfold question_system_prompt.
  destruct analysisType as [a|].
  - specialize (Hv a eq_refl). cbn [ANALYSIS_TYPES In] in Hv.
    destruct Hv as [<-|[<-|[<-|[<-|[]]]]];
      cbv zeta; cbn [truthy_string negb String.eqb Ascii.eqb Bool.eqb];
      rewrite andb_false_r;
      (eexists; split; [reflexivity|];
       split; [intros a' [= <-]; reflexivity|split; discriminate]).
  - cbv zeta. destruct existingMessages as [|m rest]; cbn [List.length].
    + exists Claude.BIRTH_CHART_ANALYSIS. split; [reflexivity|].
      split; [discriminate|]. split; [reflexivity|]. intros _ H. now elim H.
    + exists (follow_up_prompt question). split; [reflexivity|].
      split; [discriminate|]. split; [discriminate|reflexivity].
Qed.

Lemma validated_question_gets_a_text_prompt_witness :
  exists text,
    question_system_prompt (Some "REMEDIAL_MEASURES") [tt] "Which gemstone?"
    = Actions.PromptText text
    /\ JsObject.own Claude.SYSTEM_PROMPTS "REMEDIAL_MEASURES" = Some text.
Proof.
  destruct (validated_question_gets_a_text_prompt
              (Some "REMEDIAL_MEASURES") [tt] "Which gemstone?")
    as (text & E & H & _).
  { intros a [= <-]. cbn. tauto. }
  exists text. split; [exact E|]. now apply H.
Defined.

(* ================================================================== *)
(** * Facts about the deletion of a chart *)
(* ================================================================== *)

(** [deleteBirthChart] deletes nothing unless the caller is signed in,
    names a chart that exists, and owns it or is an administrator.  For
    such a caller it deletes the messages of the chart named, then its
    conversations, then the chart itself, in that order, as far as the
    database accepts the deletions: when all three are accepted it has
    carried out all three and answers with success, and it answers with
    success in no other case.  The deletions are not undone when a later
    one is rejected: with the messages deleted and the deletion of the
    conversations rejected, the action fails with status 500 and the
    messages stay deleted. *)
Theorem chart_is_deleted_by_owner_or_admin_children_first
        (findUnique : Z -> option BirthChartRow) (accepts : deletion -> bool)
        (chartId : option Z) (user : option ContextUser) :
  let run := deleteBirthChart findUnique accepts chartId user in
  (snd run <> [] ->
   exists u c chart,
     user = Some u /\ chartId = Some c /\ findUnique c = Some chart
     /\ (chart_userId chart = user_id u \/ isAdmin u = true))
  /\ (fst run = Done deleted ->
      exists c,
        chartId = Some c
        /\ snd run = [DeleteMessages c; DeleteConversations c;
                      DeleteBirthChart c])
  /\ (forall u c chart,
         user = Some u -> chartId = Some c -> c <> 0%Z ->
         findUnique c = Some chart ->
         chart_userId chart = user_id u \/ isAdmin u = true ->
         let all := [DeleteMessages c; DeleteConversations c;
                     DeleteBirthChart c] in
         (exists k, snd run = firstn k all)
         /\ (forallb accepts all = true -> run = (Done deleted, all))
         /\ (fst run = Done deleted <-> forallb accepts all = true)
         /\ (accepts (DeleteMessages c) = true ->
             accepts (DeleteConversations c) = false ->
             run = (Failed (HttpError 500 "Failed to delete birth chart."),
                    [DeleteMessages c]))).
Proof.
  cbv zeta. split; [|split].
  - unfold deleteBirthChart.
    destruct user as [u|]; [|cbn [snd]; congruence].
    destruct chartId as [c|]; [|cbn [snd]; congruence].
    destruct (Z.eqb c 0); [cbn [snd]; congruence|].
    destruct (findUnique c) as [chart|] eqn:Ef; [|cbn [snd]; congruence].
    destruct (negb (Z.eqb (chart_userId chart) (user_id u))
              && negb (isAdmin u)) eqn:Ea; [cbn [snd]; congruence|].
    intros _. exists u, c, chart.
    split; [reflexivity|]. split; [reflexivity|]. split; [exact Ef|].
    apply andb_false_iff in Ea. destruct Ea as [Ea|Ea].
    + left. apply negb_false_iff in Ea. now apply Z.eqb_eq.
    + right. now apply negb_false_iff in Ea.
  - unfold deleteBirthChart.
    destruct user as [u|]; [|discriminate].
    destruct chartId as [c|]; [|discriminate].
    destruct (Z.eqb c 0); [discriminate|].
    destruct (findUnique c) as [chart|]; [|discriminate].
    destruct (negb _ && negb _); [discriminate|]. cbv zeta.
    destruct (accepts (DeleteMessages c)); [|discriminate].
    destruct (accepts (DeleteConversations c)); [|discriminate].
    destruct (accepts (DeleteBirthChart c)); [|discriminate].
    intros _. now exists c.
  - intros u c chart -> -> Hc Hf Hauth. unfold deleteBirthChart.
    apply Z.eqb_neq in Hc. rewrite Hc, Hf.
    assert (Ea : negb (Z.eqb (chart_userId chart) (user_id u))
                 && negb (isAdmin u) = false).
    { apply andb_false_iff. destruct Hauth as [E|E].
      - left. apply negb_false_iff. now apply Z.eqb_eq.
      - right. now rewrite E. }
    rewrite Ea. cbv zeta. cbn [forallb].
    destruct (accepts (DeleteMessages c)); cbn [negb andb fst snd].
    2:{ split; [now exists 0%nat|].
        split; [discriminate|]. split; [split; discriminate|discriminate]. }
    destruct (accepts (DeleteConversations c)); cbn [negb andb fst snd].
    2:{ split; [now exists 1%nat|].
        split; [discriminate|]. split; [split; discriminate|reflexivity]. }
    destruct (accepts (DeleteBirthChart c)); cbn [negb andb fst snd].
    2:{ split; [now exists 2%nat|].
        split; [discriminate|]. split; [split; discriminate|discriminate]. }
    split; [now exists 3%nat|].
    split; [reflexivity|]. split; [split; reflexivity|discriminate].
Qed.

Lemma chart_is_deleted_by_owner_or_admin_children_first_witness :
  deleteBirthChart (fun _ => Some {| chart_userId := 7 |}) (fun _ => true)
                   (Some 12%Z) (Some {| user_id := 7; isAdmin := false |})
  = (Done deleted,
     [DeleteMessages 12; DeleteConversations 12; DeleteBirthChart 12]).
Proof.
  destruct (chart_is_deleted_by_owner_or_admin_children_first
              (fun _ => Some {| chart_userId := 7 |}) (fun _ => true)
              (Some 12%Z) (Some {| user_id := 7; isAdmin := false |}))
    as (_ & _ & H).
  destruct (H {| user_id := 7; isAdmin := false |} 12%Z
              {| chart_userId := 7 |} eq_refl eq_refl ltac:(discriminate)
              eq_refl (or_introl eq_refl)) as (_ & All & _).
  exact (All eq_refl).
Defined.

(* ================================================================== *)
(** * Facts about the plan table *)
(* ================================================================== *)

Section PlanFacts.

Variables BASIC_PLAN_PRICE_ID PREMIUM_PLAN_PRICE_ID : option string.

Abbreviation getPlanDetailsById' :=
  (Stripe.getPlanDetailsById BASIC_PLAN_PRICE_ID PREMIUM_PLAN_PRICE_ID).
Abbreviation PLAN_DETAILS' :=
  (Stripe.PLAN_DETAILS BASIC_PLAN_PRICE_ID PREMIUM_PLAN_PRICE_ID).
Abbreviation basic_plan :=
  {| Stripe.planId := "basic";
     Stripe.detail := {| Stripe.priceId := BASIC_PLAN_PRICE_ID;
                         Stripe.name := "Basic Plan";
                         Stripe.credits := 50 |} |}.
Abbreviation premium_plan :=
  {| Stripe.planId := "premium";
     Stripe.detail := {| Stripe.priceId := PREMIUM_PLAN_PRICE_ID;
                         Stripe.name := "Premium Plan";
                         Stripe.credits := 200 |} |}.

Lemma strict_eq_iff (a b : option string) :
  Stripe.strict_eq a b = true <-> a = b.
Proof.
  destruct a as [x|], b as [y|]; cbn; try (split; congruence).
  rewrite String.eqb_eq. split; congruence.
Qed.

Lemma plan_of_price (priceId : option string) :
  getPlanDetailsById' priceId
  = if Stripe.strict_eq BASIC_PLAN_PRICE_ID priceId then Some basic_plan
    else if Stripe.strict_eq PREMIUM_PLAN_PRICE_ID priceId
         then Some premium_plan else None.
Proof. reflexivity. Qed.

(** The plan of a price is the first plan of the table, [basic] before
    [premium], whose configured price identifier is strictly equal to it,
    and null when neither is.  Looking up the price of the basic plan
    gives the basic plan; looking up the price of the premium plan gives
    the premium plan exactly when the two prices differ: with equal
    identifiers, and so with both left unset, every lookup that matches,
    that of a missing price included, gives the basic plan. *)
Theorem plan_lookup_returns_the_first_plan_with_the_price
        (priceId : option string) :
  let lookup :=
    Stripe.getPlanDetailsById BASIC_PLAN_PRICE_ID PREMIUM_PLAN_PRICE_ID in
  (forall m, lookup priceId = Some m ->
             Stripe.priceId (Stripe.detail m) = priceId
             /\ In (Stripe.planId m, Stripe.detail m) PLAN_DETAILS')
  /\ (lookup priceId = None <->
      BASIC_PLAN_PRICE_ID <> priceId /\ PREMIUM_PLAN_PRICE_ID <> priceId)
  /\ lookup BASIC_PLAN_PRICE_ID = Some basic_plan
  /\ (lookup PREMIUM_PLAN_PRICE_ID = Some premium_plan <->
      BASIC_PLAN_PRICE_ID <> PREMIUM_PLAN_PRICE_ID)
  /\ (BASIC_PLAN_PRICE_ID = PREMIUM_PLAN_PRICE_ID ->
      lookup PREMIUM_PLAN_PRICE_ID = Some basic_plan).
Proof.
  cbv zeta. rewrite !plan_of_price.
  split; [|split; [|split; [|split]]].
  - intros m.
    destruct (Stripe.strict_eq BASIC_PLAN_PRICE_ID priceId) eqn:Eb.
    + apply strict_eq_iff in Eb. intros [= <-]. cbn. split; [exact Eb|now left].
    + destruct (Stripe.strict_eq PREMIUM_PLAN_PRICE_ID priceId) eqn:Ep;
        [|discriminate].
      apply strict_eq_iff in Ep. intros [= <-]. cbn.
      split; [exact Ep|right; now left].
  - destruct (Stripe.strict_eq BASIC_PLAN_PRICE_ID priceId) eqn:Eb.
    + apply strict_eq_iff in Eb. split; [discriminate|tauto].
    + destruct (Stripe.strict_eq PREMIUM_PLAN_PRICE_ID priceId) eqn:Ep.
      * apply strict_eq_iff in Ep. split; [discriminate|tauto].
      * split; [intros _|reflexivity].
        split; intros H; apply strict_eq_iff in H; congruence.
  - assert (E : Stripe.strict_eq BASIC_PLAN_PRICE_ID BASIC_PLAN_PRICE_ID
                = true) by (now apply strict_eq_iff).
    now rewrite E.
  - destruct (Stripe.strict_eq BASIC_PLAN_PRICE_ID PREMIUM_PLAN_PRICE_ID)
      eqn:Eb.
    + apply strict_eq_iff in Eb. split; [discriminate|tauto].
    + assert (E : Stripe.strict_eq PREMIUM_PLAN_PRICE_ID PREMIUM_PLAN_PRICE_ID
                  = true) by (now apply strict_eq_iff).
      rewrite E. split; [intros _ H|reflexivity].
      apply strict_eq_iff in H. congruence.
  - intros E. apply strict_eq_iff in E. now rewrite E.
Qed.

(** The checkout accepts a plan exactly when it is [basic] or [premium]
    and the price identifier of that plan is configured and not empty;
    every other name is refused with status 400, the names that every
    object inherits ([constructor], [toString], ...) among them.  A plan
    name that the action has let through is therefore refused only for a
    missing price. *)
Theorem checkout_accepts_configured_plans_only (planId : string) :
  (forall d,
      Stripe.checkout_plan BASIC_PLAN_PRICE_ID PREMIUM_PLAN_PRICE_ID planId
      = Done d
      <-> exists price,
            truthy_string price = true
            /\ Stripe.priceId d = Some price
            /\ In (planId, d) PLAN_DETAILS')
  /\ (Stripe.checkout_plan BASIC_PLAN_PRICE_ID PREMIUM_PLAN_PRICE_ID planId
      = Failed (HttpError 400
                  ("Invalid plan ID or price ID not configured for: "
                     ++ planId))
      \/ exists d,
           Stripe.checkout_plan BASIC_PLAN_PRICE_ID PREMIUM_PLAN_PRICE_ID
                                planId = Done d)
  /\ (Stripe.plan_id_refused (Some planId) = false ->
      planId = "basic" \/ planId = "premium").
Proof.
  assert (Hget : JsObject.get PLAN_DETAILS' planId
                 = if String.eqb "premium" planId
                   then JsObject.Own (Stripe.detail premium_plan)
                   else if String.eqb "basic" planId
                        then JsObject.Own (Stripe.detail basic_plan)
                        else if existsb (String.eqb planId)
                                        JsObject.Object_prototype_keys
                             then JsObject.Inherited planId
                             else JsObject.Undefined).
  { unfold JsObject.get, Stripe.PLAN_DETAILS. cbn [JsObject.own].
    destruct (String.eqb "premium" planId); [reflexivity|].
    destruct (String.eqb "basic" planId); reflexivity. }
  unfold Stripe.checkout_plan. rewrite Hget. clear Hget.
  split; [|split].
  - intros d.
    destruct (String.eqb_spec "premium" planId) as [<-|Np].
    + cbn [Stripe.detail Stripe.priceId].
      destruct PREMIUM_PLAN_PRICE_ID as [p|] eqn:Ep.
      * destruct (truthy_string p) eqn:Et.
        -- split.
           ++ intros [= <-]. exists p. cbn. repeat split; trivial.
              right. now left.
           ++ intros (price & _ & _ & [[=]|[[= <-]|[]]]). reflexivity.
        -- split; [discriminate|].
           intros (price & Ht & Hp & [[=]|[[= <-]|[]]]).
           cbn in Hp. congruence.
      * split; [discriminate|].
        intros (price & Ht & Hp & [[=]|[[= <-]|[]]]). discriminate.
    + destruct (String.eqb_spec "basic" planId) as [<-|Nb].
      * cbn [Stripe.detail Stripe.priceId].
        destruct BASIC_PLAN_PRICE_ID as [p|] eqn:Ep.
        -- destruct (truthy_string p) eqn:Et.
           ++ split.
              ** intros [= <-]. exists p. cbn. repeat split; trivial.
                 now left.
              ** intros (price & _ & _ & [[= <-]|[[=]|[]]]). reflexivity.
           ++ split; [discriminate|].
              intros (price & Ht & Hp & [[= <-]|[[=]|[]]]).
              cbn in Hp. congruence.
        -- split; [discriminate|].
           intros (price & Ht & Hp & [[= <-]|[[=]|[]]]). discriminate.
      * split.
        -- destruct (existsb _ _); discriminate.
        -- intros (price & _ & _ & [[= E _]|[[= E _]|[]]]); congruence.
  - destruct (String.eqb "premium" planId).
    + cbn [Stripe.detail Stripe.priceId].
      destruct PREMIUM_PLAN_PRICE_ID as [p|]; [|now left].
      destruct (truthy_string p); [right; eauto|now left].
    + destruct (String.eqb "basic" planId).
      * cbn [Stripe.detail Stripe.priceId].
        destruct BASIC_PLAN_PRICE_ID as [p|]; [|now left].
        destruct (truthy_string p); [right; eauto|now left].
      * destruct (existsb _ _); now left.
  - unfold Stripe.plan_id_refused. intros H.
    apply orb_false_iff in H. destruct H as [_ H].
    apply andb_false_iff in H.
    destruct H as [H|H]; apply negb_false_iff, String.eqb_eq in H; auto.
Qed.

End PlanFacts.

(* ================================================================== *)
(** * From the chart builder to the serialiser *)
(* ================================================================== *)

Lemma built_chart_is_complete (chart : Ephemeris.ChartResult)
      (name : string) (gender : option string) :
  Ephemeris.ascendant (Ephemeris.houses chart) <> None ->
  Ephemeris.mc (Ephemeris.houses chart) <> None ->
  chart_complete (chartDataForXML chart name gender) = true.
Proof.
  intros Ha Hm. unfold chartDataForXML, chart_complete.
  destruct (Ephemeris.location chart) as [[la lo] tz].
  cbn [AstroLogic.planets AstroLogic.houses AstroLogic.cusps
       AstroLogic.ascendant AstroLogic.mc AstroLogic.houseSystem present].
  destruct (Ephemeris.ascendant (Ephemeris.houses chart)); [|congruence].
  destruct (Ephemeris.mc (Ephemeris.houses chart)); [|congruence].
  cbn [present]. rewrite !andb_true_r.
  apply andb_true_iff. split.
  - apply forallb_forall. intros e He. apply in_map_iff in He.
    now destruct He as (x & <- & _).
  - unfold named_ayanamsa. cbn [AstroLogic.ayanamsa].
    destruct (Ephemeris.ayanamsa chart) as [[n v]|]; [|reflexivity].
    cbn [AstroLogic.ayanamsa_name AstroLogic.ayanamsa_value].
    destruct (truthy_string n); reflexivity.
Qed.

Section BuiltChart.

Variables SE_SUN SE_MOON SE_MERCURY SE_VENUS SE_MARS SE_JUPITER SE_SATURN
          SE_URANUS SE_NEPTUNE SE_PLUTO SE_MEAN_NODE : Z.
Variables SEFLG_SPEED SEFLG_SIDEREAL : Z.
Variables SEFLG_SIDM_LAHIRI SEFLG_SIDM_RAMAN SEFLG_SIDM_KRISHNAMURTI
  : option Z.
Variable utc_of_local : string -> string -> string -> completion UtcDate.
Variable swe_utc_to_jd : UtcDate -> Z * Q.
Variable swe_get_ayanamsa_ut : Z -> Q -> Q.
Variable swe_calc_ut : Z -> Q -> Z -> Z -> CalcResult.
Variable swe_houses_ex : Z -> Q -> Z -> Q -> Q -> option nat -> HousesResult.
Variable format_date : string -> string.

Variables (birthDate birthTime : string) (geo_latitude geo_longitude : Q)
          (timezone : string) (houseSystemChar ayanamsaName : option string)
          (st : Sweph).

Abbreviation the_call :=
  (calculateBirthChartData
     SE_SUN SE_MOON SE_MERCURY SE_VENUS SE_MARS SE_JUPITER SE_SATURN
     SE_URANUS SE_NEPTUNE SE_PLUTO SE_MEAN_NODE SEFLG_SPEED SEFLG_SIDEREAL
     SEFLG_SIDM_LAHIRI SEFLG_SIDM_RAMAN SEFLG_SIDM_KRISHNAMURTI
     utc_of_local swe_utc_to_jd swe_get_ayanamsa_ut swe_calc_ut
     swe_houses_ex format_date
     birthDate birthTime geo_latitude geo_longitude timezone
     houseSystemChar ayanamsaName st).

(** A chart that the builder returns, with [name] and [gender] spread
    in as [createBirthChart] does, is serialised without a throw and
    without the error element whenever the house oracle has supplied the
    ascendant and the midheaven: every field that the serialiser reads
    unguarded is set by the builder.  The house list of the chart has at
    most twelve cusps, those after the first entry of the oracle's
    list. *)
Theorem built_chart_is_serialised (chart : Ephemeris.ChartResult)
        (name : string) (gender : option string) :
  fst the_call = Return chart ->
  Ephemeris.ascendant (Ephemeris.houses chart) <> None ->
  Ephemeris.mc (Ephemeris.houses chart) <> None ->
  (exists text,
      formatBirthChartDataAsXML (Some (chartDataForXML chart name gender))
      = Return text
      /\ starts_with ("<birth_chart_details>" ++ nl) text
      /\ text <> "<error>Insufficient chart data provided</error>")
  /\ (List.length (Ephemeris.cusps (Ephemeris.houses chart)) <= 12)%nat
  /\ Ephemeris.houseSystem chart = given_house_system houseSystemChar.
Proof.
  intros Hc Ha Hm. split.
  - destruct (chart_returns_text (chartDataForXML chart name gender)
                (built_chart_is_complete chart name gender Ha Hm))
      as (text & E & Hs).
    exists text. split; [exact E|]. split; [exact Hs|].
    destruct Hs as [rest ->]. discriminate.
  - clear Ha Hm.
    assert (H : exists h,
               Ephemeris.cusps (Ephemeris.houses chart)
               = firstn 12 (skipn 1 (houses_cusps h))
               /\ Ephemeris.houseSystem chart
                  = given_house_system houseSystemChar).
    { revert Hc. unfold calculateBirthChartData, getJulianDayUT.
      destruct (utc_of_local birthDate birthTime timezone) as [utc|e];
        [|discriminate].
      destruct (swe_utc_to_jd utc) as [r jd].
      destruct (Z.ltb r 0); [discriminate|].
      destruct (recognised_mode _ _ _ _) as [m|]; cbv beta iota zeta;
        match goal with
        | |- context [planet_loop ?a1 ?a2 ?a3 ?a4 ?a5 ?a6 ?a7 ?a8 ?a9 ?a10
                                  ?a11 ?c ?jd' ?fl ?l ?ps ?s] =>
            destruct (planet_loop a1 a2 a3 a4 a5 a6 a7 a8 a9 a10 a11
                                  c jd' fl l ps s) as [[loaded|e] st2];
            [|discriminate]
        end;
        (destruct (Z.ltb _ 0 || truthy_string _); [discriminate|]);
        cbn [fst]; intros [= <-]; eexists; split; reflexivity. }
    destruct H as (h & -> & ->). split; [apply firstn_le_length|reflexivity].
Qed.

End BuiltChart.

Lemma built_chart_is_serialised_witness :
  exists chart text,
    fst (example_call example_position example_houses) = Return chart
    /\ formatBirthChartDataAsXML (Some (chartDataForXML chart "Asha" None))
       = Return text
    /\ starts_with ("<birth_chart_details>" ++ nl) text.
Proof.
  eexists.
  destruct (built_chart_is_serialised
              0 1 2 3 4 5 6 7 8 9 10 256 65536 (Some 1%Z) (Some 3%Z) (Some 5%Z)
              (fun _ _ _ => Return example_utc)
              (fun _ => (0%Z, 2448093 + (55 # 100)))
              (fun _ _ => 23 + (72 # 100))
              (fun _ _ id _ => example_position id)
              (fun _ _ _ _ _ _ => example_houses)
              (fun d => d)
              "1990-07-21" "09:15" (407128 # 10000) (- (740060 # 10000))
              "America/New_York" (Some "P") (Some "LAHIRI")
              {| sid_mode := 0; calls := [] |} _ "Asha" None eq_refl)
    as ((text & E & Hs & _) & _).
  - vm_compute. discriminate.
  - vm_compute. discriminate.
  - exists text. split; [reflexivity|]. split; [exact E|exact Hs].
Defined.

(* ================================================================== *)
(** * Facts about the geolocation requests *)
(* ================================================================== *)

Section GeolocationFacts.

Variable GOOGLE_MAPS_API_KEY : option string.
Variable Status_OK : string.
Variable client_geocode :
  Geolocation.GeocodeParams -> Geolocation.GeocodeData + Geolocation.Caught.
Variable client_timezone :
  Geolocation.TimezoneParams -> Geolocation.TimezoneData + Geolocation.Caught.
Variable apiLog_create : Geolocation.ApiLog -> bool.

Variables (address : string) (userId : option Z).

Abbreviation geocoded :=
  (Geolocation.geocodeAddress GOOGLE_MAPS_API_KEY Status_OK client_geocode
                              apiLog_create address userId).
Abbreviation the_client := (Geolocation.client GOOGLE_MAPS_API_KEY).

(** Without an API key [geocodeAddress] sends nothing and records
    nothing.  With one it sends exactly one request, and records what it
    answers: the last ledger record is a success record exactly when a
    location is returned, and it is the only record, except that an
    answer whose first result has a geometry without location leaves a
    success record before the failure record. *)
Theorem geocoding_records_what_it_answers :
  (the_client = None ->
   geocoded
   = (Throw (Error "Geolocation service is currently unavailable."), []))
  /\ (forall key,
         the_client = Some key ->
         Geolocation.requests (snd geocoded)
         = [Geolocation.GeocodeRequest
              {| Geolocation.address := address;
                 Geolocation.geocode_key := key |}]
         /\ exists earlier last,
             Geolocation.ledger (snd geocoded) = (earlier ++ [last])%list
             /\ (Geolocation.isSuccess last = true <->
                 exists geo, fst geocoded = Return (Some geo))
             /\ (earlier = []
                 \/ exists first data result rest,
                      earlier = [first]
                      /\ Geolocation.isSuccess first = true
                      /\ Geolocation.isSuccess last = false
                      /\ client_geocode
                           {| Geolocation.address := address;
                              Geolocation.geocode_key := key |} = inl data
                      /\ Geolocation.results data = result :: rest
                      /\ Geolocation.geometry result = Some None)).
Proof.
  unfold Geolocation.geocodeAddress. split.
  - intros ->. reflexivity.
  - intros key ->. cbv zeta.
    destruct (client_geocode _) as [data|error] eqn:Ec.
    2:{ cbn [fst snd Geolocation.requests Geolocation.ledger
             Geolocation.logGoogleApiCall app].
        split; [reflexivity|]. eexists [], _. split; [reflexivity|].
        split; [|now left].
        cbn [Geolocation.isSuccess]. split; [discriminate|intros [g [=]]]. }
    destruct (String.eqb (Geolocation.status data) Status_OK).
    2:{ cbn [fst snd Geolocation.requests Geolocation.ledger
             Geolocation.logGoogleApiCall app].
        split; [reflexivity|]. eexists [], _. split; [reflexivity|].
        split; [|now left].
        cbn [Geolocation.isSuccess]. split; [discriminate|intros [g [=]]]. }
    destruct (Geolocation.results data) as [|result rest] eqn:Er.
    { cbn [fst snd Geolocation.requests Geolocation.ledger
           Geolocation.logGoogleApiCall app].
      split; [reflexivity|]. eexists [], _. split; [reflexivity|].
      split; [|now left].
      cbn [Geolocation.isSuccess]. split; [discriminate|intros [g [=]]]. }
    destruct (Geolocation.geometry result) as [[l|]|] eqn:Eg;
      cbn [fst snd Geolocation.requests Geolocation.ledger
           Geolocation.logGoogleApiCall app].
    + split; [reflexivity|]. eexists [], _. split; [reflexivity|].
      split; [|now left].
      cbn [Geolocation.isSuccess]. split; [intros _; eauto|reflexivity].
    + split; [reflexivity|]. eexists [_], _. split; [reflexivity|].
      cbn [Geolocation.isSuccess]. split.
      * split; [discriminate|intros [g [=]]].
      * right. eexists _, data, result, rest.
        repeat split; trivial.
    + split; [reflexivity|]. eexists [], _. split; [reflexivity|].
      split; [|now left].
      cbn [Geolocation.isSuccess]. split; [discriminate|intros [g [=]]].
Qed.

(** [geocodeAddress] answers null, without throwing, exactly when the
    provider answers with a status other than OK or with an empty list of
    results.  A location it returns is that of the first result of an OK
    answer.  Every error it throws for a request is an [Error] that
    quotes the message of its cause, and the last ledger record carries
    that same message. *)
Theorem geocoding_null_means_no_match (key : string) :
  the_client = Some key ->
  let params := {| Geolocation.address := address;
                   Geolocation.geocode_key := key |} in
  (fst geocoded = Return None <->
   exists data,
     client_geocode params = inl data
     /\ (Geolocation.status data <> Status_OK
         \/ Geolocation.results data = []))
  /\ (forall geo,
         fst geocoded = Return (Some geo) ->
         exists data result rest l,
           client_geocode params = inl data
           /\ Geolocation.status data = Status_OK
           /\ Geolocation.results data = result :: rest
           /\ Geolocation.geometry result = Some (Some l)
           /\ Geolocation.latitude geo = Geolocation.lat l
           /\ Geolocation.longitude geo = Geolocation.lng l
           /\ Geolocation.formattedAddress geo
              = Geolocation.formatted_address result)
  /\ (forall e,
         fst geocoded = Throw e ->
         exists cause earlier last,
           e = Error ("Geocoding request failed: "
                        ++ Geolocation.message cause)
           /\ Geolocation.ledger (snd geocoded) = (earlier ++ [last])%list
           /\ Geolocation.isSuccess last = false
           /\ Geolocation.logged_error last
              = Some (Geolocation.message cause)).
Proof.
  intros Hk. cbv zeta. unfold Geolocation.geocodeAddress. rewrite Hk.
  cbv zeta.
  destruct (client_geocode _) as [data|error] eqn:Ec.
  2:{ cbn [fst snd Geolocation.ledger Geolocation.logGoogleApiCall app].
      split; [split; [discriminate|intros (d & [=] & _)]|].
      split; [discriminate|].
      intros e [= <-]. exists error, [].
      eexists. now repeat split. }
  destruct (String.eqb_spec (Geolocation.status data) Status_OK) as [Es|Es].
  2:{ cbn [fst snd].
      split; [split; [intros _; exists data; split; [reflexivity|now left]
                     |reflexivity]|].
      split; discriminate. }
  destruct (Geolocation.results data) as [|result rest] eqn:Er.
  { cbn [fst snd].
    split; [split; [intros _; exists data; split; [reflexivity|now right]
                   |reflexivity]|].
    split; discriminate. }
  destruct (Geolocation.geometry result) as [[l|]|] eqn:Eg;
    cbn [fst snd Geolocation.ledger Geolocation.logGoogleApiCall app].
  - split.
    { split; [discriminate|].
      intros (d & [= <-] & [H|H]); [contradiction|congruence]. }
    split; [|discriminate].
    intros geo [= <-]. exists data, result, rest, l. now repeat split.
  - split.
    { split; [discriminate|].
      intros (d & [= <-] & [H|H]); [contradiction|congruence]. }
    split; [discriminate|].
    intros e [= <-]. eexists (Geolocation.type_error "lat"), [_], _.
    now repeat split.
  - split.
    { split; [discriminate|].
      intros (d & [= <-] & [H|H]); [contradiction|congruence]. }
    split; [discriminate|].
    intros e [= <-]. eexists (Geolocation.type_error "location"), [], _.
    now repeat split.
Qed.

Variables (latitude longitude : Q) (timestamp : Z).

Abbreviation zoned :=
  (Geolocation.getTimezone GOOGLE_MAPS_API_KEY Status_OK client_timezone
                           apiLog_create latitude longitude timestamp
                           userId).

(** [getTimezone] asks for the whole second that holds the timestamp,
    rounded down also for a date before 1970; it sends one request and
    writes exactly one ledger record, a success record exactly when the
    time zone is returned; it answers null exactly when the provider
    answers with a status other than OK, and throws exactly when the
    request itself fails. *)
Theorem timezone_lookup_logs_one_record (key : string) :
  the_client = Some key ->
  exists seconds record,
    (1000 * seconds <= timestamp < 1000 * seconds + 1000)%Z
    /\ Geolocation.requests (snd zoned)
       = [Geolocation.TimezoneRequest
            {| Geolocation.location := {| Geolocation.lat := latitude;
                                          Geolocation.lng := longitude |};
               Geolocation.timestamp := seconds;
               Geolocation.timezone_key := key |}]
    /\ Geolocation.ledger (snd zoned) = [record]
    /\ Geolocation.endpoint record = "timezone"
    /\ (Geolocation.isSuccess record = true <->
        exists info, fst zoned = Return (Some info))
    /\ (fst zoned = Return None <->
        exists data,
          client_timezone
            {| Geolocation.location := {| Geolocation.lat := latitude;
                                          Geolocation.lng := longitude |};
               Geolocation.timestamp := seconds;
               Geolocation.timezone_key := key |} = inl data
          /\ Geolocation.tz_status data <> Status_OK)
    /\ ((exists e, fst zoned = Throw e) <->
        exists error,
          client_timezone
            {| Geolocation.location := {| Geolocation.lat := latitude;
                                          Geolocation.lng := longitude |};
               Geolocation.timestamp := seconds;
               Geolocation.timezone_key := key |} = inr error).
Proof.
  intros Hk. unfold Geolocation.getTimezone. rewrite Hk. cbv zeta.
  exists (timestamp / 1000)%Z.
  assert (Hs : (1000 * (timestamp / 1000) <= timestamp
                < 1000 * (timestamp / 1000) + 1000)%Z).
  { pose proof (Z.div_mod timestamp 1000 ltac:(lia)).
    pose proof (Z.mod_pos_bound timestamp 1000 ltac:(lia)). lia. }
  destruct (client_timezone _) as [data|error] eqn:Ec.
  - destruct (String.eqb_spec (Geolocation.tz_status data) Status_OK)
      as [Es|Es];
      cbn [fst snd Geolocation.requests Geolocation.ledger
           Geolocation.logGoogleApiCall app];
      eexists; (split; [exact Hs|]); (split; [reflexivity|]);
      (split; [reflexivity|]); (split; [reflexivity|]);
      cbn [Geolocation.isSuccess].
    + split; [split; [intros _; eauto|reflexivity]|].
      split; [split; [discriminate|]|split; [intros [e [=]]|]].
      * intros (d & [= <-] & H). contradiction.
      * intros (err & [=]).
    + split; [split; [discriminate|intros [i [=]]]|].
      split; [split; [intros _; now exists data|reflexivity]|].
      split; [intros [e [=]]|intros (err & [=])].
  - cbn [fst snd Geolocation.requests Geolocation.ledger
         Geolocation.logGoogleApiCall app].
    eexists. split; [exact Hs|]. split; [reflexivity|].
    split; [reflexivity|]. split; [reflexivity|].
    cbn [Geolocation.isSuccess].
    split; [split; [discriminate|intros [i [=]]]|].
    split; [split; [discriminate|intros (d & [=] & _)]|].
    split; [intros _; now exists error|intros _; eauto].
Qed.

End GeolocationFacts.

Lemma geocoding_null_means_no_match_witness :
  fst (Geolocation.geocodeAddress (Some "key") "OK"
         (fun _ => inl Geolocation.no_results) (fun _ => true)
         "Atlantis" (Some 7%Z))
  = Return None.
Proof.
  apply (geocoding_null_means_no_match (Some "key") "OK"
           (fun _ => inl Geolocation.no_results) (fun _ => true)
           "Atlantis" (Some 7%Z) "key" eq_refl).
  exists Geolocation.no_results. split; [reflexivity|now right].
Defined.

Lemma timezone_lookup_logs_one_record_witness :
  exists seconds record,
    (1000 * seconds <= - (1) < 1000 * seconds + 1000)%Z
    /\ Geolocation.ledger
         (snd (Geolocation.getTimezone (Some "key") "OK"
                 (fun _ => inr {| Geolocation.message := "timeout";
                                  Geolocation.response_data := None |})
                 (fun _ => true) (407128 # 10000) (- (740060 # 10000))
                 (- (1)) (Some 7%Z)))
       = [record]
    /\ Geolocation.endpoint record = "timezone".
Proof.
  destruct (timezone_lookup_logs_one_record (Some "key") "OK"
              (fun _ => inr {| Geolocation.message := "timeout";
                               Geolocation.response_data := None |})
              (fun _ => true) (Some 7%Z) (407128 # 10000)
              (- (740060 # 10000)) (- (1)) "key" eq_refl)
    as (seconds & record & Hs & _ & Hl & He & _).
  exists seconds, record. now repeat split.
Defined.

(* ================================================================== *)
(** * Facts about the transit data of the monthly job *)
(* ================================================================== *)

Section MonthlyFacts.

Variables SE_SUN SE_MOON SE_MERCURY SE_VENUS SE_MARS SE_JUPITER SE_SATURN
          SE_URANUS SE_NEPTUNE SE_PLUTO SE_MEAN_NODE : Z.
Variable SEFLG_SPEED : Z.
Variable swe_utc_to_jd : UtcDate -> Z * Q.
Variable swe_calc_ut : Z -> Q -> Z -> Z -> CalcResult.

Abbreviation transit_loop' :=
  (MonthlyHoroscope.transit_loop swe_calc_ut).
Abbreviation planetIds' :=
  (MonthlyHoroscope.planetIds SE_SUN SE_MOON SE_MERCURY SE_VENUS SE_MARS
     SE_JUPITER SE_SATURN SE_URANUS SE_NEPTUNE SE_PLUTO SE_MEAN_NODE).

Lemma transit_loop_trace (jd : Q) (fl : Z) (ids : list Z) :
  forall planets st0,
    sid_mode (snd (transit_loop' jd fl ids planets st0)) = sid_mode st0
    /\ calls (snd (transit_loop' jd fl ids planets st0))
       = (calls st0 ++ map (fun id => Call_calc_ut jd id fl) ids)%list
    /\ (List.length (fst (transit_loop' jd fl ids planets st0))
        <= List.length planets + List.length ids)%nat.
Proof.
  induction ids as [|id ids IH]; intros planets st0.
  - cbn. rewrite app_nil_r. repeat split. lia.
  - cbn [MonthlyHoroscope.transit_loop].
    match goal with
    | |- context [transit_loop' jd fl ids ?ps ?s] =>
        destruct (IH ps s) as (A & B & C)
    end.
    split; [exact A|]. split.
    + rewrite B. cbn [called calls map]. now rewrite <- app_assoc.
    + eapply Nat.le_trans; [exact C|]. cbn [List.length].
      assert (H : forall (o : list (string * MonthlyHoroscope.TransitPosition))
                         k v,
                 (List.length (set_property o k v) <= S (List.length o))%nat).
      { induction o as [|[k' w] o IHo]; intros k v; cbn [set_property].
        - cbn. lia.
        - destruct (String.eqb k' k); cbn [List.length];
            [lia|specialize (IHo k v); lia]. }
      specialize (H planets (MonthlyHoroscope.planetName id)
                    {| MonthlyHoroscope.transit_longitude :=
                         xx0 (xx (swe_calc_ut (sid_mode st0) jd id fl));
                       MonthlyHoroscope.transit_speedLon :=
                         xx3 (xx (swe_calc_ut (sid_mode st0) jd id fl)) |}).
      lia.
Qed.

Variables (targetDate : MonthlyHoroscope.TargetDate) (st : Sweph).

Abbreviation transits :=
  (MonthlyHoroscope.getTransitDataForMonth
     SE_SUN SE_MOON SE_MERCURY SE_VENUS SE_MARS SE_JUPITER SE_SATURN
     SE_URANUS SE_NEPTUNE SE_PLUTO SE_MEAN_NODE SEFLG_SPEED swe_utc_to_jd
     swe_calc_ut targetDate st).

(** The transit data of the monthly job are computed in the tropical
    mode whatever mode an earlier call has left: the job sets the
    sidereal mode to 0 before its first position query, queries the
    eleven bodies with the speed flag alone, closes the ephemeris and
    leaves the mode at 0.  The data it returns are always serialised by
    the transit serialiser, without a throw and without the error
    element, as every planet has a longitude, provided the date text is
    not empty. *)
Theorem monthly_transits_are_tropical_and_serialised :
  truthy_string (MonthlyHoroscope.isoDate targetDate) = true ->
  sid_mode (snd transits) = 0%Z
  /\ (exists noon jd,
         calls (snd transits)
         = (calls st
              ++ [Call_utc_to_jd noon; Call_set_sid_mode 0]
              ++ map (fun id => Call_calc_ut jd id SEFLG_SPEED) planetIds'
              ++ [Call_close])%list)
  /\ (List.length (MonthlyHoroscope.transit_planets (fst transits)) <= 11)%nat
  /\ exists text,
      formatTransitDataAsXML
        (Some (MonthlyHoroscope.transit_for_xml (fst transits)))
      = Return text
      /\ starts_with ("<transit_details>" ++ nl) text.
Proof.
  intros Hd. unfold MonthlyHoroscope.getTransitDataForMonth. cbv zeta.
  match goal with
  | |- context [transit_loop' ?jd ?fl ?ids ?ps ?s] =>
      destruct (transit_loop_trace jd fl ids ps s) as (A & B & C);
      destruct (transit_loop' jd fl ids ps s) as [loaded st2]
  end.
  cbn [fst snd called swe_set_sid_mode sid_mode calls] in *.
  split; [exact A|]. split.
  { eexists. eexists. rewrite B. rewrite <- !app_assoc. reflexivity. }
  split; [exact C|].
  apply transit_returns_text. unfold transit_complete.
  cbn [MonthlyHoroscope.transit_for_xml AstroLogic.date
       AstroLogic.transit_planets MonthlyHoroscope.transit_date
       MonthlyHoroscope.transit_planets].
  rewrite Hd. cbn [andb].
  apply forallb_forall. intros e He. apply in_map_iff in He.
  now destruct He as (x & <- & _).
Qed.

End MonthlyFacts.

Lemma monthly_transits_are_tropical_and_serialised_witness :
  sid_mode (snd MonthlyHoroscope.example_transits) = 0%Z
  /\ exists text,
      formatTransitDataAsXML
        (Some (MonthlyHoroscope.transit_for_xml
                 (fst MonthlyHoroscope.example_transits)))
      = Return text
      /\ starts_with ("<transit_details>" ++ nl) text.
Proof.
  destruct (monthly_transits_are_tropical_and_serialised
              0 1 2 3 4 5 6 7 8 9 10 256
              (fun _ => (0%Z, 2460842))
              (fun _ _ id _ => example_position id)
              {| MonthlyHoroscope.utcFullYear := 2025;
                 MonthlyHoroscope.utcMonth := 5;
                 MonthlyHoroscope.utcDate := 15;
                 MonthlyHoroscope.isoDate := "2025-06-15" |}
              {| sid_mode := 1; calls := [] |} eq_refl)
    as (A & _ & _ & B).
  split; [exact A|exact B].
Defined.
